(* ===== verification/_CoqProject ===== *)
-Q . S2P
Prelude.v
GoString.v
GoFloat.v
GoStrconv.v
GoTime.v
GoRfc3339.v
GoJson.v
GoUrl.v
GoFlag.v
GoUrlParse.v
GoDecoder.v
GoEncoder.v
GoIndent.v
GoFmt.v
GoError.v
Config.v
Proc.v
Wait.v
Migrate.v
TestUtil.v
Domain.v
DomainJson.v
Db.v
Pg.v
Store.v
Idempotency.v
History.v
Wf.v
WfStore.v
StoreSpec.v
StoreSpec2.v
Snapshot.v
IdemSpec.v
Progress.v
Workflow.v
Service.v
HttpApi.v
Worker.v
HttpSpec.v
Bench.v
BenchSpec.v
BenchHttp.v
BenchCommands.v
BenchRun.v
BenchReport.v
BenchFlags.v
BenchMain.v
Handlers.v
WorkerSpec.v
Limits.v
Examples.v
HttpExamples.v
BenchExamples.v
Tokens.v
World.v
Queue.v
ConfigSpec.v
Programs.v
Publisher.v
Live.v
LiveWorker.v
LivePublisher.v
System.v
Recovery.v
Completion.v
TelemetrySetup.v
Telemetry.v
Erasure.v
TelemetrySpec.v
CountsSpec.v
DispatchSpec.v
HandlersSpec.v
Scenario.v
RecoveryExamples.v
CompletionExamples.v
TelemetryExamples.v
HandlersExamples.v
