(* ===== verification/Prelude.v ===== *)
(** * DurableFlow: a verification library

    DurableFlow is a workflow engine in Go.  A client creates workflow definitions
    and triggers executions through an HTTP API; the state of every execution, its
    tasks, their attempts and the events to be dispatched are rows of Postgres; a
    publisher moves the events of the outbox table into a Redis stream; workers
    read the stream as a consumer group, run the handler of the task, and record
    the outcome: the next task, a retry at a later time, or the dead-letter state.
    A benchmark program drives the API from outside.

    This library models that program from its sources (the paths below are those of
    the directory src) and proves what makes it correct.  This file is the
    prelude: results, 64-bit integers, sorting, and the tactics and hints that all
    files share.

    ** How the code is modelled

    - A Go function that returns [(T, error)] is a function into [error + T]; one
      that talks to a server is a process ([proc], Proc.v): a sequence of atomic
      calls, between which other processes may take steps, and at any of which it
      may stop for ever.  A call can be lost before or after it took effect.  Clock,
      generated identifiers, lost calls and foreign locks come from an [env].
    - The database is a record of finite maps (Db.v), a transaction a sequence of
      statements that takes effect as a whole when it commits.  The locks of SELECT
      ... FOR UPDATE and of UPDATE serialise the transactions on one task, so that
      nothing is modelled between the statements of one transaction.
    - Postgres and Redis are parameters: the classes [Postgres] and [Redis], and the
      laws the program relies on ([PostgresLaws], [RedisLaws]).  Pg.v and Scenario.v
      have instances that obey them, on which the examples are evaluated.
    - Goroutines and processes that run at the same time are steps of a machine in
      any order: Migrate.v, System.v, BenchRun.v, BenchMain.v.
    - int and int64 are integers with their wrap-around ([wrap64]); float64 is
      binary64 (GoFloat.v); strings and raw JSON are bytes.

    ** Files

    Go's standard library, as far as the program uses it:
    - GoString.v, GoFloat.v, GoStrconv.v, GoUrl.v, GoError.v: strings and UTF-8,
      float64, integers in text, query strings, error chains;
    - GoTime.v, GoRfc3339.v: durations, and times as RFC 3339 text and back;
    - GoJson.v, GoDecoder.v, GoEncoder.v, GoIndent.v: the grammar of encoding/json,
      decoding into structs, compaction of raw values, indentation;
    - GoFmt.v, GoFlag.v, GoUrlParse.v: printing of durations and floats, the reading
      of command lines, URLs.

    The program:
    - internal/domain: Domain.v (structs and states), DomainJson.v (their JSON);
    - migrations/*.sql and the SQL of internal/db: Db.v, with Pg.v for the server;
    - internal/db/store.go: Store.v, one definition for each method of [Store] and
      one for each of its statements; internal/db/idempotency.go: Idempotency.v;
      internal/db/migrate.go: Migrate.v; internal/db/postgres.go: Wait.v;
    - internal/orchestrator/service.go: Workflow.v (definitions: parsing, validation,
      lookups) and Service.v (the methods of [Service]);
      internal/orchestrator/worker.go: Worker.v, against the interface
      [workerStore]; internal/handlers: Worker.v (the registry) and Handlers.v (both
      handlers, against the interface [idempotencyStore]);
    - internal/queue/redis_streams.go: Queue.v, over the stream commands of World.v;
      its WaitForReady is in Wait.v; internal/outbox/publisher.go: Publisher.v;
    - internal/httpapi: HttpApi.v, from the bytes of a request to those of the
      response; internal/config/config.go: Config.v;
    - internal/telemetry/telemetry.go: TelemetrySetup.v (Setup) and Telemetry.v, with
      the metric calls of the other packages: a [counted_...] process is the one of
      the same name with the calls, whose list is beside the state;
    - apps/api/main.go and apps/worker/main.go: Programs.v for the life of the two
      processes, System.v for the agents they start, over one database and stream;
    - cmd/bench/main.go: Bench.v (scenarios, HTTP client, statistics), BenchRun.v
      (the goroutines of runBenchmark), BenchFlags.v (the flags), BenchReport.v (the
      report as JSON and as text) and BenchMain.v (main: checks, rounds, report,
      exits);
    - internal/testutil/integration.go: TestUtil.v.

    ** What is proved

    - The engine (System.v, over Tokens.v, Live.v, LiveWorker.v, LivePublisher.v): in
      every interleaving of requests, publishers and workers, with lost calls and
      crashes, each unfinished task still has a retry time, an event to be
      dispatched or a message to be acknowledged.  HandlersSpec.v instantiates it
      with the handlers of the worker program; Scenario.v runs it, and has the run in
      which a message reclaimed from a worker that is still alive loses a task.
      Recovery.v drives the publisher and the consumer from any state that was
      reached: the task can still be delivered, when Redis answers.  Completion.v lets
      the worker go on from there, attempt after attempt and task after task, until
      the execution has ended: the attempts that are left decrease.
    - The store: Wf.v and WfStore.v (an invariant that every method keeps), History.v
      (what is never undone), StoreSpec.v, StoreSpec2.v and Snapshot.v (what each
      method does, on all branches, as a relation of the databases before and after),
      Progress.v (each method succeeds when its rows are there): together total
      correctness.  IdemSpec.v: the idempotency records.
    - The worker and the handlers: WorkerSpec.v (a refinement of an abstract worker),
      HandlersSpec.v (what a run does to its record, and that replays return the same
      bytes), Limits.v (where error texts, retry times and cyclic definitions leave
      the range the rest expects).
    - Definitions: Workflow.v (validation accepts exactly the well-formed ones, whose
      lookups succeed and whose chains end or repeat).
    - The API: HttpSpec.v (a success is reported only after its effect; statuses).
    - The telemetry: Erasure.v and TelemetrySpec.v (processes with metric calls do what
      the ones without do), CountsSpec.v and DispatchSpec.v (requests, effects,
      outcomes and dispatched events are counted as they happened).
    - Start-up and shutdown: ConfigSpec.v (which environments load, and to what),
      Wait.v (waiting ends), Migrate.v (scripts run once and in order, with several
      instances), Programs.v (nothing serves before all of it succeeded; how the
      processes end).
    - The benchmark: BenchSpec.v (its definitions are accepted, its requests are read
      back, its percentiles are nearest ranks), BenchHttp.v (what the client decodes
      from the server's bytes is what the store read), BenchCommands.v (what it
      created, triggered or replayed is in the database), BenchRun.v (the result as a
      function of the executions), BenchFlags.v and BenchReport.v (flags are read back
      from arguments, the JSON report is read back as the suite, and a report of
      benchmarks/results is printed byte for byte), BenchMain.v (the command ends,
      within its bound of concurrency, its exit status tells whether anything failed,
      and its report carries its settings).
    - What Setup exports to (TelemetrySetup.v), and that the integration tests of a
      process share one run of the migrations (TestUtil.v).
    - Examples.v, HttpExamples.v, HandlersExamples.v, BenchExamples.v,
      RecoveryExamples.v, CompletionExamples.v, TelemetryExamples.v: the theorems at
      concrete states, reached by a history of store operations or by a schedule of Scenario.v.

    ** Bounds

    - The JSON parser carries fuel; [parse_total] shows that what [parse] gives it is
      enough for every text.  Go's nesting limit is [max_nesting]; a raw value inside
      a response may be nested [raw_depth] deep, ten levels less.
    - The loops of Consume and of the publisher are unbounded in the code; the model
      has one round of each, and System.v lets rounds start at any time.  The waiting
      loops of Wait.v get a number of rounds that [enough] shows to suffice.
    - ApplyMigrations takes at most five calls per file and six more; runBenchmark six
      steps per execution and one more, the bench command two more than that per round
      and three for its report: proved, not assumed.
    - [fresh_ids] asks only that the identifiers generated within one call are new.
    - [percentiles_nearest_rank] is for up to [max_samples] values: beyond it the
      float64 product of percentileIndex is not examined.

    ** Not modelled

    - Logs and traces: objects of libraries, without effect on the engine.  Setup of
      internal/telemetry is modelled up to the constructors of the tracing library,
      which are parameters.
    - The transport of HTTP (net/http): the multiplexer's redirects of paths that are
      not canonical, timeouts, headers of requests.  The client gets what the
      transport returns as a parameter, which BenchHttp.v instantiates by the server.
    - The general layouts of [time.Parse]: only RFC 3339 is written out; for texts
      that are not in it the interpreter of layouts is a parameter.
    - The file system and the standard output of cmd/bench: what they answer is part
      of an event, and the text they are given is in the model; usage messages of
      package flag are not.
    - The user, the fragment and the escaped path of a URL, which are checked and
      dropped; what internal/testutil gets from [db.Open] and from a whole run of
      ApplyMigrations is a parameter there.
    - Opening a pool of connections (a library call), and constructors that only copy
      their arguments (NewStore, NewService, NewRedisStreams).
    - The dashboard in apps/web is another program. *)

From stdpp Require Export base tactics option list sorting gmap strings numbers.
From Stdlib Require Export Lia Ascii.

#[export] Set Default Goal Selector "!".

Declare Scope go_scope.
Delimit Scope go_scope with go.
Open Scope go_scope.

(** * Results: a Go [(value, error)] pair as a sum

    A function that returns [(T, error)] returns [inl err] when the error is
    non-nil (the callers of this code base never read the value then) and
    [inr v] otherwise. *)

Definition rbind {E A B : Type} (c : E + A) (k : A → E + B) : E + B :=
  match c with inl e => inl e | inr a => k a end.

Notation "'let?' x := c 'in' k" := (rbind c (λ x, k))
  (at level 10, x pattern, c at level 100, k at level 200,
   format "'[v' 'let?'  x  :=  c  'in' '//' k ']'") : go_scope.

(** [guard_err b e] is [if b { return e }]. *)
Definition guard_err {E : Type} (b : bool) (e : E) : E + unit :=
  if b then inl e else inr tt.

Definition is_ok {E A : Type} (r : E + A) : bool :=
  match r with inl _ => false | inr _ => true end.

(** * Machine integers: Go's [int] and [int64] wrap around at 64 bits *)

Definition int64_min : Z := -9223372036854775808.
Definition int64_max : Z := 9223372036854775807.

Definition wrap64 (z : Z) : Z := ((z + 2 ^ 63) `mod` 2 ^ 64 - 2 ^ 63)%Z.

(** * ORDER BY: sorting by an integer key *)

Definition key_le {A : Type} (key : A → Z) (x y : A) : Prop := (key x ≤ key y)%Z.

#[export] Instance key_le_dec {A} (key : A → Z) x y : Decision (key_le key x y).
Proof. unfold key_le. apply _. Defined.

Definition sort_by {A : Type} (key : A → Z) (l : list A) : list A := merge_sort (key_le key) l.

(** * Lemmas *)

Create HintDb go discriminated.
Create Rewrite HintDb go_rw.

Lemma rbind_inr {E A B : Type} (c : E + A) (k : A → E + B) b :
  rbind c k = inr b ↔ ∃ a, c = inr a ∧ k a = inr b.
Proof. destruct c; split; [intros [=] | intros (? & [=] & _) | eauto | intros (? & [= <-] & ?); auto]. Qed.

Lemma rbind_inl {E A B : Type} (c : E + A) (k : A → E + B) e :
  rbind c k = inl e ↔ c = inl e ∨ ∃ a, c = inr a ∧ k a = inl e.
Proof.
  destruct c as [e' | a]; simpl; split.
  - intros [= ->]. by left.
  - by intros [[= ->] | (? & [=] & _)].
  - intros H. right. by exists a.
  - intros [[=] | (? & [= <-] & ?)]; done.
Qed.

Lemma guard_err_inr {E : Type} (b : bool) (e : E) u :
  guard_err b e = inr u ↔ b = false.
Proof. destruct b, u; naive_solver. Qed.

Lemma wrap64_id z : (int64_min ≤ z ≤ int64_max)%Z → wrap64 z = z.
Proof.
  unfold wrap64, int64_min, int64_max. intros H.
  rewrite Z.mod_small; lia.
Qed.

Lemma wrap64_range z : (int64_min ≤ wrap64 z ≤ int64_max)%Z.
Proof.
  unfold wrap64, int64_min, int64_max.
  pose proof (Z.mod_pos_bound (z + 2 ^ 63) (2 ^ 64) ltac:(lia)). lia.
Qed.

Lemma wrap64_congr z : ∃ k, wrap64 z = (z + k * 2 ^ 64)%Z.
Proof.
  exists (- ((z + 2 ^ 63) / 2 ^ 64))%Z. unfold wrap64.
  pose proof (Z.div_mod (z + 2 ^ 63) (2 ^ 64) ltac:(lia)). lia.
Qed.

#[export] Hint Resolve wrap64_id wrap64_range : go.

#[export] Instance key_le_total {A} (key : A → Z) : Total (key_le key).
Proof. intros x y. unfold key_le. lia. Qed.
#[export] Instance key_le_trans {A} (key : A → Z) : Transitive (key_le key).
Proof. intros x y z. unfold key_le. lia. Qed.

Lemma sort_by_perm {A} (key : A → Z) l : sort_by key l ≡ₚ l.
Proof. apply merge_sort_Permutation. Qed.

Lemma sort_by_sorted {A} (key : A → Z) l : StronglySorted (key_le key) (sort_by key l).
Proof. apply StronglySorted_merge_sort; apply _. Qed.

Lemma elem_of_sort_by {A} (key : A → Z) l x : x ∈ sort_by key l ↔ x ∈ l.
Proof. by rewrite sort_by_perm. Qed.

(** A list with a repeated element has it at two indices. *)
Lemma dup_indices {A} `{EqDecision A} (l : list A) :
  ¬ NoDup l → ∃ (i j : nat) x, (i < j)%nat ∧ l !! i = Some x ∧ l !! j = Some x.
Proof.
  induction l as [| y l IH]; intros Hd; [by destruct Hd; constructor |].
  destruct (decide (y ∈ l)) as [(j & Hj)%list_elem_of_lookup | Hy].
  - exists 0%nat, (S j), y. split_and!; [lia | done | done].
  - destruct IH as (i & j & x & ? & ? & ?).
    + intros Hl. apply Hd. by constructor.
    + exists (S i), (S j), x. split_and!; [lia | done | done].
Qed.

(** ** Filtering by a predicate that all, or none, of the elements meet *)

Lemma filter_all {A} (P : A → Prop) `{∀ x, Decision (P x)} (l : list A) : (∀ x, x ∈ l → P x) → filter P l = l.
Proof.
  induction l as [| x l IH]; [done |]. intros Hall. rewrite filter_cons_True by (apply Hall, list_elem_of_here).
  f_equal. apply IH. intros y Hy. by apply Hall, list_elem_of_further.
Qed.

Lemma filter_none {A} (P : A → Prop) `{∀ x, Decision (P x)} (l : list A) : (∀ x, x ∈ l → ¬ P x) → filter P l = [].
Proof.
  induction l as [| x l IH]; [done |]. intros Hall. rewrite filter_cons_False by (apply Hall, list_elem_of_here).
  apply IH. intros y Hy. by apply Hall, list_elem_of_further.
Qed.

(** ** Inversion of results

    [inv_res] splits every hypothesis of the form [rbind _ _ = inr _] (and the
    guards in it) into the facts its success stands for. *)

Ltac inv_res_step :=
  match goal with
  | H : rbind ?c _ = inr _ |- _ =>
      apply rbind_inr in H; destruct H as (? & ? & H)
  | H : guard_err _ _ = inr _ |- _ => apply guard_err_inr in H
  | H : inr _ = inr _ |- _ => injection H as H; try subst
  | H : inl _ = inl _ |- _ => injection H as H; try subst
  | H : inl _ = inr _ |- _ => discriminate H
  | H : inr _ = inl _ |- _ => discriminate H
  | H : (_, _) = (_, _) |- _ => injection H as H; try subst
  | x : unit |- _ => destruct x
  end.
Ltac inv_res := repeat inv_res_step.

(** Two results of the same call are the same. *)
Ltac same_res :=
  repeat match goal with
  | H1 : ?a = inr ?x, H2 : ?a = inr ?y |- _ => rewrite H1 in H2; injection H2 as H2; try subst
  end.

(** [case_res] splits on the first stuck [match] of the goal or a hypothesis. *)
Ltac case_res :=
  match goal with
  | |- context [match ?x with _ => _ end] => destruct x eqn:?
  | H : context [match ?x with _ => _ end] |- _ => destruct x eqn:?
  end.
