(* ===== verification/GoString.v ===== *)
(** Strings of Go: byte strings, UTF-8, and the functions of [strings] and
    [unicode/utf8] that the program calls. *)

From S2P Require Import Prelude.

Open Scope string_scope.

(** A Go string is a byte string: a Rocq [string] whose characters are its
    bytes.  [bytes] is the same data as a list. *)
Abbreviation bytes := (list ascii).

Definition to_bytes (s : string) : bytes := String.list_ascii_of_string s.
Definition of_bytes (b : bytes) : string := String.string_of_list_ascii b.

(** The value of a byte, 0 to 255. *)
Definition byte (c : ascii) : Z := Z.of_N (N_of_ascii c).
Definition chr (z : Z) : ascii := ascii_of_N (Z.to_N z).

Definition in_range (lo hi : Z) (c : ascii) : bool :=
  (Z.leb lo (byte c) && Z.leb (byte c) hi)%bool.

(** * UTF-8 ([unicode/utf8]) *)

(** A UTF-8 continuation byte. *)
Definition cont (c : ascii) : bool := in_range 128 191 c.

(** [second3 c0 c1]: may [c1] follow the lead byte [c0] of a sequence of three
    bytes (no overlong form, no surrogate); [second4] for four bytes. *)
Definition second3 (c0 c1 : ascii) : bool :=
  if Z.eqb (byte c0) 224 then in_range 160 191 c1
  else if Z.eqb (byte c0) 237 then in_range 128 159 c1
  else cont c1.
Definition second4 (c0 c1 : ascii) : bool :=
  if Z.eqb (byte c0) 240 then in_range 144 191 c1
  else if Z.eqb (byte c0) 244 then in_range 128 143 c1
  else cont c1.

Definition RuneError : Z := 65533.

(** The rune at the front of a non-empty byte string ([utf8.DecodeRune]): the
    rune, its width, and whether the encoding was valid; an invalid byte is
    [(RuneError, 1, false)]. *)
Definition decode_rune (b : bytes) : Z * nat * bool :=
  match b with
  | [] => (RuneError, 0, false)
  | c0 :: b1 =>
      if Z.ltb (byte c0) 128 then (byte c0, 1, true)
      else match b1 with
      | c1 :: b2 =>
          if (in_range 194 223 c0 && cont c1)%bool then
            ((Z.land (byte c0) 31 * 64 + Z.land (byte c1) 63)%Z, 2, true)
          else match b2 with
          | c2 :: b3 =>
              if (in_range 224 239 c0 && second3 c0 c1 && cont c2)%bool then
                ((Z.land (byte c0) 15 * 4096 + Z.land (byte c1) 63 * 64
                 + Z.land (byte c2) 63)%Z, 3, true)
              else match b3 with
              | c3 :: _ =>
                  if (in_range 240 244 c0 && second4 c0 c1 && cont c2 && cont c3)%bool then
                    ((Z.land (byte c0) 7 * 262144 + Z.land (byte c1) 63 * 4096
                     + Z.land (byte c2) 63 * 64 + Z.land (byte c3) 63)%Z, 4, true)
                  else (RuneError, 1, false)
              | [] => (RuneError, 1, false)
              end
          | [] => (RuneError, 1, false)
          end
      | [] => (RuneError, 1, false)
      end
  end.

(** [utf8.ValidString]. *)
Fixpoint utf8_valid (b : bytes) : bool :=
  match b with
  | [] => true
  | c0 :: b1 =>
      if Z.ltb (byte c0) 128 then utf8_valid b1
      else match b1 with
      | [] => false
      | c1 :: b2 =>
          if (in_range 194 223 c0 && cont c1)%bool then utf8_valid b2
          else match b2 with
          | [] => false
          | c2 :: b3 =>
              if (in_range 224 239 c0 && second3 c0 c1 && cont c2)%bool then utf8_valid b3
              else match b3 with
              | [] => false
              | c3 :: b4 =>
                  if (in_range 240 244 c0 && second4 c0 c1 && cont c2 && cont c3)%bool
                  then utf8_valid b4 else false
              end
          end
      end
  end.

(** [utf8.AppendRune]: the bytes of a rune; a surrogate or a value out of
    range is written as U+FFFD. *)
Definition encode_rune (r : Z) : bytes :=
  if (Z.ltb r 0 || Z.ltb 1114111 r || (Z.leb 55296 r && Z.leb r 57343))%bool then
    [chr 239; chr 191; chr 189]
  else if Z.ltb r 128 then [chr r]
  else if Z.ltb r 2048 then [chr (192 + r / 64); chr (128 + r mod 64)]
  else if Z.ltb r 65536 then
    [chr (224 + r / 4096); chr (128 + (r / 64) mod 64); chr (128 + r mod 64)]
  else
    [chr (240 + r / 262144); chr (128 + (r / 4096) mod 64);
     chr (128 + (r / 64) mod 64); chr (128 + r mod 64)].

(** * [strings.TrimSpace]

    White space is [unicode.IsSpace]; its runes take one byte (tab, line feed,
    vertical tab, form feed, carriage return, space), two bytes (U+0085,
    U+00A0) or three bytes (U+1680, U+2000 to U+200A, U+2028, U+2029, U+202F,
    U+205F, U+3000) of UTF-8. *)
Definition space1 (c : ascii) : bool := (in_range 9 13 c || Z.eqb (byte c) 32)%bool.
Definition space2 (c0 c1 : ascii) : bool :=
  (Z.eqb (byte c0) 194 && (Z.eqb (byte c1) 133 || Z.eqb (byte c1) 160))%bool.
Definition space3 (c0 c1 c2 : ascii) : bool :=
  match byte c0, byte c1, byte c2 with
  | 225, 154, 128 => true
  | 226, 128, x => ((Z.leb 128 x && Z.leb x 138) || Z.eqb x 168 || Z.eqb x 169 || Z.eqb x 175)%bool
  | 226, 129, 159 => true
  | 227, 128, 128 => true
  | _, _, _ => false
  end%Z.

(** Drops white-space runes from the front, given how to recognise one of two
    and one of three bytes. *)
Fixpoint drop_space (sp2 : ascii → ascii → bool) (sp3 : ascii → ascii → ascii → bool)
    (b : bytes) : bytes :=
  match b with
  | [] => []
  | c0 :: b1 =>
      if space1 c0 then drop_space sp2 sp3 b1
      else match b1 with
      | [] => b
      | c1 :: b2 =>
          if sp2 c0 c1 then drop_space sp2 sp3 b2
          else match b2 with
          | [] => b
          | c2 :: b3 => if sp3 c0 c1 c2 then drop_space sp2 sp3 b3 else b
          end
      end
  end.

Definition trim_left (b : bytes) : bytes := drop_space space2 space3 b.
Definition trim_right (b : bytes) : bytes :=
  reverse (drop_space (λ x y, space2 y x) (λ x y z, space3 z y x) (reverse b)).

Definition TrimSpace (s : string) : string := of_bytes (trim_right (trim_left (to_bytes s))).

(** [strings.TrimSpace(s) == ""] and [strings.TrimSpace(s) == strings.TrimSpace(t)]. *)
Definition blank (s : string) : bool := String.eqb (TrimSpace s) "".
Definition same_trimmed (s t : string) : bool := String.eqb (TrimSpace s) (TrimSpace t).

(** * Lemmas *)

Lemma of_to_bytes s : of_bytes (to_bytes s) = s.
Proof. apply String.string_of_list_ascii_of_string. Qed.

Lemma to_of_bytes b : to_bytes (of_bytes b) = b.
Proof. apply String.list_ascii_of_string_of_list_ascii. Qed.

Lemma to_bytes_inj s t : to_bytes s = to_bytes t → s = t.
Proof. intros H. by rewrite <-(of_to_bytes s), <-(of_to_bytes t), H. Qed.

Lemma byte_range c : (0 ≤ byte c < 256)%Z.
Proof.
  unfold byte. pose proof (N_ascii_bounded c). lia.
Qed.

Lemma chr_byte c : chr (byte c) = c.
Proof. unfold chr, byte. rewrite N2Z.id. apply ascii_N_embedding. Qed.

Lemma byte_chr z : (0 ≤ z < 256)%Z → byte (chr z) = z.
Proof. intros. unfold chr, byte. rewrite N_ascii_embedding; lia. Qed.

(** Induction over the runes of a valid UTF-8 string. *)
Lemma utf8_valid_ind (P : bytes → Prop) :
  P [] →
  (∀ c0 b, (byte c0 < 128)%Z → utf8_valid b = true → P b → P (c0 :: b)) →
  (∀ c0 c1 b, (128 ≤ byte c0)%Z → (in_range 194 223 c0 && cont c1)%bool = true →
     utf8_valid b = true → P b → P (c0 :: c1 :: b)) →
  (∀ c0 c1 c2 b, (128 ≤ byte c0)%Z → (in_range 194 223 c0 && cont c1)%bool = false →
     (in_range 224 239 c0 && second3 c0 c1 && cont c2)%bool = true →
     utf8_valid b = true → P b → P (c0 :: c1 :: c2 :: b)) →
  (∀ c0 c1 c2 c3 b, (128 ≤ byte c0)%Z → (in_range 194 223 c0 && cont c1)%bool = false →
     (in_range 224 239 c0 && second3 c0 c1 && cont c2)%bool = false →
     (in_range 240 244 c0 && second4 c0 c1 && cont c2 && cont c3)%bool = true →
     utf8_valid b = true → P b → P (c0 :: c1 :: c2 :: c3 :: b)) →
  ∀ b, utf8_valid b = true → P b.
Proof.
  intros H0 H1 H2 H3 H4.
  fix IH 1. intros [| c0 b1] Hb; [exact H0 | simpl in Hb].
  destruct (Z.ltb_spec (byte c0) 128); [by apply H1; auto |].
  destruct b1 as [| c1 b2]; [done |].
  destruct (in_range 194 223 c0 && cont c1)%bool eqn:E2; [by apply H2; auto |].
  destruct b2 as [| c2 b3]; [done |].
  destruct (in_range 224 239 c0 && second3 c0 c1 && cont c2)%bool eqn:E3; [by apply H3; auto |].
  destruct b3 as [| c3 b4]; [done |].
  destruct (in_range 240 244 c0 && second4 c0 c1 && cont c2 && cont c3)%bool eqn:E4; [| done].
  by apply H4; auto.
Qed.

Lemma to_bytes_app s t : to_bytes (s +:+ t) = (to_bytes s ++ to_bytes t)%list.
Proof. induction s as [| c s IH]; simpl; [done |]. by f_equal. Qed.

Lemma length_to_bytes s : length (to_bytes s) = String.length s.
Proof. induction s as [| c s IH]; simpl; auto. Qed.

Lemma same_trimmed_true s t : same_trimmed s t = true ↔ TrimSpace s = TrimSpace t.
Proof. apply String.eqb_eq. Qed.

Lemma blank_same s t : same_trimmed s t = true → blank s = blank t.
Proof. unfold blank. by intros ->%same_trimmed_true. Qed.

#[export] Hint Rewrite of_to_bytes to_of_bytes chr_byte : go_rw.

Example TrimSpace_ex : TrimSpace "  a b	 " = "a b" ∧ blank "   " = true.
Proof. vm_compute. auto. Qed.

Lemma append_nil s : s +:+ "" = s.
Proof. induction s as [| c s IH]; [done |]. change (String c (s +:+ "") = String c s). by rewrite IH. Qed.
