(* ===== verification/GoFloat.v ===== *)
(** float64 of Go, as binary64 over exact integers (SpecFloat): conversions,
    arithmetic, the reading of decimal literals ([strconv.ParseFloat]) and the
    shortest decimal that reads back ([encoding/json]'s printing of a float). *)

From Stdlib Require Import SpecFloat.
From S2P Require Import Prelude GoString.

Open Scope string_scope.
Open Scope Z_scope.

Abbreviation float64 := spec_float.

Definition f64_of_Z (z : Z) : float64 := binary_normalize 53 1024 z 0 false.
Definition f64_mul : float64 → float64 → float64 := SFmul 53 1024.
Definition f64_div : float64 → float64 → float64 := SFdiv 53 1024.
Definition f64_add : float64 → float64 → float64 := SFadd 53 1024.

(** The value of a finite float, as a numerator and a positive denominator. *)
Definition f64_ratio (x : float64) : option (Z * Z) :=
  match x with
  | S754_zero _ => Some (0, 1)
  | S754_finite s m e =>
      let n := if s then Zneg m else Zpos m in
      Some (if Z.leb 0 e then (n * 2 ^ e, 1) else (n, 2 ^ (- e)))
  | _ => None
  end.

(** [math.Ceil] and the truncating conversions of a finite float to an integer. *)
Definition f64_ceil (x : float64) : option Z :=
  match f64_ratio x with Some (n, d) => Some (- (- n / d)) | None => None end.
Definition f64_trunc (x : float64) : option Z :=
  match f64_ratio x with Some (n, d) => Some (Z.quot n d) | None => None end.

(** [d.Seconds()]: whole seconds and the rest apart. *)
Definition Seconds (d : Z) : float64 :=
  f64_add (f64_of_Z (Z.quot d 1000000000)) (f64_div (f64_of_Z (Z.rem d 1000000000)) (f64_of_Z 1000000000)).

(** * Decimal literals *)

Fixpoint dec_value (acc : Z) (b : bytes) : Z :=
  match b with [] => acc | c :: b' => dec_value (acc * 10 + (byte c - 48)) b' end.

Fixpoint take_digits (b : bytes) : bytes * bytes :=
  match b with
  | c :: b' => if in_range 48 57 c then let '(d, r) := take_digits b' in (c :: d, r) else ([], b)
  | [] => ([], [])
  end.

(** A JSON number literal: sign, significand and power of ten. *)
Definition split_number (lit : string) : bool * Z * Z :=
  let b := to_bytes lit in
  let '(neg, b) := match b with c :: b' => if Z.eqb (byte c) 45 then (true, b') else (false, b) | [] => (false, b) end in
  let '(int, b) := take_digits b in
  let '(frac, b) := match b with
                    | c :: b' => if Z.eqb (byte c) 46 then take_digits b' else ([], b)
                    | [] => ([], b) end in
  let exp := match b with
             | _ :: c :: b' =>
                 if Z.eqb (byte c) 45 then - dec_value 0 b'
                 else if Z.eqb (byte c) 43 then dec_value 0 b'
                 else dec_value 0 (c :: b')
             | _ => 0 end in
  (neg, dec_value 0 (int ++ frac)%list, exp - Z.of_nat (length frac)).

(** The number of decimal digits of a positive integer. *)
Fixpoint dec_digits (fuel : nat) (z : Z) : Z :=
  match fuel with O => 0 | S f => if Z.ltb z 10 then 1 else 1 + dec_digits f (z / 10) end.
Definition dec_length (z : Z) : Z := dec_digits (S (Z.to_nat (Z.log2 z))) z.

(** [m * 10^e], rounded to nearest even; far out of range it is zero or
    infinite without computing the power. *)
Definition f64_decimal (neg : bool) (m e : Z) : float64 :=
  let sign x := if neg then SFopp x else x in
  if Z.eqb m 0 then S754_zero neg
  else
    let size := dec_length m + e in
    if Z.gtb size 400 then S754_infinity neg
    else if Z.ltb size (-400) then S754_zero neg
    else
      match m with
      | Zpos p =>
          if Z.leb 0 e then sign (f64_of_Z (m * 10 ^ e))
          else match 10 ^ (- e) with
               | Zpos q => sign (f64_div (S754_finite false p 0) (S754_finite false q 0))
               | _ => S754_nan
               end
      | _ => S754_nan
      end.

(** A literal out of the range of float64 is an error. *)
Definition parse_f64 (lit : string) : option float64 :=
  let '(neg, m, e) := split_number lit in
  match f64_decimal neg m e with
  | S754_infinity _ | S754_nan => None
  | x => Some x
  end.

(** * Printing *)

Definition digit (z : Z) : ascii := chr (48 + z).

(** The decimal digits of a non-negative integer. *)
Fixpoint dec_bytes (fuel : nat) (z : Z) (acc : bytes) : bytes :=
  match fuel with
  | O => acc
  | S f => let acc := digit (z mod 10) :: acc in if Z.ltb z 10 then acc else dec_bytes f (z / 10) acc
  end.
Definition Z_bytes (z : Z) : bytes := dec_bytes (S (Z.to_nat (Z.log2 z))) z [].

(** [strconv.Itoa] and [fmt.Sprintf] with %d. *)
Definition Itoa (z : Z) : string :=
  of_bytes (if Z.ltb z 0 then chr 45 :: Z_bytes (- z) else Z_bytes z).

(** The decimal exponent [k] of a positive ratio: 10^(k-1) <= n/d < 10^k. *)
Definition dec_exponent (n d : Z) : Z :=
  let k := dec_length n - dec_length d in
  if Z.leb 0 k then (if Z.leb (d * 10 ^ k) n then k + 1 else k)
  else (if Z.leb d (n * 10 ^ (- k)) then k + 1 else k).

(** The floor of [n/d * 10^(p - k)]. *)
Definition scaled (n d p k : Z) : Z :=
  if Z.leb k p then n * 10 ^ (p - k) / d else n / (d * 10 ^ (k - p)).

(** Twice the distance of [c * 10^(k-p)] from [n/d], times a common factor. *)
Definition distance (n d p k c : Z) : Z :=
  if Z.leb k p then Z.abs (n * 10 ^ (p - k) - c * d) else Z.abs (n - c * 10 ^ (k - p) * d).

(** The shortest digits that read back as [x] = n/d, the closest to [x] of
    that length: the digits as an integer, and their number. *)
Fixpoint shortest (fuel : nat) (x : float64) (n d k p : Z) : Z * Z :=
  match fuel with
  | O => (scaled n d p k, p)
  | S f =>
      let lo := scaled n d p k in
      let ok c := SFeqb (f64_decimal false c (k - p)) x in
      match ok lo, ok (lo + 1) with
      | true, true => (if Z.leb (distance n d p k lo) (distance n d p k (lo + 1)) then lo else lo + 1, p)
      | true, false => (lo, p)
      | false, true => (lo + 1, p)
      | false, false => shortest f x n d k (p + 1)
      end
  end.

(** Digits without trailing zeros. *)
Fixpoint strip_zeros (fuel : nat) (c : Z) : Z :=
  match fuel with O => c | S f => if (negb (Z.eqb c 0) && Z.eqb (c mod 10) 0)%bool then strip_zeros f (c / 10) else c end.

Definition zeros (n : Z) : bytes := replicate (Z.to_nat n) (chr 48).

(** %f with the digits [ds] and decimal point position [k]. *)
Definition plain (ds : bytes) (k : Z) : bytes :=
  let nd := Z.of_nat (length ds) in
  if Z.leb k 0 then (chr 48 :: chr 46 :: zeros (- k) ++ ds)%list
  else if Z.leb nd k then (ds ++ zeros (k - nd))%list
  else (take (Z.to_nat k) ds ++ chr 46 :: drop (Z.to_nat k) ds)%list.

(** %e, with the exponent as encoding/json cleans it up: a negative one loses
    its leading zero, and a positive one has two digits at least. *)
Definition scientific (ds : bytes) (k : Z) : bytes :=
  let e := k - 1 in
  let mant := match ds with c :: ((_ :: _) as r) => c :: chr 46 :: r | _ => ds end in
  let ebytes := Z_bytes (Z.abs e) in
  (mant ++ chr 101 :: (if Z.ltb e 0 then chr 45 :: ebytes
                       else chr 43 :: (if Z.ltb e 10 then chr 48 :: ebytes else ebytes)))%list.

Definition json_float (x : float64) : string :=
  match x with
  | S754_zero s => if s then "-0" else "0"
  | S754_finite s m e =>
      match f64_ratio (S754_finite false m e) with
      | Some (n, d) =>
          let k := dec_exponent n d in
          let '(c, p) := shortest 17 (S754_finite false m e) n d k 1 in
          (* a carry to the next power of ten *)
          let k := if Z.leb (10 ^ p) c then k + 1 else k in
          let ds := Z_bytes (strip_zeros 20 c) in
          (* [abs < 1e-6 || abs >= 1e21] *)
          let body := if (SFltb (S754_finite false m e) (f64_decimal false 1 (-6)) || Z.leb (d * 10 ^ 21) n)%bool
                      then scientific ds k else plain ds k in
          of_bytes (if s then chr 45 :: body else body)
      | None => ""
      end
  | _ => ""
  end.

Example json_float_ex :
  omap (λ s, json_float <$> parse_f64 s)
    ["123"; "1.50"; "0.1"; "1e3"; "-2.5e-7"; "1e21"; "0.000001"; "12345678901234567890"; "5e-324";
     "1.7976931348623157e308"; "9007199254740993"; "-0"; "100"; "1e-10"; "0.3"; "9.5e22"] =
    ["123"; "1.5"; "0.1"; "1000"; "-2.5e-7"; "1e+21"; "0.000001"; "12345678901234567000"; "5e-324";
     "1.7976931348623157e+308"; "9007199254740992"; "-0"; "100"; "1e-10"; "0.3"; "9.5e+22"].
Proof. vm_compute. reflexivity. Qed.

Example parse_f64_range : parse_f64 "1e309" = None ∧ parse_f64 "1e999999999" = None ∧
  parse_f64 "1e-999999999" = Some (S754_zero false).
Proof. vm_compute. auto. Qed.

(** ** Decimal digits of an integer *)

Definition all_digits (b : bytes) : Prop := Forall (λ c, in_range 48 57 c = true) b.

Lemma digit_range z : 0 ≤ z < 10 → in_range 48 57 (digit z) = true ∧ byte (digit z) = 48 + z.
Proof. intros Hz. unfold digit, in_range. rewrite byte_chr by lia. lia. Qed.

Lemma dec_bytes_digits f z acc : 0 ≤ z → all_digits acc → all_digits (dec_bytes f z acc).
Proof.
  revert z acc. induction f as [| f IH]; intros z acc Hz Ha; cbn [dec_bytes]; [done |]. cbv zeta.
  assert (Ha' : all_digits (digit (z mod 10) :: acc)).
  { apply Forall_cons_2; [| done]. apply digit_range, Z.mod_pos_bound. lia. }
  case_match; [done |]. apply IH; [| done]. apply Z.div_pos; lia.
Qed.

Lemma dec_bytes_value f z acc : 0 ≤ z < 10 ^ Z.of_nat f → dec_value 0 (dec_bytes f z acc) = dec_value z acc.
Proof.
  revert z acc. induction f as [| f IH]; intros z acc Hz; cbn [dec_bytes].
  { change (10 ^ Z.of_nat 0) with 1 in Hz. by replace z with 0 by lia. }
  cbv zeta. pose proof (Z.mod_pos_bound z 10 ltac:(lia)) as Hm. destruct (digit_range _ Hm) as [_ Hd].
  destruct (Z.ltb_spec z 10).
  - cbn [dec_value]. rewrite Hd, Z.mod_small by lia. f_equal. lia.
  - rewrite IH.
    + cbn [dec_value]. rewrite Hd. f_equal. pose proof (Z.div_mod z 10). lia.
    + rewrite Nat2Z.inj_succ, Z.pow_succ_r in Hz by lia. split; [apply Z.div_pos; lia |].
      apply Z.div_lt_upper_bound; lia.
Qed.

Lemma Z_bytes_digits z : 0 ≤ z → all_digits (Z_bytes z).
Proof. intros. apply dec_bytes_digits; [done |]. by apply Forall_nil_2. Qed.

Lemma Z_bytes_value z : 0 ≤ z → dec_value 0 (Z_bytes z) = z.
Proof.
  intros Hz. unfold Z_bytes. rewrite dec_bytes_value; [done |]. split; [done |].
  destruct (decide (z = 0)) as [-> | Hne]; [done |]. pose proof (Z.log2_spec z ltac:(lia)) as [_ Hlt].
  eapply Z.lt_le_trans; [exact Hlt |]. rewrite Nat2Z.inj_succ, Z2Nat.id by apply Z.log2_nonneg.
  apply Z.pow_le_mono_l. lia.
Qed.

Lemma Z_bytes_ne z : Z_bytes z ≠ [].
Proof.
  unfold Z_bytes. cbn [dec_bytes]. cbv zeta. case_match; [done |].
  enough (∀ f y acc, acc ≠ [] → dec_bytes f y acc ≠ []) as Hn by by apply Hn.
  intros f. induction f as [| f IH]; intros y acc Ha; cbn [dec_bytes]; [done |]. cbv zeta. case_match; [done | by apply IH].
Qed.
