(* ===== verification/GoStrconv.v ===== *)
(** Integers in text: [strconv.Atoi], [strconv.ParseInt] with base 0, and
    [fmt.Sscan] into an [int64]. *)

From S2P Require Import Prelude GoString GoFloat.

Open Scope string_scope.
Open Scope Z_scope.

(** * ParseInt *)

Definition lower (c : ascii) : Z := Z.lor (byte c) 32.

Definition digit_value (c : ascii) : option Z :=
  if in_range 48 57 c then Some (byte c - 48)
  else if (Z.leb 97 (lower c) && Z.leb (lower c) 122)%bool then Some (lower c - 97 + 10)
  else None.

(** The digits of a number in [base]; underscores are skipped where they are
    [allowed]. *)
Fixpoint base_value (allowed : bool) (base acc : Z) (b : bytes) : option Z :=
  match b with
  | [] => Some acc
  | c :: b' =>
      if (allowed && Z.eqb (byte c) 95)%bool then base_value allowed base acc b'
      else match digit_value c with
           | Some d => if Z.ltb d base then base_value allowed base (acc * base + d) b' else None
           | None => None
           end
  end.

(** What [underscoreOK] saw last. *)
Inductive saw : Type := SawNothing | SawDigit | SawUnderscore | SawOther.

Fixpoint underscores_separate (hex : bool) (s : saw) (b : bytes) : bool :=
  match b with
  | [] => match s with SawUnderscore => false | _ => true end
  | c :: b' =>
      if (in_range 48 57 c || (hex && Z.leb 97 (lower c) && Z.leb (lower c) 102))%bool
      then underscores_separate hex SawDigit b'
      else if Z.eqb (byte c) 95 then
        match s with SawDigit => underscores_separate hex SawUnderscore b' | _ => false end
      else match s with SawUnderscore => false | _ => underscores_separate hex SawOther b' end
  end.

Definition base_letter (c : ascii) : option Z :=
  if Z.eqb (lower c) 98 then Some 2 else if Z.eqb (lower c) 111 then Some 8
  else if Z.eqb (lower c) 120 then Some 16 else None.

Definition underscoreOK (b : bytes) : bool :=
  match b with
  | z :: l :: b' =>
      match (if Z.eqb (byte z) 48 then base_letter l else None) with
      | Some base => underscores_separate (Z.eqb base 16) SawDigit b'
      | None => underscores_separate false SawNothing b
      end
  | _ => underscores_separate false SawNothing b
  end.

(** The base a literal names, and its digits. *)
Definition split_base (b : bytes) : Z * bytes :=
  match b with
  | z :: b' =>
      if Z.eqb (byte z) 48 then
        match b' with
        | l :: (_ :: _) as r => match base_letter l with Some base => (base, r) | None => (8, b') end
        | _ => (8, b')
        end
      else (10, b)
  | [] => (10, b)
  end.

Definition split_sign (b : bytes) : bool * bytes :=
  match b with
  | c :: b' => if Z.eqb (byte c) 45 then (true, b') else if Z.eqb (byte c) 43 then (false, b') else (false, b)
  | [] => (false, b)
  end.

(** An unsigned value with its sign, as an int64. *)
Definition signed64 (neg : bool) (u : Z) : option Z :=
  let z := if neg then - u else u in
  if (Z.leb int64_min z && Z.leb z int64_max)%bool then Some z else None.

(** [strconv.ParseInt(s, 0, 64)]. *)
Definition ParseInt0 (b : bytes) : option Z :=
  let '(neg, u) := split_sign b in
  match u with
  | [] => None
  | _ =>
      let '(base, ds) := split_base u in
      v ← base_value true base 0 ds;
      if (existsb (λ c, Z.eqb (byte c) 95) ds && negb (underscoreOK u))%bool then None
      else signed64 neg v
  end.

(** [strconv.Atoi]. *)
Definition Atoi (s : string) : option Z :=
  let '(neg, u) := split_sign (to_bytes s) in
  match u with
  | [] => None
  | _ => v ← base_value false 10 0 u; signed64 neg v
  end.

(** * Sscan *)

Fixpoint span (p : ascii → bool) (b : bytes) : bytes * bytes :=
  match b with
  | c :: b' => if p c then let '(l, r) := span p b' in (c :: l, r) else ([], b)
  | [] => ([], [])
  end.

Definition digit_or_underscore (base : Z) (c : ascii) : bool :=
  (Z.eqb (byte c) 95 || match digit_value c with Some d => Z.ltb d base | None => false end)%bool.

(** [scanBasePrefix]: the accepted bytes, the base of the digits that may
    follow, and whether a digit has been seen. *)
Definition scanBasePrefix (b : bytes) : bytes * Z * bool * bytes :=
  match b with
  | z :: b' =>
      if Z.eqb (byte z) 48 then
        match b' with
        | l :: r => match base_letter l with
                    | Some base => ([z; l], base, true, r)
                    | None => ([z], 8, true, b')
                    end
        | [] => ([z], 8, true, [])
        end
      else ([], 10, false, b)
  | [] => ([], 10, false, [])
  end.

(** [fmt.Sscan(s, &v)] with an [int64]: white space is skipped, the longest
    literal is read and parsed; the rest of the text is not looked at. *)
Definition Sscan_int64 (s : string) : option Z :=
  let b := trim_left (to_bytes s) in
  let '(sign, b) := match b with
                    | c :: b' => if (Z.eqb (byte c) 45 || Z.eqb (byte c) 43)%bool then ([c], b') else ([], b)
                    | [] => ([], b) end in
  let '(prefix, base, found, b) := scanBasePrefix b in
  let '(ds, _) := span (digit_or_underscore base) b in
  match found, ds with
  | false, [] => None
  | _, _ => ParseInt0 (sign ++ prefix ++ ds)%list
  end.

Example Sscan_int64_ex :
  Sscan_int64 <$> ["10"; "  42"; "10abc"; "010"; "0x1F"; "1_000"; "08"; "-5"; "+7"; "abc"; ""; "9223372036854775807";
                   "9223372036854775808"; "1__0"; "0b"; "0b101 x"; "10.5"; "_1"] =
  [Some 10; Some 42; Some 10; Some 8; Some 31; Some 1000; Some 0; Some (-5); Some 7; None; None;
   Some 9223372036854775807; None; None; None; Some 5; Some 10; None].
Proof. vm_compute. reflexivity. Qed.

Example Atoi_ex :
  Atoi <$> ["10"; "-3"; "+4"; ""; "1_0"; "0x10"; "010"; " 1"; "9223372036854775808"; "-9223372036854775808"] =
  [Some 10; Some (-3); Some 4; None; None; None; Some 10; None; None; Some (-9223372036854775808)].
Proof. vm_compute. reflexivity. Qed.

(** * Lemmas *)

Lemma signed64_range neg u z : signed64 neg u = Some z → int64_min ≤ z ≤ int64_max.
Proof. unfold signed64. cbv zeta. intros H. case_match eqn:E; [| done]. destruct neg; simplify_eq; lia. Qed.

Lemma ParseInt0_range b z : ParseInt0 b = Some z → int64_min ≤ z ≤ int64_max.
Proof.
  unfold ParseInt0. destruct (split_sign b) as [neg [| c u]]; [done |]. destruct (split_base (c :: u)) as [base ds].
  destruct (base_value true base 0 ds); [| done]. cbn. case_match; [done | apply signed64_range].
Qed.

Lemma Sscan_int64_range s z : Sscan_int64 s = Some z → int64_min ≤ z ≤ int64_max.
Proof.
  unfold Sscan_int64. destruct (match trim_left _ with [] => _ | _ => _ end) as [sign b].
  destruct (scanBasePrefix b) as [[[prefix base] found] b1]. destruct (span _ b1) as [ds r].
  destruct found, ds; try done; apply ParseInt0_range.
Qed.

Lemma Atoi_range s z : Atoi s = Some z → int64_min ≤ z ≤ int64_max.
Proof.
  unfold Atoi. destruct (split_sign _) as [neg [| c u]]; [done |].
  destruct (base_value false 10 0 (c :: u)); [| done]. apply signed64_range.
Qed.

(** ** Decimal numbers *)

Lemma digit_value_dec c : in_range 48 57 c = true → digit_value c = Some (byte c - 48).
Proof. unfold digit_value. by intros ->. Qed.

Lemma base_value_digits allowed acc ds : all_digits ds → base_value allowed 10 acc ds = Some (dec_value acc ds).
Proof.
  intros Hds. revert acc. induction Hds as [| c ds Hc _ IH]; intros acc; cbn [base_value dec_value]; [done |].
  rewrite digit_value_dec by done. unfold in_range in Hc.
  rewrite (proj2 (Z.eqb_neq _ _)), andb_false_r, (proj2 (Z.ltb_lt _ _)) by lia. apply IH.
Qed.

Lemma no_underscores ds : all_digits ds → existsb (λ c, Z.eqb (byte c) 95) ds = false.
Proof.
  induction 1 as [| c ds Hc _ IH]; cbn [existsb]; [done |]. unfold in_range in Hc.
  by rewrite IH, (proj2 (Z.eqb_neq _ _)) by lia.
Qed.

Lemma span_digits_stop ds rest :
  all_digits ds → match rest with [] => True | c :: _ => digit_or_underscore 10 c = false end →
  span (digit_or_underscore 10) (ds ++ rest)%list = (ds, rest).
Proof.
  intros Hds Hrest. induction Hds as [| c ds Hc _ IH]; cbn [app span].
  { destruct rest as [| c rest]; cbn [span]; [done |]. by rewrite Hrest. }
  unfold digit_or_underscore at 1. rewrite digit_value_dec by done. unfold in_range in Hc.
  rewrite (proj2 (Z.ltb_lt _ _)), orb_true_r by lia. by rewrite IH.
Qed.

(** The first digit of a positive number is not zero. *)
Lemma dec_bytes_head f z acc : 0 < z < 10 ^ Z.of_nat f → ∃ c ds, dec_bytes f z acc = c :: ds ∧ in_range 49 57 c = true.
Proof.
  revert z acc. induction f as [| f IH]; intros z acc Hz; cbn [dec_bytes].
  { change (10 ^ Z.of_nat 0) with 1 in Hz. lia. }
  cbv zeta. destruct (Z.ltb_spec z 10).
  - do 2 eexists. split; [done |]. rewrite Z.mod_small by lia. unfold digit, in_range. rewrite byte_chr by lia. lia.
  - apply IH. rewrite Nat2Z.inj_succ, Z.pow_succ_r in Hz by lia. pose proof (Z.div_mod z 10 ltac:(lia)).
    pose proof (Z.mod_pos_bound z 10 ltac:(lia)). split; [lia |]. apply Z.div_lt_upper_bound; lia.
Qed.

Lemma Z_bytes_head z : 0 < z → ∃ c ds, Z_bytes z = c :: ds ∧ in_range 49 57 c = true.
Proof.
  intros Hz. apply dec_bytes_head. split; [done |]. pose proof (Z.log2_spec z Hz) as [_ Hlt].
  eapply Z.lt_le_trans; [exact Hlt |]. rewrite Nat2Z.inj_succ, Z2Nat.id by apply Z.log2_nonneg.
  apply Z.pow_le_mono_l. lia.
Qed.

(** Reading back a decimal number, whatever follows it. *)
Lemma Sscan_decimal n rest :
  1 ≤ n ≤ int64_max → match rest with [] => True | c :: _ => digit_or_underscore 10 c = false end →
  Sscan_int64 (Itoa n +:+ of_bytes rest) = Some n.
Proof.
  intros Hn Hrest. unfold Itoa. rewrite (proj2 (Z.ltb_ge _ _)) by lia. unfold Sscan_int64.
  rewrite to_bytes_app, !to_of_bytes.
  pose proof (Z_bytes_digits n ltac:(lia)) as Hd. pose proof (Z_bytes_value n ltac:(lia)) as Hv.
  destruct (Z_bytes_head n ltac:(lia)) as (c & ds & Ez & Hc). rewrite Ez in *. unfold in_range in Hc.
  assert (Htrim : trim_left ((c :: ds) ++ rest)%list = ((c :: ds) ++ rest)%list).
  { unfold trim_left. cbn [app drop_space]. unfold space1, in_range.
    rewrite (proj2 (Z.leb_gt (byte c) 13)), (proj2 (Z.eqb_neq (byte c) 32)), andb_false_r by lia. cbn [orb].
    destruct (ds ++ rest)%list as [| c1 b2]; [done |]. unfold space2 at 1.
    rewrite (proj2 (Z.eqb_neq (byte c) 194)) by lia. cbn [andb]. destruct b2 as [| c2 b3]; [done |].
    enough (space3 c c1 c2 = false) as -> by done. unfold space3.
    destruct (byte c) as [| p | p]; try done. repeat (destruct p as [p | p |]; try done; try lia). }
  rewrite Htrim. cbn [app]. rewrite (proj2 (Z.eqb_neq (byte c) 45)), (proj2 (Z.eqb_neq (byte c) 43)) by lia.
  cbn [orb]. cbv iota. unfold scanBasePrefix. rewrite (proj2 (Z.eqb_neq (byte c) 48)) by lia. cbv iota.
  change (c :: ds ++ rest)%list with ((c :: ds) ++ rest)%list. rewrite (span_digits_stop _ _ Hd Hrest). cbn [app].
  unfold ParseInt0, split_sign. rewrite (proj2 (Z.eqb_neq (byte c) 45)), (proj2 (Z.eqb_neq (byte c) 43)) by lia.
  unfold split_base. rewrite (proj2 (Z.eqb_neq (byte c) 48)) by lia.
  rewrite (base_value_digits _ _ _ Hd). cbn [mbind option_bind].
  rewrite (no_underscores _ Hd), Hv. cbn [andb]. unfold signed64. unfold int64_min, int64_max in *.
  by rewrite !(proj2 (Z.leb_le _ _)) by lia.
Qed.
