(* ===== verification/GoTime.v ===== *)
(** Package [time] as the program uses it: [time.ParseDuration] (with its
    64-bit and float64 arithmetic) and the RFC 3339 text of a UTC time. *)

From S2P Require Import Prelude GoString GoFloat.

Open Scope string_scope.
Open Scope Z_scope.

(** * Durations, in nanoseconds *)

Definition Second : Z := 1000000000.

(** A run of digits as an unsigned number, at most 2^63. *)
Fixpoint leadingInt (x : Z) (b : bytes) : option (Z * bytes) :=
  match b with
  | [] => Some (x, [])
  | c :: b' =>
      if in_range 48 57 c then
        if Z.gtb x (2 ^ 63 / 10) then None
        else let x' := x * 10 + (byte c - 48) in
             if Z.gtb x' (2 ^ 63) then None else leadingInt x' b'
      else Some (x, b)
  end.

(** The digits after the point: further digits are skipped once the number
    would overflow. *)
Fixpoint leadingFraction (x : Z) (scale : float64) (overflow : bool) (b : bytes) : Z * float64 * bytes :=
  match b with
  | [] => (x, scale, [])
  | c :: b' =>
      if in_range 48 57 c then
        if overflow then leadingFraction x scale true b'
        else if Z.gtb x ((2 ^ 63 - 1) / 10) then leadingFraction x scale true b'
        else let y := x * 10 + (byte c - 48) in
             if Z.gtb y (2 ^ 63) then leadingFraction x scale true b'
             else leadingFraction y (f64_mul scale (f64_of_Z 10)) false b'
      else (x, scale, b)
  end.

(** [unitMap]; the two spellings of micro are U+00B5 and U+03BC. *)
Definition unit_value (u : bytes) : option Z :=
  let same s := bool_decide (u = to_bytes s) in
  if same "ns" then Some 1
  else if (same "us" || bool_decide (u = [chr 194; chr 181; chr 115]) || bool_decide (u = [chr 206; chr 188; chr 115]))%bool
  then Some 1000
  else if same "ms" then Some 1000000
  else if same "s" then Some Second
  else if same "m" then Some (60 * Second)
  else if same "h" then Some (3600 * Second)
  else None.

Fixpoint span_unit (b : bytes) : bytes * bytes :=
  match b with
  | [] => ([], [])
  | c :: b' => if (Z.eqb (byte c) 46 || in_range 48 57 c)%bool then ([], b)
               else let '(u, r) := span_unit b' in (c :: u, r)
  end.

(** The contribution of the fraction [f] / [scale], as a uint64. *)
Definition fraction_value (f : Z) (scale : float64) (unit : Z) : Z :=
  default 0 (f64_trunc (f64_mul (f64_of_Z f) (f64_div (f64_of_Z unit) scale))) `mod` 2 ^ 64.

(** One number with its unit: its value, and the rest. *)
Definition duration_term (b : bytes) : option (Z * bytes) :=
  match b with
  | c :: _ =>
      if (Z.eqb (byte c) 46 || in_range 48 57 c)%bool then
        '(v, b1) ← leadingInt 0 b;
        let pre := negb (Nat.eqb (length b) (length b1)) in
        let '(f, scale, b2, post) :=
          match b1 with
          | p :: r => if Z.eqb (byte p) 46 then
                        let '(f, scale, r') := leadingFraction 0 (f64_of_Z 1) false r in
                        (f, scale, r', negb (Nat.eqb (length r) (length r')))
                      else (0, f64_of_Z 1, b1, false)
          | [] => (0, f64_of_Z 1, b1, false)
          end in
        if (negb pre && negb post)%bool then None
        else
          let '(u, b3) := span_unit b2 in
          match u with
          | [] => None
          | _ =>
              unit ← unit_value u;
              if Z.gtb v (2 ^ 63 / unit) then None
              else
                let v := v * unit in
                if Z.gtb f 0 then
                  let v := v + fraction_value f scale unit in
                  if Z.gtb v (2 ^ 63) then None else Some (v, b3)
                else Some (v, b3)
          end
      else None
  | [] => None
  end.

(** The loop; each term consumes at least one byte. *)
Fixpoint duration_terms (fuel : nat) (d : Z) (b : bytes) : option Z :=
  match b with
  | [] => Some d
  | _ =>
      match fuel with
      | O => None
      | S fuel' =>
          '(v, b') ← duration_term b;
          if Z.gtb (d + v) (2 ^ 63) then None else duration_terms fuel' (d + v) b'
      end
  end.

Definition ParseDuration (s : string) : option Z :=
  let b := to_bytes s in
  let '(neg, b) := match b with
                   | c :: b' => if Z.eqb (byte c) 45 then (true, b')
                                else if Z.eqb (byte c) 43 then (false, b') else (false, b)
                   | [] => (false, b) end in
  if bool_decide (b = to_bytes "0") then Some 0
  else match b with
  | [] => None
  | _ =>
      d ← duration_terms (length b) 0 b;
      if neg then Some (wrap64 (- d))
      else if Z.gtb d (2 ^ 63 - 1) then None else Some d
  end.

Example ParseDuration_ex :
  ParseDuration <$> ["30s"; "1.5h"; "1h2m3.5s"; "100ms"; "0"; "-2s"; "5"; "s"; ".s"; "9223372036854775807ns";
                     "9223372036854775808ns"; "-9223372036854775808ns"; "1m30"; ".5m"; "+1us"; ""] =
  [Some (30 * Second); Some (5400 * Second); Some 3723500000000; Some 100000000; Some 0; Some (-2 * Second);
   None; None; None; Some 9223372036854775807; None; Some (-9223372036854775808); None; Some (30 * Second);
   Some 1000; None].
Proof. vm_compute. reflexivity. Qed.

(** ** Bounds *)

Lemma leadingInt_bounds x b v r : 0 ≤ x ≤ 2 ^ 63 → leadingInt x b = Some (v, r) → 0 ≤ v ≤ 2 ^ 63.
Proof.
  revert x. induction b as [| c b IH]; intros x Hx; cbn [leadingInt]; [by intros [= <- <-] |].
  destruct (in_range 48 57 c) eqn:Hc; [| by intros [= <- <-]].
  destruct (Z.gtb_spec x (2 ^ 63 / 10)); [done |]. cbv zeta.
  destruct (Z.gtb_spec (x * 10 + (byte c - 48)) (2 ^ 63)); [done |].
  apply IH. unfold in_range in Hc. lia.
Qed.

Lemma leadingFraction_pos x scale o b f s r : 0 ≤ x → leadingFraction x scale o b = (f, s, r) → 0 ≤ f.
Proof.
  revert x scale o. induction b as [| c b IH]; intros x scale o Hx; cbn [leadingFraction]; [by intros [= <- <- <-] |].
  destruct (in_range 48 57 c) eqn:Hc; [| by intros [= <- <- <-]].
  repeat case_match; eauto. apply IH. unfold in_range in Hc. lia.
Qed.

Lemma duration_term_pos b v r : duration_term b = Some (v, r) → 0 ≤ v ≤ 2 ^ 63.
Proof.
  unfold duration_term. destruct b as [| c b]; [done |]. case_match; [| done].
  destruct (leadingInt 0 (c :: b)) as [[v0 b1] |] eqn:Hv; [| done]. cbn [mbind option_bind].
  apply leadingInt_bounds in Hv; [| lia].
  destruct (match b1 with [] => _ | _ => _ end) as [[[f scale] b2] post].
  case_match; [done |]. destruct (span_unit b2) as [[| u0 u] b3]; [done |].
  destruct (unit_value (u0 :: u)) as [unit |] eqn:Hu; [| done]. cbn [mbind option_bind].
  assert (0 < unit).
  { unfold unit_value in Hu. repeat case_match; simplify_eq; unfold Second; lia. }
  destruct (Z.gtb_spec v0 (2 ^ 63 / unit)); [done |].
  assert (v0 * unit ≤ 2 ^ 63).
  { pose proof (Z.mul_div_le (2 ^ 63) unit ltac:(lia)). nia. }
  case_match; [| intros [= <- <-]; nia].
  destruct (Z.gtb_spec (v0 * unit + fraction_value f scale unit) (2 ^ 63)); [done |]. intros [= <- <-].
  pose proof (Z.mod_pos_bound (default 0 (f64_trunc (f64_mul (f64_of_Z f) (f64_div (f64_of_Z unit) scale)))) (2 ^ 64)
    ltac:(lia)). unfold fraction_value in *. nia.
Qed.

Lemma duration_terms_bounds fuel d b d' : 0 ≤ d ≤ 2 ^ 63 → duration_terms fuel d b = Some d' → 0 ≤ d' ≤ 2 ^ 63.
Proof.
  revert d b. induction fuel as [| fuel IH]; intros d [| c b] Hd; cbn [duration_terms]; try done; try (by intros [= <-]).
  destruct (duration_term (c :: b)) as [[v b'] |] eqn:Hv; [| done]. cbn [mbind option_bind].
  apply duration_term_pos in Hv. destruct (Z.gtb_spec (d + v) (2 ^ 63)); [done |]. apply IH. lia.
Qed.

(** A parsed duration is a 64-bit number of nanoseconds. *)
Lemma ParseDuration_range s d : ParseDuration s = Some d → int64_min ≤ d ≤ int64_max.
Proof.
  unfold ParseDuration. intros Hd. destruct (match to_bytes s with [] => _ | _ => _ end) as [neg b].
  case_bool_decide; [simplify_eq; unfold int64_min, int64_max; lia |].
  destruct b as [| c b]; [done |]. destruct (duration_terms _ _ _) as [d0 |] eqn:E; [| done]. cbn in Hd.
  apply duration_terms_bounds in E; [| lia].
  destruct neg; [injection Hd as <-; apply wrap64_range |].
  destruct (Z.gtb_spec d0 (2 ^ 63 - 1)); [done |]. injection Hd as <-. unfold int64_min, int64_max. lia.
Qed.

(** ** Whole numbers of a unit *)

Lemma dec_value_mono x ds : 0 ≤ x → all_digits ds → x ≤ dec_value x ds.
Proof.
  intros Hx Hds. revert x Hx. induction Hds as [| c ds Hc _ IH]; intros x Hx; cbn [dec_value]; [done |].
  unfold in_range in Hc. etrans; [| apply IH]; lia.
Qed.

Lemma leadingInt_digits x ds c rest :
  0 ≤ x → all_digits ds → dec_value x ds ≤ 2 ^ 63 → in_range 48 57 c = false →
  leadingInt x (ds ++ c :: rest)%list = Some (dec_value x ds, c :: rest).
Proof.
  intros Hx Hds. revert x Hx. induction Hds as [| y ds Hy Hds IH]; intros x Hx Hle Hc; cbn [app leadingInt dec_value] in *.
  { by rewrite Hc. }
  rewrite Hy. unfold in_range in Hy. pose proof (dec_value_mono (x * 10 + (byte y - 48)) ds ltac:(lia) Hds).
  destruct (Z.gtb_spec x (2 ^ 63 / 10)) as [Hgt |].
  { exfalso. assert (2 ^ 63 / 10 + 1 ≤ x) by lia. pose proof (Z.mul_succ_div_gt (2 ^ 63) 10 ltac:(lia)). lia. }
  cbv zeta. rewrite Z.gtb_ltb, (proj2 (Z.ltb_ge _ _)) by lia. apply IH; [lia | done | done].
Qed.

(** The text of a unit: it has no digit and no point. *)
Definition is_unit (u : bytes) (unit : Z) : Prop :=
  span_unit u = (u, []) ∧ unit_value u = Some unit ∧ 0 < unit ∧
  match u with c :: _ => Z.eqb (byte c) 46 = false ∧ in_range 48 57 c = false | [] => False end.

Lemma whole_term n u unit : is_unit u unit → 0 ≤ n → n * unit ≤ 2 ^ 63 →
  duration_term (Z_bytes n ++ u)%list = Some (n * unit, []).
Proof.
  intros (Hs & Hv & Hu & Hh) Hn Hle. pose proof (Z_bytes_digits n Hn) as Hd. pose proof (Z_bytes_value n Hn) as Hval.
  pose proof (Z_bytes_ne n) as Hne. destruct (Z_bytes n) as [| c ds]; [done |].
  assert (Hc : in_range 48 57 c = true) by by apply Forall_cons_1 in Hd as [? _].
  destruct u as [| x u]; [done |]. destruct Hh as [Hx1 Hx2].
  cbn [app]. unfold duration_term. rewrite Hc, orb_true_r. change (c :: ds ++ x :: u)%list with ((c :: ds) ++ x :: u)%list.
  rewrite leadingInt_digits by first [done | nia]. cbn [mbind option_bind]. rewrite Hval.
  rewrite (proj2 (Nat.eqb_neq _ _)) by (rewrite length_app; cbn; lia). rewrite Hx1. cbv iota beta zeta. rewrite Hs. cbv iota beta.
  rewrite Hv. cbn [negb andb mbind option_bind].
  rewrite Z.gtb_ltb, (proj2 (Z.ltb_ge _ _)) by (apply Z.div_le_lower_bound; lia). done.
Qed.

(** One term. *)
Lemma whole_terms n u unit : is_unit u unit → 0 ≤ n → n * unit ≤ 2 ^ 63 →
  duration_terms (length (Z_bytes n ++ u)) 0 (Z_bytes n ++ u)%list = Some (n * unit).
Proof.
  intros Hu Hn Hle. pose proof (whole_term n u unit Hu Hn Hle) as Ht. pose proof (Z_bytes_ne n) as Hne.
  destruct (Z_bytes n) as [| c ds]; [done |]. cbn [app length] in *.
  destruct (length (ds ++ u)) as [| k]; cbn [duration_terms]; rewrite Ht; cbn [mbind option_bind];
    (rewrite Z.gtb_ltb, (proj2 (Z.ltb_ge _ _)) by lia); done.
Qed.

Lemma no_zero_unit n u unit : is_unit u unit → bool_decide ((Z_bytes n ++ u)%list = to_bytes "0") = false.
Proof.
  intros (_ & _ & _ & Hh). apply bool_decide_eq_false_2. intros Heq. pose proof (Z_bytes_ne n) as Hne.
  destruct (Z_bytes n) as [| c [| d ds]]; [done | | by destruct ds]. destruct u; [done | done].
Qed.

(** A whole number of a unit. *)
Lemma ParseDuration_whole n u unit : is_unit (to_bytes u) unit → 0 ≤ n → n * unit < 2 ^ 63 →
  ParseDuration (Itoa n +:+ u) = Some (n * unit).
Proof.
  intros Hu Hn Hle. unfold Itoa. rewrite (proj2 (Z.ltb_ge _ _)) by lia. unfold ParseDuration. rewrite to_bytes_app, to_of_bytes.
  pose proof (whole_terms n _ _ Hu Hn ltac:(lia)) as Ht. pose proof (no_zero_unit n _ _ Hu) as Hz.
  pose proof (Z_bytes_digits n Hn) as Hd. pose proof (Z_bytes_ne n) as Hne. destruct (Z_bytes n) as [| c ds]; [done |].
  apply Forall_cons_1 in Hd as [Hc _]. unfold in_range in Hc. cbn [app] in *.
  rewrite (proj2 (Z.eqb_neq (byte c) 45)), (proj2 (Z.eqb_neq (byte c) 43)) by lia. cbv iota beta. rewrite Hz, Ht. cbn [mbind option_bind].
  by rewrite Z.gtb_ltb, (proj2 (Z.ltb_ge _ _)) by lia.
Qed.

Lemma ParseDuration_whole_neg n u unit : is_unit (to_bytes u) unit → n < 0 → - 2 ^ 63 ≤ n * unit →
  ParseDuration (Itoa n +:+ u) = Some (n * unit).
Proof.
  intros Hu Hn Hle. unfold Itoa. rewrite (proj2 (Z.ltb_lt _ _)) by lia. unfold ParseDuration. rewrite to_bytes_app, to_of_bytes.
  cbn [app]. change (Z.eqb (byte (chr 45)) 45) with true. cbv iota beta. rewrite (no_zero_unit _ _ _ Hu).
  pose proof (whole_terms (- n) _ _ Hu ltac:(lia) ltac:(lia)) as Ht. pose proof (Z_bytes_ne (- n)) as Hne.
  destruct (Z_bytes (- n)) as [| c ds]; [done |]. cbn [app] in *. rewrite Ht. cbn [mbind option_bind].
  f_equal. rewrite Z.mul_opp_l, Z.opp_involutive. destruct Hu as (_ & _ & Hpos & _). apply wrap64_id. unfold int64_min, int64_max. nia.
Qed.

(** [n] seconds, written the way the configuration documents it, are parsed to
    [n] seconds, as far as 64 bits go. *)
Lemma ParseDuration_seconds n :
  0 ≤ n ≤ 9223372036 → ParseDuration (Itoa n +:+ "s") = Some (n * Second).
Proof. intros Hn. apply ParseDuration_whole; [by split_and! | lia |]. unfold Second. lia. Qed.

(** Every duration, in nanoseconds. *)
Lemma ParseDuration_nanoseconds n : int64_min ≤ n ≤ int64_max → ParseDuration (Itoa n +:+ "ns") = Some n.
Proof.
  unfold int64_min, int64_max. intros Hn. assert (is_unit (to_bytes "ns") 1) as Hu by by split_and!.
  rewrite <-(Z.mul_1_r n) at 2. destruct (Z.ltb_spec n 0); [apply ParseDuration_whole_neg | apply ParseDuration_whole]; done || lia.
Qed.

(** * RFC 3339 *)

(** The civil date of a day counted from 1970-01-01: years from March, in eras of
    400 years. *)
Definition civil_of_days (days : Z) : Z * Z * Z :=
  let z := days + 719468 in
  let era := z / 146097 in
  let doe := z mod 146097 in
  let yoe := (doe - doe / 1460 + doe / 36524 - doe / 146096) / 365 in
  let doy := doe - (365 * yoe + yoe / 4 - yoe / 100) in
  let mp := (5 * doy + 2) / 153 in
  let d := doy - (153 * mp + 2) / 5 + 1 in
  let m := if Z.ltb mp 10 then mp + 3 else mp - 9 in
  (yoe + era * 400 + (if Z.leb m 2 then 1 else 0), m, d).

(** A number with leading zeros to [w] digits. *)
Definition padded (w : nat) (z : Z) : string :=
  let b := Z_bytes (Z.abs z) in
  (if Z.ltb z 0 then "-" else "") +:+ of_bytes (replicate (w - length b) (chr 48) ++ b)%list.

(** [t.UTC().Format(time.RFC3339)] of [t] nanoseconds after 1970. *)
Definition format_RFC3339 (t : Z) : string :=
  let secs := t / Second in
  let '(y, m, d) := civil_of_days (secs / 86400) in
  let s := secs mod 86400 in
  padded 4 y +:+ "-" +:+ padded 2 m +:+ "-" +:+ padded 2 d +:+ "T" +:+
  padded 2 (s / 3600) +:+ ":" +:+ padded 2 (s / 60 mod 60) +:+ ":" +:+ padded 2 (s mod 60) +:+ "Z".

Example format_RFC3339_ex :
  format_RFC3339 <$> [0; 951782400 * Second; 1709164799999999999; -1; 4102444800 * Second] =
  ["1970-01-01T00:00:00Z"; "2000-02-29T00:00:00Z"; "2024-02-28T23:59:59Z"; "1969-12-31T23:59:59Z";
   "2100-01-01T00:00:00Z"].
Proof. vm_compute. reflexivity. Qed.
