(* ===== verification/GoRfc3339.v ===== *)
(** RFC 3339 with nanoseconds, of package [time]: the text that
    [time.Time.MarshalJSON] writes, with the offset of the local time zone, and
    the parser that [time.Parse] uses for this layout.  A time is its number of
    nanoseconds after 1970-01-01T00:00:00Z, an offset a number of minutes. *)

From S2P Require Import Prelude GoString GoFloat GoStrconv GoTime.

Open Scope string_scope.
Open Scope Z_scope.

(** * Writing *)

(** Digits without the zeros at their end. *)
Definition trim_zeros (b : bytes) : bytes :=
  reverse ((fix go b := match b with c :: b' => if Z.eqb (byte c) 48 then go b' else b | [] => [] end) (reverse b)).

Definition fraction_text (nanos : Z) : string :=
  if Z.eqb nanos 0 then "" else "." +:+ of_bytes (trim_zeros (to_bytes (padded 9 nanos))).

Definition zone_text (off : Z) : string :=
  if Z.eqb off 0 then "Z"
  else (if Z.ltb off 0 then "-" else "+") +:+ padded 2 (Z.abs off / 60) +:+ ":" +:+ padded 2 (Z.abs off mod 60).

Definition local_year (off t : Z) : Z := (civil_of_days ((t / Second + off * 60) / 86400)).1.1.

(** [t.Format(time.RFC3339Nano)] where the local offset is [off]. *)
Definition format_RFC3339Nano (off t : Z) : string :=
  let secs := t / Second + off * 60 in
  let '(y, m, d) := civil_of_days (secs / 86400) in
  let s := secs mod 86400 in
  padded 4 y +:+ "-" +:+ padded 2 m +:+ "-" +:+ padded 2 d +:+ "T" +:+
  padded 2 (s / 3600) +:+ ":" +:+ padded 2 (s / 60 mod 60) +:+ ":" +:+ padded 2 (s mod 60) +:+
  fraction_text (t mod Second) +:+ zone_text off.

(** [t.MarshalJSON], without the quotation marks: years of four digits only. *)
Definition marshal_time (off t : Z) : option string :=
  if (Z.leb 0 (local_year off t) && Z.leb (local_year off t) 9999 && Z.ltb (Z.abs off) 1440)%bool
  then Some (format_RFC3339Nano off t) else None.

(** * Reading *)

Definition is_leap (y : Z) : bool :=
  (Z.eqb (y mod 4) 0 && (negb (Z.eqb (y mod 100) 0) || Z.eqb (y mod 400) 0))%bool.

Definition days_in (m y : Z) : Z :=
  if Z.eqb m 2 then (if is_leap y then 29 else 28)
  else if (Z.eqb m 4 || Z.eqb m 6 || Z.eqb m 9 || Z.eqb m 11)%bool then 30 else 31.

(** The day of a civil date, counted from 1970-01-01. *)
Definition days_of_civil (y m d : Z) : Z :=
  let y' := if Z.leb m 2 then y - 1 else y in
  let yoe := y' mod 400 in
  let doy := (153 * (if Z.ltb 2 m then m - 3 else m + 9) + 2) / 5 + d - 1 in
  y' / 400 * 146097 + (yoe * 365 + yoe / 4 - yoe / 100 + doy) - 719468.

(** [parseUint]: all digits, and within the bounds. *)
Definition field (lo hi : Z) (b : bytes) : option Z :=
  if (forallb (in_range 48 57) b && Z.leb lo (dec_value 0 b) && Z.leb (dec_value 0 b) hi)%bool
  then Some (dec_value 0 b) else None.

(** A fraction of a second in nanoseconds, digits after the ninth ignored. *)
Definition parse_fraction (b : bytes) : Z * bytes :=
  match b with
  | p :: c :: _ =>
      if (Z.eqb (byte p) 46 && in_range 48 57 c)%bool then
        let '(ds, r) := take_digits (tail b) in
        let ds := take 9 ds in
        (dec_value 0 ds * 10 ^ (9 - Z.of_nat (length ds)), r)
      else (0, b)
  | _ => (0, b)
  end.

(** The zone, as the seconds it is ahead. *)
Definition parse_zone (b : bytes) : option Z :=
  match b with
  | [z] => if Z.eqb (byte z) 90 then Some 0 else None
  | [sign; h1; h2; colon; m1; m2] =>
      hr ← field 0 23 [h1; h2];
      mm ← field 0 59 [m1; m2];
      if Z.eqb (byte colon) 58 then
        if Z.eqb (byte sign) 45 then Some (- ((hr * 60 + mm) * 60))
        else if Z.eqb (byte sign) 43 then Some ((hr * 60 + mm) * 60) else None
      else None
  | _ => None
  end.

(** [parseRFC3339]. *)
Definition parse_RFC3339 (s : string) : option Z :=
  match to_bytes s with
  | y1 :: y2 :: y3 :: y4 :: e1 :: m1 :: m2 :: e2 :: d1 :: d2 :: e3 :: h1 :: h2 :: e4 :: n1 :: n2 :: e5 :: s1 :: s2
      :: rest =>
      year ← field 0 9999 [y1; y2; y3; y4];
      month ← field 1 12 [m1; m2];
      day ← field 1 (days_in month year) [d1; d2];
      hour ← field 0 23 [h1; h2];
      min ← field 0 59 [n1; n2];
      sec ← field 0 59 [s1; s2];
      if (Z.eqb (byte e1) 45 && Z.eqb (byte e2) 45 && Z.eqb (byte e3) 84 && Z.eqb (byte e4) 58 && Z.eqb (byte e5) 58)%bool
      then
        let '(nsec, rest) := parse_fraction rest in
        zone ← parse_zone rest;
        Some ((days_of_civil year month day * 86400 + hour * 3600 + min * 60 + sec - zone) * Second + nsec)
      else None
  | _ => None
  end.

Example RFC3339Nano_ex :
  (λ p, format_RFC3339Nano p.1 p.2) <$> [(0, 0); (0, 1709164799999999999); (120, 951782400 * Second + 120000000); (-330, -1000)] =
  ["1970-01-01T00:00:00Z"; "2024-02-28T23:59:59.999999999Z"; "2000-02-29T02:00:00.12+02:00";
   "1969-12-31T18:29:59.999999-05:30"].
Proof. vm_compute. reflexivity. Qed.

Example parse_RFC3339_ex :
  parse_RFC3339 <$> ["1970-01-01T00:00:00Z"; "2000-02-29T02:00:00.12+02:00"; "2001-02-29T00:00:00Z"; "2024-02-28T23:59:59.9Z";
    "2024-02-28 23:59:59Z"; "2024-02-28T24:00:00Z"] =
  [Some 0; Some (951782400 * Second + 120000000); None; Some 1709164799900000000; None; None].
Proof. vm_compute. reflexivity. Qed.

(** * Digits *)

Lemma dec_value_acc acc ds : dec_value acc ds = acc * 10 ^ Z.of_nat (length ds) + dec_value 0 ds.
Proof.
  revert acc. induction ds as [| c ds IH]; intros acc; cbn [dec_value length]; [lia |].
  rewrite IH, (IH (0 * 10 + _)), Nat2Z.inj_succ, Z.pow_succ_r by lia. lia.
Qed.

Lemma dec_value_app acc ds ds' : dec_value acc (ds ++ ds')%list = dec_value (dec_value acc ds) ds'.
Proof. revert acc. induction ds as [| c ds IH]; intros acc; [done | apply IH]. Qed.

Lemma dec_value_nonneg ds : all_digits ds → 0 ≤ dec_value 0 ds.
Proof. intros Hds. by apply (dec_value_mono 0). Qed.

Lemma dec_value_zeros n : dec_value 0 (replicate n (chr 48)) = 0.
Proof. induction n as [| n IH]; [done | exact IH]. Qed.

Lemma all_digits_app ds ds' : all_digits (ds ++ ds')%list ↔ all_digits ds ∧ all_digits ds'.
Proof. apply Forall_app. Qed.

Lemma Z_bytes_length z w : 0 ≤ z < 10 ^ Z.of_nat w → (0 < w)%nat → (length (Z_bytes z) ≤ w)%nat.
Proof.
  intros Hz Hw. destruct (decide (z = 0)) as [-> | Hne]; [exact Hw |].
  destruct (Z_bytes_head z ltac:(lia)) as (c & ds & E & Hc). pose proof (Z_bytes_value z ltac:(lia)) as Hv.
  pose proof (Z_bytes_digits z ltac:(lia)) as Hd. rewrite E in *. apply Forall_cons_1 in Hd as [_ Hd].
  cbn [dec_value length] in *. rewrite dec_value_acc in Hv. pose proof (dec_value_nonneg ds Hd).
  unfold in_range in Hc. apply Nat2Z.inj_le, Znot_gt_le. intros Hgt.
  assert (10 ^ Z.of_nat w ≤ 10 ^ Z.of_nat (length ds)) by (apply Z.pow_le_mono_r; lia). nia.
Qed.

(** A padded number: its digits, as many as the width says, and its value. *)
Lemma padded_spec w z : 0 ≤ z < 10 ^ Z.of_nat w → (0 < w)%nat →
  ∃ ds, to_bytes (padded w z) = ds ∧ length ds = w ∧ all_digits ds ∧ dec_value 0 ds = z.
Proof.
  intros Hz Hw. pose proof (Z_bytes_length z w Hz Hw). eexists. split; [reflexivity |].
  unfold padded. rewrite (proj2 (Z.ltb_ge z 0)), (Z.abs_eq z) by lia.
  rewrite to_bytes_app, to_of_bytes, app_nil_l. split_and!.
  - rewrite length_app, length_replicate. lia.
  - apply all_digits_app. split; [by apply Forall_replicate | apply Z_bytes_digits; lia].
  - rewrite dec_value_app, dec_value_zeros. apply Z_bytes_value. lia.
Qed.

Lemma field_spec lo hi ds : all_digits ds → lo ≤ dec_value 0 ds ≤ hi → field lo hi ds = Some (dec_value 0 ds).
Proof.
  intros Hds Hv. unfold field.
  rewrite (proj2 (forallb_forall _ _)) by (intros c Hc; by apply (proj1 (List.Forall_forall _ _) Hds c)).
  by rewrite !(proj2 (Z.leb_le _ _)) by lia.
Qed.

Lemma take_digits_app ds rest : all_digits ds →
  match rest with c :: _ => in_range 48 57 c = false | [] => True end → take_digits (ds ++ rest)%list = (ds, rest).
Proof.
  intros Hds Hr. induction Hds as [| c ds Hc _ IH]; cbn [app take_digits].
  - destruct rest as [| c rest]; cbn; [done | by rewrite Hr].
  - by rewrite Hc, IH.
Qed.

(** Trailing zeros that were dropped are a power of ten. *)
Lemma trim_zeros_split b : ∃ k, b = (trim_zeros b ++ replicate k (chr 48))%list.
Proof.
  unfold trim_zeros. pose proof (reverse_involutive b) as Hb. revert Hb. generalize (reverse b). intros r <-.
  induction r as [| c r [k IH]]; [by exists 0%nat |]. destruct (Z.eqb_spec (byte c) 48) as [Hc |].
  - exists (S k). rewrite reverse_cons, IH at 1. rewrite <-(chr_byte c), Hc, <-(assoc_L (++)).
    by rewrite <-replicate_S_end.
  - exists 0%nat. cbn [replicate]. by rewrite app_nil_r.
Qed.

Lemma fraction_text_spec n rest : 0 ≤ n < 10 ^ 9 →
  match rest with c :: _ => in_range 48 57 c = false ∧ byte c ≠ 46 | [] => False end →
  parse_fraction (to_bytes (fraction_text n) ++ rest)%list = (n, rest).
Proof.
  intros Hn Hr. unfold fraction_text. destruct (Z.eqb_spec n 0) as [-> | Hne].
  - destruct rest as [| c [| c' rest]]; [done | done |].
    change (parse_fraction (c :: c' :: rest) = (0, c :: c' :: rest)). unfold parse_fraction.
    by rewrite (proj2 (Z.eqb_neq _ _) (proj2 Hr)).
  - destruct (padded_spec 9 n Hn ltac:(lia)) as (ds & -> & Hlen & Hds & Hv).
    destruct (trim_zeros_split ds) as [k E]. set (t := trim_zeros ds) in *.
    rewrite E in Hds. apply all_digits_app in Hds as [Ht _].
    rewrite E, dec_value_app, dec_value_acc, dec_value_zeros, length_replicate in Hv.
    rewrite E, length_app, length_replicate in Hlen.
    destruct t as [| c t']; [cbn in Hv; lia |]. pose proof Ht as Hct. apply Forall_cons_1 in Hct as [Hc _].
    rewrite to_bytes_app, to_of_bytes. change (to_bytes ".") with [chr 46].
    change (([chr 46] ++ c :: t') ++ rest)%list with (chr 46 :: (c :: t') ++ rest)%list.
    unfold parse_fraction. cbn [app tail]. rewrite Hc. change (Z.eqb (byte (chr 46)) 46) with true. cbn [andb].
    change (c :: t' ++ rest)%list with ((c :: t') ++ rest)%list.
    rewrite take_digits_app by (done || by destruct rest; [| apply Hr]).
    rewrite firstn_all2 by lia. f_equal.
    replace (9 - Z.of_nat (length (c :: t'))) with (Z.of_nat k) by lia. lia.
Qed.

(** ** Zones *)

Lemma field_two lo hi z : 0 ≤ z < 100 → lo ≤ z ≤ hi → ∃ a b, to_bytes (padded 2 z) = [a; b] ∧ field lo hi [a; b] = Some z.
Proof.
  intros Hz Hb. destruct (padded_spec 2 z Hz ltac:(lia)) as (ds & E & Hlen & Hds & Hv).
  destruct ds as [| a [| b [| ]]]; try done. exists a, b. split; [done |]. rewrite <-Hv. apply field_spec; [done | lia].
Qed.

Lemma zone_text_spec off : Z.abs off < 1440 →
  parse_zone (to_bytes (zone_text off)) = Some (off * 60) ∧
  match to_bytes (zone_text off) with c :: _ => in_range 48 57 c = false ∧ byte c ≠ 46 | [] => False end.
Proof.
  intros Ho. unfold zone_text. destruct (Z.eqb_spec off 0) as [-> | Hne]; [done |].
  pose proof (Z.div_mod (Z.abs off) 60 ltac:(lia)) as Hdm. pose proof (Z.mod_pos_bound (Z.abs off) 60 ltac:(lia)).
  destruct (field_two 0 23 (Z.abs off / 60)) as (a & b & E & Hf); [lia.. |].
  destruct (field_two 0 59 (Z.abs off mod 60)) as (a' & b' & E' & Hf'); [lia.. |].
  destruct (Z.ltb_spec off 0); rewrite !to_bytes_app, E, E'; (split; [| done]).
  - change (parse_zone [chr 45; a; b; chr 58; a'; b'] = Some (off * 60)). unfold parse_zone.
    rewrite Hf, Hf'. cbn. f_equal. lia.
  - change (parse_zone [chr 43; a; b; chr 58; a'; b'] = Some (off * 60)). unfold parse_zone.
    rewrite Hf, Hf'. cbn. f_equal. lia.
Qed.

(** * Civil dates *)

Lemma civil_year doe : 0 ≤ doe < 146097 →
  let yoe := (doe - doe / 1460 + doe / 36524 - doe / 146096) / 365 in
  0 ≤ yoe < 400 ∧ 0 ≤ doe - (365 * yoe + yoe / 4 - yoe / 100) ∧
  (doe < 365 * (yoe + 1) + (yoe + 1) / 4 - (yoe + 1) / 100 ∨
   yoe = 399 ∧ doe - (365 * yoe + yoe / 4 - yoe / 100) ≤ 365).
Proof. intros H yoe. subst yoe. Z.div_mod_to_equations. lia. Qed.

(** The day of a year that begins in March: its length, and its month. *)
Lemma civil_day_of_year yoe doe : 0 ≤ yoe < 400 → 0 ≤ doe < 146097 →
  yoe = (doe - doe / 1460 + doe / 36524 - doe / 146096) / 365 →
  let doy := doe - (365 * yoe + yoe / 4 - yoe / 100) in
  0 ≤ doy ≤ 365 ∧ (doy = 365 → is_leap (yoe + 1) = true).
Proof.
  intros Hy Hd E doy. pose proof (civil_year doe Hd) as H. cbv zeta in H. rewrite <-E in H. fold doy in H.
  destruct H as (_ & Hlo & Hhi). assert (Hle : doy ≤ 365).
  { subst doy. clear E. Z.div_mod_to_equations. lia. }
  split; [lia |]. intros He. unfold is_leap.
  destruct Hhi as [Hhi | [-> _]]; [| done]. subst doy. clear E Hd Hlo Hle.
  rewrite andb_true_iff, orb_true_iff, negb_true_iff, !Z.eqb_eq, Z.eqb_neq. Z.div_mod_to_equations. lia.
Qed.

Lemma is_leap_era y era : is_leap (y + era * 400) = is_leap y.
Proof.
  unfold is_leap. rewrite Z.mod_add by lia.
  replace ((y + era * 400) mod 4) with (y mod 4) by (Z.div_mod_to_equations; lia).
  by replace ((y + era * 400) mod 100) with (y mod 100) by (Z.div_mod_to_equations; lia).
Qed.

(** Months from March: the days between their starts. *)
Lemma month_length mp : 0 ≤ mp ≤ 11 →
  let m := if Z.ltb mp 10 then mp + 3 else mp - 9 in
  (153 * (mp + 1) + 2) / 5 - (153 * mp + 2) / 5 ≤
    (if (Z.eqb m 4 || Z.eqb m 6 || Z.eqb m 9 || Z.eqb m 11)%bool then 30 else 31).
Proof.
  intros Hmp. assert (Hin : mp ∈ seqZ 0 12) by (apply elem_of_seqZ; lia). revert mp Hmp Hin.
  enough (Forall (λ mp, let m := if Z.ltb mp 10 then mp + 3 else mp - 9 in
    (153 * (mp + 1) + 2) / 5 - (153 * mp + 2) / 5 ≤
      (if (Z.eqb m 4 || Z.eqb m 6 || Z.eqb m 9 || Z.eqb m 11)%bool then 30 else 31)) (seqZ 0 12)) as Hall.
  { intros mp _ Hin. exact (proj1 (list.Forall_forall _ _) Hall mp Hin). }
  apply (bool_decide_unpack _). vm_compute. exact I.
Qed.

(** The date of a day is a date of the calendar, and its day is that day. *)
Lemma civil_roundtrip days y m d :
  civil_of_days days = (y, m, d) → 1 ≤ m ≤ 12 ∧ 1 ≤ d ≤ days_in m y ∧ days_of_civil y m d = days.
Proof.
  unfold civil_of_days. pose proof (Z.div_mod (days + 719468) 146097 ltac:(lia)) as Hera.
  pose proof (Z.mod_pos_bound (days + 719468) 146097 ltac:(lia)) as Hdoe.
  set (era := (days + 719468) / 146097) in *. set (doe := (days + 719468) mod 146097) in *. clearbody era doe.
  cbv zeta. set (yoe := (doe - doe / 1460 + doe / 36524 - doe / 146096) / 365).
  destruct (civil_year doe Hdoe) as [Hyoe _]. fold yoe in Hyoe.
  destruct (civil_day_of_year yoe doe Hyoe Hdoe eq_refl) as [Hdoy Hleap]. clearbody yoe.
  set (doy := doe - (365 * yoe + yoe / 4 - yoe / 100)) in *.
  assert (Hdoy' : yoe * 365 + yoe / 4 - yoe / 100 + doy = doe) by (subst doy; lia). clearbody doy.
  set (mp := (5 * doy + 2) / 153).
  assert (Hmp : 0 ≤ mp ≤ 11) by (subst mp; Z.div_mod_to_equations; lia).
  assert (Hmlo : (153 * mp + 2) / 5 ≤ doy) by (subst mp; clear -Hdoy; Z.div_mod_to_equations; lia).
  assert (Hmhi : doy < (153 * (mp + 1) + 2) / 5) by (subst mp; clear -Hdoy; Z.div_mod_to_equations; lia).
  clearbody mp. intros [= Hy Hm Hd]. rewrite Hm in Hy.
  assert (Hday : (153 * mp + 2) / 5 + d - 1 = doy) by lia.
  assert (Hm' : (if Z.ltb 2 m then m - 3 else m + 9) = mp).
  { destruct (Z.ltb_spec mp 10); destruct (Z.ltb_spec 2 m); lia. }
  assert (Hy' : (if Z.leb m 2 then y - 1 else y) = yoe + era * 400) by (destruct (Z.leb m 2); lia).
  split; [destruct (Z.ltb_spec mp 10); lia |]. split.
  - split; [lia |].
    pose proof (month_length mp Hmp) as Hlen. cbv zeta in Hlen. rewrite Hm in Hlen.
    unfold days_in. destruct (Z.eqb_spec m 2) as [E |]; [| lia].
    assert (mp = 11) as Emp by (rewrite E in Hm'; change (11 = mp) in Hm'; lia).
    rewrite Emp in Hday. change (337 + d - 1 = doy) in Hday. destruct (is_leap y) eqn:El; [lia |].
    assert (doy ≠ 365); [| lia]. intros Eq. apply Hleap in Eq.
    rewrite E in Hy'. change (y - 1 = yoe + era * 400) in Hy'. replace y with (yoe + 1 + era * 400) in El by lia. rewrite is_leap_era in El. congruence.
  - unfold days_of_civil. cbv zeta. rewrite Hm', Hy', Z.div_add, Z.mod_add, Z.div_small, Z.mod_small by lia. lia.
Qed.

(** * What was written is read back *)

Lemma field_four z : 0 ≤ z ≤ 9999 → ∃ a b c d, to_bytes (padded 4 z) = [a; b; c; d] ∧ field 0 9999 [a; b; c; d] = Some z.
Proof.
  intros Hz. destruct (padded_spec 4 z ltac:(lia) ltac:(lia)) as (ds & E & Hlen & Hds & Hv).
  destruct ds as [| a [| b [| c [| d [| ]]]]]; try done. exists a, b, c, d. split; [done |].
  rewrite <-Hv. apply field_spec; [done | lia].
Qed.

(** Every time that can be marshalled is parsed back, whatever the time zone. *)
Lemma RFC3339_roundtrip off t s : marshal_time off t = Some s → parse_RFC3339 s = Some t.
Proof.
  unfold marshal_time. destruct (Z.leb _ _ && _ && _)%bool eqn:Hok; [| done]. intros [= <-].
  rewrite !andb_true_iff, !Z.leb_le, Z.ltb_lt in Hok. destruct Hok as [[Hy0 Hy1] Hoff]. unfold local_year in *.
  unfold format_RFC3339Nano. set (secs := t / Second + off * 60) in *.
  destruct (civil_of_days (secs / 86400)) as [[y m] d] eqn:Hciv. cbn [fst] in Hy0, Hy1.
  destruct (civil_roundtrip _ _ _ _ Hciv) as (Hm & Hd & Hdays).
  pose proof (Z.mod_pos_bound secs 86400 ltac:(lia)) as Hs. set (s := secs mod 86400) in *.
  assert (Hdm : d ≤ 31) by (revert Hd; unfold days_in; repeat case_match; lia).
  destruct (field_four y) as (y1 & y2 & y3 & y4 & Ey & Fy); [lia |].
  destruct (field_two 1 12 m) as (m1 & m2 & Em & Fm); [lia.. |].
  destruct (field_two 1 (days_in m y) d) as (d1 & d2 & Ed & Fd); [lia.. |].
  destruct (field_two 0 23 (s / 3600)) as (h1 & h2 & Eh & Fh); [Z.div_mod_to_equations; lia.. |].
  destruct (field_two 0 59 (s / 60 mod 60)) as (n1 & n2 & En & Fn); [Z.div_mod_to_equations; lia.. |].
  destruct (field_two 0 59 (s mod 60)) as (s1 & s2 & Es & Fs); [Z.div_mod_to_equations; lia.. |].
  destruct (zone_text_spec off Hoff) as [Hz Hzc].
  pose proof (fraction_text_spec (t mod Second) _ (Z.mod_pos_bound t Second ltac:(done)) Hzc) as Hf.
  unfold parse_RFC3339. rewrite !to_bytes_app, Ey, Em, Ed, Eh, En, Es.
  change (to_bytes "-") with [chr 45]. change (to_bytes ":") with [chr 58]. change (to_bytes "T") with [chr 84].
  cbn [app]. rewrite Fy. cbn [mbind option_bind]. rewrite Fm. cbn [mbind option_bind]. rewrite Fd, Fh, Fn, Fs.
  cbn [mbind option_bind]. rewrite Hf, Hz. cbn. f_equal. rewrite Hdays.
  pose proof (Z.div_mod secs 86400 ltac:(lia)). fold s in H. pose proof (Z.div_mod t Second ltac:(done)).
  assert (s = s / 3600 * 3600 + s / 60 mod 60 * 60 + s mod 60) by (Z.div_mod_to_equations; lia).
  unfold Second in *. lia.
Qed.

(** The text is plain ASCII: no character of it needs an escape in JSON. *)
Definition plain (b : bytes) : bool := forallb (in_range 43 90) b.

Lemma plain_app b b' : plain b = true → plain b' = true → plain (b ++ b') = true.
Proof. unfold plain. rewrite forallb_app. by intros -> ->. Qed.

Lemma plain_digits b : all_digits b → plain b = true.
Proof.
  intros Hb. apply forallb_forall. intros c Hc. apply (proj1 (List.Forall_forall _ _) Hb) in Hc.
  unfold in_range in *. lia.
Qed.

Lemma plain_padded w z : 0 ≤ z < 10 ^ Z.of_nat w → (0 < w)%nat → plain (to_bytes (padded w z)) = true.
Proof. intros Hz Hw. destruct (padded_spec w z Hz Hw) as (ds & -> & _ & Hds & _). by apply plain_digits. Qed.

Lemma plain_fraction n : 0 ≤ n < 10 ^ 9 → plain (to_bytes (fraction_text n)) = true.
Proof.
  intros Hn. unfold fraction_text. destruct (Z.eqb n 0); [done |]. rewrite to_bytes_app, to_of_bytes. apply plain_app; [done |].
  destruct (padded_spec 9 n Hn ltac:(lia)) as (ds & -> & _ & Hds & _). destruct (trim_zeros_split ds) as [k E].
  rewrite E in Hds. apply all_digits_app in Hds as [Ht _]. by apply plain_digits.
Qed.

Lemma plain_zone off : Z.abs off < 1440 → plain (to_bytes (zone_text off)) = true.
Proof.
  intros Ho. unfold zone_text. destruct (Z.eqb off 0); [done |]. rewrite !to_bytes_app.
  repeat apply plain_app; try (by destruct (Z.ltb off 0)); try done;
    apply plain_padded; try lia; Z.div_mod_to_equations; lia.
Qed.

Lemma marshal_time_plain off t s : marshal_time off t = Some s → plain (to_bytes s) = true.
Proof.
  unfold marshal_time. destruct (Z.leb _ _ && _ && _)%bool eqn:Hok; [| done]. intros [= <-].
  rewrite !andb_true_iff, !Z.leb_le, Z.ltb_lt in Hok. destruct Hok as [[Hy0 Hy1] Hoff]. unfold local_year in *.
  unfold format_RFC3339Nano. set (secs := t / Second + off * 60) in *.
  destruct (civil_of_days (secs / 86400)) as [[y m] d] eqn:Hciv. cbn [fst] in Hy0, Hy1.
  destruct (civil_roundtrip _ _ _ _ Hciv) as (Hm & Hd & _).
  pose proof (Z.mod_pos_bound secs 86400 ltac:(lia)) as Hs. set (r := secs mod 86400) in *. clearbody r.
  assert (Hdm : d ≤ 31) by (revert Hd; unfold days_in; repeat case_match; lia).
  pose proof (Z.mod_pos_bound t Second ltac:(done)). rewrite !to_bytes_app.
  repeat apply plain_app; try done; try (apply plain_padded; try lia; Z.div_mod_to_equations; lia).
  - by apply plain_fraction.
  - by apply plain_zone.
Qed.
