(* ===== verification/GoJson.v ===== *)
(** [encoding/json] as the program uses it: the grammar of JSON texts with
    Go's treatment of strings, the compact encoder with HTML escaping, and the
    decoding rules for struct fields, integers, strings and slices.

    The parser works on byte strings and carries a fuel argument; [parse_total]
    shows that the fuel [parse] gives it is never used up. *)

From S2P Require Import Prelude GoString.

Open Scope string_scope.
Open Scope nat_scope.

Inductive json : Type :=
| JNull
| JBool (b : bool)
| JNum (lit : string)
| JStr (s : string)
| JArr (l : list json)
| JObj (l : list (string * json)).

(** The quotation mark, code 34. *)
Abbreviation dq := (Ascii false true false false false true false false).

Definition is_char (z : Z) (c : ascii) : bool := Z.eqb (byte c) z.
Definition is_digit (c : ascii) : bool := in_range 48 57 c.

Definition hex_val (c : ascii) : option Z :=
  if in_range 48 57 c then Some (byte c - 48)%Z
  else if in_range 97 102 c then Some (byte c - 87)%Z
  else if in_range 65 70 c then Some (byte c - 55)%Z
  else None.

(** The four hexadecimal digits after [\u]. *)
Definition hex4 (a b c d : ascii) : option Z :=
  match hex_val a, hex_val b, hex_val c, hex_val d with
  | Some x, Some y, Some z, Some t => Some (((x * 16 + y) * 16 + z) * 16 + t)%Z
  | _, _, _, _ => None
  end.

Definition is_surrogate (r : Z) : bool := (Z.leb 55296 r && Z.leb r 57343)%bool.

(** [utf16.DecodeRune]. *)
Definition utf16_pair (r1 r2 : Z) : option Z :=
  if (Z.leb 55296 r1 && Z.ltb r1 56320 && Z.leb 56320 r2 && Z.ltb r2 57344)%bool
  then Some ((r1 - 55296) * 1024 + (r2 - 56320) + 65536)%Z
  else None.

Definition replacement : bytes := encode_rune RuneError.

(** The character of a two-character escape. *)
Definition simple_escape (e : ascii) : option ascii :=
  if is_char 34 e then Some e            (* quotation mark *)
  else if is_char 92 e then Some e       (* backslash *)
  else if is_char 47 e then Some e       (* slash *)
  else if is_char 98 e then Some (chr 8)
  else if is_char 102 e then Some (chr 12)
  else if is_char 110 e then Some (chr 10)
  else if is_char 114 e then Some (chr 13)
  else if is_char 116 e then Some (chr 9)
  else None.

Definition prepend (l : bytes) (r : option (bytes * bytes)) : option (bytes * bytes) :=
  match r with Some (a, b) => Some (l ++ a, b)%list | None => None end.

(** The rest of a string after its opening quotation mark: its value and what
    follows the closing mark.  Invalid UTF-8 and unpaired surrogates become
    U+FFFD, control characters are refused. *)
Fixpoint p_string (b : bytes) : option (bytes * bytes) :=
  match b with
  | [] => None
  | c0 :: b1 =>
      if is_char 34 c0 then Some ([], b1)
      else if is_char 92 c0 then
        match b1 with
        | [] => None
        | e :: b2 =>
            match simple_escape e with
            | Some x => prepend [x] (p_string b2)
            | None =>
                if is_char 117 e then
                  match b2 with
                  | h1 :: h2 :: h3 :: h4 :: b3 =>
                      match hex4 h1 h2 h3 h4 with
                      | None => None
                      | Some r =>
                          if is_surrogate r then
                            match b3 with
                            | x :: y :: g1 :: g2 :: g3 :: g4 :: b4 =>
                                match (if (is_char 92 x && is_char 117 y)%bool
                                       then hex4 g1 g2 g3 g4 else None) with
                                | Some r2 =>
                                    match utf16_pair r r2 with
                                    | Some rr => prepend (encode_rune rr) (p_string b4)
                                    | None => prepend replacement (p_string b3)
                                    end
                                | None => prepend replacement (p_string b3)
                                end
                            | _ => prepend replacement (p_string b3)
                            end
                          else prepend (encode_rune r) (p_string b3)
                      end
                  | _ => None
                  end
                else None
            end
        end
      else if Z.ltb (byte c0) 32 then None
      else if Z.ltb (byte c0) 128 then prepend [c0] (p_string b1)
      else match b1 with
      | [] => prepend replacement (p_string b1)
      | c1 :: b2 =>
          if (in_range 194 223 c0 && cont c1)%bool then prepend [c0; c1] (p_string b2)
          else match b2 with
          | [] => prepend replacement (p_string b1)
          | c2 :: b3 =>
              if (in_range 224 239 c0 && second3 c0 c1 && cont c2)%bool
              then prepend [c0; c1; c2] (p_string b3)
              else match b3 with
              | [] => prepend replacement (p_string b1)
              | c3 :: b4 =>
                  if (in_range 240 244 c0 && second4 c0 c1 && cont c2 && cont c3)%bool
                  then prepend [c0; c1; c2; c3] (p_string b4)
                  else prepend replacement (p_string b1)
              end
          end
      end
  end.

(** ** Numbers *)

Fixpoint span_digits (b : bytes) : bytes * bytes :=
  match b with
  | c :: b' => if is_digit c then let '(d, r) := span_digits b' in (c :: d, r) else ([], b)
  | [] => ([], [])
  end.

Definition p_int (b : bytes) : option (bytes * bytes) :=
  match b with
  | c :: b' =>
      if is_char 48 c then Some ([c], b')
      else if is_digit c then let '(d, r) := span_digits b' in Some (c :: d, r)
      else None
  | [] => None
  end.

Definition p_frac (b : bytes) : option (bytes * bytes) :=
  match b with
  | c :: b' =>
      if is_char 46 c then
        match span_digits b' with
        | ([], _) => None
        | (d, r) => Some (c :: d, r)
        end
      else Some ([], b)
  | [] => Some ([], b)
  end.

Definition p_exp (b : bytes) : option (bytes * bytes) :=
  match b with
  | c :: b' =>
      if (is_char 101 c || is_char 69 c)%bool then
        let '(sg, b'') :=
          match b' with
          | x :: t => if (is_char 43 x || is_char 45 x)%bool then ([x], t) else ([], b')
          | [] => ([], b')
          end in
        match span_digits b'' with
        | ([], _) => None
        | (d, r) => Some ((c :: sg) ++ d, r)%list
        end
      else Some ([], b)
  | [] => Some ([], b)
  end.

Definition p_unsigned (b : bytes) : option (bytes * bytes) :=
  match p_int b with
  | None => None
  | Some (i, b1) =>
      match p_frac b1 with
      | None => None
      | Some (f, b2) =>
          match p_exp b2 with
          | None => None
          | Some (x, b3) => Some (i ++ f ++ x, b3)%list
          end
      end
  end.

Definition p_number (b : bytes) : option (bytes * bytes) :=
  match b with
  | c :: t => if is_char 45 c then prepend [c] (p_unsigned t) else p_unsigned b
  | [] => None
  end.

(** ** Values *)

Fixpoint skip_ws (b : bytes) : bytes :=
  match b with
  | c :: b' =>
      if (is_char 32 c || is_char 9 c || is_char 10 c || is_char 13 c)%bool
      then skip_ws b' else b
  | [] => []
  end.

(** [strip_prefix l b]: what follows [l] in [b]. *)
Fixpoint strip_prefix (l b : bytes) : option bytes :=
  match l, b with
  | [], _ => Some b
  | x :: l', c :: b' => if Ascii.eqb x c then strip_prefix l' b' else None
  | _ :: _, [] => None
  end.

(** The outcome of a parser: out of fuel, a syntax error, or a value and the
    rest of the input. *)
Inductive pres (A : Type) : Type :=
| PFuel
| PErr
| POk (a : A) (rest : bytes).
Arguments PFuel {A}.
Arguments PErr {A}.
Arguments POk {A} _ _.

Definition pmap {A B : Type} (f : A → B) (r : pres A) : pres B :=
  match r with POk a rest => POk (f a) rest | PErr => PErr | PFuel => PFuel end.

Definition pbind {A B : Type} (r : pres A) (k : A → bytes → pres B) : pres B :=
  match r with POk a rest => k a rest | PErr => PErr | PFuel => PFuel end.

Definition of_option {A B : Type} (f : A → B) (o : option (A * bytes)) : pres B :=
  match o with Some (a, rest) => POk (f a) rest | None => PErr end.

(** [expect z b]: what follows the character [z], after white space. *)
Definition expect (z : Z) (b : bytes) : option bytes :=
  match skip_ws b with
  | c :: r => if is_char z c then Some r else None
  | [] => None
  end.

Definition p_literal (l : bytes) (v : json) (b : bytes) : pres json :=
  match strip_prefix l b with Some r => POk v r | None => PErr end.

(** A value that is neither an object nor an array, from its first character. *)
Definition p_scalar (c : ascii) (b : bytes) : pres json :=
  if is_char 34 c then of_option (λ s, JStr (of_bytes s)) (p_string b)
  else if is_char 116 c then p_literal (to_bytes "true") (JBool true) (c :: b)
  else if is_char 102 c then p_literal (to_bytes "false") (JBool false) (c :: b)
  else if is_char 110 c then p_literal (to_bytes "null") JNull (c :: b)
  else of_option (λ n, JNum (of_bytes n)) (p_number (c :: b)).

(** [depth] is how many more levels of nesting Go's scanner allows. *)
Fixpoint p_value (fuel depth : nat) (b : bytes) {struct fuel} : pres json :=
  match fuel with
  | O => PFuel
  | S fuel =>
      match skip_ws b with
      | [] => PErr
      | c :: b1 =>
          if is_char 123 c then
            match depth with
            | O => PErr
            | S depth =>
                match expect 125 b1 with
                | Some r => POk (JObj []) r
                | None => pmap JObj (p_members fuel depth b1)
                end
            end
          else if is_char 91 c then
            match depth with
            | O => PErr
            | S depth =>
                match expect 93 b1 with
                | Some r => POk (JArr []) r
                | None => pmap JArr (p_elems fuel depth b1)
                end
            end
          else p_scalar c b1
      end
  end
with p_members (fuel depth : nat) (b : bytes) {struct fuel} : pres (list (string * json)) :=
  match fuel with
  | O => PFuel
  | S fuel =>
      match expect 34 b with
      | None => PErr
      | Some b1 =>
          match p_string b1 with
          | None => PErr
          | Some (k, b2) =>
              match expect 58 b2 with
              | None => PErr
              | Some b3 =>
                  pbind (p_value fuel depth b3) (λ v b4,
                    match expect 125 b4 with
                    | Some r => POk [(of_bytes k, v)] r
                    | None =>
                        match expect 44 b4 with
                        | Some b5 => pmap (cons (of_bytes k, v)) (p_members fuel depth b5)
                        | None => PErr
                        end
                    end)
              end
          end
      end
  end
with p_elems (fuel depth : nat) (b : bytes) {struct fuel} : pres (list json) :=
  match fuel with
  | O => PFuel
  | S fuel =>
      pbind (p_value fuel depth b) (λ v b1,
        match expect 93 b1 with
        | Some r => POk [v] r
        | None =>
            match expect 44 b1 with
            | Some b2 => pmap (cons v) (p_elems fuel depth b2)
            | None => PErr
            end
        end)
  end.

(** Go's scanner refuses more than 10000 open arrays and objects. *)
Definition max_nesting : nat := N.to_nat 10000.

(** A whole JSON text: [None] is a syntax error. *)
Definition parse (s : string) : option json :=
  let b := to_bytes s in
  match p_value (S (2 * length b)) max_nesting b with
  | POk v r => match skip_ws r with [] => Some v | _ => None end
  | PErr | PFuel => None
  end.

(** ** The encoder *)

Definition hex_digit (z : Z) : ascii :=
  if Z.ltb z 10 then chr (48 + z) else chr (87 + z).

(** [\u00xx]. *)
Definition unicode_escape (b : Z) : bytes :=
  [chr 92; chr 117; chr 48; chr 48; hex_digit (b / 16); hex_digit (b mod 16)].

Definition quote_ascii (c : ascii) : bytes :=
  let b := byte c in
  if (Z.eqb b 92 || Z.eqb b 34)%bool then [chr 92; c]
  else if Z.eqb b 8 then [chr 92; chr 98]
  else if Z.eqb b 12 then [chr 92; chr 102]
  else if Z.eqb b 10 then [chr 92; chr 110]
  else if Z.eqb b 13 then [chr 92; chr 114]
  else if Z.eqb b 9 then [chr 92; chr 116]
  else if (Z.ltb b 32 || Z.eqb b 60 || Z.eqb b 62 || Z.eqb b 38)%bool then unicode_escape b
  else [c].

(** U+2028 and U+2029 are escaped too. *)
Definition is_line_sep (c0 c1 c2 : ascii) : bool :=
  (is_char 226 c0 && is_char 128 c1 && (is_char 168 c2 || is_char 169 c2))%bool.
Definition line_sep_escape (c2 : ascii) : bytes :=
  [chr 92; chr 117; chr 50; chr 48; chr 50; hex_digit (byte c2 - 160)].

Fixpoint quote_body (b : bytes) : bytes :=
  match b with
  | [] => []
  | c0 :: b1 =>
      if Z.ltb (byte c0) 128 then quote_ascii c0 ++ quote_body b1
      else match b1 with
      | [] => to_bytes "\ufffd" ++ quote_body b1
      | c1 :: b2 =>
          if (in_range 194 223 c0 && cont c1)%bool then [c0; c1] ++ quote_body b2
          else match b2 with
          | [] => to_bytes "\ufffd" ++ quote_body b1
          | c2 :: b3 =>
              if (in_range 224 239 c0 && second3 c0 c1 && cont c2)%bool
              then (if is_line_sep c0 c1 c2 then line_sep_escape c2 else [c0; c1; c2])
                   ++ quote_body b3
              else match b3 with
              | [] => to_bytes "\ufffd" ++ quote_body b1
              | c3 :: b4 =>
                  if (in_range 240 244 c0 && second4 c0 c1 && cont c2 && cont c3)%bool
                  then [c0; c1; c2; c3] ++ quote_body b4
                  else to_bytes "\ufffd" ++ quote_body b1
              end
          end
      end
  end%list.

Definition quote (s : string) : bytes := (dq :: quote_body (to_bytes s) ++ [dq])%list.

Definition comma : ascii := chr 44.

Fixpoint encode (v : json) : bytes :=
  match v with
  | JNull => to_bytes "null"
  | JBool true => to_bytes "true"
  | JBool false => to_bytes "false"
  | JNum lit => to_bytes lit
  | JStr s => quote s
  | JArr l =>
      [chr 91] ++
      (fix go (first : bool) (l : list json) : bytes :=
         match l with
         | [] => []
         | x :: l' => (if first then [] else [comma]) ++ encode x ++ go false l'
         end) true l
      ++ [chr 93]
  | JObj l =>
      [chr 123] ++
      (fix go (first : bool) (l : list (string * json)) : bytes :=
         match l with
         | [] => []
         | (k, x) :: l' =>
             (if first then [] else [comma]) ++ quote k ++ [chr 58] ++ encode x ++ go false l'
         end) true l
      ++ [chr 125]
  end%list.

(** ** Decoding into Go values

    [json.Unmarshal] starts from the current value of its target and reports
    the first mismatch after decoding the rest; the program drops the target
    on any error, so a mismatch is [None] here. *)

(** Field names match without regard to case: [foldName] maps the ASCII
    letters, and the two other runes that fold to one, to capitals. *)
Fixpoint fold_name (b : bytes) : bytes :=
  match b with
  | [] => []
  | c0 :: b1 =>
      if in_range 97 122 c0 then chr (byte c0 - 32) :: fold_name b1
      else match b1 with
      | c1 :: b2 =>
          if (is_char 197 c0 && is_char 191 c1)%bool then chr 83 :: fold_name b2
          else match b2 with
          | c2 :: b3 =>
              if (is_char 226 c0 && is_char 132 c1 && is_char 170 c2)%bool
              then chr 75 :: fold_name b3 else c0 :: fold_name b1
          | [] => c0 :: fold_name b1
          end
      | [] => c0 :: fold_name b1
      end
  end.

Definition is_field (name key : string) : bool :=
  bool_decide (fold_name (to_bytes name) = fold_name (to_bytes key)).

(** Decides which field a key is, in proofs. *)
Ltac eval_fields :=
  repeat match goal with |- context [is_field ?a ?b] => let v := eval vm_compute in (is_field a b) in
    change (is_field a b) with v end.

(** Into a [string] field. *)
Definition decode_string (cur : string) (v : json) : option string :=
  match v with JStr s => Some s | JNull => Some cur | _ => None end.

(** Into an [int] field: the literal must be an integer of 64 bits. *)
Fixpoint digits_value (acc : Z) (b : bytes) : option Z :=
  match b with
  | [] => Some acc
  | c :: b' => if is_digit c then digits_value (acc * 10 + (byte c - 48)) b' else None
  end.

Definition parse_int (lit : string) : option Z :=
  let r := match to_bytes lit with
           | [] => None
           | c :: b => if is_char 45 c then Z.opp <$> digits_value 0 b
                       else digits_value 0 (c :: b)
           end in
  match r with
  | Some z => if (Z.leb int64_min z && Z.leb z int64_max)%bool then Some z else None
  | None => None
  end.

Definition decode_int (cur : Z) (v : json) : option Z :=
  match v with JNum lit => parse_int lit | JNull => Some cur | _ => None end.

(** Into a struct, one member after the other; [set key v s] stores one
    member ([Some s] for a key that is no field). *)
Fixpoint decode_members {S : Type} (set : string → json → S → option S)
    (l : list (string * json)) (s : S) : option S :=
  match l with
  | [] => Some s
  | (k, v) :: l' =>
      match set k v s with Some s' => decode_members set l' s' | None => None end
  end.

Definition decode_struct {S : Type} (set : string → json → S → option S) (cur : S) (v : json)
    : option S :=
  match v with
  | JObj l => decode_members set l cur
  | JNull => Some cur
  | _ => None
  end.

(** Nesting, and the values [encode] writes faithfully: valid UTF-8 and number
    literals of the JSON grammar. *)
Fixpoint jdepth (v : json) : nat :=
  match v with
  | JArr l => S (list_max (jdepth <$> l))
  | JObj l => S (list_max ((λ p, jdepth (snd p)) <$> l))
  | _ => 0
  end.

Definition number_ok (lit : string) : bool :=
  match p_number (to_bytes lit) with
  | Some (_, []) => true
  | _ => false
  end.

Fixpoint encodable (v : json) : bool :=
  match v with
  | JNull | JBool _ => true
  | JNum lit => number_ok lit
  | JStr s => utf8_valid (to_bytes s)
  | JArr l => forallb encodable l
  | JObj l => forallb (λ p, (utf8_valid (to_bytes (fst p)) && encodable (snd p))%bool) l
  end.

(** What may follow a value inside an array or object, or at the end, where the
    text may be indented. *)
Definition stops (b : bytes) : Prop :=
  match b with
  | [] => True
  | c :: _ => byte c = 44%Z ∨ byte c = 93%Z ∨ byte c = 125%Z ∨ byte c = 10%Z
  end.

(** * Lemmas *)

Ltac all_bytes c := destruct c as [[] [] [] [] [] [] [] []].

Lemma p_string_ascii c b :
  (byte c < 128)%Z → p_string (quote_ascii c ++ b) = prepend [c] (p_string b).
Proof. intros H. all_bytes c; first [reflexivity | exfalso; revert H; by vm_compute]. Qed.

Lemma high_not_char c z : (128 ≤ byte c)%Z → (z < 128)%Z → is_char z c = false.
Proof. unfold is_char. intros. apply Z.eqb_neq. lia. Qed.

(** Unfolds one step of the string parser or encoder at a byte above 127. *)
Ltac high_byte :=
  match goal with
  | H : (128 ≤ byte ?c)%Z |- _ =>
      rewrite ?(high_not_char c 34), ?(high_not_char c 92) by lia;
      rewrite ?(proj2 (Z.ltb_ge (byte c) 128)), ?(proj2 (Z.ltb_ge (byte c) 32)) by lia
  end.

Lemma p_string_line_sep c0 c1 c2 b :
  is_line_sep c0 c1 c2 = true →
  p_string (line_sep_escape c2 ++ b) = prepend [c0; c1; c2] (p_string b).
Proof.
  unfold is_line_sep, is_char.
  rewrite !andb_true_iff, orb_true_iff, !Z.eqb_eq. intros [[H0 H1] H2].
  rewrite <-(chr_byte c0), <-(chr_byte c1), <-(chr_byte c2), H0, H1.
  destruct H2 as [-> | ->]; reflexivity.
Qed.

Lemma p_string_quote b rest :
  utf8_valid b = true → p_string (quote_body b ++ dq :: rest) = Some (b, rest).
Proof.
  revert b. apply (utf8_valid_ind (λ b, p_string (quote_body b ++ dq :: rest) = Some (b, rest))).
  - reflexivity.
  - intros c0 b Hc Hb IH. cbn [quote_body].
    rewrite (proj2 (Z.ltb_lt (byte c0) 128)) by done.
    rewrite <-(assoc_L (++)), p_string_ascii, IH by done. reflexivity.
  - intros c0 c1 b Hc E2 Hb IH. cbn [quote_body]. high_byte. rewrite E2.
    cbn [app p_string]. high_byte. rewrite E2, IH. done.
  - intros c0 c1 c2 b Hc E2 E3 Hb IH. cbn [quote_body]. high_byte. rewrite E2, E3.
    destruct (is_line_sep c0 c1 c2) eqn:EL.
    + rewrite <-(assoc_L (++)), (p_string_line_sep c0 c1), IH by done. done.
    + cbn [app p_string]. high_byte. rewrite E2, E3, IH. done.
  - intros c0 c1 c2 c3 b Hc E2 E3 E4 Hb IH. cbn [quote_body]. high_byte. rewrite E2, E3, E4.
    cbn [app p_string]. high_byte. rewrite E2, E3, E4, IH. done.
Qed.
Lemma json_ind' (P : json → Prop) :
  P JNull → (∀ b, P (JBool b)) → (∀ lit, P (JNum lit)) → (∀ s, P (JStr s)) →
  (∀ l, Forall P l → P (JArr l)) →
  (∀ l, Forall (λ p, P (snd p)) l → P (JObj l)) →
  ∀ v, P v.
Proof.
  intros H1 H2 H3 H4 H5 H6. fix IH 1.
  intros [| b | lit | s | l | l]; [exact H1 | exact (H2 b) | exact (H3 lit) | exact (H4 s) | |].
  - apply H5. induction l as [| x l IHl]; constructor; [apply IH | exact IHl].
  - apply H6. induction l as [| [k x] l IHl]; constructor; [apply IH | exact IHl].
Qed.

Lemma stops_char c b z : stops (c :: b) → z ≠ 44%Z → z ≠ 93%Z → z ≠ 125%Z → z ≠ 10%Z → is_char z c = false.
Proof. unfold stops, is_char. intros H ????. apply Z.eqb_neq. lia. Qed.

Lemma stops_digit c b : stops (c :: b) → is_digit c = false.
Proof.
  unfold stops, is_digit, in_range. intros H. apply andb_false_iff. rewrite !Z.leb_gt. lia.
Qed.

Lemma span_digits_app b d r rest :
  span_digits b = (d, r) → stops rest → span_digits (b ++ rest) = (d, (r ++ rest)%list).
Proof.
  revert d r. induction b as [| c b IH]; simpl; intros d r H Hs.
  - simplify_eq. destruct rest as [| c rest]; simpl; [done |]. by rewrite (stops_digit c rest).
  - destruct (is_digit c); [| by simplify_eq].
    destruct (span_digits b) as [d' r'] eqn:E. simplify_eq.
    by rewrite (IH _ _ eq_refl Hs).
Qed.

Lemma p_int_app b d r rest :
  p_int b = Some (d, r) → stops rest → p_int (b ++ rest) = Some (d, (r ++ rest)%list).
Proof.
  destruct b as [| c b]; simpl; [done |]. intros H Hs.
  destruct (is_char 48 c); [by simplify_eq |]. destruct (is_digit c); [| done].
  destruct (span_digits b) as [d' r'] eqn:E. simplify_eq.
  by rewrite (span_digits_app _ _ _ _ E Hs).
Qed.

Lemma p_frac_app b d r rest :
  p_frac b = Some (d, r) → stops rest → p_frac (b ++ rest) = Some (d, (r ++ rest)%list).
Proof.
  destruct b as [| c b]; simpl; intros H Hs.
  - simplify_eq. destruct rest as [| c rest]; simpl; [done |].
    by rewrite (stops_char c rest 46).
  - destruct (is_char 46 c); [| by simplify_eq].
    destruct (span_digits b) as [d' r'] eqn:E.
    rewrite (span_digits_app _ _ _ _ E Hs). by destruct d'; simplify_eq.
Qed.

Lemma p_exp_app b d r rest :
  p_exp b = Some (d, r) → stops rest → p_exp (b ++ rest) = Some (d, (r ++ rest)%list).
Proof.
  destruct b as [| c b]; simpl; intros H Hs.
  - simplify_eq. destruct rest as [| c rest]; simpl; [done |].
    by rewrite (stops_char c rest 101), (stops_char c rest 69).
  - destruct (is_char 101 c || is_char 69 c)%bool; [| by simplify_eq].
    destruct b as [| x b]; simpl in *; [done |].
    destruct (is_char 43 x || is_char 45 x)%bool.
    + destruct (span_digits b) as [d' r'] eqn:E.
      rewrite (span_digits_app _ _ _ _ E Hs). by destruct d'; simplify_eq.
    + destruct (span_digits (x :: b)) as [d' r'] eqn:E.
      change (x :: b ++ rest)%list with ((x :: b) ++ rest)%list.
      rewrite (span_digits_app _ _ _ _ E Hs). simpl in E. by destruct d'; simplify_eq.
Qed.


Lemma p_unsigned_app b n r rest :
  p_unsigned b = Some (n, r) → stops rest → p_unsigned (b ++ rest) = Some (n, (r ++ rest)%list).
Proof.
  unfold p_unsigned. intros H Hs.
  destruct (p_int b) as [[i b1] |] eqn:E1; [| done]. rewrite (p_int_app _ _ _ _ E1 Hs).
  destruct (p_frac b1) as [[f b2] |] eqn:E2; [| done]. rewrite (p_frac_app _ _ _ _ E2 Hs).
  destruct (p_exp b2) as [[x b3] |] eqn:E3; [| done]. rewrite (p_exp_app _ _ _ _ E3 Hs).
  by simplify_eq.
Qed.

Lemma p_number_app b n r rest :
  p_number b = Some (n, r) → stops rest → p_number (b ++ rest) = Some (n, (r ++ rest)%list).
Proof.
  destruct b as [| c b]; simpl; [done |]. intros H Hs.
  destruct (is_char 45 c); [| by apply (p_unsigned_app (c :: b))].
  destruct (p_unsigned b) as [[n' r'] |] eqn:E; [| done].
  rewrite (p_unsigned_app _ _ _ _ E Hs). by simplify_eq/=.
Qed.

(** ** What a parser consumes *)

Lemma span_digits_split b d r : span_digits b = (d, r) → b = (d ++ r)%list.
Proof.
  revert d r. induction b as [| c b IH]; simpl; intros d r H; [by simplify_eq |].
  destruct (is_digit c); [| by simplify_eq].
  destruct (span_digits b) as [d' r']. simplify_eq. simpl. by rewrite (IH _ _ eq_refl).
Qed.

Lemma p_unsigned_split b n r : p_unsigned b = Some (n, r) → b = (n ++ r)%list ∧ n ≠ [].
Proof.
  unfold p_unsigned, p_int, p_frac, p_exp. intros H.
  repeat (case_match; simplify_eq/=);
    repeat match goal with E : span_digits _ = (_, _) |- _ => apply span_digits_split in E end;
    simplify_list_eq; done.
Qed.

Lemma p_number_split b n r : p_number b = Some (n, r) → b = (n ++ r)%list ∧ n ≠ [].
Proof.
  destruct b as [| c b]; simpl; [done |]. destruct (is_char 45 c); [| apply p_unsigned_split].
  destruct (p_unsigned b) as [[n' r'] |] eqn:E; [| done].
  apply p_unsigned_split in E as [-> _]. intros. by simplify_eq/=.
Qed.

(** With more than [2 * length b] units of fuel the parser reaches an answer,
    and an answer leaves a shorter input. *)
Definition answers {A} (n : nat) (r : pres A) : Prop :=
  match r with PFuel => False | PErr => True | POk _ rest => length rest < n end.

Lemma prepend_Some l o s r :
  prepend l o = Some (s, r) → ∃ s', o = Some (s', r) ∧ s = (l ++ s')%list.
Proof. destruct o as [[a b] |]; simpl; intros; simplify_eq; eauto. Qed.

Lemma p_string_shorter b s r : p_string b = Some (s, r) → length r < length b.
Proof.
  revert s r.
  induction (well_founded_ltof _ (@length ascii) b) as [b _ IH]. unfold ltof in IH.
  intros s r. destruct b as [| c0 b1]; [done |]. cbn [p_string].
  repeat (case_match; simplify_eq; try done);
    try (intros (s' & H' & _)%prepend_Some; apply IH in H'; simpl in *; lia);
    intros; simplify_eq/=; lia.
Qed.

Lemma skip_ws_length b : length (skip_ws b) ≤ length b.
Proof. induction b as [| c b IH]; simpl; [done |]. case_match; simpl; lia. Qed.

Lemma expect_shorter z b r : expect z b = Some r → length r < length b.
Proof.
  unfold expect. pose proof (skip_ws_length b). destruct (skip_ws b); [done |].
  simpl in *. case_match; intros; simplify_eq; lia.
Qed.

Lemma strip_prefix_length l b r : strip_prefix l b = Some r → length b = length l + length r.
Proof.
  revert b. induction l as [| x l IH]; intros b; simpl; [by intros [= ->] |].
  destruct b as [| c b]; [done |]. case_match; [| done]. intros H'%IH. simpl. lia.
Qed.

Lemma answers_mono {A} n m (r : pres A) : answers n r → n ≤ m → answers m r.
Proof. destruct r; simpl; auto. lia. Qed.

Lemma answers_pmap {A B} n m (f : A → B) r : answers n r → n ≤ m → answers m (pmap f r).
Proof. destruct r; simpl; auto. lia. Qed.

Lemma answers_pbind {A B} n m (r : pres A) (k : A → bytes → pres B) :
  answers n r → (∀ a b, length b < n → answers m (k a b)) → answers m (pbind r k).
Proof. destruct r; simpl; auto. Qed.

Lemma p_literal_answers l v b : l ≠ [] → answers (length b) (p_literal l v b).
Proof.
  unfold p_literal. intros Hl. destruct (strip_prefix l b) eqn:E; simpl; [| done].
  apply strip_prefix_length in E. destruct l; simpl in *; [done | lia].
Qed.

Lemma p_scalar_answers c b : answers (S (length b)) (p_scalar c b).
Proof.
  unfold p_scalar. repeat case_match; try (by apply (p_literal_answers _ _ (c :: b))).
  - destruct (p_string b) as [[s r] |] eqn:E; simpl; [| done].
    apply p_string_shorter in E. lia.
  - destruct (p_number (c :: b)) as [[n r] |] eqn:E; simpl; [| done].
    apply p_number_split in E as [E Hn]. apply (f_equal length) in E.
    rewrite length_app in E. destruct n; simpl in *; [done | lia].
Qed.

(** What follows a member or an element: a closing character, or a comma and
    the rest of the list. *)
Lemma list_tail_answers {A} z n b (last : A) (more : bytes → pres A) :
  length b < n → (∀ b', length b' < length b → answers n (more b')) →
  answers n (match expect z b with
             | Some r => POk last r
             | None => match expect 44 b with Some b' => more b' | None => PErr end
             end).
Proof.
  intros Hb Hm. destruct (expect z b) eqn:E1; simpl; [apply expect_shorter in E1; lia |].
  destruct (expect 44 b) eqn:E2; simpl; [| done]. apply Hm. by apply expect_shorter in E2.
Qed.

Lemma p_value_answers fuel :
  (∀ depth b, 2 * length b < fuel → answers (length b) (p_value fuel depth b)) ∧
  (∀ depth b, 2 * length b + 1 < fuel → answers (length b) (p_members fuel depth b)) ∧
  (∀ depth b, 2 * length b + 1 < fuel → answers (length b) (p_elems fuel depth b)).
Proof.
  induction fuel as [| fuel (IHv & IHm & IHe)]; [split_and!; intros; lia |].
  split_and!; intros depth b Hf; cbn [p_value p_members p_elems].
  - pose proof (skip_ws_length b) as Hws. destruct (skip_ws b) as [| c b1] eqn:Eb; [done |].
    simpl in Hws.
    destruct (is_char 123 c); [| destruct (is_char 91 c)].
    + destruct depth as [| depth]; [done |]. destruct (expect 125 b1) eqn:E; simpl.
      * apply expect_shorter in E. lia.
      * eapply answers_pmap; [apply IHm |]; lia.
    + destruct depth as [| depth]; [done |]. destruct (expect 93 b1) eqn:E; simpl.
      * apply expect_shorter in E. lia.
      * eapply answers_pmap; [apply IHe |]; lia.
    + eapply answers_mono; [apply p_scalar_answers | lia].
  - destruct (expect 34 b) as [b1 |] eqn:E1; [| done].
    destruct (p_string b1) as [[k b2] |] eqn:E2; [| done].
    destruct (expect 58 b2) as [b3 |] eqn:E3; [| done].
    apply expect_shorter in E1, E3. apply p_string_shorter in E2.
    eapply answers_pbind; [apply IHv; lia |]. intros v b4 H4.
    apply list_tail_answers; [lia |]. intros b5 H5. eapply answers_pmap; [apply IHm |]; lia.
  - eapply answers_pbind; [apply IHv; lia |]. intros v b1 H1.
    apply list_tail_answers; [lia |]. intros b2 H2. eapply answers_pmap; [apply IHe |]; lia.
Qed.

(** The fuel of [parse] is always enough: its [None] is a syntax error. *)
Lemma parse_total s : p_value (S (2 * length (to_bytes s))) max_nesting (to_bytes s) ≠ PFuel.
Proof.
  intros H. pose proof (proj1 (p_value_answers (S (2 * length (to_bytes s)))) max_nesting (to_bytes s)) as Ha.
  rewrite H in Ha. apply Ha. lia.
Qed.

(** ** Texts of arrays and objects from the texts of their values *)

Fixpoint joined (l : list bytes) : bytes :=
  match l with
  | [] => []
  | [x] => x
  | x :: l' => x ++ comma :: joined l'
  end%list.

Definition array_bytes (l : list bytes) : bytes := ([chr 91] ++ joined l ++ [chr 93])%list.
Definition member_bytes (m : string * bytes) : bytes := (quote m.1 ++ chr 58 :: m.2)%list.
Definition object_bytes (l : list (string * bytes)) : bytes :=
  ([chr 123] ++ joined (member_bytes <$> l) ++ [chr 125])%list.

Definition encode_elems : bool → list json → bytes :=
  fix go (first : bool) (l : list json) : bytes :=
    match l with
    | [] => []
    | x :: l' => (if first then [] else [comma]) ++ encode x ++ go false l'
    end%list.

Definition encode_members : bool → list (string * json) → bytes :=
  fix go (first : bool) (l : list (string * json)) : bytes :=
    match l with
    | [] => []
    | (k, x) :: l' =>
        (if first then [] else [comma]) ++ quote k ++ [chr 58] ++ encode x ++ go false l'
    end%list.

Definition encoded_member (p : string * json) : string * bytes := (p.1, encode p.2).

Lemma encode_elems_joined l x first :
  encode_elems first (x :: l) = ((if first then [] else [comma]) ++ joined (encode <$> x :: l))%list.
Proof.
  revert x first. induction l as [| y l IH]; intros x first; [cbn; by rewrite app_nil_r |].
  change (encode_elems first (x :: y :: l)) with ((if first then [] else [comma]) ++ encode x ++ encode_elems false (y :: l))%list.
  by rewrite IH.
Qed.

Lemma encode_members_joined l p first :
  encode_members first (p :: l) =
  ((if first then [] else [comma]) ++ joined (member_bytes <$> (encoded_member <$> p :: l)))%list.
Proof.
  revert p first. induction l as [| q l IH]; intros [k x] first.
  { unfold member_bytes, encoded_member. cbn. by rewrite app_nil_r. }
  change (encode_members first ((k, x) :: q :: l)) with
    ((if first then [] else [comma]) ++ quote k ++ [chr 58] ++ encode x ++ encode_members false (q :: l))%list.
  change (joined (member_bytes <$> (encoded_member <$> (k, x) :: q :: l))) with
    ((quote k ++ chr 58 :: encode x) ++ comma :: joined (member_bytes <$> (encoded_member <$> q :: l)))%list.
  by rewrite IH, <-!(assoc_L (++)).
Qed.

Lemma encode_JArr l : encode (JArr l) = array_bytes (encode <$> l).
Proof. destruct l as [| x l]; [done |].
  change (encode (JArr (x :: l))) with ([chr 91] ++ encode_elems true (x :: l) ++ [chr 93])%list.
  by rewrite encode_elems_joined.
Qed.

Lemma encode_JObj l : encode (JObj l) = object_bytes (encoded_member <$> l).
Proof. destruct l as [| p l]; [done |].
  change (encode (JObj (p :: l))) with ([chr 123] ++ encode_members true (p :: l) ++ [chr 125])%list.
  by rewrite encode_members_joined.
Qed.

(** A first character of an encoded value: not white space, a comma or a
    closing bracket. *)
Definition starts (c : ascii) : Prop := skip_ws [c] = [c] ∧ is_char 93 c = false.

Lemma number_first lit : number_ok lit = true →
  ∃ c t, to_bytes lit = c :: t ∧ (is_char 45 c = true ∨ is_digit c = true).
Proof.
  unfold number_ok, p_number, p_unsigned, p_int. destruct (to_bytes lit) as [| c t]; [done |].
  intros H. exists c, t. split; [done |]. destruct (is_char 45 c) eqn:E1; [by left | right].
  destruct (is_digit c) eqn:E2; [done |]. destruct (is_char 48 c) eqn:E3; [| done].
  unfold is_char, is_digit, in_range in *. apply Z.eqb_eq in E3. by rewrite E3 in E2.
Qed.

Lemma number_first_char c z :
  is_char 45 c = true ∨ is_digit c = true → z ≠ 45%Z → (z < 48 ∨ 57 < z)%Z → is_char z c = false.
Proof.
  unfold is_char, is_digit, in_range. rewrite andb_true_iff, !Z.leb_le, Z.eqb_eq, Z.eqb_neq. lia.
Qed.

Lemma encode_starts v : encodable v = true → ∃ c t, encode v = c :: t ∧ starts c.
Proof.
  destruct v as [| [] | lit | s | l | l]; intros H;
    try (eexists _, _; split; [reflexivity | by split]).
  destruct (number_first lit H) as (c & t & E & Hc). exists c, t. split; [done |].
  unfold starts. simpl. rewrite !(number_first_char c) by (done || lia). done.
Qed.

Lemma skip_ws_starts c t : starts c → skip_ws (c :: t) = c :: t.
Proof. unfold starts. simpl. case_match; [intros [H' _] |]; done. Qed.

Lemma number_ok_split lit : number_ok lit = true → p_number (to_bytes lit) = Some (to_bytes lit, []).
Proof.
  unfold number_ok. destruct (p_number (to_bytes lit)) as [[n []] |] eqn:E; try done. intros _.
  apply p_number_split in E as [E _]. by rewrite E, (right_id_L [] (++)).
Qed.

Lemma stops_comma b : stops (comma :: b).
Proof. by left. Qed.
Lemma stops_bracket b : stops (chr 93 :: b).
Proof. by right; left. Qed.
Lemma stops_brace b : stops (chr 125 :: b).
Proof. by right; right; left. Qed.
Lemma stops_line b : stops (chr 10 :: b).
Proof. by right; right; right. Qed.
#[local] Hint Resolve stops_comma stops_bracket stops_brace : core.

Lemma expect_comma b : expect 44 (comma :: b) = Some b.
Proof. reflexivity. Qed.
Lemma expect_not_comma z b : z ≠ 44%Z → expect z (comma :: b) = None.
Proof. intros. unfold expect. simpl. unfold is_char. by rewrite (proj2 (Z.eqb_neq _ _)). Qed.
Lemma expect_dq b : expect 34 (dq :: b) = Some b.
Proof. reflexivity. Qed.
Lemma expect_colon b : expect 58 (chr 58 :: b) = Some b.
Proof. reflexivity. Qed.

(** ** Members with the text of each value

    The bytes read from [b] when [rest] is left. *)
Definition read_of (b rest : bytes) : bytes := take (length b - length rest) b.

(** The members of an object with the bytes of each value, as [p_members]
    reads them. *)
Fixpoint raw_members (fuel depth : nat) (b : bytes) : pres (list (string * (json * bytes))) :=
  match fuel with
  | O => PFuel
  | S fuel =>
      match expect 34 b with
      | None => PErr
      | Some b1 =>
          match p_string b1 with
          | None => PErr
          | Some (k, b2) =>
              match expect 58 b2 with
              | None => PErr
              | Some b3 =>
                  pbind (p_value fuel depth b3) (λ v b4,
                    let item := (of_bytes k, (v, read_of (skip_ws b3) b4)) in
                    match expect 125 b4 with
                    | Some r => POk [item] r
                    | None =>
                        match expect 44 b4 with
                        | Some b5 => pmap (cons item) (raw_members fuel depth b5)
                        | None => PErr
                        end
                    end)
              end
          end
      end
  end.


Definition forget_raw (m : string * (json * bytes)) : string * json := (m.1, m.2.1).

Lemma raw_members_values fuel depth b :
  pmap (fmap forget_raw) (raw_members fuel depth b) = p_members fuel depth b.
Proof.
  revert depth b. induction fuel as [| fuel IH]; intros depth b; cbn [raw_members p_members]; [done |].
  destruct (expect 34 b) as [b1 |]; [| done]. destruct (p_string b1) as [[k b2] |]; [| done].
  destruct (expect 58 b2) as [b3 |]; [| done]. destruct (p_value fuel depth b3) as [| | v b4]; try done.
  cbn [pbind]. destruct (expect 125 b4) as [r |]; [done |]. destruct (expect 44 b4) as [b5 |]; [| done].
  rewrite <-IH. by destruct (raw_members fuel depth b5).
Qed.


Lemma read_of_app l r : read_of (l ++ r)%list r = l.
Proof. unfold read_of. rewrite length_app. by rewrite Nat.add_sub, take_app_length. Qed.

(** ** A text that is read as a value, in any context that may follow one *)

Definition reads (depth : nat) (b : bytes) (v : json) : Prop :=
  (∃ c t, b = c :: t ∧ starts c) ∧
  ∀ fuel rest, stops rest → 2 * length b < fuel → p_value fuel depth (b ++ rest) = POk v rest.

Lemma reads_skip depth b v rest : reads depth b v → skip_ws (b ++ rest)%list = (b ++ rest)%list.
Proof. intros [(c & t & -> & Hc) _]. by apply skip_ws_starts. Qed.

Definition read_member (depth : nat) (m : string * (json * bytes)) : Prop :=
  utf8_valid (to_bytes m.1) = true ∧ reads depth m.2.2 m.2.1.

Definition raw_member (m : string * (json * bytes)) : string * bytes := (m.1, m.2.2).

Lemma p_elems_reads depth l :
  Forall (λ x, reads depth x.2 x.1) l → l ≠ [] → ∀ fuel rest, 2 * length (joined l.*2) + 1 < fuel →
  p_elems fuel depth (joined l.*2 ++ chr 93 :: rest) = POk l.*1 rest.
Proof.
  induction 1 as [| [v b] l [_ Hv] Hl IH]; [done |]. intros _ fuel rest Hf.
  destruct fuel as [| fuel]; [lia |]. cbn [p_elems fmap list_fmap fst snd] in *.
  destruct l as [| y l].
  - cbn [joined fmap list_fmap] in *. by rewrite Hv by first [apply stops_bracket | lia].
  - change (joined (b :: (y :: l).*2)) with (b ++ comma :: joined (y :: l).*2)%list in *.
    rewrite length_app in Hf. cbn [length] in Hf. rewrite <-(assoc_L (++)), Hv by first [apply stops_comma | lia].
    cbn [pbind app]. rewrite expect_comma, !expect_not_comma by done. by rewrite IH by (done || lia).
Qed.

Lemma raw_members_reads depth l :
  Forall (read_member depth) l → l ≠ [] → ∀ fuel rest,
  2 * length (joined (member_bytes <$> (raw_member <$> l))) + 1 < fuel →
  raw_members fuel depth (joined (member_bytes <$> (raw_member <$> l)) ++ chr 125 :: rest) = POk l rest.
Proof.
  induction 1 as [| [k [v b]] l [Hk Hv] Hl IH]; [done |]. intros _ fuel rest Hf. cbn [fst snd] in *.
  destruct fuel as [| fuel]; [lia |].
  assert (Hhead : ∀ tl, raw_members (S fuel) depth (member_bytes (k, b) ++ tl)%list =
    pbind (p_value fuel depth (b ++ tl)) (λ v b4, let item := (k, (v, read_of (b ++ tl)%list b4)) in
      match expect 125 b4 with
      | Some r => POk [item] r
      | None => match expect 44 b4 with Some b5 => pmap (cons item) (raw_members fuel depth b5) | None => PErr end
      end)).
  { intros tl. cbn [raw_members]. unfold member_bytes, quote. cbn [fst snd app]. rewrite expect_dq, <-!(assoc_L (++)).
    cbn [app]. rewrite p_string_quote by done. by rewrite expect_colon, of_to_bytes, (reads_skip _ _ _ _ Hv). }
  assert (Hb : length b < length (member_bytes (k, b))).
  { unfold member_bytes. rewrite length_app. cbn. lia. }
  destruct l as [| m l].
  - cbn [fmap list_fmap joined raw_member fst snd] in *. unfold raw_member in *. cbn [fst snd] in *. rewrite Hhead.
    rewrite (proj2 Hv) by first [apply stops_brace | lia]. cbn [pbind]. by rewrite read_of_app.
  - change (joined (member_bytes <$> (raw_member <$> (k, (v, b)) :: m :: l))) with
      (member_bytes (k, b) ++ comma :: joined (member_bytes <$> (raw_member <$> m :: l)))%list in *.
    rewrite length_app in Hf. cbn [length] in Hf. rewrite <-(assoc_L (++)), Hhead.
    rewrite (proj2 Hv) by first [apply stops_comma | lia]. cbn [pbind app]. rewrite read_of_app.
    rewrite expect_comma, !expect_not_comma by done. by rewrite IH by (done || lia).
Qed.

Lemma reads_array depth l :
  Forall (λ x, reads depth x.2 x.1) l → reads (S depth) (array_bytes l.*2) (JArr l.*1).
Proof.
  intros Hl. split; [by eexists _, _ |]. intros fuel rest Hs Hf. destruct fuel as [| fuel]; [lia |].
  destruct l as [| [v b] l]; [done |]. unfold array_bytes in *. cbn [app p_value].
  rewrite (skip_ws_starts (chr 91)), <-(assoc_L (++)) by done. simpl (is_char _ (chr 91)). cbn [app].
  assert (expect 93 (joined ((v, b) :: l).*2 ++ chr 93 :: rest)%list = None) as ->.
  { destruct (Forall_cons_1 _ _ _ Hl) as [[(c & t & E & Hc) _] _]. cbn [snd] in E. subst b.
    unfold expect. destruct l; cbn [fmap list_fmap joined snd app]; rewrite skip_ws_starts by done; by destruct Hc as [_ ->]. }
  rewrite length_app, length_app in Hf. cbn [length] in Hf. by rewrite p_elems_reads by (done || lia).
Qed.

Lemma joined_quoted m (l : list (string * bytes)) : ∃ t, joined (member_bytes <$> m :: l) = dq :: t.
Proof. destruct l; eexists; reflexivity. Qed.

(** An object, after its opening brace. *)
Definition raw_object (fuel depth : nat) (b : bytes) : pres (list (string * (json * bytes))) :=
  match expect 125 b with Some r => POk [] r | None => raw_members fuel depth b end.

Lemma raw_object_reads depth l : Forall (read_member depth) l → ∀ fuel rest,
  2 * length (joined (member_bytes <$> (raw_member <$> l))) + 1 < fuel →
  raw_object fuel depth (joined (member_bytes <$> (raw_member <$> l)) ++ chr 125 :: rest) = POk l rest.
Proof.
  intros Hl fuel rest Hf. destruct l as [| m l]; [done |]. unfold raw_object.
  pose proof (raw_members_reads depth (m :: l) Hl ltac:(done) fuel rest Hf) as Hr. revert Hr.
  change (raw_member <$> m :: l) with (raw_member m :: (raw_member <$> l)).
  by destruct (joined_quoted (raw_member m) (raw_member <$> l)) as [t ->].
Qed.

Lemma raw_object_values fuel depth b :
  pmap (fmap forget_raw) (raw_object fuel depth b) =
  match expect 125 b with Some r => POk [] r | None => p_members fuel depth b end.
Proof. unfold raw_object. destruct (expect 125 b); [done | apply raw_members_values]. Qed.

Lemma reads_object depth l :
  Forall (read_member depth) l → reads (S depth) (object_bytes (raw_member <$> l)) (JObj (forget_raw <$> l)).
Proof.
  intros Hl. split; [by eexists _, _ |]. intros fuel rest Hs Hf. destruct fuel as [| fuel]; [lia |].
  unfold object_bytes in *. cbn [app p_value]. rewrite (skip_ws_starts (chr 123)), <-(assoc_L (++)) by done.
  simpl (is_char _ (chr 123)). cbn [app]. rewrite !length_app in Hf. cbn [length] in Hf.
  pose proof (raw_object_values fuel depth (joined (member_bytes <$> (raw_member <$> l)) ++ chr 125 :: rest)%list) as Hv.
  rewrite raw_object_reads in Hv by (done || lia). cbn [pmap] in Hv.
  destruct (expect 125 _) as [r |]; [by injection Hv as <- <- |]. by rewrite <-Hv.
Qed.

(** ** Texts of scalars *)

Lemma reads_number depth lit : number_ok lit = true → reads depth (to_bytes lit) (JNum lit).
Proof.
  intros He. destruct (number_first lit He) as (c & t & E & Hc).
  assert (Hst : starts c) by (split; simpl; rewrite !(number_first_char c) by (done || lia); done).
  split; [by eexists _, _ |]. intros fuel rest Hs Hf. destruct fuel as [| fuel]; [lia |].
  rewrite E. cbn [app p_value]. rewrite skip_ws_starts by done.
  unfold p_scalar. rewrite !(number_first_char c) by (done || lia).
  change (c :: t ++ rest)%list with ((c :: t) ++ rest)%list. rewrite <-E.
  rewrite (p_number_app _ _ _ rest (number_ok_split lit He) Hs). simpl. by rewrite of_to_bytes.
Qed.

Lemma reads_string depth s : utf8_valid (to_bytes s) = true → reads depth (quote s) (JStr s).
Proof.
  intros Hs. split; [by eexists _, _ |]. intros fuel rest _ Hf. destruct fuel as [| fuel]; [lia |].
  unfold quote. cbn [app p_value]. rewrite <-(assoc_L (++)). rewrite (skip_ws_starts dq) by done. cbn [app].
  unfold p_scalar. simpl (is_char _ dq). rewrite p_string_quote by done. simpl. by rewrite of_to_bytes.
Qed.

Lemma reads_literal depth v : v = JNull ∨ (∃ b, v = JBool b) → reads depth (encode v) v.
Proof.
  intros Hv. split; [destruct Hv as [-> | [[] ->]]; by eexists _, _ |].
  intros fuel rest _ Hf. destruct fuel as [| fuel]; [lia |]. by destruct Hv as [-> | [[] ->]].
Qed.

Lemma list_max_map_le {A} (f : A → nat) l n x : list_max (f <$> l) ≤ n → x ∈ l → f x ≤ n.
Proof.
  induction l as [| y l IH]; cbn; [by rewrite elem_of_nil |]. intros Hm [-> | Hx]%elem_of_cons; [lia |].
  apply IH; [| done]. etrans; [apply Nat.le_max_r | exact Hm].
Qed.

(** What the encoder writes is read back. *)
Lemma reads_encode v : encodable v = true → ∀ depth, jdepth v ≤ depth → reads depth (encode v) v.
Proof.
  induction v as [| b | lit | s | l IH | l IH] using json_ind'; intros He depth Hd.
  - apply reads_literal. by left.
  - apply reads_literal. right. by exists b.
  - by apply reads_number.
  - by apply reads_string.
  - cbn in Hd. destruct depth as [| depth]; [lia |]. rewrite encode_JArr.
    pose proof (reads_array depth ((λ x, (x, encode x)) <$> l)) as Ha. rewrite <-!list_fmap_compose in Ha. cbn in Ha.
    rewrite list_fmap_id in Ha. apply Ha. apply Forall_fmap. cbn in He. rewrite forallb_forall in He.
    rewrite Forall_forall in IH |- *. intros x Hx. cbn. apply list_elem_of_In in Hx as Hin. apply IH; [done | auto |].
    apply le_S_n in Hd. by apply list_max_map_le with (x := x) in Hd.
  - cbn in Hd. destruct depth as [| depth]; [lia |]. rewrite encode_JObj.
    pose proof (reads_object depth ((λ p, (p.1, (p.2, encode p.2))) <$> l)) as Ho. rewrite <-!list_fmap_compose in Ho. cbn in Ho.
    unfold compose, raw_member, forget_raw in Ho. cbn in Ho.
    rewrite (list_fmap_ext (λ x, (x.1, x.2)) id l) in Ho by (by intros i []). rewrite list_fmap_id in Ho. apply Ho.
    apply Forall_fmap. cbn in He. rewrite forallb_forall in He.
    rewrite Forall_forall in IH |- *. intros [k x] Hx. apply list_elem_of_In in Hx as Hin. specialize (He _ Hx). cbn in He.
    apply andb_true_iff in He as [Hk Hex]. split; [done |]. cbn. apply (IH (k, x)); [done | done |].
    apply le_S_n in Hd. by apply list_max_map_le with (x := (k, x)) in Hd.
Qed.

Lemma p_value_encode v : encodable v = true → ∀ fuel depth rest,
  jdepth v ≤ depth → stops rest → 2 * length (encode v) < fuel → p_value fuel depth (encode v ++ rest) = POk v rest.
Proof. intros He fuel depth rest Hd Hs Hf. by apply (reads_encode v He depth Hd). Qed.

(** [json.Unmarshal] of what [json.Marshal] wrote: the encoder's text parses
    back to the value it was given. *)
Lemma parse_reads b v : reads max_nesting b v → parse (of_bytes b) = Some v.
Proof.
  intros [_ Hv]. unfold parse. rewrite to_of_bytes.
  rewrite <-(right_id_L [] (++)) at 2. by rewrite Hv by (done || lia).
Qed.

Lemma parse_encode v :
  encodable v = true → jdepth v ≤ max_nesting → parse (of_bytes (encode v)) = Some v.
Proof. intros He Hd. by apply parse_reads, reads_encode. Qed.
