(* ===== verification/GoUrl.v ===== *)
(** Functions of [strings] on separators, and the query part of a URL
    ([net/url]). *)

From S2P Require Import Prelude GoString GoJson.

Open Scope string_scope.

(** [strings.HasPrefix] and [strings.TrimPrefix]. *)
Definition has_prefix (p s : string) : bool :=
  match strip_prefix (to_bytes p) (to_bytes s) with Some _ => true | None => false end.
Definition TrimPrefix (s p : string) : string :=
  match strip_prefix (to_bytes p) (to_bytes s) with Some r => of_bytes r | None => s end.

(** [strings.Split(s, sep)] with a separator of one byte. *)
Fixpoint split_bytes (sep : Z) (b : bytes) : list bytes :=
  match b with
  | [] => [[]]
  | c :: b' =>
      if is_char sep c then [] :: split_bytes sep b'
      else match split_bytes sep b' with
           | p :: ps => (c :: p) :: ps
           | [] => [[c]]
           end
  end.
Definition Split (s : string) (sep : Z) : list string := of_bytes <$> split_bytes sep (to_bytes s).

(** [strings.Trim(s, cutset)] with a cutset of one byte. *)
Fixpoint drop_char (z : Z) (b : bytes) : bytes :=
  match b with c :: b' => if is_char z c then drop_char z b' else b | [] => [] end.
Definition Trim (s : string) (z : Z) : string :=
  of_bytes (reverse (drop_char z (reverse (drop_char z (to_bytes s))))).

(** [strings.TrimRight], the same. *)
Definition TrimRight (s : string) (z : Z) : string := of_bytes (reverse (drop_char z (reverse (to_bytes s)))).

(** [strings.Cut] at a byte: before it, and after it. *)
Fixpoint cut (sep : Z) (b : bytes) : bytes * bytes :=
  match b with
  | [] => ([], [])
  | c :: b' => if is_char sep c then ([], b') else let '(l, r) := cut sep b' in (c :: l, r)
  end.

(** [url.QueryUnescape]. *)
Fixpoint query_unescape (b : bytes) : option bytes :=
  match b with
  | [] => Some []
  | c :: b1 =>
      if is_char 37 c then
        match b1 with
        | h :: l :: b2 =>
            match hex_val h, hex_val l with
            | Some x, Some y => cons (chr (16 * x + y)) <$> query_unescape b2
            | _, _ => None
            end
        | _ => None
        end
      else cons (if is_char 43 c then chr 32 else c) <$> query_unescape b1
  end.

(** One setting of a query; [None] is skipped. *)
Definition query_setting (b : bytes) : option (string * string) :=
  if existsb (is_char 59) b then None
  else match b with
  | [] => None
  | _ =>
      let '(k, v) := cut 61 b in
      k ← query_unescape k;
      v ← query_unescape v;
      Some (of_bytes k, of_bytes v)
  end.

(** [u.Query().Get(key)]: the first value of the key. *)
Definition query_get (raw key : string) : string :=
  default "" (snd <$> find (λ p, String.eqb p.1 key) (omap query_setting (split_bytes 38 (to_bytes raw)))).

Example query_get_ex :
  query_get "a=1&limit=%32+0&limit=7;x&limit=9" "limit" = "2 0" ∧ query_get "limit" "limit" = "" ∧
  query_get "limit=%zz&limit=5" "limit" = "5" ∧ query_get "" "limit" = "".
Proof. vm_compute. auto. Qed.

Example Trim_ex : Trim "//a/b/" 47 = "a/b" ∧ Split "a/b//c" 47 = ["a"; "b"; ""; "c"] ∧ Split "" 47 = [""] ∧
  TrimPrefix "/api/tasks/x" "/api/tasks/" = "x".
Proof. vm_compute. auto. Qed.

(** * Lemmas *)

Definition has_no (z : Z) (b : bytes) : Prop := Forall (λ c, is_char z c = false) b.

Lemma has_prefix_app p s : has_prefix p (p +:+ s) = true ∧ TrimPrefix (p +:+ s) p = s.
Proof.
  unfold has_prefix, TrimPrefix. rewrite to_bytes_app.
  assert (strip_prefix (to_bytes p) (to_bytes p ++ to_bytes s)%list = Some (to_bytes s)) as ->.
  { induction (to_bytes p) as [| c b IH]; cbn; [done |]. by rewrite Ascii.eqb_refl. }
  split; [done |]. apply of_to_bytes.
Qed.

Lemma drop_char_id z b : has_no z b → drop_char z b = b.
Proof. intros Hb. destruct b as [| c b]; [done |]. apply Forall_cons_1 in Hb as [Hc _]. cbn. by rewrite Hc. Qed.

Lemma split_bytes_no z b : has_no z b → split_bytes z b = [b].
Proof. induction 1 as [| c b Hc _ IH]; cbn; [done |]. by rewrite Hc, IH. Qed.

Lemma split_bytes_two z a sep b : has_no z a → is_char z sep = true → split_bytes z (a ++ sep :: b)%list = a :: split_bytes z b.
Proof. intros Ha Hs. induction Ha as [| c a Hc _ IH]; cbn; [by rewrite Hs |]. by rewrite Hc, IH. Qed.

(** Trimming a text that neither starts nor ends with the byte. *)
Lemma drop_char_app z a b : has_no z a → a ≠ [] → drop_char z (a ++ b)%list = (a ++ b)%list.
Proof. intros Ha Hne. destruct a as [| c a]; [done |]. apply Forall_cons_1 in Ha as [Hc _]. cbn. by rewrite Hc. Qed.

Lemma trim_two z a sep b :
  has_no z a → a ≠ [] → has_no z b → b ≠ [] →
  reverse (drop_char z (reverse (drop_char z (a ++ sep :: b)%list))) = (a ++ sep :: b)%list.
Proof.
  intros Ha Hane Hb Hbne. rewrite (drop_char_app z a) by done.
  rewrite reverse_app, reverse_cons, <-!(assoc_L (++)).
  rewrite drop_char_app; [| by apply Forall_reverse | intros Hr; apply Hbne; by rewrite <-(reverse_involutive b), Hr].
  by rewrite (assoc_L (++)), <-reverse_cons, <-reverse_app, reverse_involutive.
Qed.
