(* ===== verification/GoFlag.v ===== *)
(** The package [flag], as a command uses it with [flag.Parse]: the flags it has
    defined, with the values they have so far, and the reading of arguments. *)

From S2P Require Import Prelude GoString GoFloat GoStrconv GoTime GoJson GoUrl.

Open Scope string_scope.

(** [strconv.ParseBool]. *)
Definition ParseBool (s : string) : option bool :=
  if bool_decide (s ∈ ["1"; "t"; "T"; "true"; "TRUE"; "True"]) then Some true
  else if bool_decide (s ∈ ["0"; "f"; "F"; "false"; "FALSE"; "False"]) then Some false
  else None.

(** The value of a flag, of the kind it was defined with. *)
Inductive flag_value : Type :=
| VString (s : string)
| VInt (z : Z)
| VDuration (d : Z)
| VBool (b : bool).

(** [fv.Set(text)]; [None] is its error. *)
Definition set_value (v : flag_value) (text : string) : option flag_value :=
  match v with
  | VString _ => Some (VString text)
  | VInt _ => VInt <$> ParseInt0 (to_bytes text)
  | VDuration _ => VDuration <$> ParseDuration text
  | VBool _ => VBool <$> ParseBool text
  end.

Definition IsBoolFlag (v : flag_value) : bool := match v with VBool _ => true | _ => false end.

Inductive flag_error : Type :=
| BadSyntax (arg : string)
| NotDefined (name : string)
| Help
| NeedsArgument (name : string)
| InvalidValue (value name : string)
| InvalidBoolean (value name : string).

(** The name and the value of an argument, from after its dashes: the value
    follows the first [=] that is not at the front. *)
Definition name_value (b : bytes) : bytes * option bytes :=
  match b with
  | c :: b' =>
      if existsb (is_char 61) b' then let '(n, v) := cut 61 b' in (c :: n, Some v) else (b, None)
  | [] => ([], None)
  end.

Inductive argument : Type :=
| NotAFlag                     (* the flags are over *)
| Terminator                   (* the two dashes that end the flags *)
| Malformed
| Flag (name : string) (value : option string).

Definition classify (s : string) : argument :=
  match to_bytes s with
  | d :: ((c :: b') as b) =>
      if negb (is_char 45 d) then NotAFlag
      else
        let b := if is_char 45 c then b' else b in
        match b with
        | [] => Terminator
        | n :: _ =>
            if (is_char 45 n || is_char 61 n)%bool then Malformed
            else let '(name, value) := name_value b in Flag (of_bytes name) (of_bytes <$> value)
        end
  | _ => NotAFlag
  end.

Abbreviation flag_set := (gmap string flag_value).

(** [f.Parse(arguments)]: the flags, and the arguments that are left. *)
Fixpoint Parse (f : flag_set) (args : list string) : flag_error + (flag_set * list string) :=
  match args with
  | [] => inr (f, [])
  | s :: rest =>
      match classify s with
      | NotAFlag => inr (f, args)
      | Terminator => inr (f, rest)
      | Malformed => inl (BadSyntax s)
      | Flag name value =>
          match f !! name with
          | None => inl (if (String.eqb name "help" || String.eqb name "h")%bool then Help else NotDefined name)
          | Some v =>
              if IsBoolFlag v then
                let text := default "true" value in
                match set_value v text with
                | Some v' => Parse (<[name := v']> f) rest
                | None => inl (InvalidBoolean text name)
                end
              else
                match value with
                | Some text =>
                    match set_value v text with
                    | Some v' => Parse (<[name := v']> f) rest
                    | None => inl (InvalidValue text name)
                    end
                | None =>
                    match rest with
                    | [] => inl (NeedsArgument name)
                    | text :: rest =>
                        match set_value v text with
                        | Some v' => Parse (<[name := v']> f) rest
                        | None => inl (InvalidValue text name)
                        end
                    end
                end
          end
      end
  end.

Definition demo_formal : flag_set :=
  {["n" := VInt 1%Z; "wait" := VDuration 0%Z; "json" := VBool false; "out" := VString ""]}.

Definition demo_parse (args : list string) : flag_error + (list (option flag_value) * list string) :=
  let? r := Parse demo_formal args in inr ((λ k, r.1 !! k) <$> ["n"; "wait"; "json"; "out"], r.2).

Example parse_ex :
  demo_parse ["-n=0x10"; "--wait"; "1.5s"; "-json"; "-out=a=b"; "-n"; "7"; "rest"; "-n=9"] =
    inr ([Some (VInt 7%Z); Some (VDuration 1500000000%Z); Some (VBool true); Some (VString "a=b")], ["rest"; "-n=9"]) ∧
  demo_parse ["-n=x"] = inl (InvalidValue "x" "n") ∧ demo_parse ["-n"] = inl (NeedsArgument "n") ∧
  demo_parse ["-json"; "false"] = inr ([Some (VInt 1%Z); Some (VDuration 0%Z); Some (VBool true); Some (VString "")], ["false"]) ∧
  demo_parse ["-json=2"] = inl (InvalidBoolean "2" "json") ∧ demo_parse ["--=x"] = inl (BadSyntax "--=x") ∧
  demo_parse ["-m=1"] = inl (NotDefined "m") ∧ demo_parse ["-h"] = inl Help ∧
  demo_parse ["-"; "-n=2"] = inr ([Some (VInt 1%Z); Some (VDuration 0%Z); Some (VBool false); Some (VString "")], ["-"; "-n=2"]) ∧
  demo_parse ["--"; "-n=2"] = inr ([Some (VInt 1%Z); Some (VDuration 0%Z); Some (VBool false); Some (VString "")], ["-n=2"]).
Proof. vm_compute. auto 20. Qed.

(** * The kind of a flag does not change, and its value stays in its range *)

Definition kind (v : flag_value) : nat := match v with VString _ => 0 | VInt _ => 1 | VDuration _ => 2 | VBool _ => 3 end.

Definition in_int64 (v : flag_value) : Prop :=
  match v with VInt z | VDuration z => (int64_min ≤ z ≤ int64_max)%Z | _ => True end.

Lemma set_value_ok v text v' : set_value v text = Some v' → kind v' = kind v ∧ in_int64 v'.
Proof.
  destruct v; cbn; rewrite ?fmap_Some; [intros [= <-]; done | intros (x & Hx & ->) ..]; (split; [done |]).
  - by eapply ParseInt0_range.
  - by eapply ParseDuration_range.
  - done.
Qed.

Definition same_kinds (f f' : flag_set) : Prop := ∀ name, kind <$> f' !! name = kind <$> f !! name.

#[export] Instance same_kinds_preorder : PreOrder same_kinds.
Proof. split; [by intros f name | intros f g h Hf Hg name; by rewrite Hg]. Qed.

Lemma insert_kind (f : flag_set) name v v' : f !! name = Some v → kind v' = kind v → same_kinds f (<[name := v']> f).
Proof.
  intros Hv Hk other. destruct (decide (other = name)) as [-> | Hne]; [by rewrite lookup_insert_eq, Hv; cbn; rewrite Hk |].
  by rewrite lookup_insert_ne.
Qed.

Lemma Parse_kinds args f f' rest : Parse f args = inr (f', rest) →
  same_kinds f f' ∧ (map_Forall (λ _, in_int64) f → map_Forall (λ _, in_int64) f').
Proof.
  revert f. induction args as [args IH] using (induction_ltof1 _ length). unfold ltof in IH. intros f.
  assert (Hset : ∀ name v text v' tl, f !! name = Some v → set_value v text = Some v' → length tl < length args →
    Parse (<[name := v']> f) tl = inr (f', rest) → same_kinds f f' ∧ (map_Forall (λ _, in_int64) f → map_Forall (λ _, in_int64) f')).
  { intros name v text v' tl Hv Hs Hl Hp. apply set_value_ok in Hs as [Hk Hr]. apply IH in Hp as [Hp Hin]; [| done].
    split; [etrans; [by eapply insert_kind | done] |]. intros Hf. apply Hin. by apply map_Forall_insert_2. }
  destruct args as [| s tl]; cbn [Parse]; [by intros [= <- <-] |]. cbn [length] in *.
  destruct (classify s) as [| | | name value]; try (by intros [= <- <-]).
  destruct (f !! name) as [v |] eqn:Hv; [| done].
  destruct (IsBoolFlag v); [| destruct value as [text |]; [| destruct tl as [| text tl]; [done |]]];
    (destruct (set_value v _) as [v' |] eqn:Hs; [| done]); eapply Hset; try done; cbn; lia.
Qed.
