(* ===== verification/GoUrlParse.v ===== *)
(** [url.Parse] of [net/url]: the scheme and the host of a URL, and which texts are
    no URLs.  The parts that nothing here reads (user, fragment, the escaped path)
    are checked and dropped. *)

From S2P Require Import Prelude GoString GoFloat GoJson GoUrl.

Open Scope string_scope.
Open Scope list_scope.

(** * Escapes *)

Inductive encoding : Type := encodePath | encodeHost | encodeZone | encodeUserPassword | encodeFragment.

Definition is_alnum (c : ascii) : bool := (in_range 97 122 c || in_range 65 90 c || in_range 48 57 c)%bool.
Definition one_of (s : string) (c : ascii) : bool := existsb (Ascii.eqb c) (to_bytes s).

(** [shouldEscape(c, mode)] in a host: what RFC 3986 allows there, and the angle
    brackets and the quotation mark. *)
Definition host_escape (c : ascii) : bool :=
  negb (is_alnum c || one_of "!$&'()*+,;=:[]<>" c || is_char 34 c || one_of "-_.~" c).

Definition is_host (mode : encoding) : bool := match mode with encodeHost | encodeZone => true | _ => false end.

(** [unescape(s, mode)], for the modes in which a plus sign is no space. *)
Fixpoint unescape (mode : encoding) (b : bytes) : option bytes :=
  match b with
  | [] => Some []
  | c :: b1 =>
      if is_char 37 c then
        match b1 with
        | h :: l :: b2 =>
            match hex_val h, hex_val l with
            | Some x, Some y =>
                let percent := (is_char 50 h && is_char 53 l)%bool in
                let v := chr (16 * x + y) in
                if match mode with
                   | encodeHost => (Z.ltb x 8 && negb percent)%bool
                   | encodeZone => (negb percent && negb (is_char 32 v) && host_escape v)%bool
                   | _ => false
                   end then None
                else cons v <$> unescape mode b2
            | _, _ => None
            end
        | _ => None
        end
      else if (is_host mode && Z.ltb (byte c) 128 && host_escape c)%bool then None
      else cons c <$> unescape mode b1
  end.

(** * The parts of a URL *)

(** [strings.Cut] of the last [sep]: what is before it, if it is there, and after. *)
Fixpoint cut_last (sep : Z) (b : bytes) : option (bytes * bytes) :=
  match b with
  | [] => None
  | c :: b' =>
      match cut_last sep b' with
      | Some (l, r) => Some (c :: l, r)
      | None => if is_char sep c then Some ([], b') else None
      end
  end.

(** A colon and decimal digits, or nothing. *)
Definition validOptionalPort (port : bytes) : bool :=
  match port with [] => true | c :: ds => (is_char 58 c && forallb (in_range 48 57) ds)%bool end.

(** The text before the first [%25], and from it on. *)
Fixpoint find_zone (b : bytes) : option (bytes * bytes) :=
  match b with
  | [] => None
  | c :: b' =>
      if match strip_prefix (to_bytes "%25") b with Some _ => true | None => false end then Some ([], b)
      else match find_zone b' with Some (l, r) => Some (c :: l, r) | None => None end
  end.

Definition parseHost (host : bytes) : option bytes :=
  match host with
  | c :: _ =>
      if is_char 91 c then
        match cut_last 93 host with
        | None => None
        | Some (before, colonPort) =>
            if validOptionalPort colonPort then
              match find_zone before with
              | Some (address, zone) =>
                  a ← unescape encodeHost address;
                  z ← unescape encodeZone zone;
                  r ← unescape encodeHost (chr 93 :: colonPort);
                  Some (a ++ z ++ r)
              | None => unescape encodeHost host
              end
            else None
        end
      else
        match cut_last 58 host with
        | Some (_, port) => if forallb (in_range 48 57) port then unescape encodeHost host else None
        | None => unescape encodeHost host
        end
  | [] => Some []
  end.

Definition validUserinfo (b : bytes) : bool := forallb (λ c, is_alnum c || one_of "-._:~!$&'()*+,;=%@" c)%bool b.

Definition parseAuthority (authority : bytes) : option bytes :=
  match cut_last 64 authority with
  | None => parseHost authority
  | Some (userinfo, host) =>
      host ← parseHost host;
      if validUserinfo userinfo then
        let '(username, password) := cut 58 userinfo in
        _ ← unescape encodeUserPassword username;
        _ ← unescape encodeUserPassword password;
        Some host
      else None
  end.

(** A letter, or what may follow one in a scheme. *)
Definition scheme_letter (c : ascii) : bool := (in_range 97 122 c || in_range 65 90 c)%bool.
Definition scheme_char (c : ascii) : bool := (in_range 48 57 c || one_of "+-." c)%bool.

(** [getScheme], after the first letter of [b]; [None] when there is no scheme. *)
Fixpoint scheme_rest (b : bytes) : option (bytes * bytes) :=
  match b with
  | [] => None
  | c :: b' =>
      if (scheme_letter c || scheme_char c)%bool then
        match scheme_rest b' with Some (s, r) => Some (c :: s, r) | None => None end
      else if is_char 58 c then Some ([], b') else None
  end.

(** [None]: an error; the scheme is empty when there is none. *)
Definition getScheme (b : bytes) : option (bytes * bytes) :=
  match b with
  | c :: b' =>
      if is_char 58 c then None
      else if scheme_letter c then
        match scheme_rest b' with Some (s, r) => Some (c :: s, r) | None => Some ([], b) end
      else Some ([], b)
  | [] => Some ([], b)
  end.

Definition to_lower (c : ascii) : ascii := if in_range 65 90 c then chr (byte c + 32) else c.

Record URL : Type := mkURL {
  u_Scheme : string;
  u_Opaque : string;
  u_Host : string;
  u_Path : string;
  u_RawQuery : string;
}.

Definition has_ctl (b : bytes) : bool := existsb (λ c, Z.ltb (byte c) 32 || is_char 127 c)%bool b.
Definition starts_with (p : string) (b : bytes) : bool :=
  match strip_prefix (to_bytes p) b with Some _ => true | None => false end.

(** [parse], without the fragment; a single question mark at the end is an empty
    query. *)
Definition parse_url (b : bytes) : option URL :=
  if has_ctl b then None
  else if bool_decide (b = to_bytes "*") then Some (mkURL "" "" "" "*" "")
  else
    '(scheme, rest) ← getScheme b;
    let scheme := of_bytes (to_lower <$> scheme) in
    let '(rest, query) := cut 63 rest in
    if (negb (starts_with "/" rest) && negb (String.eqb scheme ""))%bool
    then Some (mkURL scheme (of_bytes rest) "" "" (of_bytes query))
    else if (negb (starts_with "/" rest) && existsb (is_char 58) (cut 47 rest).1)%bool then None
    else
      let authority := ((negb (String.eqb scheme "") || negb (starts_with "///" rest)) && starts_with "//" rest)%bool in
      let '(host, rest) :=
        if authority then
          let b := drop 2 rest in
          let a := (cut 47 b).1 in (parseAuthority a, drop (length a) b)
        else (Some [], rest) in
      host ← host;
      path ← unescape encodePath rest;
      Some (mkURL scheme "" (of_bytes host) (of_bytes path) (of_bytes query)).

(** [url.Parse]; [None] is an error. *)
Definition url_Parse (s : string) : option URL :=
  let '(b, fragment) := cut 35 (to_bytes s) in
  u ← parse_url b;
  _ ← unescape encodeFragment fragment;
  Some u.

Definition scheme_and_host (s : string) : option (string * string) := (λ u, (u_Scheme u, u_Host u)) <$> url_Parse s.

Example url_Parse_ex :
  scheme_and_host <$> ["http://otel-collector:4318"; "HTTPS://collector.example/v1/traces?x=1#f"; "localhost:4318"; "127.0.0.1:4318";
    "otel-collector"; "http://[::1]:4318/"; "http://user:pw@host:1/"; "http://host:port/"; "http://a b/"; "//host/x"; "http:///x";
    ""; "http://[fe80::1%25en0]:80/"; "http://a%41/"; ":4318"; "http://host/%zz"; "*"; "///a"] =
  [Some ("http", "otel-collector:4318"); Some ("https", "collector.example"); Some ("localhost", ""); None;
   Some ("", ""); Some ("http", "[::1]:4318"); Some ("http", "host:1"); None; None; Some ("", "host"); Some ("http", "");
   Some ("", ""); Some ("http", "[fe80::1%en0]:80"); None; None; None; Some ("", ""); Some ("", "")].
Proof. vm_compute. reflexivity. Qed.

(** * Plain hosts and ports *)

(** A character of a host name. *)
Definition host_char (c : ascii) : bool := (is_alnum c || is_char 45 c || is_char 46 c)%bool.

Lemma host_char_facts c : host_char c = true →
  is_char 37 c = false ∧ host_escape c = false ∧ is_char 47 c = false ∧ is_char 63 c = false ∧ is_char 35 c = false ∧
  is_char 64 c = false ∧ is_char 58 c = false ∧ is_char 91 c = false ∧ (Z.ltb (byte c) 32 || is_char 127 c)%bool = false.
Proof. intros Hc. revert Hc. all_bytes c; vm_compute; first [discriminate | auto 20]. Qed.

Lemma has_no_app z a b : has_no z (a ++ b) ↔ has_no z a ∧ has_no z b.
Proof. apply list.Forall_app. Qed.

Lemma cut_no z b : has_no z b → cut z b = (b, []).
Proof. induction 1 as [| c b Hc _ IH]; cbn; [done |]. by rewrite Hc, IH. Qed.

Lemma cut_last_no z b : has_no z b → cut_last z b = None.
Proof. induction 1 as [| c b Hc _ IH]; cbn; [done |]. by rewrite IH, Hc. Qed.

Lemma cut_last_at z a sep b : has_no z b → is_char z sep = true → cut_last z (a ++ sep :: b) = Some (a, b).
Proof. intros Hb Hs. induction a as [| c a IH]; cbn; [by rewrite (cut_last_no z b Hb), Hs | by rewrite IH]. Qed.

Lemma unescape_plain mode b : has_no 37 b → forallb (λ c, negb (host_escape c)) b = true → unescape mode b = Some b.
Proof.
  induction 1 as [| c b Hc _ IH]; cbn; [done |]. rewrite andb_true_iff, negb_true_iff. intros [He Hb].
  rewrite Hc, He, andb_false_r. cbn. by rewrite IH.
Qed.

(** A host name, with a port or without. *)
Definition plain_host (h : bytes) : Prop :=
  ∃ name port, h = name ++ port ∧ name ≠ [] ∧ Forall (λ c, host_char c = true) name ∧
    (port = [] ∨ ∃ ds, port = chr 58 :: ds ∧ all_digits ds).

Lemma digit_host_char c : in_range 48 57 c = true → host_char c = true.
Proof. unfold host_char, is_alnum. intros ->. by rewrite !orb_true_r. Qed.

Definition host_port_char (c : ascii) : bool := (host_char c || is_char 58 c)%bool.

Lemma plain_host_chars h : plain_host h → Forall (λ c, host_port_char c = true) h.
Proof.
  intros (name & port & -> & _ & Hn & Hp). apply list.Forall_app. unfold host_port_char. split.
  - eapply list.Forall_impl; [exact Hn |]. by intros c ->.
  - destruct Hp as [-> | (ds & -> & Hd)]; [by apply Forall_nil_2 |]. apply Forall_cons_2; [done |].
    eapply list.Forall_impl; [exact Hd |]. by intros c ->%digit_host_char.
Qed.

Lemma host_port_facts c : host_port_char c = true →
  is_char 37 c = false ∧ host_escape c = false ∧ is_char 47 c = false ∧ is_char 63 c = false ∧ is_char 35 c = false ∧
  is_char 64 c = false ∧ is_char 91 c = false ∧ (Z.ltb (byte c) 32 || is_char 127 c)%bool = false.
Proof. intros Hc. revert Hc. all_bytes c; vm_compute; first [discriminate | auto 20]. Qed.

Lemma host_no z h : Forall (λ c, host_port_char c = true) h → z ∈ [37; 47; 63; 35; 64; 91]%Z → has_no z h.
Proof.
  intros Hh Hz. eapply list.Forall_impl; [exact Hh |]. intros c Hc%host_port_facts.
  rewrite !elem_of_cons, elem_of_nil in Hz. naive_solver.
Qed.

Lemma parseHost_plain h : plain_host h → parseHost h = Some h.
Proof.
  intros Hh. pose proof (plain_host_chars h Hh) as Hc. destruct Hh as (name & port & -> & Hne & Hn & Hp).
  assert (Hu : unescape encodeHost (name ++ port) = Some (name ++ port)).
  { apply unescape_plain; [by apply host_no; [| set_solver] |]. apply forallb_forall. intros c Hin%list_elem_of_In.
    rewrite list.Forall_forall in Hc. by destruct (host_port_facts c (Hc _ Hin)) as (_ & -> & _). }
  destruct name as [| c name]; [done |]. unfold parseHost. cbn [app]. cbn [app] in Hc, Hu.
  pose proof (Forall_inv Hc) as Hc1. destruct (host_port_facts c Hc1) as (_ & _ & _ & _ & _ & _ & -> & _).
  change (c :: name ++ port) with ((c :: name) ++ port) in *. destruct Hp as [-> | (ds & -> & Hd)].
  - rewrite app_nil_r in *. rewrite cut_last_no; [done |]. eapply list.Forall_impl; [exact Hn |].
    intros x Hx%host_char_facts. tauto.
  - rewrite cut_last_at; [| | done].
    + assert (forallb (in_range 48 57) ds = true) as ->; [| done]. apply forallb_forall. intros x Hx%list_elem_of_In.
      unfold all_digits in Hd. rewrite list.Forall_forall in Hd. auto.
    + eapply list.Forall_impl; [exact Hd |]. intros x Hx%digit_host_char%host_char_facts. tauto.
Qed.

(** The URL of a host. *)
Lemma parse_url_host scheme h : scheme = "http" ∨ scheme = "https" → plain_host h →
  parse_url (to_bytes scheme ++ to_bytes "://" ++ h) = Some (mkURL scheme "" (of_bytes h) "" "").
Proof.
  intros Hs Hh. pose proof (plain_host_chars h Hh) as Hc. unfold parse_url.
  assert (has_ctl (to_bytes scheme ++ to_bytes "://" ++ h) = false) as ->.
  { unfold has_ctl. rewrite !existsb_app. assert (existsb (λ c, Z.ltb (byte c) 32 || is_char 127 c)%bool h = false) as ->.
    { apply not_true_is_false. rewrite existsb_exists. intros (x & Hx%list_elem_of_In & Hb). rewrite list.Forall_forall in Hc.
      destruct (host_port_facts x (Hc _ Hx)) as (_ & _ & _ & _ & _ & _ & _ & E). congruence. }
    by destruct Hs as [-> | ->]. }
  rewrite bool_decide_eq_false_2 by (by destruct Hs as [-> | ->]).
  assert (getScheme (to_bytes scheme ++ to_bytes "://" ++ h) = Some (to_bytes scheme, to_bytes "//" ++ h)) as ->
    by (by destruct Hs as [-> | ->]).
  cbn [mbind option_bind]. rewrite (cut_no 63).
  2: { apply has_no_app. split; [by repeat constructor |]. apply host_no; [done | set_solver]. }
  assert (of_bytes (to_lower <$> to_bytes scheme) = scheme) as -> by (by destruct Hs as [-> | ->]).
  change (starts_with "/" (to_bytes "//" ++ h)) with true. change (starts_with "//" (to_bytes "//" ++ h)) with true.
  assert (String.eqb scheme "" = false) as -> by (by destruct Hs as [-> | ->]). cbn [negb andb orb].
  change (drop 2 (to_bytes "//" ++ h)) with h. rewrite (cut_no 47) by (apply host_no; [done | set_solver]). cbn [fst].
  unfold parseAuthority. rewrite cut_last_no by (apply host_no; [done | set_solver]). rewrite parseHost_plain by done.
  by rewrite drop_all.
Qed.

Lemma url_Parse_host scheme h : scheme = "http" ∨ scheme = "https" → plain_host (to_bytes h) →
  url_Parse (scheme +:+ "://" +:+ h) = Some (mkURL scheme "" h "" "").
Proof.
  intros Hs Hh. unfold url_Parse. rewrite !to_bytes_app. rewrite (cut_no 35).
  - by rewrite parse_url_host, of_to_bytes.
  - apply has_no_app. split; [destruct Hs as [-> | ->]; by repeat constructor |]. apply has_no_app. split; [by repeat constructor |].
    apply host_no; [by apply plain_host_chars | set_solver].
Qed.

(** A text without a slash is no URL with a host. *)
Lemma scheme_rest_no z b s r : has_no z b → scheme_rest b = Some (s, r) → has_no z r.
Proof.
  intros Hb. revert s r. induction Hb as [| c b Hc Hb IH]; intros s r; cbn; [done |].
  destruct (_ || _)%bool; [| by case_match; intros [= <- <-]].
  destruct (scheme_rest b) as [[s' r'] |]; [| done]. intros [= <- <-]. by eapply IH.
Qed.

Lemma cut_no_left z sep b : has_no z b → has_no z (cut sep b).1.
Proof.
  induction 1 as [| c b Hc _ IH]; cbn; [by apply Forall_nil_2 |]. case_match; [by apply Forall_nil_2 |].
  destruct (cut sep b). by apply Forall_cons_2.
Qed.

Lemma no_slash_start p b : has_no 47 b → starts_with ("/" +:+ p) b = false.
Proof.
  intros Hb. unfold starts_with. rewrite to_bytes_app. change (to_bytes "/") with [chr 47]. cbn [app strip_prefix].
  destruct Hb as [| c b Hc _]; [done |]. unfold is_char in Hc. destruct (Ascii.eqb_spec (chr 47) c) as [<- |]; [done |].
  done.
Qed.

Lemma no_slash_no_host s u : has_no 47 (to_bytes s) → url_Parse s = Some u → u_Host u = "".
Proof.
  intros Hs. unfold url_Parse. pose proof (cut_no_left 47 35 _ Hs) as Hb. destruct (cut 35 (to_bytes s)) as [b fragment]. cbn [fst] in Hb.
  destruct (parse_url b) as [u' |] eqn:Hu; [| done]. cbn. destruct (unescape encodeFragment fragment); [| done]. cbn. intros [= ->].
  revert Hu. unfold parse_url. destruct (has_ctl b); [done |]. case_bool_decide; [by intros [= <-] |].
  destruct (getScheme b) as [[scheme rest] |] eqn:Hg; [| done]. cbn [mbind option_bind].
  assert (Hr : has_no 47 rest).
  { unfold getScheme in Hg. destruct b as [| c b']; [by injection Hg as <- <- |]. destruct (is_char 58 c); [done |].
    destruct (scheme_letter c); [| by injection Hg as <- <-]. apply Forall_cons_1 in Hb as [Hc Hb'].
    destruct (scheme_rest b') as [[s' r'] |] eqn:Er; injection Hg as <- <-; [by eapply scheme_rest_no | by apply Forall_cons_2]. }
  pose proof (cut_no_left 47 63 _ Hr) as Hr'. destruct (cut 63 rest) as [r query]. cbn [fst] in Hr'.
  change (starts_with "/" r) with (starts_with ("/" +:+ "") r). rewrite (no_slash_start "" r Hr'). change (starts_with "//" r) with (starts_with ("/" +:+ "/") r). rewrite (no_slash_start "/" r Hr').
  rewrite andb_false_r. cbn [negb andb]. destruct (negb _); [by intros [= <-] |]. destruct (existsb _ _); [done |].
  cbn [mbind option_bind]. destruct (unescape encodePath r); [| done]. by intros [= <-].
Qed.
