(* ===== verification/GoDecoder.v ===== *)
(** [json.NewDecoder(r).Decode(&v)] into a struct with [json.RawMessage]
    fields: the first value of the text is decoded, what follows it is left
    unread, and a raw field takes the bytes of its value. *)

From S2P Require Import Prelude GoString GoJson.

Open Scope string_scope.

(** The fields are set one after the other; [set key v raw s] stores one. *)
Definition set_fields {S : Type} (set : string → json → string → S → option S)
    (l : list (string * (json * bytes))) (s : S) : option S :=
  foldl (λ acc m, s ← acc; set m.1 m.2.1 (of_bytes m.2.2) s) (Some s) l.

Definition Decode {S : Type} (set : string → json → string → S → option S) (zero : S) (body : string) : option S :=
  let b := skip_ws (to_bytes body) in
  let fuel := 2 * length b in
  match b with
  | c :: b1 =>
      if is_char 123 c then
        match raw_object fuel (pred max_nesting) b1 with
        | POk l _ => set_fields set l zero
        | PErr | PFuel => None
        end
      else match p_value (Datatypes.S fuel) max_nesting b with
           | POk JNull _ => Some zero
           | _ => None
           end
  | [] => None
  end.

(** A slice while it is decoded into: its backing array and its length, since
    decoding into it again starts from the elements that are there. *)
Record slice (A : Type) : Type := mk_slice { sl_backing : list A; sl_len : nat }.
Arguments mk_slice {A} _ _.
Arguments sl_backing {A} _.
Arguments sl_len {A} _.

Definition nil_slice {A} : slice A := mk_slice [] 0.
Definition items {A} (s : slice A) : list A := take (sl_len s) (sl_backing s).

Fixpoint decode_elems {A} (zero : A) (dec : A → json → option A) (backing : list A) (l : list json) : option (list A) :=
  match l with
  | [] => Some backing
  | v :: l' =>
      x ← dec (default zero (head backing)) v;
      rest ← decode_elems zero dec (tail backing) l';
      Some (x :: rest)
  end.

Definition decode_slice {A} (zero : A) (dec : A → json → option A) (s : slice A) (v : json) : option (slice A) :=
  match v with
  | JNull | JArr [] => Some nil_slice
  | JArr l => b ← decode_elems zero dec (sl_backing s) l; Some (mk_slice b (length l))
  | _ => None
  end.

(** The decoder never runs out of fuel: what it refuses is refused by the
    grammar or by a field. *)
Lemma raw_object_answers fuel depth b : (2 * length b + 1 < fuel)%nat → raw_object fuel depth b ≠ PFuel.
Proof.
  unfold raw_object. intros Hlt Hf. destruct (expect 125 b); [done |].
  pose proof (raw_members_values fuel depth b) as Hv. rewrite Hf in Hv. cbn in Hv.
  pose proof (proj1 (proj2 (p_value_answers fuel)) depth b Hlt) as Ha. by rewrite <-Hv in Ha.
Qed.

(** Decoding the text of an object, whatever follows it. *)
Lemma Decode_object {S} set (zero : S) l rest :
  Forall (read_member (pred max_nesting)) l →
  Decode set zero (of_bytes (object_bytes (raw_member <$> l) ++ rest)%list) = set_fields set l zero.
Proof.
  intros Hl. unfold Decode, object_bytes. rewrite to_of_bytes, <-!(assoc_L (++)).
  cbn [app]. rewrite (skip_ws_starts (chr 123)) by done. simpl (is_char 123 (chr 123)). cbv iota.
  rewrite raw_object_reads; [done | done |]. cbn [length]. rewrite !length_app. cbn [length]. lia.
Qed.

(** What the encoder wrote is read back, each value with its own text. *)
Lemma Decode_encode {S} set (zero : S) l rest :
  encodable (JObj l) = true → (jdepth (JObj l) ≤ max_nesting)%nat →
  Decode set zero (of_bytes (encode (JObj l) ++ rest)%list) =
  set_fields set ((λ p, (p.1, (p.2, encode p.2))) <$> l) zero.
Proof.
  intros He Hd. rewrite <-Decode_object with (rest := rest); [by rewrite encode_JObj, <-list_fmap_compose |].
  apply Forall_fmap, Forall_forall. intros [k x] Hx. cbn in He. rewrite forallb_forall in He.
  specialize (He _ Hx). apply andb_true_iff in He as [Hk Hex]. split; [done |]. apply reads_encode; [done |].
  cbn [jdepth snd] in Hd |- *. apply list_elem_of_In in Hx.
  change max_nesting with (Datatypes.S (pred max_nesting)) in Hd. apply le_S_n in Hd.
  by apply (list_max_map_le (λ p, jdepth p.2)) with (x := (k, x)) in Hd.
Qed.

(** Decoding into a nil slice. *)
Definition slice_of {A} (l : list A) : slice A := mk_slice l (length l).

Lemma items_slice_of {A} (l : list A) : items (slice_of l) = l.
Proof. apply firstn_all. Qed.

Lemma decode_nil_slice {A} (zero : A) dec l r :
  Forall2 (λ v x, dec zero v = Some x) l r → decode_slice zero dec nil_slice (JArr l) = Some (slice_of r).
Proof.
  intros Hl. assert (He : decode_elems zero dec [] l = Some r).
  { induction Hl as [| v x l r Hx _ IH]; cbn; [done |]. by rewrite Hx; cbn; rewrite IH. }
  unfold slice_of. rewrite <-(list.Forall2_length _ _ _ Hl). destruct l as [| v l].
  - by apply Forall2_nil_inv_l in Hl as ->.
  - cbn [decode_slice sl_backing nil_slice]. by rewrite He.
Qed.

Lemma decode_members_app {S} (set : string → json → S → option S) l1 l2 s :
  decode_members set (l1 ++ l2) s = decode_members set l1 s ≫= decode_members set l2.
Proof.
  revert s. induction l1 as [| [k v] l1 IH]; intros s; cbn; [done |]. by destruct (set k v s); cbn.
Qed.
