(* ===== verification/GoEncoder.v ===== *)
(** [json.RawMessage] inside a marshalled value: the encoder compacts the text
    (white space goes, [<], [>], [&] and the line separators inside strings are
    escaped), and what it writes is read as the value of the text. *)

From S2P Require Import Prelude GoString GoJson.

Open Scope string_scope.

(** * The compactor *)

Definition is_space (c : ascii) : bool := (is_char 32 c || is_char 9 c || is_char 10 c || is_char 13 c)%bool.
Definition is_html (c : ascii) : bool := (is_char 60 c || is_char 62 c || is_char 38 c)%bool.

(** [in_string]: the position is inside a string.  The text is valid JSON. *)
Fixpoint compact (in_string : bool) (b : bytes) : bytes :=
  match b with
  | [] => []
  | c :: b1 =>
      if in_string then
        if is_char 34 c then c :: compact false b1
        else if is_char 92 c then
          match b1 with e :: b2 => c :: e :: compact true b2 | [] => [c] end
        else if is_html c then unicode_escape (byte c) ++ compact true b1
        else match b1 with
             | c1 :: c2 :: b3 =>
                 if is_line_sep c c1 c2 then line_sep_escape c2 ++ compact true b3 else c :: compact true b1
             | _ => c :: compact true b1
             end
      else if is_space c then compact false b1
      else c :: compact (is_char 34 c) b1
  end%list.

(** [RawMessage.MarshalJSON] and the compactor: nil is [null], and a text that
    is not JSON is an error. *)
Definition marshal_raw (raw : string) : option bytes :=
  if String.eqb raw "" then Some (to_bytes "null")
  else match parse raw with
       | Some _ => Some (compact false (to_bytes raw))
       | None => None
       end.

Example marshal_raw_ex :
  of_bytes <$> marshal_raw (of_bytes (to_bytes "{ " ++ quote "a b" ++ to_bytes " : [1 , " ++ [dq] ++ to_bytes "<&> " ++ [dq] ++ to_bytes "] }")%list) =
  Some (of_bytes (to_bytes "{" ++ quote "a b" ++ to_bytes ":[1," ++ quote "<&> " ++ to_bytes "]}")%list).
Proof. vm_compute. reflexivity. Qed.

(** * Strings *)

(** The value of an escape [\uXXXX] at the front. *)
Definition u_head (b : bytes) : option Z :=
  match b with
  | x :: y :: g1 :: g2 :: g3 :: g4 :: _ =>
      if (is_char 92 x && is_char 117 y)%bool then hex4 g1 g2 g3 g4 else None
  | _ => None
  end.

Lemma p_string_u e h1 h2 h3 h4 b3 : is_char 117 e = true →
  p_string (chr 92 :: e :: h1 :: h2 :: h3 :: h4 :: b3) =
  match hex4 h1 h2 h3 h4 with
  | None => None
  | Some r =>
      if is_surrogate r then
        match u_head b3 ≫= utf16_pair r with
        | Some rr => prepend (encode_rune rr) (p_string (drop 6 b3))
        | None => prepend replacement (p_string b3)
        end
      else prepend (encode_rune r) (p_string b3)
  end.
Proof.
  intros He. assert (simple_escape e = None) as Hs.
  { unfold simple_escape, is_char in *. apply Z.eqb_eq in He. by rewrite He. }
  cbn [p_string]. simpl (is_char 34 (chr 92)). simpl (is_char 92 (chr 92)). cbv iota. rewrite Hs, He.
  destruct (hex4 h1 h2 h3 h4) as [r |]; [| done]. destruct (is_surrogate r); [| done].
  destruct b3 as [| x [| y [| g1 [| g2 [| g3 [| g4 b4]]]]]]; try done. cbn [u_head drop].
  destruct (is_char 92 x && is_char 117 y)%bool; [| done]. by destruct (hex4 g1 g2 g3 g4).
Qed.

Lemma hex_plain h v t : hex_val h = Some v → compact true (h :: t) = h :: compact true t.
Proof.
  intros Hh. assert (is_char 34 h = false ∧ is_char 92 h = false ∧ is_html h = false ∧ is_char 226 h = false) as (H1 & H2 & H3 & H4).
  { revert Hh. unfold hex_val, is_html, is_char, in_range. repeat case_match; try done; lia. }
  cbn [compact]. rewrite H1, H2, H3. destruct t as [| c1 [| c2 t]]; try done. unfold is_line_sep. by rewrite H4.
Qed.

Lemma hex4_plain h1 h2 h3 h4 r t : hex4 h1 h2 h3 h4 = Some r →
  compact true (h1 :: h2 :: h3 :: h4 :: t) = (h1 :: h2 :: h3 :: h4 :: compact true t).
Proof.
  unfold hex4. destruct (hex_val h1) eqn:E1, (hex_val h2) eqn:E2, (hex_val h3) eqn:E3, (hex_val h4) eqn:E4; try done.
  intros _. by rewrite (hex_plain _ _ _ E1), (hex_plain _ _ _ E2), (hex_plain _ _ _ E3), (hex_plain _ _ _ E4).
Qed.

(** The compacted string [cs] of [b], before the rest [r], reads as [s]; the
    escape at its front is that of [b], or one the compactor made, which is no
    surrogate. *)
Definition compacts (b s r : bytes) : Prop :=
  ∃ cs, compact true b = (cs ++ compact false r)%list ∧
    ∀ x, p_string (cs ++ x) = Some (s, x) ∧
      (u_head (cs ++ x) = u_head b ∨ u_head b = None ∧ ∃ q, u_head (cs ++ x) = Some q ∧ (q < 56320)%Z).

Lemma u_head_other c b : is_char 92 c = false → u_head (c :: b) = None.
Proof. intros Hc. destruct b as [| x [| y [| z [| t [| u b]]]]]; try done. cbn. by rewrite Hc. Qed.

(** One or more bytes [pre] that are copied. *)
Lemma compacts_copy pre c b s s' r : head pre = Some c → is_char 92 c = false →
  compact true (pre ++ b) = (pre ++ compact true b)%list →
  (∀ x, p_string (pre ++ x) = prepend s' (p_string x)) → compacts b s r → compacts (pre ++ b) (s' ++ s) r.
Proof.
  intros Hh Hc Hcomp Hp (cs & E & Hx). exists (pre ++ cs)%list. split.
  - by rewrite Hcomp, E, <-(assoc_L (++)).
  - intros x. rewrite <-(assoc_L (++)), Hp, (proj1 (Hx x)). split; [done | left].
    destruct pre as [| p pre]; [done |]. injection Hh as ->. cbn [app]. by rewrite !u_head_other.
Qed.

(** A byte, or a separator, that is escaped. *)
Lemma compacts_escaped pre esc b s s' r q : u_head (pre ++ b) = None →
  compact true (pre ++ b) = (esc ++ compact true b)%list →
  (∀ x, p_string (esc ++ x) = prepend s' (p_string x)) →
  (∀ x, u_head (esc ++ x) = Some q) → (q < 56320)%Z → compacts b s r → compacts (pre ++ b) (s' ++ s) r.
Proof.
  intros Hn Hcomp Hp Hq Hlt (cs & E & Hx). exists (esc ++ cs)%list. split.
  - by rewrite Hcomp, E, <-(assoc_L (++)).
  - intros x. rewrite <-(assoc_L (++)), Hp, (proj1 (Hx x)). split; [done | right]. eauto.
Qed.

Lemma is_char_byte z c : is_char z c = true → c = chr z.
Proof. unfold is_char. rewrite Z.eqb_eq. intros <-. by rewrite chr_byte. Qed.

Lemma html_escape c : is_html c = true → quote_ascii c = unicode_escape (byte c).
Proof.
  unfold is_html. rewrite !orb_true_iff. intros Hc.
  assert (c = chr 60 ∨ c = chr 62 ∨ c = chr 38) as Hcs by naive_solver eauto using is_char_byte.
  by destruct Hcs as [-> | [-> | ->]].
Qed.

Lemma not_line_sep c c1 c2 : is_char 226 c = false → is_line_sep c c1 c2 = false.
Proof. unfold is_line_sep. by intros ->. Qed.

(** A byte that is copied whatever follows it. *)
Lemma compact_byte c b : is_char 34 c = false → is_char 92 c = false → is_html c = false →
  is_char 226 c = false → compact true (c :: b) = c :: compact true b.
Proof.
  intros H1 H2 H3 H4. cbn [compact]. rewrite H1, H2, H3. destruct b as [| c1 [| c2 b]]; try done.
  by rewrite not_line_sep.
Qed.

Lemma cont_plain c : cont c = true →
  is_char 34 c = false ∧ is_char 92 c = false ∧ is_html c = false ∧ is_char 226 c = false.
Proof. unfold cont, is_html, is_char, in_range. lia. Qed.

Lemma compact_cont c b : cont c = true → compact true (c :: b) = c :: compact true b.
Proof. intros (? & ? & ? & ?) % cont_plain. by apply compact_byte. Qed.

Lemma high_plain c : (128 ≤ byte c)%Z → is_char 34 c = false ∧ is_char 92 c = false ∧ is_html c = false.
Proof. unfold is_html, is_char. lia. Qed.

Lemma second3_cont c0 c1 : second3 c0 c1 = true → cont c1 = true.
Proof. unfold second3, cont, in_range. repeat case_match; lia. Qed.
Lemma second4_cont c0 c1 : second4 c0 c1 = true → cont c1 = true.
Proof. unfold second4, cont, in_range. repeat case_match; lia. Qed.

Lemma utf8_tail c b : (byte c < 128)%Z → utf8_valid (c :: b) = utf8_valid b.
Proof. intros Hc. cbn [utf8_valid]. by rewrite (proj2 (Z.ltb_lt _ _) Hc). Qed.

Lemma hex_ascii h v : hex_val h = Some v → (byte h < 128)%Z.
Proof. unfold hex_val, in_range. repeat case_match; try done; lia. Qed.

Lemma hex4_utf8 h1 h2 h3 h4 r t : hex4 h1 h2 h3 h4 = Some r →
  utf8_valid (h1 :: h2 :: h3 :: h4 :: t) = utf8_valid t.
Proof.
  unfold hex4. destruct (hex_val h1) eqn:E1, (hex_val h2) eqn:E2, (hex_val h3) eqn:E3, (hex_val h4) eqn:E4; try done.
  intros _. by rewrite !utf8_tail by eauto using hex_ascii.
Qed.

Lemma low_no_pair r q : (q < 56320)%Z → utf16_pair r q = None.
Proof. intros Hq. unfold utf16_pair. by rewrite (proj2 (Z.leb_gt 56320 q) Hq), andb_false_r. Qed.

(** Strings are compacted to strings of the same value; first a [\uXXXX]. *)
Section strings.
Context (n : nat).
Context (IH : ∀ b s r, (length b ≤ n)%nat → utf8_valid b = true → p_string b = Some (s, r) →
  compacts b s r ∧ utf8_valid r = true).

Lemma compact_unicode h1 h2 h3 h4 b3 s r :
  (length b3 ≤ n)%nat → utf8_valid (h1 :: h2 :: h3 :: h4 :: b3) = true →
  p_string (chr 92 :: chr 117 :: h1 :: h2 :: h3 :: h4 :: b3) = Some (s, r) →
  compacts (chr 92 :: chr 117 :: h1 :: h2 :: h3 :: h4 :: b3) s r ∧ utf8_valid r = true.
Proof.
  intros Hn Hv Hp. rewrite p_string_u in Hp by done.
  destruct (hex4 h1 h2 h3 h4) as [q |] eqn:Eh; [| done].
  rewrite (hex4_utf8 _ _ _ _ _ _ Eh) in Hv. pose proof (hex4_plain _ _ _ _ _ b3 Eh) as Hc.
  assert (Hall : ∀ cs s', compact true b3 = (cs ++ compact false r)%list →
    (∀ x, p_string (chr 92 :: chr 117 :: h1 :: h2 :: h3 :: h4 :: cs ++ x)%list = Some (s', x)) →
    compacts (chr 92 :: chr 117 :: h1 :: h2 :: h3 :: h4 :: b3) s' r).
  { intros cs s' E Hx. exists (chr 92 :: chr 117 :: h1 :: h2 :: h3 :: h4 :: cs). split; [| intros x; split; [apply Hx | by left]].
    change (compact true (chr 92 :: chr 117 :: h1 :: h2 :: h3 :: h4 :: b3)) with
      (chr 92 :: chr 117 :: compact true (h1 :: h2 :: h3 :: h4 :: b3)). by rewrite Hc, E. }
  destruct (is_surrogate q) eqn:Es; [destruct (u_head b3 ≫= utf16_pair q) as [rr |] eqn:Ep |].
  - destruct (u_head b3) as [q2 |] eqn:Eu; [| done].
    destruct b3 as [| x [| y [| g1 [| g2 [| g3 [| g4 b4]]]]]]; try done. cbn [u_head drop length] in *. rewrite ?drop_0 in *.
    destruct (is_char 92 x && is_char 117 y)%bool eqn:Exy; [| done].
    apply andb_true_iff in Exy as [->%is_char_byte ->%is_char_byte].
    rewrite !(utf8_tail _ (_ :: _)), (hex4_utf8 _ _ _ _ _ _ Eu) in Hv by done.
    apply prepend_Some in Hp as (s' & Hp & ->). apply IH in Hp as [(cs & E & Hx) Hr]; [| lia | done]. split; [| done].
    apply (Hall (chr 92 :: chr 117 :: g1 :: g2 :: g3 :: g4 :: cs)).
    + change (compact true (chr 92 :: chr 117 :: g1 :: g2 :: g3 :: g4 :: b4)) with
        (chr 92 :: chr 117 :: compact true (g1 :: g2 :: g3 :: g4 :: b4)). by rewrite (hex4_plain _ _ _ _ _ _ Eu), E.
    + intros x. rewrite p_string_u, Eh, Es by done.
      change (u_head _) with (hex4 g1 g2 g3 g4). change (drop 6 _) with (cs ++ x)%list.
      by rewrite Eu, Ep, (proj1 (Hx x)).
  - apply prepend_Some in Hp as (s' & Hp & ->). apply IH in Hp as [(cs & E & Hx) Hr]; [| lia | done]. split; [| done].
    apply (Hall cs); [done |]. intros x. rewrite p_string_u, Eh, Es by done.
    assert (u_head (cs ++ x)%list ≫= utf16_pair q = None) as ->; [| by rewrite (proj1 (Hx x))].
    destruct (proj2 (Hx x)) as [-> | (_ & q' & -> & Hq)]; [done | by apply low_no_pair].
  - apply prepend_Some in Hp as (s' & Hp & ->). apply IH in Hp as [(cs & E & Hx) Hr]; [| lia | done]. split; [| done].
    apply (Hall cs); [done |]. intros x. by rewrite p_string_u, Eh, Es, (proj1 (Hx x)) by done.
Qed.

Lemma compact_escape e b2 s r :
  (length b2 ≤ n)%nat → utf8_valid (e :: b2) = true → p_string (chr 92 :: e :: b2) = Some (s, r) →
  compacts (chr 92 :: e :: b2) s r ∧ utf8_valid r = true.
Proof.
  intros Hn Hv Hp. destruct (is_char 117 e) eqn:Eu.
  - apply is_char_byte in Eu as ->. rewrite utf8_tail in Hv by done.
    destruct b2 as [| h1 [| h2 [| h3 [| h4 b3]]]]; try done. apply compact_unicode; [| done | done].
    cbn [length] in Hn. lia.
  - cbn [p_string] in Hp. simpl (is_char 34 (chr 92)) in Hp. simpl (is_char 92 (chr 92)) in Hp. cbv iota in Hp.
    destruct (simple_escape e) as [v |] eqn:Ee; [| by rewrite Eu in Hp].
    assert (byte e < 128)%Z by (revert Ee; unfold simple_escape, is_char; repeat case_match; try done; lia).
    rewrite utf8_tail in Hv by done.
    apply prepend_Some in Hp as (s' & Hp & ->). apply IH in Hp as [(cs & E & Hx) Hr]; [| lia | done]. split; [| done].
    exists (chr 92 :: e :: cs). split.
    + change (compact true (chr 92 :: e :: b2)) with (chr 92 :: e :: compact true b2). by rewrite E.
    + intros x. cbn [app p_string]. simpl (is_char 34 (chr 92)). simpl (is_char 92 (chr 92)). cbv iota.
      rewrite Ee, (proj1 (Hx x)). split; [done | left].
      assert (∀ t, u_head (chr 92 :: e :: t) = None) as Hu; [| by rewrite !Hu].
      intros t. destruct t as [| g1 [| g2 [| g3 [| g4 t]]]]; try done. cbn. by rewrite Eu.
Qed.

(** The other characters. *)
Lemma compact_other c0 b1 s r :
  (length b1 ≤ n)%nat → utf8_valid (c0 :: b1) = true → is_char 34 c0 = false → is_char 92 c0 = false →
  p_string (c0 :: b1) = Some (s, r) → compacts (c0 :: b1) s r ∧ utf8_valid r = true.
Proof.
  intros Hn Hv E34 E92 Hp. cbn [p_string utf8_valid] in Hp, Hv. rewrite E34, E92 in Hp.
  destruct (Z.ltb_spec (byte c0) 32) as [| H32]; [done |]. destruct (Z.ltb_spec (byte c0) 128) as [H128 | H128].
  { apply prepend_Some in Hp as (s' & Hp & ->). apply IH in Hp as [Hc Hr]; [| done | done]. split; [| done].
    destruct (is_html c0) eqn:Eh.
    - apply (compacts_escaped [c0] (unicode_escape (byte c0)) b1 s' [c0] r (byte c0)); try done; try lia.
      + by apply u_head_other.
      + cbn [compact app]. by rewrite E34, E92, Eh.
      + intros x. rewrite <-html_escape, p_string_ascii by done. done.
      + intros x. assert (c0 = chr 60 ∨ c0 = chr 62 ∨ c0 = chr 38) as Hcs
          by (unfold is_html in Eh; rewrite !orb_true_iff in Eh; naive_solver eauto using is_char_byte).
        by destruct Hcs as [-> | [-> | ->]].
    - apply (compacts_copy [c0] c0); try done.
      + cbn [app]. apply compact_byte; try done. unfold is_char. lia.
      + intros x. cbn [app p_string]. rewrite E34, E92, (proj2 (Z.ltb_ge _ _) H32).
        by rewrite (proj2 (Z.ltb_lt _ _) H128). }
  destruct (high_plain c0 H128) as (_ & _ & Eh).
  destruct b1 as [| c1 b2]; [done |]. cbn [length] in Hn.
  destruct (in_range 194 223 c0 && cont c1)%bool eqn:E2.
  { apply prepend_Some in Hp as (s' & Hp & ->). apply IH in Hp as [Hc Hr]; [| lia | done]. split; [| done].
    apply andb_true_iff in E2 as [Ec0 Ec1].
    apply (compacts_copy [c0; c1] c0); try done.
    - cbn [app]. rewrite compact_byte, compact_cont by first [done | unfold in_range, is_char in *; lia]. done.
    - intros x. cbn [app p_string]. rewrite E34, E92. high_byte. by rewrite Ec0, Ec1. }
  destruct b2 as [| c2 b3]; [done |]. cbn [length] in Hn.
  destruct (in_range 224 239 c0 && second3 c0 c1 && cont c2)%bool eqn:E3.
  { apply prepend_Some in Hp as (s' & Hp & ->). apply IH in Hp as [Hc Hr]; [| lia | done]. split; [| done].
    apply andb_true_iff in E3 as [E3 Ec2]. apply andb_true_iff in E3 as [Ec0 Ec1].
    destruct (is_line_sep c0 c1 c2) eqn:El.
    - assert (∃ q, (∀ x, u_head (line_sep_escape c2 ++ x) = Some q) ∧ (q < 56320)%Z) as (q & Hq & Hlt).
      { unfold is_line_sep in El. rewrite !andb_true_iff, orb_true_iff in El.
        destruct El as [_ [->%is_char_byte | ->%is_char_byte]]; [exists 8232%Z | exists 8233%Z]; by split. }
      apply (compacts_escaped [c0; c1; c2] (line_sep_escape c2) b3 s' [c0; c1; c2] r q); try done.
      + by apply u_head_other.
      + cbn [compact app]. by rewrite E34, E92, Eh, El.
      + intros x. by apply p_string_line_sep.
    - apply (compacts_copy [c0; c1; c2] c0); try done.
      + apply second3_cont in Ec1. cbn [app]. transitivity (c0 :: compact true (c1 :: c2 :: b3)).
        { cbn [compact]. by rewrite E34, E92, Eh, El. }
        by rewrite !compact_cont by done.
      + intros x. cbn [app p_string]. rewrite E34, E92. high_byte. by rewrite E2, Ec0, Ec1, Ec2. }
  destruct b3 as [| c3 b4]; [done |]. cbn [length] in Hn.
  destruct (in_range 240 244 c0 && second4 c0 c1 && cont c2 && cont c3)%bool eqn:E4; [| done].
  apply prepend_Some in Hp as (s' & Hp & ->). apply IH in Hp as [Hc Hr]; [| lia | done]. split; [| done].
  apply andb_true_iff in E4 as [E4 Ec3]. apply andb_true_iff in E4 as [E4 Ec2]. apply andb_true_iff in E4 as [Ec0 Ec1].
  apply (compacts_copy [c0; c1; c2; c3] c0); try done.
  - apply second4_cont in Ec1. cbn [app]. rewrite compact_byte by first [done | unfold in_range, is_char in *; lia].
    by rewrite !compact_cont by done.
  - intros x. cbn [app p_string]. rewrite E34, E92. high_byte. by rewrite E2, E3, Ec0, Ec1, Ec2, Ec3.
Qed.

End strings.

Lemma compact_string n b s r : (length b ≤ n)%nat → utf8_valid b = true → p_string b = Some (s, r) →
  compacts b s r ∧ utf8_valid r = true.
Proof.
  revert b s r. induction n as [| n IH]; intros b s r Hn Hv Hp; [destruct b; [done | cbn in Hn; lia] |].
  destruct b as [| c0 b1]; [done |]. cbn [length] in Hn. apply le_S_n in Hn.
  destruct (is_char 34 c0) eqn:Eq.
  { cbn [p_string] in Hp. rewrite Eq in Hp. injection Hp as <- <-. apply is_char_byte in Eq as ->. split; [| done].
    exists [chr 34]. split; [done |]. intros x. split; [done | left]. change (u_head (chr 34 :: x) = u_head (chr 34 :: b1)). by rewrite !u_head_other. }
  destruct (is_char 92 c0) eqn:Eb; [| by apply (compact_other n IH)].
  apply is_char_byte in Eb as ->. rewrite utf8_tail in Hv by done.
  destruct b1 as [| e b2]; [done |]. apply (compact_escape n IH); [| done | done]. cbn [length] in Hn. lia.
Qed.

(** * Numbers *)

(** What ends a run of digits. *)
Definition no_digit (b : bytes) : Prop := match b with c :: _ => is_digit c = false | [] => True end.

Definition number_char (c : ascii) : bool :=
  (is_digit c || is_char 43 c || is_char 45 c || is_char 46 c || is_char 69 c || is_char 101 c)%bool.

Lemma span_digits_self b d r t : span_digits b = (d, r) → no_digit t →
  span_digits (d ++ t) = (d, t) ∧ Forall (λ c, number_char c = true) d.
Proof.
  revert d r. induction b as [| c b IH]; intros d r H Ht; cbn in H.
  - injection H as <- <-. split; [| by apply Forall_nil_2]. destruct t as [| c t]; [done |]. cbn in *. by rewrite Ht.
  - destruct (is_digit c) eqn:Hc.
    + destruct (span_digits b) as [d' r'] eqn:E. injection H as <- <-. destruct (IH _ _ eq_refl Ht) as [IH1 IH2].
      cbn. rewrite Hc, IH1. split; [done |]. apply Forall_cons_2; [| done]. unfold number_char. by rewrite Hc.
    + injection H as <- <-. split; [| by apply Forall_nil_2]. destruct t as [| c' t]; [done |]. cbn in *. by rewrite Ht.
Qed.

Lemma p_int_self b i r t : p_int b = Some (i, r) → no_digit t →
  p_int (i ++ t) = Some (i, t) ∧ Forall (λ c, number_char c = true) i.
Proof.
  destruct b as [| c b]; cbn; [done |]. intros H Ht. destruct (is_char 48 c) eqn:E0.
  - injection H as <- <-. cbn. rewrite E0. split; [done |]. apply is_char_byte in E0 as ->. by apply Forall_cons_2; [| apply Forall_nil_2].
  - destruct (is_digit c) eqn:Hc; [| done]. destruct (span_digits b) as [d' r'] eqn:E. injection H as <- <-.
    destruct (span_digits_self _ _ _ t E Ht) as [Hs Hd]. cbn. rewrite E0, Hc, Hs. split; [done |].
    apply Forall_cons_2; [| done]. unfold number_char. by rewrite Hc.
Qed.

Definition no_dot (b : bytes) : Prop := match b with c :: _ => is_char 46 c = false | [] => True end.

Lemma p_frac_self b f r t : p_frac b = Some (f, r) → no_digit t → no_dot t →
  p_frac (f ++ t) = Some (f, t) ∧ no_digit (f ++ t) ∧ Forall (λ c, number_char c = true) f.
Proof.
  intros H Ht Hdot. assert (Hnil : p_frac ([] ++ t) = Some ([], t)).
  { destruct t as [| c t]; [done |]. cbn in *. by rewrite Hdot. }
  destruct b as [| c b]; cbn in H; [injection H as <- <-; by rewrite Hnil |].
  destruct (is_char 46 c) eqn:Ec; [| injection H as <- <-; by rewrite Hnil].
  destruct (span_digits b) as [[| x d] r'] eqn:E; [done |]. injection H as <- <-.
  destruct (span_digits_self _ _ _ t E Ht) as [Hs Hd]. cbn [app p_frac] in *. rewrite Ec, Hs. apply is_char_byte in Ec as ->.
  split; [done |]. split; [done |]. by apply Forall_cons_2.
Qed.

Lemma p_exp_self b x r : p_exp b = Some (x, r) →
  p_exp x = Some (x, []) ∧ no_digit x ∧ no_dot x ∧ Forall (λ c, number_char c = true) x.
Proof.
  intros H. assert (Hnil : x = [] → p_exp x = Some (x, []) ∧ no_digit x ∧ no_dot x ∧ Forall (λ c, number_char c = true) x).
  { intros ->. split; [done |]. by split_and!. }
  destruct b as [| c b]; cbn in H; [injection H as <- <-; auto |].
  destruct (is_char 101 c || is_char 69 c)%bool eqn:Ec; [| injection H as <- <-; auto].
  assert (Hc : number_char c = true ∧ is_digit c = false ∧ is_char 46 c = false).
  { unfold number_char, is_digit, in_range, is_char in *. lia. }
  destruct (match b with x :: t => if (is_char 43 x || is_char 45 x)%bool then ([x], t) else ([], b) | [] => ([], b) end)
    as [sg b''] eqn:Esg.
  destruct (span_digits b'') as [[| y d] r'] eqn:E; [done |]. injection H as <- <-.
  destruct (span_digits_self _ _ _ [] E I) as [Hs Hd]. rewrite app_nil_r in Hs.
  assert (Hsg : sg = [] ∧ (is_char 43 y || is_char 45 y)%bool = false ∨ ∃ z, sg = [z] ∧ (is_char 43 z || is_char 45 z)%bool = true).
  { destruct b as [| z b]; [injection Esg as <- <-; done |].
    destruct (is_char 43 z || is_char 45 z)%bool eqn:Ez; injection Esg as <- <-; [right; eauto | left; split; [done |]].
    cbn in E. destruct (is_digit z); [| done]. destruct (span_digits b). injection E as -> -> ->. done. }
  destruct Hsg as [[-> Hy] | (z & -> & Hz)]; cbn [app p_exp]; rewrite Ec.
  - rewrite Hy, Hs. split; [done |]. split_and!; [apply Hc | apply Hc |]. apply Forall_cons_2; [apply Hc | done].
  - rewrite Hz, Hs. split; [done |]. split_and!; [apply Hc | apply Hc |].
    apply Forall_cons_2; [apply Hc |]. apply Forall_cons_2; [| done]. unfold number_char, is_char in *. lia.
Qed.

Lemma p_number_self b n r : p_number b = Some (n, r) →
  number_ok (of_bytes n) = true ∧ Forall (λ c, number_char c = true) n.
Proof.
  assert (Hu : ∀ b n r, p_unsigned b = Some (n, r) →
    p_unsigned n = Some (n, []) ∧ Forall (λ c, number_char c = true) n).
  { clear. intros b n r H. unfold p_unsigned in H.
    destruct (p_int b) as [[i b1] |] eqn:E1; [| done]. destruct (p_frac b1) as [[f b2] |] eqn:E2; [| done].
    destruct (p_exp b2) as [[x b3] |] eqn:E3; [| done]. injection H as <- <-.
    destruct (p_exp_self _ _ _ E3) as (Hx & Hxd & Hxp & Hxc).
    destruct (p_frac_self _ _ _ x E2 Hxd Hxp) as (Hf & Hfd & Hfc).
    destruct (p_int_self _ _ _ (f ++ x) E1 Hfd) as (Hi & Hic).
    unfold p_unsigned. rewrite Hi, Hf, Hx. split; [done |]. by repeat apply Forall_app_2. }
  intros H. unfold number_ok. rewrite to_of_bytes. destruct b as [| c b]; [done |]. cbn [p_number] in H.
  destruct (is_char 45 c) eqn:Ec.
  - apply prepend_Some in H as (n' & H & ->). destruct (Hu _ _ _ H) as [Hn Hc]. cbn [app p_number]. rewrite Ec, Hn. cbn.
    split; [done |]. apply Forall_cons_2; [| done]. apply is_char_byte in Ec as ->. done.
  - destruct (Hu _ _ _ H) as [Hn Hc]. split; [| done]. destruct n as [| d n]; [done |].
    destruct (is_char 45 d) eqn:Ed; [| cbn [p_number]; by rewrite Ed, Hn].
    apply is_char_byte in Ed as ->. done.
Qed.

Lemma compact_number n t : Forall (λ c, number_char c = true) n → compact false (n ++ t) = (n ++ compact false t)%list.
Proof.
  induction 1 as [| c n Hc _ IH]; [done |]. cbn [app compact].
  assert (is_space c = false ∧ is_char 34 c = false) as [-> ->]; [| by rewrite IH].
  unfold number_char, is_space, is_digit, in_range, is_char in *. lia.
Qed.

(** * Values *)

Lemma compact_skip b : compact false (skip_ws b) = compact false b ∧ (utf8_valid b = true → utf8_valid (skip_ws b) = true).
Proof.
  induction b as [| c b [IH1 IH2]]; [done |]. cbn [skip_ws].
  change (is_char 32 c || is_char 9 c || is_char 10 c || is_char 13 c)%bool with (is_space c).
  destruct (is_space c) eqn:Ec; [| done]. cbn [compact]. rewrite Ec.
  split; [done |]. intros Hv. apply IH2. rewrite utf8_tail in Hv; [done |]. unfold is_space, is_char in Ec. lia.
Qed.

Lemma skip_ws_head b c t : skip_ws b = c :: t → is_space c = false.
Proof.
  induction b as [| x b IH]; cbn [skip_ws]; [done |].
  change (is_char 32 x || is_char 9 x || is_char 10 x || is_char 13 x)%bool with (is_space x).
  destruct (is_space x) eqn:Ex; [exact IH | by intros [= <- <-]].
Qed.

(** What the compactor makes of [b], of which [r] is left, is [cs]. *)
Definition compacted (b r cs : bytes) : Prop :=
  compact false b = (cs ++ compact false r)%list ∧ utf8_valid r = true.

(** A character of the grammar, after white space. *)
Lemma compact_expect z b r : (0 ≤ z < 128)%Z → utf8_valid b = true → expect z b = Some r →
  compact false b = chr z :: compact (Z.eqb z 34) r ∧ utf8_valid r = true.
Proof.
  intros Hz Hb. unfold expect. destruct (compact_skip b) as [<- Hv]. specialize (Hv Hb).
  destruct (skip_ws b) as [| c b'] eqn:Es; [done |]. apply skip_ws_head in Es.
  destruct (is_char z c) eqn:Ec; [| done]. intros [= ->]. apply is_char_byte in Ec as ->. split.
  - cbn [compact]. rewrite Es. unfold is_char. by rewrite byte_chr by lia.
  - by rewrite utf8_tail in Hv by (rewrite byte_chr; lia).
Qed.

Lemma strip_prefix_split l b r : strip_prefix l b = Some r → b = (l ++ r)%list.
Proof.
  revert b. induction l as [| x l IH]; intros b; cbn; [by intros [= ->] |].
  destruct b as [| c b]; [done |]. destruct (Ascii.eqb_spec x c) as [-> |]; [| done]. by intros ->%IH.
Qed.

Lemma compact_literal v' b v r : v' = JNull ∨ (∃ x, v' = JBool x) →
  utf8_valid b = true → p_literal (encode v') v' b = POk v r → ∃ cs, compacted b r cs ∧ ∀ d, reads d cs v.
Proof.
  intros Hl Hb. unfold p_literal. destruct (strip_prefix (encode v') b) as [r' |] eqn:E; [| done]. intros [= <- <-].
  apply strip_prefix_split in E as ->. exists (encode v'). split; [| intros d; by apply reads_literal].
  by destruct Hl as [-> | [[] ->]].
Qed.

Lemma compact_scalar c b v r : utf8_valid (c :: b) = true → is_space c = false → p_scalar c b = POk v r →
  ∃ cs, compacted (c :: b) r cs ∧ ∀ d, reads d cs v.
Proof.
  intros Hv Hsp. unfold p_scalar. destruct (is_char 34 c) eqn:Eq.
  { apply is_char_byte in Eq as ->. rewrite utf8_tail in Hv by done.
    destruct (p_string b) as [[s r'] |] eqn:Ep; [| done]. intros [= <- <-].
    destruct (compact_string (length b) b s r' (le_n _) Hv Ep) as [(cs & E & Hx) Hr].
    exists (dq :: cs). split; [split; [| done] |].
    - change (compact false (chr 34 :: b)) with (dq :: compact true b). by rewrite E.
    - intros d. split; [by eexists _, _ |]. intros fuel rest _ Hf. destruct fuel as [| fuel]; [lia |].
      cbn [app p_value]. rewrite (skip_ws_starts dq) by done. unfold p_scalar. simpl (is_char _ dq).
      by rewrite (proj1 (Hx rest)). }
  destruct (is_char 116 c); [apply (compact_literal (JBool true)); eauto |].
  destruct (is_char 102 c); [apply (compact_literal (JBool false)); eauto |].
  destruct (is_char 110 c); [apply (compact_literal JNull); eauto |].
  destruct (p_number (c :: b)) as [[n r'] |] eqn:En; [| done]. intros [= <- <-].
  apply p_number_split in En as Hs. destruct Hs as [Hs _]. apply p_number_self in En as [Hok Hc].
  rewrite Hs in *. exists n. split; [split; [by apply compact_number |] |].
  - clear -Hv Hc. induction Hc as [| x n Hx _ IH]; [done |]. cbn [app] in Hv. rewrite utf8_tail in Hv; [auto |].
    unfold number_char, is_digit, in_range, is_char in Hx. lia.
  - intros d. rewrite <-(to_of_bytes n) at 1. by apply reads_number.
Qed.

(** Texts of the members and elements that follow an opening bracket, with
    the closing one. *)
Definition reads_tail {A} (p : nat → nat → bytes → pres A) (depth : A → nat) (cs : bytes) (l : A) : Prop :=
  ∀ d fuel rest, (depth l ≤ d)%nat → (2 * length cs < fuel)%nat → p fuel d (cs ++ rest)%list = POk l rest.

Definition members_depth (l : list (string * json)) : nat := list_max ((λ p, jdepth p.2) <$> l).
Definition elems_depth (l : list json) : nat := list_max (jdepth <$> l).

Definition value_compacts (fuel : nat) : Prop := ∀ depth b v r, utf8_valid b = true →
  p_value fuel depth b = POk v r → ∃ cs, compacted b r cs ∧ ∀ d, (jdepth v ≤ d)%nat → reads d cs v.
Definition members_compact (fuel : nat) : Prop := ∀ depth b l r, utf8_valid b = true →
  p_members fuel depth b = POk l r → ∃ cs, compacted b r (dq :: cs) ∧ reads_tail p_members members_depth (dq :: cs) l.
Definition elems_compact (fuel : nat) : Prop := ∀ depth b l r, utf8_valid b = true →
  p_elems fuel depth b = POk l r →
  ∃ c cs, compacted b r (c :: cs) ∧ starts c ∧ reads_tail p_elems elems_depth (c :: cs) l.

(** Equal lists up to the nesting of [++]. *)
Ltac list_eq := repeat first [progress cbn [app] | rewrite <-(assoc_L (++))%list]; reflexivity.

(** An opening bracket, before what is compacted to [cs]. *)
Lemma compacted_cons c b r cs : is_space c = false → is_char 34 c = false →
  compacted b r cs → compacted (c :: b) r (c :: cs).
Proof. intros Hs Hq [Hc Hr]. split; [| done]. cbn [compact app]. by rewrite Hs, Hq, Hc. Qed.

Lemma compacted_expect z b r : (0 ≤ z < 128)%Z → z ≠ 34%Z → utf8_valid b = true → expect z b = Some r →
  compacted b r [chr z].
Proof.
  intros Hz Hne Hb He. apply compact_expect in He as [Hc Hr]; [| done | done]. split; [| done].
  by rewrite Hc, (proj2 (Z.eqb_neq _ _) Hne).
Qed.

Lemma compacted_app b b' r cs cs' : compacted b b' cs → compacted b' r cs' → compacted b r (cs ++ cs')%list.
Proof. intros [E _] [E' Hr]. split; [| done]. by rewrite E, E', (assoc_L (++)). Qed.

Lemma object_compacts fuel depth b v r : members_compact fuel → utf8_valid b = true →
  match expect 125 b with Some r => POk (JObj []) r | None => pmap JObj (p_members fuel depth b) end = POk v r →
  ∃ cs, compacted (chr 123 :: b) r cs ∧ ∀ d, (jdepth v ≤ d)%nat → reads d cs v.
Proof.
  intros IH Hb. destruct (expect 125 b) as [r' |] eqn:Ee.
  - intros [= <- <-]. eexists. split; [apply compacted_cons; [done | done |]; apply compacted_expect in Ee; [exact Ee | lia | done | done] |].
    intros d Hd. destruct d as [| d]; [cbn in Hd; lia |]. apply (reads_object d []). by apply Forall_nil_2.
  - destruct (p_members fuel depth b) as [| | l r'] eqn:Em; try done. intros [= <- <-].
    apply IH in Em as (cs & Hc & Ht); [| done]. eexists. split; [by eapply compacted_cons |].
    intros d Hd. split; [by eexists _, _ |]. intros f rest _ Hf. destruct f as [| f]; [lia |].
    destruct d as [| d]; [cbn in Hd; lia |].
    cbn [app p_value]. rewrite (skip_ws_starts (chr 123)) by done. simpl (is_char _ (chr 123)). cbv iota.
    change (expect 125 (dq :: cs ++ rest)%list) with (@None bytes). cbv iota.
    change (dq :: cs ++ rest)%list with ((dq :: cs) ++ rest)%list.
    rewrite Ht; [done | apply le_S_n, Hd | cbn [length] in *; lia].
Qed.

Lemma array_compacts fuel depth b v r : elems_compact fuel → utf8_valid b = true →
  match expect 93 b with Some r => POk (JArr []) r | None => pmap JArr (p_elems fuel depth b) end = POk v r →
  ∃ cs, compacted (chr 91 :: b) r cs ∧ ∀ d, (jdepth v ≤ d)%nat → reads d cs v.
Proof.
  intros IH Hb. destruct (expect 93 b) as [r' |] eqn:Ee.
  - intros [= <- <-]. eexists. split; [apply compacted_cons; [done | done |]; apply compacted_expect in Ee; [exact Ee | lia | done | done] |].
    intros d Hd. destruct d as [| d]; [cbn in Hd; lia |]. apply (reads_array d []). by apply Forall_nil_2.
  - destruct (p_elems fuel depth b) as [| | l r'] eqn:Em; try done. intros [= <- <-].
    apply IH in Em as (c & cs & Hc & Hst & Ht); [| done]. eexists. split; [by eapply compacted_cons |].
    intros d Hd. split; [by eexists _, _ |]. intros f rest _ Hf. destruct f as [| f]; [lia |].
    destruct d as [| d]; [cbn in Hd; lia |].
    cbn [app p_value]. rewrite (skip_ws_starts (chr 91)) by done. simpl (is_char _ (chr 91)). cbv iota.
    assert (expect 93 (c :: cs ++ rest)%list = None) as ->.
    { unfold expect. rewrite skip_ws_starts by done. by destruct Hst as [_ ->]. }
    change (c :: cs ++ rest)%list with ((c :: cs) ++ rest)%list.
    rewrite Ht; [done | apply le_S_n, Hd | cbn [length] in *; lia].
Qed.

Lemma members_compact_S fuel : value_compacts fuel → members_compact fuel → members_compact (S fuel).
Proof.
  intros IHv IHm depth b l r Hb. cbn [p_members].
  destruct (expect 34 b) as [b1 |] eqn:E1; [| done]. apply compact_expect in E1 as [H1 Hb1]; [| lia | done].
  destruct (p_string b1) as [[k b2] |] eqn:E2; [| done].
  destruct (compact_string _ b1 k b2 (le_n _) Hb1 E2) as [(ks & H2 & Hk) Hb2].
  destruct (expect 58 b2) as [b3 |] eqn:E3; [| done]. apply compacted_expect in E3 as H3; [| lia | done | done].
  destruct (p_value fuel depth b3) as [| | x b4] eqn:E4; try done. cbn [pbind].
  apply IHv in E4 as (vs & H4 & Hvs); [| apply H3].
  assert (Hpre : compacted b b4 (dq :: ks ++ [chr 58] ++ vs)%list).
  { destruct (compacted_app _ _ _ _ _ H3 H4) as [E Hb4]. split; [| done]. rewrite H1. cbn [Z.eqb Pos.eqb]. rewrite H2, E. list_eq. }
  assert (Hhead : ∀ d f tl, (jdepth x ≤ d)%nat → (2 * length vs < f)%nat → stops tl →
    p_members (S f) d (dq :: ks ++ [chr 58] ++ vs ++ tl)%list =
    match expect 125 tl with
    | Some r => POk [(of_bytes k, x)] r
    | None => match expect 44 tl with Some b5 => pmap (cons (of_bytes k, x)) (p_members f d b5) | None => PErr end
    end).
  { intros d f tl Hd Hf Hs. cbn [p_members app]. rewrite expect_dq, (proj1 (Hk _)), expect_colon.
    by rewrite (proj2 (Hvs d Hd)). }
  destruct (expect 125 b4) as [r' |] eqn:E5; [| destruct (expect 44 b4) as [b5 |] eqn:E6; [| done]].
  - intros [= <- <-]. apply compacted_expect in E5; [| lia | done | apply H4].
    exists (ks ++ [chr 58] ++ vs ++ [chr 125])%list. split.
    { pose proof (compacted_app _ _ _ _ _ Hpre E5) as Hc.
      replace (dq :: ks ++ [chr 58] ++ vs ++ [chr 125])%list with ((dq :: ks ++ [chr 58] ++ vs) ++ [chr 125])%list by list_eq.
      exact Hc. }
    intros d f rest Hd Hf. destruct f as [| f]; [lia |]. unfold members_depth in Hd. cbn in Hd.
    cbn [length app] in Hf. rewrite length_app in Hf. cbn [length] in Hf. rewrite length_app in Hf.
    replace ((dq :: ks ++ [chr 58] ++ vs ++ [chr 125]) ++ rest)%list with
      (dq :: ks ++ [chr 58] ++ vs ++ chr 125 :: rest)%list by list_eq.
    by rewrite Hhead by first [apply stops_brace | lia].
  - destruct (p_members fuel depth b5) as [| | l' r'] eqn:E7; try done. intros [= <- <-].
    apply compacted_expect in E6; [| lia | done | apply H4]. apply IHm in E7 as (cs & H7 & Ht); [| apply E6].
    exists (ks ++ [chr 58] ++ vs ++ [comma] ++ dq :: cs)%list. split.
    { pose proof (compacted_app _ _ _ _ _ Hpre (compacted_app _ _ _ _ _ E6 H7)) as Hc.
      replace (dq :: ks ++ [chr 58] ++ vs ++ [comma] ++ dq :: cs)%list with
        ((dq :: ks ++ [chr 58] ++ vs) ++ [chr 44] ++ dq :: cs)%list by list_eq.
      exact Hc. }
    intros d f rest Hd Hf. destruct f as [| f]; [lia |]. change (Nat.max (jdepth x) (members_depth l') ≤ d)%nat in Hd.
    cbn [length app] in Hf. rewrite length_app in Hf. cbn [length] in Hf. rewrite length_app in Hf. cbn [length] in Hf.
    replace ((dq :: ks ++ [chr 58] ++ vs ++ [comma] ++ dq :: cs) ++ rest)%list with
      (dq :: ks ++ [chr 58] ++ vs ++ comma :: (dq :: cs) ++ rest)%list by list_eq.
    rewrite Hhead by first [apply stops_comma | lia]. rewrite expect_comma, expect_not_comma by done.
    rewrite Ht; [done | lia | cbn [length]; lia].
Qed.

Lemma elems_compact_S fuel : value_compacts fuel → elems_compact fuel → elems_compact (S fuel).
Proof.
  intros IHv IHe depth b l r Hb. cbn [p_elems].
  destruct (p_value fuel depth b) as [| | x b1] eqn:E1; try done. cbn [pbind].
  apply IHv in E1 as (vs & H1 & Hvs); [| done].
  destruct (proj1 (Hvs _ (le_n _))) as (c & vs' & -> & Hst).
  assert (Hhead : ∀ d f tl, (jdepth x ≤ d)%nat → (2 * length (c :: vs') < f)%nat → stops tl →
    p_elems (S f) d ((c :: vs') ++ tl)%list =
    match expect 93 tl with
    | Some r => POk [x] r
    | None => match expect 44 tl with Some b5 => pmap (cons x) (p_elems f d b5) | None => PErr end
    end).
  { intros d f tl Hd Hf Hs. cbn [p_elems]. by rewrite (proj2 (Hvs d Hd)). }
  destruct (expect 93 b1) as [r' |] eqn:E5; [| destruct (expect 44 b1) as [b2 |] eqn:E6; [| done]].
  - intros [= <- <-]. apply compacted_expect in E5; [| lia | done | apply H1].
    exists c, (vs' ++ [chr 93])%list. split; [exact (compacted_app _ _ _ _ _ H1 E5) |]. split; [done |].
    intros d f rest Hd Hf. destruct f as [| f]; [lia |]. unfold elems_depth in Hd. cbn in Hd.
    cbn [length] in Hf. rewrite length_app in Hf. cbn [length] in Hf.
    replace ((c :: vs' ++ [chr 93]) ++ rest)%list with ((c :: vs') ++ chr 93 :: rest)%list by list_eq.
    by rewrite Hhead by first [apply stops_bracket | cbn [length]; lia].
  - destruct (p_elems fuel depth b2) as [| | l' r'] eqn:E7; try done. intros [= <- <-].
    apply compacted_expect in E6; [| lia | done | apply H1]. apply IHe in E7 as (c' & cs & H7 & _ & Ht); [| apply E6].
    exists c, (vs' ++ [comma] ++ c' :: cs)%list. split.
    { exact (compacted_app _ _ _ _ _ H1 (compacted_app _ _ _ _ _ E6 H7)). }
    split; [done |]. intros d f rest Hd Hf. destruct f as [| f]; [lia |]. change (Nat.max (jdepth x) (elems_depth l') ≤ d)%nat in Hd.
    cbn [length] in Hf. rewrite length_app in Hf. cbn [length app] in Hf.
    replace ((c :: vs' ++ [comma] ++ c' :: cs) ++ rest)%list with
      ((c :: vs') ++ comma :: (c' :: cs) ++ rest)%list by list_eq.
    rewrite Hhead by first [apply stops_comma | cbn [length]; lia]. rewrite expect_comma, expect_not_comma by done.
    rewrite Ht; [done | lia | cbn [length]; lia].
Qed.

Lemma all_compact fuel : value_compacts fuel ∧ members_compact fuel ∧ elems_compact fuel.
Proof.
  induction fuel as [| fuel (IHv & IHm & IHe)]; [done |].
  split; [| split; [by apply members_compact_S | by apply elems_compact_S]].
  intros depth b v r Hb. cbn [p_value]. destruct (compact_skip b) as [Hcs Hvs]. specialize (Hvs Hb).
  assert (Hback : ∀ cs, compacted (skip_ws b) r cs → compacted b r cs) by (unfold compacted; by rewrite Hcs).
  destruct (skip_ws b) as [| c b1] eqn:Es; [done |]. apply skip_ws_head in Es.
  destruct (is_char 123 c) eqn:E1; [| destruct (is_char 91 c) eqn:E2].
  - apply is_char_byte in E1 as ->. rewrite utf8_tail in Hvs by done. destruct depth as [| depth]; [done |].
    intros (cs & Hc & Hr)%object_compacts; eauto.
  - apply is_char_byte in E2 as ->. rewrite utf8_tail in Hvs by done. destruct depth as [| depth]; [done |].
    intros (cs & Hc & Hr)%array_compacts; eauto.
  - intros (cs & Hc & Hr)%compact_scalar; eauto.
Qed.

(** A raw value inside another is read as the value of its text. *)
Lemma reads_raw raw bs : utf8_valid (to_bytes raw) = true → marshal_raw raw = Some bs →
  ∃ v, (raw = "" ∧ v = JNull ∨ parse raw = Some v) ∧ ∀ d, (jdepth v ≤ d)%nat → reads d bs v.
Proof.
  intros Hv. unfold marshal_raw. destruct (String.eqb_spec raw "") as [-> | _].
  { intros [= <-]. exists JNull. split; [by left |]. intros d _. apply (reads_literal d JNull). by left. }
  destruct (parse raw) as [v |] eqn:Hp; [| done]. intros [= <-]. exists v. split; [by right |].
  unfold parse in Hp. destruct (p_value _ _ _) as [| | v' r] eqn:E; try done.
  destruct (skip_ws r) eqn:Er; [| done]. injection Hp as ->.
  apply (proj1 (all_compact _)) in E as (cs & [Hc _] & Hr); [| done].
  destruct (compact_skip r) as [Hcr _]. rewrite Er in Hcr. cbn [compact] in Hcr. rewrite <-Hcr, app_nil_r in Hc. by rewrite Hc.
Qed.
