(* ===== verification/GoIndent.v ===== *)
(** [json.Encoder] with an indentation of two spaces ([SetIndent]): what it
    writes, and that it is read back as the value. *)

From S2P Require Import Prelude GoString GoJson GoEncoder.

Open Scope string_scope.
Open Scope nat_scope.
Open Scope list_scope.

Definition newline (depth : nat) : bytes := chr 10 :: replicate (2 * depth) (chr 32).

Definition is_open (c : ascii) : bool := (is_char 123 c || is_char 91 c)%bool.
Definition is_close (c : ascii) : bool := (is_char 125 c || is_char 93 c)%bool.

(** [appendIndent], on valid JSON: [in_string], the position is inside a string;
    [need], a bracket has just been opened. *)
Fixpoint appendIndent (in_string need : bool) (depth : nat) (b : bytes) : bytes :=
  match b with
  | [] => []
  | c :: b1 =>
      if in_string then
        if is_char 34 c then c :: appendIndent false need depth b1
        else if is_char 92 c then
          match b1 with e :: b2 => c :: e :: appendIndent true need depth b2 | [] => [c] end
        else c :: appendIndent true need depth b1
      else if is_space c then appendIndent false need depth b1
      else if is_close c then
        if need then c :: appendIndent false false depth b1
        else newline (pred depth) ++ c :: appendIndent false false (pred depth) b1
      else
        let depth := if need then S depth else depth in
        (if need then newline depth else []) ++
        (if is_open c then c :: appendIndent false true depth b1
         else if is_char 44 c then c :: newline depth ++ appendIndent false false depth b1
         else if is_char 58 c then c :: chr 32 :: appendIndent false false depth b1
         else c :: appendIndent (is_char 34 c) false depth b1)
  end%list.

(** [encoder.Encode(value)]: the value, and a line feed. *)
Definition indented (v : json) : string := of_bytes (appendIndent false false 0 (encode v) ++ [chr 10])%list.

(** * The same, by recursion on the value *)

Fixpoint pretty (depth : nat) (v : json) : bytes :=
  match v with
  | JArr [] | JObj [] => encode v
  | JArr l => [chr 91] ++ joined ((λ x, newline (S depth) ++ pretty (S depth) x) <$> l) ++ newline depth ++ [chr 93]
  | JObj l =>
      [chr 123] ++ joined ((λ p, newline (S depth) ++ quote p.1 ++ chr 58 :: chr 32 :: pretty (S depth) p.2) <$> l) ++
      newline depth ++ [chr 125]
  | _ => encode v
  end%list.

Definition deeper (need : bool) (depth : nat) : nat := if need then S depth else depth.
Definition opening (need : bool) (depth : nat) : bytes := if need then newline (S depth) else [].

(** A character that is copied. *)
Definition copied (c : ascii) : bool :=
  negb (is_space c || is_close c || is_open c || is_char 44 c || is_char 58 c || is_char 34 c).

Lemma indent_copied need depth c b : copied c = true →
  appendIndent false need depth (c :: b) = (opening need depth ++ c :: appendIndent false false (deeper need depth) b)%list.
Proof.
  unfold copied. rewrite negb_true_iff, !orb_false_iff. intros [[[[[H1 H2] H3] H4] H5] H6].
  cbn [appendIndent]. rewrite H1, H2, H3, H4, H5, H6. by destruct need.
Qed.

Lemma indent_copied_all depth l b : Forall (λ c, copied c = true) l →
  appendIndent false false depth (l ++ b) = (l ++ appendIndent false false depth b)%list.
Proof. induction 1 as [| c l Hc _ IH]; [done |]. cbn [app]. rewrite indent_copied by done. cbn. by rewrite IH. Qed.

Lemma indent_word need depth l b : Forall (λ c, copied c = true) l → l ≠ [] →
  appendIndent false need depth (l ++ b) = (opening need depth ++ l ++ appendIndent false false (deeper need depth) b)%list.
Proof.
  intros [| c l' Hc Hl]; [done |]. intros _. cbn [app]. rewrite indent_copied by done. by rewrite indent_copied_all by done.
Qed.

Lemma number_char_copied c : number_char c = true → copied c = true.
Proof. unfold number_char, copied, is_space, is_close, is_open, is_digit, in_range, is_char. lia. Qed.

(** ** Strings *)

Lemma indent_high depth c b : (128 ≤ byte c)%Z → appendIndent true false depth (c :: b) = c :: appendIndent true false depth b.
Proof. intros Hc. destruct (high_plain c Hc) as (H1 & H2 & _). cbn [appendIndent]. by rewrite H1, H2. Qed.

Lemma cont_high c : cont c = true → (128 ≤ byte c)%Z.
Proof. unfold cont, in_range. lia. Qed.

Lemma indent_quote_ascii depth c b : (byte c < 128)%Z →
  appendIndent true false depth (quote_ascii c ++ b) = (quote_ascii c ++ appendIndent true false depth b)%list.
Proof. intros H. all_bytes c; first [reflexivity | exfalso; revert H; by vm_compute]. Qed.

Lemma indent_line_sep depth c0 c1 c2 b : is_line_sep c0 c1 c2 = true →
  appendIndent true false depth (line_sep_escape c2 ++ b) = (line_sep_escape c2 ++ appendIndent true false depth b)%list.
Proof.
  unfold is_line_sep, is_char. rewrite !andb_true_iff, orb_true_iff, !Z.eqb_eq. intros [_ H].
  rewrite <-(chr_byte c2). by destruct H as [-> | ->].
Qed.

Lemma indent_quote_body depth s rest : utf8_valid s = true →
  appendIndent true false depth (quote_body s ++ dq :: rest) = (quote_body s ++ dq :: appendIndent false false depth rest)%list.
Proof.
  revert s. apply (utf8_valid_ind (λ s, appendIndent true false depth (quote_body s ++ dq :: rest) =
    (quote_body s ++ dq :: appendIndent false false depth rest)%list)).
  - done.
  - intros c0 b Hc Hb IH. cbn [quote_body]. rewrite (proj2 (Z.ltb_lt (byte c0) 128)) by done.
    by rewrite <-!(assoc_L (++)), indent_quote_ascii, IH.
  - intros c0 c1 b Hc E2 Hb IH. cbn [quote_body]. high_byte. rewrite E2. cbn [app].
    apply andb_true_iff in E2 as [_ ?%cont_high]. by rewrite !indent_high, IH.
  - intros c0 c1 c2 b Hc E2 E3 Hb IH. cbn [quote_body]. high_byte. rewrite E2, E3.
    destruct (is_line_sep c0 c1 c2) eqn:EL.
    { by rewrite <-!(assoc_L (++)), (indent_line_sep depth c0 c1), IH. }
    cbn [app]. rewrite !andb_true_iff in E3. destruct E3 as [[_ ?%second3_cont%cont_high] ?%cont_high].
    by rewrite !indent_high, IH.
  - intros c0 c1 c2 c3 b Hc E2 E3 E4 Hb IH. cbn [quote_body]. high_byte. rewrite E2, E3, E4. cbn [app].
    rewrite !andb_true_iff in E4. destruct E4 as [[[_ ?%second4_cont%cont_high] ?%cont_high] ?%cont_high].
    by rewrite !indent_high, IH.
Qed.

Lemma indent_quote need depth s rest : utf8_valid (to_bytes s) = true →
  appendIndent false need depth (quote s ++ rest) =
  (opening need depth ++ quote s ++ appendIndent false false (deeper need depth) rest)%list.
Proof.
  intros Hs. unfold quote. cbn [app]. rewrite <-!(assoc_L (++)). cbn [app].
  transitivity (opening need depth ++ dq :: appendIndent true false (deeper need depth) (quote_body (to_bytes s) ++ dq :: rest))%list;
    [by destruct need |]. by rewrite indent_quote_body.
Qed.

(** ** Values *)

Lemma indent_comma depth b : appendIndent false false depth (comma :: b) = comma :: (newline depth ++ appendIndent false false depth b)%list.
Proof. reflexivity. Qed.

Lemma indent_close c depth b : is_space c = false → is_close c = true →
  appendIndent false false (S depth) (c :: b) = (newline depth ++ c :: appendIndent false false depth b)%list.
Proof. intros H1 H2. cbn [appendIndent]. by rewrite H1, H2. Qed.


(** The pieces of an array or an object, after its bracket. *)
Section pieces.
Context {A : Type} (f : A → bytes) (g : nat → A → bytes).

Definition piece (x : A) : Prop := ∀ need depth rest,
  appendIndent false need depth (f x ++ rest) =
  (opening need depth ++ g (deeper need depth) x ++ appendIndent false false (deeper need depth) rest)%list.

Lemma indent_pieces depth x l rest : Forall piece (x :: l) →
  (newline depth ++ appendIndent false false depth (joined (f <$> x :: l) ++ rest) =
   joined ((λ y, newline depth ++ g depth y) <$> x :: l) ++ appendIndent false false depth rest)%list.
Proof.
  revert x. induction l as [| y l IH]; intros x [Hx Hl]%Forall_cons_1.
  - cbn [fmap list_fmap joined]. rewrite Hx. cbn [opening deeper app]. by rewrite <-(assoc_L (++)).
  - change (joined (f <$> x :: y :: l)) with (f x ++ comma :: joined (f <$> y :: l))%list.
    rewrite <-(assoc_L (++)), Hx. cbn [opening deeper app]. rewrite indent_comma, (IH y Hl).
    change (joined ((λ z, newline depth ++ g depth z) <$> x :: y :: l)) with
      ((newline depth ++ g depth x) ++ comma :: joined ((λ z, newline depth ++ g depth z) <$> y :: l))%list.
    by rewrite <-!(assoc_L (++)).
Qed.

(** Between its brackets. *)
Lemma indent_bracket o c need depth x l rest :
  is_space o = false → is_close o = false → is_open o = true → is_space c = false → is_close c = true →
  Forall piece (x :: l) →
  appendIndent false need depth (([o] ++ joined (f <$> x :: l) ++ [c]) ++ rest) =
  (opening need depth ++
   ([o] ++ joined ((λ y, newline (S (deeper need depth)) ++ g (S (deeper need depth)) y) <$> x :: l) ++
    newline (deeper need depth) ++ [c]) ++ appendIndent false false (deeper need depth) rest)%list.
Proof.
  intros Ho1 Ho2 Ho3 Hc1 Hc2 Hl. rewrite <-!(assoc_L (++)). cbn [app].
  transitivity (opening need depth ++ o :: appendIndent false true (deeper need depth) (joined (f <$> x :: l) ++ c :: rest))%list.
  { cbn [appendIndent]. rewrite Ho1, Ho2, Ho3. by destruct need. }
  do 2 f_equal. set (d := deeper need depth). rewrite <-indent_close, <-indent_pieces by done.
  pose proof (Forall_inv Hl) as Hx. destruct l as [| y l].
  - cbn [fmap list_fmap joined]. by rewrite (Hx true), (Hx false).
  - change (joined (f <$> x :: y :: l)) with (f x ++ comma :: joined (f <$> y :: l))%list.
    rewrite <-(assoc_L (++)). by rewrite (Hx true), (Hx false).
Qed.

End pieces.

Lemma indent_encode v : encodable v = true → piece encode pretty v.
Proof.
  induction v as [| b | lit | s | l IH | l IH] using json_ind'; intros He need depth rest.
  - by apply indent_word; [repeat constructor |].
  - destruct b; by apply indent_word; [repeat constructor |].
  - destruct (p_number_self _ _ _ (number_ok_split lit He)) as [_ Hc]. apply (indent_word _ _ (to_bytes lit)).
    + eapply list.Forall_impl; [exact Hc | apply number_char_copied].
    + by destruct (number_first lit He) as (c & t & -> & _).
  - by apply indent_quote.
  - destruct l as [| x l]; [by destruct need |]. cbn [encodable] in He. rewrite forallb_forall in He.
    rewrite encode_JArr. apply (indent_bracket encode pretty); try done. rewrite list.Forall_forall in IH |- *.
    intros y Hy. apply IH; [done |]. apply He. by apply list_elem_of_In.
  - destruct l as [| p l]; [by destruct need |]. cbn [encodable] in He. rewrite forallb_forall in He.
    rewrite encode_JObj. unfold object_bytes. rewrite <-list_fmap_compose.
    apply (indent_bracket (member_bytes ∘ encoded_member) (λ d p, quote p.1 ++ chr 58 :: chr 32 :: pretty d p.2)%list); try done.
    rewrite list.Forall_forall in IH |- *. intros [k y] Hy. apply list_elem_of_In in Hy as Hin. specialize (He _ Hin). cbn in He.
    apply andb_true_iff in He as [Hk He]. intros need' d r. unfold compose, encoded_member, member_bytes. cbn [fst snd].
    rewrite <-!(assoc_L (++)), indent_quote by done. cbn [app].
    transitivity (opening need' d ++ quote k ++ chr 58 :: chr 32 ::
      appendIndent false false (deeper need' d) (encode y ++ r))%list; [done |].
    rewrite (IH (k, y) Hy He). cbn [opening deeper app]. done.
Qed.

(** * Reading what was written *)

Lemma skip_ws_newline depth b : skip_ws (newline depth ++ b) = skip_ws b.
Proof.
  unfold newline. cbn [app]. change (skip_ws (replicate (2 * depth) (chr 32) ++ b) = skip_ws b).
  by induction (2 * depth) as [| n IH].
Qed.

Lemma expect_newline z depth b : expect z (newline depth ++ b) = expect z b.
Proof. unfold expect. by rewrite skip_ws_newline. Qed.

(** A text that is read as a value, where white space may come before it. *)
Definition reads_after (depth : nat) (b : bytes) (v : json) : Prop :=
  ∀ fuel rest, stops rest → 2 * length b < fuel → p_value fuel depth (b ++ rest) = POk v rest.

Lemma p_value_skip fuel depth b b' : skip_ws b = skip_ws b' → p_value fuel depth b = p_value fuel depth b'.
Proof. intros Hb. destruct fuel as [| fuel]; [done |]. cbn [p_value]. by rewrite Hb. Qed.

Lemma reads_newline d depth b v : reads depth b v → reads_after depth (newline d ++ b) v.
Proof.
  intros [_ Hr] fuel rest Hs Hf. rewrite <-(assoc_L (++)). rewrite length_app in Hf.
  rewrite <-(Hr fuel rest Hs) by lia. apply p_value_skip, skip_ws_newline.
Qed.

Lemma reads_space depth b v : reads depth b v → reads_after depth (chr 32 :: b) v.
Proof.
  intros [_ Hr] fuel rest Hs Hf. cbn [length] in Hf. rewrite <-(Hr fuel rest Hs) by lia. by apply p_value_skip.
Qed.

(** What follows the last item: its bracket, on a line of its own. *)
Lemma stops_newline d b : stops (newline d ++ b).
Proof. apply stops_line. Qed.

Lemma p_elems_pretty d depth bs vs : Forall2 (reads_after depth) bs vs → bs ≠ [] → ∀ fuel rest,
  2 * length (joined bs) + 1 < fuel → p_elems fuel depth (joined bs ++ newline d ++ chr 93 :: rest) = POk vs rest.
Proof.
  induction 1 as [| b v bs vs Hv Hl IH]; [done |]. intros _ fuel rest Hf.
  destruct fuel as [| fuel]; [lia |]. cbn [p_elems]. destruct bs as [| y bs].
  - apply Forall2_nil_inv_l in Hl as ->. cbn [joined] in *. rewrite Hv by first [apply stops_newline | lia].
    cbn [pbind]. by rewrite expect_newline.
  - change (joined (b :: y :: bs)) with (b ++ comma :: joined (y :: bs)) in *.
    rewrite length_app in Hf. cbn [length] in Hf. rewrite <-(assoc_L (++)), Hv by first [apply stops_comma | lia].
    cbn [pbind app]. rewrite expect_comma, !expect_not_comma by done. by rewrite IH by (done || lia).
Qed.

(** A member on a line of its own. *)
Definition member_line (d : nat) (k : string) (b : bytes) : bytes := newline d ++ quote k ++ chr 58 :: chr 32 :: b.

Definition reads_member (d depth : nat) (l : bytes) (m : string * json) : Prop :=
  ∃ b, l = member_line d m.1 b ∧ utf8_valid (to_bytes m.1) = true ∧ reads depth b m.2.

Lemma p_members_line fuel d depth k b rest : utf8_valid (to_bytes k) = true →
  p_members (S fuel) depth (member_line d k b ++ rest) =
  pbind (p_value fuel depth (chr 32 :: b ++ rest)) (λ v b4,
    match expect 125 b4 with
    | Some r => POk [(k, v)] r
    | None => match expect 44 b4 with Some b5 => pmap (cons (k, v)) (p_members fuel depth b5) | None => PErr end
    end).
Proof.
  intros Hk. cbn [p_members]. unfold member_line, quote. rewrite <-!(assoc_L (++)), expect_newline. cbn [app].
  rewrite expect_dq, <-!(assoc_L (++)). cbn [app]. rewrite p_string_quote by done. by rewrite expect_colon, of_to_bytes.
Qed.

Lemma p_members_pretty d d' depth ls ms : Forall2 (reads_member d depth) ls ms → ls ≠ [] → ∀ fuel rest,
  2 * length (joined ls) + 1 < fuel → p_members fuel depth (joined ls ++ newline d' ++ chr 125 :: rest) = POk ms rest.
Proof.
  induction 1 as [| l [k v] ls ms (b & -> & Hk & Hv) Hl IH]; [done |]. intros _ fuel rest Hf. cbn [fst snd] in *.
  assert (Hb : length (chr 32 :: b) < length (member_line d k b)).
  { unfold member_line, quote. rewrite !length_app. cbn. lia. }
  destruct fuel as [| fuel]; [lia |]. destruct ls as [| y ls].
  - apply Forall2_nil_inv_l in Hl as ->. cbn [joined] in *. rewrite p_members_line by done.
    change (chr 32 :: b ++ ?r) with ((chr 32 :: b) ++ r).
    rewrite (reads_space _ _ _ Hv) by first [apply stops_newline | lia]. cbn [pbind]. by rewrite expect_newline.
  - change (joined (?x :: y :: ls)) with (x ++ comma :: joined (y :: ls)) in *.
    rewrite length_app in Hf. cbn [length] in Hf. rewrite <-(assoc_L (++)), p_members_line by done.
    change (chr 32 :: b ++ ?r) with ((chr 32 :: b) ++ r). rewrite (reads_space _ _ _ Hv) by first [apply stops_comma | cbn [length] in *; lia].
    cbn [pbind app]. rewrite expect_comma, !expect_not_comma by done. by rewrite IH by (done || lia).
Qed.

Lemma pretty_starts v d : encodable v = true → ∃ c t, pretty d v = c :: t ∧ starts c.
Proof.
  intros He. destruct v as [| [] | lit | s | [| x l] | [| p l]]; try by apply encode_starts.
  - by eexists _, _.
  - by eexists _, _.
Qed.

(** A list of lines does not start with a closing bracket. *)
Lemma expect_line z d c t rest l : is_char z c = false → skip_ws [c] = [c] → expect z (joined ((newline d ++ c :: t) :: l) ++ rest) = None.
Proof.
  intros Hz Hc.
  assert (∃ r, joined ((newline d ++ c :: t) :: l) ++ rest = newline d ++ c :: r) as [r ->].
  { destruct l; cbn [joined]; rewrite <-!(assoc_L (++)); by eexists. }
  rewrite expect_newline. unfold expect. cbn [skip_ws] in *. case_match; [done |]. by rewrite Hz.
Qed.

(** What the encoder writes with indentation is read back. *)
Lemma reads_pretty v : encodable v = true → ∀ depth d, jdepth v ≤ depth → reads depth (pretty d v) v.
Proof.
  induction v as [| b | lit | s | l IH | l IH] using json_ind'; intros He depth d Hd; try by apply reads_encode.
  - destruct l as [| x l]; [by apply reads_encode |]. cbn in Hd. destruct depth as [| depth]; [lia |].
    split; [by eexists _, _ |]. intros fuel rest Hs Hf. destruct fuel as [| fuel]; [lia |]. cbn [pretty] in *.
    set (bs := (λ x, newline (S d) ++ pretty (S d) x) <$> x :: l) in *.
    cbn [app p_value] in *. rewrite (skip_ws_starts (chr 91)) by done. simpl (is_char _ (chr 91)). cbv iota.
    rewrite <-!(assoc_L (++)). cbn [app]. cbn [length] in Hf. rewrite !length_app in Hf.
    cbn [encodable] in He. rewrite forallb_forall in He.
    assert (Hbs : Forall2 (reads_after depth) bs (x :: l)).
    { apply Forall2_fmap_l, Forall_Forall2_diag. rewrite list.Forall_forall in IH |- *. intros y Hy.
      apply reads_newline, IH; [done | by apply He, list_elem_of_In |].
      apply le_S_n in Hd. by apply (list_max_map_le jdepth (x :: l)). }
    assert (expect 93 (joined bs ++ newline d ++ chr 93 :: rest) = None) as ->.
    { destruct (pretty_starts x (S d)) as (c & t & Ex & Hc1 & Hc2); [by apply He; left |].
      subst bs. cbn [fmap list_fmap]. rewrite Ex. by apply expect_line. }
    rewrite (p_elems_pretty d depth bs (x :: l)) by (done || lia). done.
  - destruct l as [| p l]; [by apply reads_encode |]. cbn in Hd. destruct depth as [| depth]; [lia |].
    split; [by eexists _, _ |]. intros fuel rest Hs Hf. destruct fuel as [| fuel]; [lia |]. cbn [pretty] in *.
    change (λ p, newline (S d) ++ quote p.1 ++ chr 58 :: chr 32 :: pretty (S d) p.2) with
      (λ p, member_line (S d) p.1 (pretty (S d) p.2)) in *.
    set (ls := (λ p, member_line (S d) p.1 (pretty (S d) p.2)) <$> p :: l) in *.
    cbn [app p_value] in *. rewrite (skip_ws_starts (chr 123)) by done. simpl (is_char _ (chr 123)). cbv iota.
    rewrite <-!(assoc_L (++)). cbn [app]. cbn [length] in Hf. rewrite !length_app in Hf.
    cbn [encodable] in He. rewrite forallb_forall in He.
    assert (Hls : Forall2 (reads_member (S d) depth) ls (p :: l)).
    { apply Forall2_fmap_l, Forall_Forall2_diag. rewrite list.Forall_forall in IH |- *. intros q Hq.
      assert (Hin : In q (p :: l)) by by apply list_elem_of_In.
      apply He, andb_true_iff in Hin as [Hk Hq2]. exists (pretty (S d) q.2). split; [done |]. split; [done |].
      apply IH; [done | done |]. apply le_S_n in Hd. by apply (list_max_map_le (λ p, jdepth p.2) (p :: l)). }
    assert (expect 125 (joined ls ++ newline d ++ chr 125 :: rest) = None) as ->.
    { by apply (expect_line 125 (S d) dq). }
    rewrite (p_members_pretty (S d) d depth ls (p :: l)) by (done || lia). done.
Qed.

(** [json.Unmarshal] of what the encoder wrote. *)
Lemma parse_indented v : encodable v = true → jdepth v ≤ max_nesting → parse (indented v) = Some v.
Proof.
  intros He Hd. unfold indented. pose proof (indent_encode v He false 0 []) as Hi. rewrite app_nil_r in Hi.
  rewrite Hi. cbn [opening deeper appendIndent app]. rewrite app_nil_r.
  destruct (reads_pretty v He max_nesting 0 Hd) as [_ Hr]. unfold parse. rewrite to_of_bytes.
  rewrite Hr; [done | apply stops_line |]. rewrite length_app. lia.
Qed.

(** A text written with single quotation marks. *)
Definition with_quotes (s : string) : string := of_bytes ((λ c, if is_char 39 c then dq else c) <$> to_bytes s).

Example indented_ex :
  indented (JObj [("a", JArr [JNum "1"; JArr []; JObj []]); ("b:c,d", JObj [("e", JStr "{[,:]}")])]) =
  with_quotes "{
  'a': [
    1,
    [],
    {}
  ],
  'b:c,d': {
    'e': '{[,:]}'
  }
}
".
Proof. vm_compute. reflexivity. Qed.
