(* ===== verification/GoFmt.v ===== *)
(** Numbers as the program prints them: [time.Duration.String], the verb %.2f of
    [fmt], and the JSON literals of integers and of finite floats. *)

From Stdlib Require Import SpecFloat.
From S2P Require Import Prelude GoString GoFloat GoJson GoEncoder GoStrconv GoTime.

Open Scope string_scope.
Open Scope Z_scope.

(** * Durations *)

(** [fmtFrac]: the last [prec] digits of [v] as a fraction without trailing
    zeros, and the rest of [v]. *)
Fixpoint fmtFrac (prec : nat) (print : bool) (buf : bytes) (v : Z) : bytes * Z :=
  match prec with
  | O => (if print then chr 46 :: buf else buf, v)
  | S prec =>
      let print := (print || negb (Z.eqb (v mod 10) 0))%bool in
      fmtFrac prec print (if print then digit (v mod 10) :: buf else buf) (v / 10)
  end.

(** Whole units and a fraction. *)
Definition with_fraction (prec : nat) (v : Z) (unit : string) : string :=
  let '(frac, v) := fmtFrac prec false [] v in Itoa v +:+ of_bytes frac +:+ unit.

Definition Microsecond : Z := 1000.
Definition Millisecond : Z := 1000000.

(** [d.String()]; the micro sign is U+00B5. *)
Definition Duration_String (d : Z) : string :=
  let u := Z.abs d in
  let text :=
    if Z.ltb u Second then
      if Z.eqb u 0 then "0s"
      else if Z.ltb u Microsecond then Itoa u +:+ "ns"
      else if Z.ltb u Millisecond then with_fraction 3 u (of_bytes [chr 194; chr 181; chr 115])
      else with_fraction 6 u "ms"
    else
      let '(frac, u) := fmtFrac 9 false [] u in
      let seconds := Itoa (u mod 60) +:+ of_bytes frac +:+ "s" in
      let u := u / 60 in
      if Z.ltb 0 u then
        let minutes := Itoa (u mod 60) +:+ "m" +:+ seconds in
        let u := u / 60 in
        if Z.ltb 0 u then Itoa u +:+ "h" +:+ minutes else minutes
      else seconds in
  if Z.ltb d 0 then "-" +:+ text else text.

Example Duration_String_ex :
  Duration_String <$> [0; 1; 1100; 2200000; 1500000000; 19638167521; 60000000000; 3600000000000; 5430001000000; -1500000;
    int64_min] =
  ["0s"; "1ns"; "1.1" +:+ of_bytes [chr 194; chr 181] +:+ "s"; "2.2ms"; "1.5s"; "19.638167521s"; "1m0s"; "1h0m0s";
   "1h30m30.001s"; "-1.5ms"; "-2562047h47m16.854775808s"].
Proof. vm_compute. reflexivity. Qed.

(** * The verb %.2f: the exact value, rounded to the nearest, ties to even *)

Definition round_even (n d : Z) : Z :=
  let q := n / d in
  let r := n mod d in
  if (Z.ltb d (2 * r) || (Z.eqb (2 * r) d && Z.odd q))%bool then q + 1 else q.

Definition format_2f (x : float64) : string :=
  match x with
  | S754_nan => "NaN"
  | S754_infinity s => if s then "-Inf" else "+Inf"
  | S754_zero s | S754_finite s _ _ =>
      let '(n, d) := default (0, 1) (f64_ratio x) in
      let q := round_even (100 * Z.abs n) d in
      (if s then "-" else "") +:+ Itoa (q / 100) +:+ "." +:+ padded 2 (q mod 100)
  end.

Example format_2f_ex :
  omap (λ s, format_2f <$> parse_f64 s) ["0.5094284485351256"; "2"; "0.125"; "0.375"; "1e20"; "-0.004"; "99.996"; "0"; "12345.675"] =
  ["0.51"; "2.00"; "0.12"; "0.38"; "100000000000000000000.00"; "-0.00"; "100.00"; "0.00"; "12345.67"] ∧
  format_2f (f64_div (f64_of_Z 10) (f64_of_Z 0)) = "+Inf".
Proof. vm_compute. auto. Qed.

(** Half of a hundredth away at most. *)
Lemma round_even_near n d : 0 < d → 2 * Z.abs (round_even n d * d - n) ≤ d.
Proof.
  intros Hd. unfold round_even. pose proof (Z.div_mod n d ltac:(lia)). pose proof (Z.mod_pos_bound n d Hd).
  set (q := n / d) in *. set (r := n mod d) in *. clearbody q r.
  destruct (_ || _)%bool eqn:Hr; rewrite ?orb_true_iff, ?orb_false_iff, ?Z.ltb_lt, ?Z.ltb_ge, ?andb_true_iff, ?Z.eqb_eq in Hr; nia.
Qed.

(** * Literals of JSON *)

(** The integer part of a literal: zero, or digits that do not start with one. *)
Definition int_part (i : bytes) : Prop :=
  i = [chr 48] ∨ ∃ c t, i = c :: t ∧ in_range 49 57 c = true ∧ all_digits t.

Lemma span_all_digits ds rest : all_digits ds → no_digit rest → span_digits (ds ++ rest)%list = (ds, rest).
Proof.
  intros Hd Hr. induction Hd as [| c ds Hc _ IH]; cbn [app span_digits].
  - destruct rest as [| c rest]; cbn in *; [done | by rewrite Hr].
  - unfold is_digit. by rewrite Hc, IH.
Qed.

Lemma p_int_part i rest : int_part i → no_digit rest → p_int (i ++ rest)%list = Some (i, rest).
Proof.
  intros [-> | (c & t & -> & Hc & Ht)] Hr; [done |]. cbn [app p_int].
  unfold is_char, is_digit, in_range in *. rewrite (proj2 (Z.eqb_neq _ _)), (proj2 (Z.leb_le 48 _)), (proj2 (Z.leb_le _ 57)) by lia.
  cbn [andb]. by rewrite span_all_digits.
Qed.

Lemma p_frac_part fr rest : all_digits fr → fr ≠ [] → no_digit rest →
  p_frac (chr 46 :: fr ++ rest)%list = Some ((chr 46 :: fr)%list, rest).
Proof. intros Hd Hne Hr. cbn [p_frac]. simpl (is_char 46 (chr 46)). rewrite span_all_digits by done. by destruct fr. Qed.

(** An exponent: none, or a sign and digits. *)
Definition exp_part (x : bytes) : Prop :=
  x = [] ∨ ∃ sign ds, x = (chr 101 :: sign :: ds)%list ∧ (sign = chr 43 ∨ sign = chr 45) ∧ all_digits ds ∧ ds ≠ [].

Lemma p_exp_part x : exp_part x → p_exp x = Some (x, []).
Proof.
  intros [-> | (sign & ds & -> & Hs & Hd & Hne)]; [done |]. pose proof (span_all_digits ds [] Hd I) as E.
  rewrite app_nil_r in E. transitivity (let '(d, r) := span_digits ds in match d with [] => None | _ => Some ((chr 101 :: sign :: d)%list, r) end).
  - by destruct Hs as [-> | ->].
  - rewrite E. by destruct ds.
Qed.

Lemma exp_part_start x : exp_part x → no_digit x ∧ no_dot x.
Proof. by intros [-> | (? & ? & -> & _)]. Qed.

(** A literal of its parts. *)
Lemma unsigned_parts i fr x : int_part i → all_digits fr → exp_part x →
  p_unsigned (i ++ (match fr with [] => [] | _ => chr 46 :: fr end) ++ x)%list =
  Some ((i ++ (match fr with [] => [] | _ => chr 46 :: fr end) ++ x)%list, []).
Proof.
  intros Hi Hf Hx. destruct (exp_part_start x Hx) as [Hxd Hxp]. unfold p_unsigned. rewrite p_int_part; [| done | by destruct fr].
  assert (p_frac ((match fr with [] => [] | _ => chr 46 :: fr end) ++ x)%list = Some ((match fr with [] => [] | _ => chr 46 :: fr end), x)) as ->.
  { destruct fr as [| c fr]; [| by apply (p_frac_part (c :: fr))]. cbn [app]. destruct x as [| c x]; [done |]. cbn in *. by rewrite Hxp. }
  by rewrite (p_exp_part x Hx).
Qed.

Lemma unsigned_ok b : p_unsigned b = Some (b, []) → int_part (take 1 b) → number_ok (of_bytes b) = true ∧ number_ok (of_bytes (chr 45 :: b)) = true.
Proof.
  intros Hu Hi. unfold number_ok. rewrite !to_of_bytes. split.
  - destruct b as [| c b]; [done |]. cbn [p_number]. assert (is_char 45 c = false) as ->; [| by rewrite Hu].
    cbn in Hi. destruct Hi as [[= ->] | (c' & t & [= -> <-] & Hc & _)]; [done |]. unfold in_range, is_char in *. lia.
  - cbn [p_number]. simpl (is_char 45 (chr 45)). cbv iota. by rewrite Hu.
Qed.

Lemma int_part_digits ds : all_digits ds → (∃ c t, ds = c :: t ∧ in_range 49 57 c = true) → int_part ds.
Proof. intros Hd (c & t & -> & Hc). right. apply Forall_cons_1 in Hd as [_ Hd]. by exists c, t. Qed.

Lemma Z_bytes_part z : 0 ≤ z → int_part (Z_bytes z).
Proof.
  intros Hz. destruct (decide (z = 0)) as [-> | Hne]; [by left |].
  apply int_part_digits; [by apply Z_bytes_digits |]. apply Z_bytes_head. lia.
Qed.

Lemma int_part_one i : int_part i → int_part (take 1 i).
Proof. intros [-> | (c & t & -> & Hc & _)]; [by left |]. right. exists c, []. split_and!; [done | done | by apply Forall_nil_2]. Qed.

Lemma part_unsigned i : int_part i → p_unsigned i = Some (i, []).
Proof.
  intros Hi. pose proof (unsigned_parts i [] [] Hi ltac:(by apply Forall_nil_2) ltac:(by left)) as Hu. cbn [app] in Hu.
  by rewrite app_nil_r in Hu.
Qed.

(** Every integer is printed as a literal. *)
Lemma number_ok_Itoa z : number_ok (Itoa z) = true.
Proof.
  unfold Itoa. destruct (Z.ltb_spec z 0).
  - assert (int_part (Z_bytes (- z))) as Hp by (apply Z_bytes_part; lia).
    apply unsigned_ok; [by apply part_unsigned | by apply int_part_one].
  - assert (int_part (Z_bytes z)) as Hp by (by apply Z_bytes_part).
    apply unsigned_ok; [by apply part_unsigned | by apply int_part_one].
Qed.

(** ** Floats *)

Lemma zeros_digits n : all_digits (zeros n).
Proof. apply Forall_replicate. done. Qed.

(** Digits with a point. *)
Lemma plain_ok ds k : all_digits ds → ds ≠ [] → k ≤ 0 ∨ (∃ c t, ds = c :: t ∧ in_range 49 57 c = true) →
  p_unsigned (plain ds k) = Some (plain ds k, []) ∧ int_part (take 1 (plain ds k)).
Proof.
  intros Hd Hne Hk. unfold plain. destruct (Z.leb_spec k 0).
  { split; [| by left]. pose proof (unsigned_parts [chr 48] (zeros (- k) ++ ds)%list [] ltac:(by left)
      (Forall_app_2 _ _ _ (zeros_digits _) Hd) ltac:(by left)) as Hu.
    destruct (zeros (- k) ++ ds)%list as [| c fr] eqn:Ef; [by apply app_eq_nil in Ef as [_ ->] |].
    by rewrite app_nil_r in Hu. }
  destruct Hk as [? | (c & t & -> & Hc)]; [lia |]. destruct (Z.leb_spec (Z.of_nat (length (c :: t))) k).
  - assert (int_part ((c :: t) ++ zeros (k - Z.of_nat (length (c :: t))))) as Hp.
    { apply int_part_digits; [by apply Forall_app_2; [| apply zeros_digits] |]. by eexists _, _. }
    split; [by apply part_unsigned | by apply int_part_one].
  - destruct (Z.to_nat k) as [| n] eqn:En; [lia |].
    assert (int_part (take (S n) (c :: t))) as Hp.
    { apply int_part_digits; [by apply Forall_take |]. by eexists _, _. }
    pose proof (unsigned_parts _ (drop (S n) (c :: t)) [] Hp ltac:(by apply Forall_drop) ltac:(by left)) as Hu.
    destruct (drop (S n) (c :: t)) as [| x fr] eqn:Ef.
    { apply (f_equal length) in Ef. rewrite length_drop in Ef. cbn [length] in *. lia. }
    rewrite app_nil_r in Hu. split; [done |]. by apply (int_part_one (take (S n) (c :: t))).
Qed.

Lemma digit_part c : in_range 48 57 c = true → int_part [c].
Proof.
  intros Hc. destruct (decide (byte c = 48)) as [Hz | Hz].
  - left. by rewrite <-(chr_byte c), Hz.
  - right. exists c, []. split; [done |]. unfold in_range in *. split; [lia | by apply Forall_nil_2].
Qed.

Lemma scientific_ok ds k : all_digits ds → ds ≠ [] →
  p_unsigned (scientific ds k) = Some (scientific ds k, []) ∧ int_part (take 1 (scientific ds k)).
Proof.
  intros Hd Hne. unfold scientific. destruct ds as [| c ds]; [done |]. apply Forall_cons_1 in Hd as [Hc Hd].
  set (x := (chr 101 :: (if Z.ltb (k - 1) 0 then chr 45 :: Z_bytes (Z.abs (k - 1))
    else chr 43 :: (if Z.ltb (k - 1) 10 then chr 48 :: Z_bytes (Z.abs (k - 1)) else Z_bytes (Z.abs (k - 1)))))%list).
  assert (Hx : exp_part x).
  { right. pose proof (Z_bytes_digits (Z.abs (k - 1)) ltac:(lia)) as He. pose proof (Z_bytes_ne (Z.abs (k - 1))) as Hn. subst x.
    destruct (Z.ltb (k - 1) 0); [by exists (chr 45), (Z_bytes (Z.abs (k - 1))); auto |].
    destruct (Z.ltb (k - 1) 10).
    - exists (chr 43), (chr 48 :: Z_bytes (Z.abs (k - 1))). split_and!; [done | by left | by apply Forall_cons_2 | done].
    - exists (chr 43), (Z_bytes (Z.abs (k - 1))). auto. }
  pose proof (unsigned_parts [c] ds x (digit_part c Hc) Hd Hx) as Hu.
  split; [by destruct ds | destruct ds; by apply (digit_part c)].
Qed.

(** The number of digits of a positive integer. *)
Lemma dec_digits_spec f z : 0 < z < 10 ^ Z.of_nat f → 1 ≤ dec_digits f z ∧ 10 ^ (dec_digits f z - 1) ≤ z < 10 ^ dec_digits f z.
Proof.
  revert z. induction f as [| f IH]; intros z Hz; [change (10 ^ Z.of_nat 0) with 1 in Hz; lia |]. cbn [dec_digits].
  destruct (Z.ltb_spec z 10); [cbn; lia |]. rewrite Nat2Z.inj_succ, Z.pow_succ_r in Hz by lia.
  pose proof (Z.div_mod z 10 ltac:(lia)). pose proof (Z.mod_pos_bound z 10 ltac:(lia)).
  destruct (IH (z / 10)) as (Hn1 & Hn2 & Hn3); [lia |]. set (n := dec_digits f (z / 10)) in *.
  split; [lia |]. replace (1 + n - 1) with n by lia. replace (1 + n) with (Z.succ n) by lia. rewrite Z.pow_succ_r by lia.
  replace n with (Z.succ (n - 1)) at 1 by lia. rewrite Z.pow_succ_r by lia. lia.
Qed.

Lemma dec_length_spec z : 0 < z → 1 ≤ dec_length z ∧ 10 ^ (dec_length z - 1) ≤ z < 10 ^ dec_length z.
Proof.
  intros Hz. apply dec_digits_spec. split; [done |]. pose proof (Z.log2_spec z Hz) as [_ Hlt].
  eapply Z.lt_le_trans; [exact Hlt |]. rewrite Nat2Z.inj_succ, Z2Nat.id by apply Z.log2_nonneg.
  apply Z.pow_le_mono_l. lia.
Qed.

Lemma dec_exponent_lower n d : 0 < n → 0 < d → 1 ≤ dec_exponent n d → d * 10 ^ (dec_exponent n d - 1) ≤ n.
Proof.
  intros Hn Hd. destruct (dec_length_spec n Hn) as (Hn1 & Hn2 & _). destruct (dec_length_spec d Hd) as (Hd1 & _ & Hd2).
  unfold dec_exponent. set (k := dec_length n - dec_length d). destruct (Z.leb_spec 0 k).
  - destruct (Z.leb_spec (d * 10 ^ k) n); [replace (k + 1 - 1) with k by lia; lia |]. intros Hk.
    replace (dec_length n - 1) with (dec_length d + (k - 1)) in Hn2 by lia. rewrite Z.pow_add_r in Hn2 by lia.
    pose proof (Z.pow_pos_nonneg 10 (k - 1) ltac:(lia) ltac:(lia)). nia.
  - destruct (Z.leb _ _); lia.
Qed.

Lemma scaled_pos n d p k : 0 < d → 1 ≤ p → 1 ≤ k → d * 10 ^ (k - 1) ≤ n → 1 ≤ scaled n d p k.
Proof.
  intros Hd Hp Hk Hn. unfold scaled. destruct (Z.leb_spec k p).
  - apply Z.div_le_lower_bound; [done |]. pose proof (Z.pow_pos_nonneg 10 (k - 1) ltac:(lia) ltac:(lia)).
    pose proof (Z.pow_pos_nonneg 10 (p - k) ltac:(lia) ltac:(lia)). nia.
  - pose proof (Z.pow_pos_nonneg 10 (k - p) ltac:(lia) ltac:(lia)). apply Z.div_le_lower_bound; [nia |].
    pose proof (Z.pow_le_mono_r 10 (k - p) (k - 1) ltac:(lia) ltac:(lia)). nia.
Qed.

Lemma shortest_scaled fuel x n d k p c q : shortest fuel x n d k p = (c, q) → p ≤ q ∧ scaled n d q k ≤ c.
Proof.
  revert p. induction fuel as [| f IH]; intros p; cbn [shortest]; [intros [= <- <-]; lia |]. cbv zeta.
  repeat case_match; try (intros [= <- <-]; lia). intros Hs%IH. lia.
Qed.

Lemma strip_zeros_pos fuel c : (0 < c → 0 < strip_zeros fuel c) ∧ (0 ≤ c → 0 ≤ strip_zeros fuel c).
Proof.
  revert c. induction fuel as [| f IH]; intros c; cbn [strip_zeros]; [done |].
  destruct (_ && _)%bool eqn:E; [| done]. rewrite andb_true_iff, Z.eqb_eq in E. destruct E as [_ E].
  pose proof (Z.div_mod c 10 ltac:(lia)). split; intros Hc; apply IH; lia.
Qed.

Lemma scaled_nonneg n d p k : 0 < n → 0 < d → 0 ≤ scaled n d p k.
Proof.
  intros Hn Hd. unfold scaled. destruct (Z.leb_spec k p); apply Z.div_pos; try nia; apply Z.mul_pos_pos; try lia; apply Z.pow_pos_nonneg; lia.
Qed.

Lemma finite_ratio m e : ∃ n d, f64_ratio (S754_finite false m e) = Some (n, d) ∧ 0 < n ∧ 0 < d.
Proof.
  cbn. destruct (Z.leb_spec 0 e).
  - exists (Z.pos m * 2 ^ e), 1. pose proof (Z.pow_pos_nonneg 2 e ltac:(lia) ltac:(lia)). split_and!; [done | lia | lia].
  - exists (Z.pos m), (2 ^ - e). pose proof (Z.pow_pos_nonneg 2 (- e) ltac:(lia) ltac:(lia)). split_and!; [done | lia | lia].
Qed.

Definition finite_f64 (x : float64) : bool := match x with S754_zero _ | S754_finite _ _ _ => true | _ => false end.

(** Every finite float is printed as a literal. *)
Lemma number_ok_json_float x : finite_f64 x = true → number_ok (json_float x) = true.
Proof.
  destruct x as [[] | | | s m e]; try done. intros _. unfold json_float.
  destruct (finite_ratio m e) as (n & d & -> & Hn & Hd).
  destruct (shortest 17 _ n d (dec_exponent n d) 1) as [c p] eqn:Es. apply shortest_scaled in Es as [Hp Hc].
  pose proof (scaled_nonneg n d p (dec_exponent n d) Hn Hd) as Hc0.
  set (k := if Z.leb (10 ^ p) c then dec_exponent n d + 1 else dec_exponent n d).
  assert (Hk : k ≤ 0 ∨ 0 < c).
  { subst k. destruct (Z.leb_spec (10 ^ p) c); [pose proof (Z.pow_pos_nonneg 10 p ltac:(lia) ltac:(lia)); lia |].
    destruct (Z.leb_spec (dec_exponent n d) 0); [by left | right].
    pose proof (scaled_pos n d p (dec_exponent n d) Hd Hp ltac:(lia) (dec_exponent_lower n d Hn Hd ltac:(lia))). lia. }
  destruct (strip_zeros_pos 20 c) as [Hs1 Hs2]. set (z := strip_zeros 20 c) in *. cbv zeta.
  pose proof (Z_bytes_digits z ltac:(lia)) as Hz. pose proof (Z_bytes_ne z) as Hzn.
  match goal with |- number_ok (of_bytes (if s then chr 45 :: ?body else ?body)) = true =>
    assert (p_unsigned body = Some (body, []) ∧ int_part (take 1 body)) as [Hu Hi] end.
  { case_match; [by apply scientific_ok |]. apply plain_ok; [done | done |].
    destruct Hk as [? | Hk]; [by left | right]. apply Z_bytes_head. auto. }
  destruct s; by apply unsigned_ok.
Qed.
