(* ===== verification/GoError.v ===== *)
(** Go [error] values: the sentinels the program compares with, the errors it
    builds with [errors.New] and [fmt.Errorf("...: %w", err)], and
    [errors.Is] / [errors.As] over the wrapping chain. *)

From S2P Require Import Prelude GoString.

Open Scope string_scope.

Inductive error : Type :=
| ErrNoRows                                   (* pgx.ErrNoRows *)
| ErrPg (code text : string)                  (* *pgconn.PgError, SQLSTATE and text *)
| ErrTransport (canceled : bool) (text : string)
    (* the call did not reach its server, or its answer was lost;
       [canceled]: because the context was cancelled *)
| ErrRedisNil                                 (* redis.Nil *)
| ErrTaskNotReplayable                        (* db.errTaskNotReplayable *)
| ErrIdempotencyKeyInProgress                 (* db.errIdempotencyKeyInProgress *)
| ErrJson (raw : string)                      (* encoding/json's error on the input [raw] *)
| ErrNew (text : string)                      (* errors.New(text) *)
| ErrWrap (prefix : string) (inner : error).  (* fmt.Errorf(prefix + ": %w", inner) *)

#[export] Instance error_eq_dec : EqDecision error.
Proof. solve_decision. Defined.

(** Texts of errors that other packages make. *)
Class ErrorTexts := {
  pgx_norows_text : string;
  redis_nil_text : string;
  json_error_text : string → string;
  quoted : string → string;   (* the verb %q of package fmt *)
  duration_error_text : string → string;   (* time.ParseDuration, of the text *)
  scan_error_text : string → string;       (* fmt.Sscan into an integer *)
}.

Section texts.
Context `{ErrorTexts}.

(** [err.Error()]. *)
Fixpoint Error (e : error) : string :=
  match e with
  | ErrNoRows => pgx_norows_text
  | ErrPg _ text => text
  | ErrTransport _ text => text
  | ErrRedisNil => redis_nil_text
  | ErrTaskNotReplayable => "task is not dead-lettered"
  | ErrIdempotencyKeyInProgress => "idempotency key is already in progress"
  | ErrJson raw => json_error_text raw
  | ErrNew text => text
  | ErrWrap prefix inner => prefix +:+ ": " +:+ Error inner
  end.
End texts.

(** The innermost error of a chain; [errors.Is] with a sentinel and
    [errors.As] with a pointer type both find it there, because every error
    the program wraps has one inner error. *)
Fixpoint cause (e : error) : error :=
  match e with ErrWrap _ inner => cause inner | _ => e end.

(** [db.IsNotFound], [db.IsUniqueViolation], [db.IsTaskNotReplayable],
    [db.IsIdempotencyKeyInProgress] and [errors.Is(err, context.Canceled)]. *)
Definition IsNotFound (e : error) : bool :=
  match cause e with ErrNoRows => true | _ => false end.
Definition IsUniqueViolation (e : error) : bool :=
  match cause e with ErrPg code _ => String.eqb code "23505" | _ => false end.
Definition IsTaskNotReplayable (e : error) : bool :=
  match cause e with ErrTaskNotReplayable => true | _ => false end.
Definition IsIdempotencyKeyInProgress (e : error) : bool :=
  match cause e with ErrIdempotencyKeyInProgress => true | _ => false end.
Definition IsCanceled (e : error) : bool :=
  match cause e with ErrTransport canceled _ => canceled | _ => false end.

(** Wrapping keeps the class of an error. *)
Lemma IsNotFound_wrap p e : IsNotFound (ErrWrap p e) = IsNotFound e.
Proof. done. Qed.
Lemma IsUniqueViolation_wrap p e : IsUniqueViolation (ErrWrap p e) = IsUniqueViolation e.
Proof. done. Qed.

#[export] Hint Rewrite IsNotFound_wrap IsUniqueViolation_wrap : go_rw.
