(* ===== verification/Config.v ===== *)
(** The configuration (internal/config/config.go): the environment variables,
    their defaults, and the check of the result. *)

From S2P Require Import Prelude GoString GoFloat GoStrconv GoTime GoError.

Open Scope string_scope.

Record Config : Type := mkConfig {
  ServiceName : string;
  HTTPAddr : string;
  DatabaseURL : string;
  RedisAddr : string;
  RedisStream : string;
  RedisGroup : string;
  RedisConsumer : string;
  RedisReclaimMinIdle : Z;   (* nanoseconds *)
  RedisReclaimCount : Z;
  StartupTimeout : Z;
  OutboxPollInterval : Z;
  OTLPTraceEndpoint : string;
}.

(** [strings.Join]. *)
Fixpoint join (sep : string) (l : list string) : string :=
  match l with [] => "" | [x] => x | x :: l' => x +:+ sep +:+ join sep l' end.

Section config.
Context `{ErrorTexts}.

(** [os.Getenv]: an unset variable is empty. *)
Context (getenv : string → string).

Definition envOrDefault (key fallback : string) : string :=
  if negb (String.eqb (getenv key) "") then getenv key else fallback.

Definition durationOrDefault (key : string) (fallback : Z) : error + Z :=
  let raw := getenv key in
  if String.eqb raw "" then inr fallback
  else match ParseDuration raw with
  | None => inl (ErrWrap (key +:+ " must be a valid duration") (ErrNew (duration_error_text raw)))
  | Some value =>
      let? _ := guard_err (Z.leb value 0) (ErrNew (key +:+ " must be greater than 0")) in
      inr value
  end.

Definition int64OrDefault (key : string) (fallback : Z) : error + Z :=
  let raw := getenv key in
  if String.eqb raw "" then inr fallback
  else match Sscan_int64 raw with
  | None => inl (ErrWrap (key +:+ " must be a valid integer") (ErrNew (scan_error_text raw)))
  | Some value =>
      let? _ := guard_err (Z.leb value 0) (ErrNew (key +:+ " must be greater than 0")) in
      inr value
  end.

Definition loadConfig (kind : string) : error + Config :=
  let httpAddrKey := if String.eqb kind "worker" then "WORKER_HTTP_ADDR" else "API_HTTP_ADDR" in
  let? minIdle := durationOrDefault "REDIS_RECLAIM_MIN_IDLE" (30 * Second) in
  let? count := int64OrDefault "REDIS_RECLAIM_COUNT" 10 in
  let? timeout := durationOrDefault "STARTUP_TIMEOUT" (30 * Second) in
  let? interval := durationOrDefault "OUTBOX_POLL_INTERVAL" (2 * Second) in
  inr (mkConfig (envOrDefault "SERVICE_NAME" "") (envOrDefault httpAddrKey "") (envOrDefault "DATABASE_URL" "")
         (envOrDefault "REDIS_ADDR" "") (envOrDefault "REDIS_STREAM" "") (envOrDefault "REDIS_GROUP" "")
         (envOrDefault "REDIS_CONSUMER" "") minIdle count timeout interval (getenv "OTEL_EXPORTER_OTLP_ENDPOINT")).

(** What is wrong with a configuration, in the order of the checks. *)
Definition problems (c : Config) : list string :=
  let check (b : bool) (s : string) := if b then [s] else [] in
  (check (blank (ServiceName c)) "SERVICE_NAME must not be empty" ++
   check (blank (HTTPAddr c)) "HTTP listen address must not be empty" ++
   check (blank (DatabaseURL c)) "DATABASE_URL must not be empty" ++
   check (blank (RedisAddr c)) "REDIS_ADDR must not be empty" ++
   check (blank (RedisStream c)) "REDIS_STREAM must not be empty" ++
   check (blank (RedisGroup c)) "REDIS_GROUP must not be empty" ++
   check (blank (RedisConsumer c)) "REDIS_CONSUMER must not be empty" ++
   check (Z.leb (RedisReclaimMinIdle c) 0) "REDIS_RECLAIM_MIN_IDLE must be greater than 0" ++
   check (Z.leb (RedisReclaimCount c) 0) "REDIS_RECLAIM_COUNT must be greater than 0" ++
   check (Z.leb (StartupTimeout c) 0) "STARTUP_TIMEOUT must be greater than 0" ++
   check (Z.leb (OutboxPollInterval c) 0) "OUTBOX_POLL_INTERVAL must be greater than 0")%list.

Definition Validate (c : Config) : error + unit :=
  match problems c with [] => inr tt | l => inl (ErrNew (join "; " l)) end.

(** The defaults that depend on the program. *)
Definition with_defaults (service addr consumer : string) (c : Config) : Config :=
  let or s d := if String.eqb s "" then d else s in
  mkConfig (or (ServiceName c) service) (or (HTTPAddr c) addr) (DatabaseURL c) (RedisAddr c) (RedisStream c)
    (RedisGroup c) (or (RedisConsumer c) consumer) (RedisReclaimMinIdle c) (RedisReclaimCount c) (StartupTimeout c)
    (OutboxPollInterval c) (OTLPTraceEndpoint c).

Definition LoadAPIConfig : error + Config :=
  let? cfg := loadConfig "api" in
  let cfg := with_defaults "durableflow-api" ":8080" "api" cfg in
  let? _ := Validate cfg in
  inr cfg.

(** [now]: the time, in seconds. *)
Definition LoadWorkerConfig (now : Z) : error + Config :=
  let? cfg := loadConfig "worker" in
  let cfg := with_defaults "durableflow-worker" ":8081" ("worker-" +:+ Itoa now) cfg in
  let? _ := Validate cfg in
  inr cfg.

End config.
