(* ===== verification/Proc.v ===== *)
(** Processes: a Go function of the program as a sequence of atomic steps.

    An atomic step is one call whose effect on the shared state is atomic (a
    database transaction, one autocommitted statement, one Redis command).
    Between two steps of a process any other process may take steps, and a
    process may stop for ever at any step (its machine crashes).  [run] is the
    special case where nothing else happens in between.

    What the outside world decides (clock, generated identifiers, lost calls,
    rows that others have locked) comes from an [env], indexed by the number of
    the call. *)

From S2P Require Import Prelude GoString GoError.

(** What the client sees of a call: it was delivered and answered, it was lost
    before the server saw it, or the answer was lost after the server acted. *)
Inductive outcome : Type :=
| Delivered
| LostBefore (canceled : bool) (text : string)
| LostAfter (canceled : bool) (text : string).

Record env : Type := Env {
  e_now : nat → Z;               (* the server's NOW(), in microseconds *)
  e_uuid : nat → string;         (* gen_random_uuid() *)
  e_outcome : nat → outcome;
  e_locked : nat → string → bool; (* rows locked by another transaction *)
  e_time : nat → Z;              (* the client's time.Now(), in nanoseconds *)
}.

(** [proc W A]: a process over the shared state [W] that returns [(A, error)]. *)
Inductive proc (W A : Type) : Type :=
| Ret (r : error + A)
| Atomic (R : Type) (m : env → W → (error + R) * W) (k : error + R → proc W A).
Arguments Ret {W A} _.
Arguments Atomic {W A R} _ _.

(** A single atomic call. *)
Definition atomic {W A} (m : env → W → (error + A) * W) : proc W A := Atomic m Ret.

Definition return_ {W A} (a : A) : proc W A := Ret (inr a).
Definition fail {W A} (e : error) : proc W A := Ret (inl e).

(** [try p k]: run [p], then continue with its result, error or not. *)
Fixpoint try {W A B} (p : proc W A) (k : error + A → proc W B) : proc W B :=
  match p with
  | Ret r => k r
  | Atomic m k' => Atomic m (λ r, try (k' r) k)
  end.

(** [x, err := p; if err != nil { return err }; k x]. *)
Definition bind {W A B} (p : proc W A) (k : A → proc W B) : proc W B :=
  try p (λ r, match r with inl e => fail e | inr a => k a end).

(** The same with the error wrapped: [return fmt.Errorf("prefix: %w", err)]. *)
Definition wrap_err {W A} (prefix : string) (p : proc W A) : proc W A :=
  try p (λ r, match r with inl e => fail (ErrWrap prefix e) | inr a => return_ a end).

Notation "'let!' x := p 'in' k" := (bind p (λ x, k))
  (at level 10, x pattern, p at level 100, k at level 200,
   format "'[v' 'let!'  x  :=  p  'in' '//' k ']'") : go_scope.

Definition lift_res {W A} (r : error + A) : proc W A := Ret r.

(** The process run without interruption. *)
Fixpoint run {W A} (p : proc W A) (e : env) (w : W) : (error + A) * W :=
  match p with
  | Ret r => (r, w)
  | Atomic m k => let '(r, w') := m e w in run (k r) e w'
  end.

(** The next step of a process, if it has one. *)
Definition proc_next {W A} (e : env) (w : W) (p : proc W A) : option (W * proc W A) :=
  match p with
  | Ret _ => None
  | Atomic m k => let '(r, w') := m e w in Some (w', k r)
  end.

(** [p] for its effects only. *)
Definition discard {W A} (p : proc W A) : proc W unit := try p (λ _, return_ tt).

(** ** Interleaving

    A pool of running processes over one shared state.  At any time a process
    allowed by [S] may start, any of them may take its next atomic step in an
    environment of [E], and any of them may stop for ever (a crash). *)
Inductive pool_step {W} (E : env → Prop) (S : proc W unit → Prop)
  : W * list (proc W unit) → W * list (proc W unit) → Prop :=
| pool_spawn w ps p : S p → pool_step E S (w, ps) (w, p :: ps)
| pool_own {T} w ps1 (m : env → W → (error + T) * W) k ps2 e r w' :
    E e → m e w = (r, w') → pool_step E S (w, ps1 ++ Atomic m k :: ps2)%list (w', ps1 ++ k r :: ps2)%list
| pool_crash w ps1 p ps2 : pool_step E S (w, ps1 ++ p :: ps2)%list (w, ps1 ++ ps2)%list.

(** Every atomic step of [p], in an environment of [E], relates the state before and after it by [R], and
    what is left satisfies the same. *)
Fixpoint all_steps {W A} (E : env → Prop) (R : W → W → Prop) (p : proc W A) : Prop :=
  match p with
  | Ret _ => True
  | Atomic m k => (∀ e w r w', E e → m e w = (r, w') → R w w') ∧ ∀ r, all_steps E R (k r)
  end.

(** * Lemmas *)

Lemma run_try {W A B} (p : proc W A) (k : error + A → proc W B) e w :
  run (try p k) e w = let '(r, w') := run p e w in run (k r) e w'.
Proof.
  revert w. induction p as [r | R m k' IH]; intros w; simpl; [done |].
  destruct (m e w) as [r w']. apply IH.
Qed.

Lemma run_bind {W A B} (p : proc W A) (k : A → proc W B) e w :
  run (bind p k) e w =
  let '(r, w') := run p e w in
  match r with inl err => (inl err, w') | inr a => run (k a) e w' end.
Proof.
  unfold bind. rewrite run_try. by destruct (run p e w) as [[err | a] w'].
Qed.

Lemma run_wrap_err {W A} s (p : proc W A) e w :
  run (wrap_err s p) e w =
  let '(r, w') := run p e w in
  (match r with inl err => inl (ErrWrap s err) | inr a => inr a end, w').
Proof.
  unfold wrap_err. rewrite run_try. by destruct (run p e w) as [[err | a] w'].
Qed.

Lemma run_atomic {W A} (m : env → W → (error + A) * W) e w : run (atomic m) e w = m e w.
Proof. unfold atomic. simpl. by destruct (m e w). Qed.

Lemma run_lift_res {W A} (r : error + A) e (w : W) : run (lift_res r) e w = (r, w).
Proof. done. Qed.

Lemma all_steps_try {W A B} E (R : W → W → Prop) (p : proc W A) (k : error + A → proc W B) :
  all_steps E R p → (∀ r, all_steps E R (k r)) → all_steps E R (try p k).
Proof. induction p as [r | T m k' IH]; simpl; [auto |]. intros [Hm Hp] Hk. split; auto. Qed.

Lemma all_steps_bind {W A B} E (R : W → W → Prop) (p : proc W A) (k : A → proc W B) :
  all_steps E R p → (∀ a, all_steps E R (k a)) → all_steps E R (bind p k).
Proof. intros Hp Hk. apply all_steps_try; [done |]. by intros [e | a]. Qed.

Lemma all_steps_wrap_err {W A} E (R : W → W → Prop) s (p : proc W A) :
  all_steps E R p → all_steps E R (wrap_err s p).
Proof. intros Hp. apply all_steps_try; [done |]. by intros [e | a]. Qed.

Lemma all_steps_single {W A} E (R : W → W → Prop) (m : env → W → (error + A) * W) :
  (∀ e w r w', E e → m e w = (r, w') → R w w') → all_steps E R (atomic m).
Proof. by split. Qed.

Lemma all_steps_mono {W A} E (R R' : W → W → Prop) (p : proc W A) :
  (∀ w w', R w w' → R' w w') → all_steps E R p → all_steps E R' p.
Proof. intros HR. induction p as [r | T m k IH]; simpl; [done |]. intros [Hm Hk]. split; eauto. Qed.

(** A process run without interruption is one of its interleavings. *)
Lemma all_steps_run {W A} (E : env → Prop) (I : W → Prop) (p : proc W A) e w r w' :
  all_steps E (λ x y, I x → I y) p → E e → run p e w = (r, w') → I w → I w'.
Proof.
  revert w. induction p as [r0 | T m k IH]; simpl; intros w; [by intros _ _ [= -> ->] |].
  intros [Hm Hk] He Hrun Hw. destruct (m e w) as [r1 w1] eqn:Em. eapply IH; eauto.
Qed.

Lemma all_steps_run_rel {W A} (E : env → Prop) (R : W → W → Prop) `{!PreOrder R} (p : proc W A) e w r w' :
  all_steps E R p → E e → run p e w = (r, w') → R w w'.
Proof.
  revert w. induction p as [r0 | T m k IH]; simpl; intros w; [by intros _ _ [= -> ->] |].
  intros [Hm Hk] He Hrun. destruct (m e w) as [r1 w1] eqn:Em. etrans; [by eapply Hm | by eapply IH].
Qed.

Lemma all_steps_discard {W A} E (R : W → W → Prop) (p : proc W A) :
  all_steps E R p → all_steps E R (discard p).
Proof. intros Hp. by apply all_steps_try. Qed.

Lemma run_discard {W A} (p : proc W A) e w : run (discard p) e w = (inr tt, (run p e w).2).
Proof. unfold discard. rewrite run_try. by destruct (run p e w). Qed.

(** A preorder that every atomic step of every process respects relates the
    states before and after any run of the pool. *)
Lemma pool_preorder {W} E S (R : W → W → Prop) `{!PreOrder R} w ps w' ps' :
  (∀ p, S p → all_steps E R p) → Forall (all_steps E R) ps →
  rtc (pool_step E S) (w, ps) (w', ps') → R w w' ∧ Forall (all_steps E R) ps'.
Proof.
  intros HS Hps Hrun. remember (w, ps) as c eqn:Ec. remember (w', ps') as c' eqn:Ec'.
  revert w ps Hps Ec. induction Hrun as [c | c c1 c2 Hstep _ IH]; intros w ps Hps ->.
  { by simplify_eq. }
  destruct c1 as [w1 ps1]. enough (R w w1 ∧ Forall (all_steps E R) ps1) as [Hw Hp1].
  { destruct (IH Ec' w1 ps1 Hp1 eq_refl) as [H1 H2]. split; [by etrans | done]. }
  inversion Hstep; simplify_eq.
  - split; [done |]. constructor; auto.
  - apply Forall_app in Hps as [Ha [[Hm Hk] Hb]%Forall_cons_1]. split; [eauto |].
    apply Forall_app. split; [done |]. constructor; auto.
  - apply Forall_app in Hps as [Ha [_ Hb]%Forall_cons_1]. split; [done |]. by apply Forall_app.
Qed.

(** The same for an invariant. *)
Lemma pool_invariant {W} E S (I : W → Prop) w ps w' ps' :
  (∀ p, S p → all_steps E (λ x y, I x → I y) p) →
  Forall (all_steps E (λ x y, I x → I y)) ps →
  rtc (pool_step E S) (w, ps) (w', ps') → I w → I w'.
Proof.
  intros HS Hps Hrun. assert (PreOrder (λ x y : W, I x → I y)) by (split; [intros x Hx; exact Hx | intros x y z; auto]).
  by apply (pool_preorder E S (λ x y, I x → I y)) in Hrun as [? _].
Qed.

(** Processes run one after the other. *)
Fixpoint run_all {W} (ps : list (proc W unit)) (e : env) (w : W) : W :=
  match ps with [] => w | p :: ps' => run_all ps' e (run p e w).2 end.

Lemma pool_next {W} (E : env → Prop) S e (w w' : W) p p' ps1 ps2 :
  E e → proc_next e w p = Some (w', p') → pool_step E S (w, ps1 ++ p :: ps2)%list (w', ps1 ++ p' :: ps2)%list.
Proof.
  intros He. destruct p as [r | T m k]; [done |]. cbn. destruct (m e w) as [r w1] eqn:Em. intros [= <- <-].
  by eapply pool_own.
Qed.

(** Running to the end without interruption is a run of the pool. *)
Lemma pool_run_own {W} (E : env → Prop) S e (p : proc W unit) w ps :
  E e → ∃ r, rtc (pool_step E S) (w, p :: ps) ((run p e w).2, Ret r :: ps).
Proof.
  intros He. revert w. induction p as [r | T m k IH]; intros w; [by exists r |]. simpl.
  destruct (m e w) as [r w1] eqn:Em. destruct (IH r w1) as [r' Hr']. exists r'.
  eapply rtc_l; [by eapply (pool_own E S w []) | done].
Qed.

Lemma pool_run_all {W} (E : env → Prop) (S : proc W unit → Prop) e ps w :
  E e → Forall S ps → rtc (pool_step E S) (w, []) (run_all ps e w, []).
Proof.
  intros He. revert w. induction ps as [| p ps IH]; intros w Hps; simpl; [apply rtc_refl |].
  apply Forall_cons_1 in Hps as [Hp Hps]. eapply rtc_l; [by apply pool_spawn |].
  destruct (pool_run_own E S e p w [] He) as [r Hr]. etrans; [exact Hr |].
  eapply rtc_l; [apply (pool_crash _ _ _ []) | auto].
Qed.

#[export] Hint Resolve all_steps_bind all_steps_try all_steps_wrap_err all_steps_single : go.
#[export] Hint Rewrite @run_bind @run_try @run_wrap_err @run_atomic : go_rw.
