(* ===== verification/Wait.v ===== *)
(** Waiting for the servers at start-up: OpenWithRetry (internal/db/postgres.go)
    and WaitForReady (internal/queue/redis_streams.go).

    Both are loops of rounds.  What round [i] meets is given by functions of [i]:
    the answers of the libraries, the clock where the loop reads it, and whether
    the context ends during the wait of a second that follows. *)

From S2P Require Import Prelude GoString GoError GoTime.

Open Scope Z_scope.

(** How a loop ends; [Stopped] is [errors.Join(ctx.Err(), lastErr)]. *)
Inductive waited (A : Type) : Type :=
| Ready (a : A)
| TimedOut (lastErr : error)
| Stopped (ctxErr lastErr : error).
Arguments Ready {A} _.
Arguments TimedOut {A} _.
Arguments Stopped {A} _ _.

Section wait.
Context (now : nat → Z) (done_in : nat → option error).

Definition with_default_timeout (timeout : Z) : Z := if Z.leb timeout 0 then 30 * Second else timeout.

(** [if time.Now().After(deadline)] and the [select]; [continue] is the next
    round. *)
Definition pause {A} (deadline : Z) (i : nat) (lastErr : error) (continue : option A) (ended : waited unit → A)
    : option A :=
  if Z.ltb deadline (now i) then Some (ended (TimedOut lastErr))
  else match done_in i with
       | Some ctxErr => Some (ended (Stopped ctxErr lastErr))
       | None => continue
       end.

(** ** Redis *)

Context (redis_ping : nat → option error).

Fixpoint wait_rounds (fuel i : nat) (deadline : Z) : option (waited unit) :=
  match fuel with
  | O => None
  | S fuel =>
      match redis_ping i with
      | None => Some (Ready tt)
      | Some lastErr => pause deadline i lastErr (wait_rounds fuel (S i) deadline) (λ r, r)
      end
  end.

Definition WaitForReady (fuel : nat) (start timeout : Z) : option (waited unit) :=
  wait_rounds fuel 0 (start + with_default_timeout timeout).

(** ** Postgres: a pool that does not answer is closed again *)

Context {pool : Type} (Open : nat → error + pool) (pool_Ping : nat → pool → option error).

Definition no_pool (r : waited unit) : waited pool :=
  match r with
  | TimedOut e => TimedOut e
  | Stopped c e => Stopped c e
  | Ready _ => TimedOut (ErrNew "")   (* not reached: [pause] gives up *)
  end.

(** The result, and the pools that were closed, the last one first. *)
Fixpoint open_rounds (fuel i : nat) (deadline : Z) (closed : list pool) : option (waited pool * list pool) :=
  match fuel with
  | O => None
  | S fuel =>
      match Open i with
      | inr p =>
          match pool_Ping i p with
          | None => Some (Ready p, closed)
          | Some pingErr =>
              pause deadline i pingErr (open_rounds fuel (S i) deadline (p :: closed)) (λ r, (no_pool r, p :: closed))
          end
      | inl err => pause deadline i err (open_rounds fuel (S i) deadline closed) (λ r, (no_pool r, closed))
      end
  end.

Definition OpenWithRetry (fuel : nat) (start timeout : Z) : option (waited pool * list pool) :=
  open_rounds fuel 0 (start + with_default_timeout timeout) [].

(** * Properties *)

(** The pools opened in the first [n] rounds, the last one first. *)
Fixpoint opened (n : nat) : list pool :=
  match n with
  | O => []
  | S n' => match Open n' with inr p => p :: opened n' | inl _ => opened n' end
  end.

(** Round [i] fails with [err]. *)
Definition fails_with (i : nat) (err : error) : Prop :=
  Open i = inl err ∨ ∃ p, Open i = inr p ∧ pool_Ping i p = Some err.

(** How the loop may end in round [n]. *)
Definition ends_in (deadline : Z) (n : nat) (r : waited pool) (closed : list pool) : Prop :=
  (∀ i, (i < n)%nat → now i ≤ deadline ∧ done_in i = None ∧ ∃ err, fails_with i err) ∧
  match r with
  | Ready p => Open n = inr p ∧ pool_Ping n p = None ∧ closed = opened n
  | TimedOut err => fails_with n err ∧ deadline < now n ∧ closed = opened (S n)
  | Stopped ctxErr err => fails_with n err ∧ done_in n = Some ctxErr ∧ closed = opened (S n)
  end.

Lemma pause_cases {A} deadline i err (continue : option A) ended r :
  pause deadline i err continue ended = Some r →
  (deadline < now i ∧ r = ended (TimedOut err)) ∨
  (∃ c, done_in i = Some c ∧ r = ended (Stopped c err)) ∨
  (now i ≤ deadline ∧ done_in i = None ∧ continue = Some r).
Proof.
  unfold pause. destruct (Z.ltb_spec deadline (now i)); [intros [= <-]; by left |].
  destruct (done_in i) as [c |] eqn:Hd; [intros [= <-]; right; left; eauto | intros ->; right; right; auto].
Qed.

Lemma open_rounds_ends fuel i deadline r closed :
  (∀ j, (j < i)%nat → now j ≤ deadline ∧ done_in j = None ∧ ∃ err, fails_with j err) →
  open_rounds fuel i deadline (opened i) = Some (r, closed) →
  ∃ n, (i ≤ n < i + fuel)%nat ∧ ends_in deadline n r closed.
Proof.
  revert i. induction fuel as [| fuel IH]; intros i Hprev; cbn [open_rounds]; [done |].
  assert (Hround : ∀ err l, fails_with i err → l = opened (S i) →
    pause deadline i err (open_rounds fuel (S i) deadline l) (λ r, (no_pool r, l)) = Some (r, closed) →
    ∃ n, (i ≤ n < i + S fuel)%nat ∧ ends_in deadline n r closed).
  { intros err l Hf Hl Hp. apply pause_cases in Hp as [[Hlt [= -> ->]] | [(c & Hc & [= -> ->]) | (Hle & Hn & Hp)]].
    - exists i. split; [lia |]. by split.
    - exists i. split; [lia |]. by split.
    - rewrite Hl in Hp. apply IH in Hp as (n & Hn' & Hend).
      + exists n. split; [lia | done].
      + intros j Hj. destruct (decide (j = i)) as [-> |]; [by eauto | apply Hprev; lia]. }
  destruct (Open i) as [err | p] eqn:Ho.
  - apply Hround; [by left | cbn; by rewrite Ho].
  - destruct (pool_Ping i p) as [err |] eqn:Hp.
    + apply Hround; [by right; exists p | cbn; by rewrite Ho].
    + intros [= <- <-]. exists i. split; [lia |]. by split.
Qed.

(** The clock advances by the wait of a second in every round that goes on. *)
Context (Hclock : ∀ i, now i + Second ≤ now (S i)).

Lemma now_after (i : nat) : now 0%nat + Z.of_nat i * Second ≤ now i.
Proof. induction i as [| i IH]; [lia |]. specialize (Hclock i). lia. Qed.

(** Rounds enough for the deadline to pass. *)
Definition enough (timeout : Z) : nat := Z.to_nat (with_default_timeout timeout / Second + 2).

Lemma past_deadline start timeout i :
  start ≤ now 0%nat → (enough timeout ≤ S i)%nat → start + with_default_timeout timeout < now i.
Proof.
  intros Hs Hi. pose proof (now_after i). unfold enough in Hi.
  pose proof (Z.div_mod (with_default_timeout timeout) Second ltac:(unfold Second; lia)) as Hdm.
  pose proof (Z.mod_pos_bound (with_default_timeout timeout) Second ltac:(unfold Second; lia)) as Hm.
  unfold Second in *. lia.
Qed.

Lemma pause_ends {A} deadline i err (continue : option A) ended :
  (deadline < now i ∨ is_Some continue) → is_Some (pause deadline i err continue ended).
Proof.
  unfold pause. destruct (Z.ltb_spec deadline (now i)); [by eexists |]. intros [? | ?]; [lia |].
  destruct (done_in i); [by eexists | done].
Qed.

Lemma open_rounds_total start timeout fuel i closed :
  start ≤ now 0%nat → (enough timeout ≤ i + fuel)%nat → (0 < fuel)%nat →
  is_Some (open_rounds fuel i (start + with_default_timeout timeout) closed).
Proof.
  intros Hs. revert i closed. induction fuel as [| fuel IH]; intros i closed Hf Hpos; [lia |]. cbn [open_rounds].
  assert (Hgo : ∀ l, start + with_default_timeout timeout < now i ∨
    is_Some (open_rounds fuel (S i) (start + with_default_timeout timeout) l)).
  { intros l. destruct fuel as [| fuel]; [left; apply past_deadline; [done | lia] | right; apply IH; lia]. }
  destruct (Open i) as [err | p]; [by apply pause_ends |]. destruct (pool_Ping i p); [by apply pause_ends | by eexists].
Qed.

Lemma wait_rounds_total start timeout fuel i :
  start ≤ now 0%nat → (enough timeout ≤ i + fuel)%nat → (0 < fuel)%nat →
  ∃ r, wait_rounds fuel i (start + with_default_timeout timeout) = Some r ∧
    (r = Ready tt → ∃ n, (i ≤ n)%nat ∧ redis_ping n = None) ∧
    (∀ err, r = TimedOut err → ∃ n, (i ≤ n)%nat ∧ redis_ping n = Some err ∧ start + with_default_timeout timeout < now n).
Proof.
  intros Hs. revert i. induction fuel as [| fuel IH]; intros i Hf Hpos; [lia |]. cbn [wait_rounds].
  destruct (redis_ping i) as [err |] eqn:Hp; [| exists (Ready tt); naive_solver].
  unfold pause. destruct (Z.ltb_spec (start + with_default_timeout timeout) (now i)).
  { eexists. split; [done |]. split; [done |]. intros e [= <-]. by exists i. }
  destruct (done_in i); [by eexists |].
  destruct fuel as [| fuel]; [pose proof (past_deadline start timeout i Hs ltac:(lia)); lia |].
  destruct (IH (S i)) as (r & Hr & Hready & Htimed); [lia | lia |]. exists r. split; [done |]. split.
  - intros Hr'. destruct (Hready Hr') as (n & ? & ?). exists n. split; [lia | done].
  - intros e He. destruct (Htimed e He) as (n & ? & ?). exists n. split; [lia | done].
Qed.

(** Waiting ends.  Whatever the servers answer, both loops return within as
    many rounds as the timeout has seconds, and two more.  A pool is returned only
    after it answered a ping, and every other pool that was opened has been closed;
    an error is that of the last round, and it is returned only after the deadline
    or when the context ended. *)
Theorem startup_ends start timeout :
  start ≤ now 0%nat →
  (∃ r closed n, OpenWithRetry (enough timeout) start timeout = Some (r, closed) ∧ (n < enough timeout)%nat ∧
     ends_in (start + with_default_timeout timeout) n r closed) ∧
  (∃ r, WaitForReady (enough timeout) start timeout = Some r ∧
     (r = Ready tt → ∃ n, redis_ping n = None) ∧
     (∀ err, r = TimedOut err → ∃ n, redis_ping n = Some err ∧ start + with_default_timeout timeout < now n)).
Proof.
  intros Hs.
  assert (Hpos : (0 < enough timeout)%nat).
  { unfold enough. assert (0 ≤ with_default_timeout timeout / Second).
    { apply Z.div_pos; [| done]. unfold with_default_timeout, Second. destruct (Z.leb_spec timeout 0); lia. }
    lia. }
  split.
  - unfold OpenWithRetry. destruct (open_rounds_total start timeout (enough timeout) 0 []) as [[r closed] Hr]; [done | lia | done |].
    destruct (open_rounds_ends (enough timeout) 0 (start + with_default_timeout timeout) r closed) as (n & Hn & Hend);
      [lia | exact Hr |].
    exists r, closed, n. split_and!; [done | lia | done].
  - destruct (wait_rounds_total start timeout (enough timeout) 0) as (r & Hr & Hready & Htimed); [done | lia | done |].
    exists r. split; [done |]. split; [intros E; destruct (Hready E) as (n & _ & ?); by exists n |].
    intros err E. destruct (Htimed err E) as (n & _ & ?); by exists n.
Qed.

End wait.

(** A server that answers from its third second on; the first pool never answers. *)
Definition demo_now (i : nat) : Z := Z.of_nat i * (Second + 1000).

Lemma startup_ends_witness :
  OpenWithRetry demo_now (λ _, None) (λ i, if Nat.eqb i 1 then inl (ErrNew "refused") else inr i)
    (λ i _, if Nat.ltb i 3 then Some (ErrNew "timeout") else None) (enough 0) 0 0 = Some (Ready 3%nat, [2%nat; 0%nat]).
Proof.
  destruct (proj1 (startup_ends demo_now (λ _, None) (λ _, None) (λ i, if Nat.eqb i 1 then inl (ErrNew "refused") else inr i)
    (λ i _, if Nat.ltb i 3 then Some (ErrNew "timeout") else None) ltac:(unfold demo_now, Second; lia) 0 0 ltac:(done)))
    as (r & closed & n & Hr & _).
  rewrite Hr. rewrite <-Hr. vm_compute. reflexivity.
Defined.
