(* ===== verification/Migrate.v ===== *)
(** Migrations (internal/db/migrate.go): ApplyMigrations as a machine whose
    steps are its calls to the server, several instances of which may run at the
    same time, lose their connection or crash. *)

From S2P Require Import Prelude GoString GoError Proc.

Open Scope string_scope.

(** [strings.HasSuffix]. *)
Definition has_suffix (suffix s : string) : bool :=
  let b := to_bytes s in let x := to_bytes suffix in
  (Nat.leb (length x) (length b) && bool_decide (drop (length b - length x) b = x))%bool.

Section migrate.

(** What the statements of a script do to the schema is the server's affair;
    so are the directory of migrations and its files the operating system's. *)
Context {S : Type} (exec_sql : string → S → error + S).
Context (dir_entries : error + list (string * bool)) (read_file : string → error + string).

(** The names of the files to apply, from the entries (name, is a directory). *)
Definition migration_files (entries : list (string * bool)) : list string :=
  merge_sort String.le
    (fst <$> filter (λ p, negb (p.2 || negb (has_suffix ".sql" p.1)) = true) entries).

(** The database: the schema, the rows of schema_migrations (None: no such
    table), and the session that holds the advisory lock. *)
Record mworld : Type := mk_mworld {
  mw_schema : S;
  mw_versions : option (gset string);
  mw_lock : option nat;
}.

(** Where an instance is: about to make the call, with what it remembers.  A
    transaction's own view of the schema is kept until it commits. *)
Inductive pc : Type :=
| Acquiring
| Locking
| Creating
| Reading
| Checking (files : list string)
| Beginning (file sql : string) (rest : list string)
| Executing (file sql : string) (rest : list string)
| Recording (file : string) (schema : S) (rest : list string)
| Committing (file : string) (schema : S) (rest : list string)
| Unlocking (result : option error)
| Finished (result : option error).

(** The end of a session releases its lock. *)
Definition close (me : nat) (w : mworld) : mworld :=
  if decide (mw_lock w = Some me) then mk_mworld (mw_schema w) (mw_versions w) None else w.

Definition create_table (w : mworld) : mworld :=
  mk_mworld (mw_schema w) (Some (default ∅ (mw_versions w))) (mw_lock w).

Definition commit (file : string) (schema : S) (w : mworld) : mworld :=
  mk_mworld schema (Some ({[file]} ∪ default ∅ (mw_versions w))) (mw_lock w).

(** A call that was lost: the connection is gone, and the deferred unlock with
    it. *)
Definition disconnect (me : nat) (w : mworld) (err : error) : mworld * pc := (close me w, Finished (Some err)).

(** One step of the instance [me]; None: it is waiting for the lock, or done. *)
Definition step (o : outcome) (me : nat) (w : mworld) (p : pc) : option (mworld * pc) :=
  let or_lost (wrap : error → error) (w_after : mworld) (next : option (mworld * pc)) :=
    match o with
    | Delivered => next
    | LostBefore c t => Some (disconnect me w (wrap (ErrTransport c t)))
    | LostAfter c t => Some (disconnect me w_after (wrap (ErrTransport c t)))
    end in
  match p with
  | Acquiring => or_lost (λ e, e) w (Some (w, Locking))
  | Locking =>
      or_lost (ErrWrap "acquire migration lock") w
        match mw_lock w with
        | None => Some (mk_mworld (mw_schema w) (mw_versions w) (Some me), Creating)
        | Some _ => None
        end
  | Creating => or_lost (λ e, e) (create_table w) (Some (create_table w, Reading))
  | Reading =>
      match dir_entries with
      | inl err => Some (w, Unlocking (Some (ErrWrap "read migrations dir" err)))
      | inr entries => Some (w, Checking (migration_files entries))
      end
  | Checking [] => Some (w, Unlocking None)
  | Checking (file :: rest) =>
      or_lost (λ e, e) w
        match mw_versions w with
        | None => Some (w, Unlocking (Some (ErrPg "42P01" "relation schema_migrations does not exist")))
        | Some versions =>
            if decide (file ∈ versions) then Some (w, Checking rest)
            else match read_file file with
                 | inl err => Some (w, Unlocking (Some (ErrWrap ("read migration " +:+ file) err)))
                 | inr sql => Some (w, Beginning file sql rest)
                 end
        end
  | Beginning file sql rest => or_lost (λ e, e) w (Some (w, Executing file sql rest))
  | Executing file sql rest =>
      or_lost (ErrWrap ("apply migration " +:+ file)) w
        match exec_sql sql (mw_schema w) with
        | inl err => Some (w, Unlocking (Some (ErrWrap ("apply migration " +:+ file) err)))
        | inr schema => Some (w, Recording file schema rest)
        end
  | Recording file schema rest =>
      or_lost (ErrWrap ("record migration " +:+ file)) w (Some (w, Committing file schema rest))
  | Committing file schema rest =>
      or_lost (ErrWrap ("commit migration " +:+ file)) (commit file schema w)
        (Some (commit file schema w, Checking rest))
  | Unlocking r => Some (close me w, Finished r)
  | Finished _ => None
  end.

(** Any number of instances: they start, take steps, and crash. *)
Inductive mig_step : mworld * gmap nat pc → mworld * gmap nat pc → Prop :=
| mig_start w ps me : ps !! me = None → mig_step (w, ps) (w, <[me := Acquiring]> ps)
| mig_run w ps me p o w' p' :
    ps !! me = Some p → step o me w p = Some (w', p') → mig_step (w, ps) (w', <[me := p']> ps)
| mig_crash w ps me p : ps !! me = Some p → mig_step (w, ps) (close me w, delete me ps).

(** The steps of one instance alone, with calls that are answered. *)
Fixpoint run_alone (n : nat) (me : nat) (w : mworld) (p : pc) : mworld * pc :=
  match n with
  | O => (w, p)
  | Datatypes.S n' => match step Delivered me w p with Some (w', p') => run_alone n' me w' p' | None => (w, p) end
  end.

(** * Specification *)

(** The scripts of [files], one after the other. *)
Fixpoint apply_scripts (files : list string) (s : S) : error + S :=
  match files with
  | [] => inr s
  | file :: rest =>
      let? sql := read_file file in
      let? s' := exec_sql sql s in
      apply_scripts rest s'
  end.

(** The first [k] files have been applied, in their order, and recorded. *)
Definition applied (s0 : S) (files : list string) (w : mworld) (k : nat) : Prop :=
  (k ≤ length files)%nat ∧ default ∅ (mw_versions w) = list_to_set (take k files) ∧
  apply_scripts (take k files) s0 = inr (mw_schema w).

(** * The invariant *)

Section invariant.
Context (entries : list (string * bool)) (Hdir : dir_entries = inr entries) (Hnames : NoDup entries.*1).

Abbreviation files := (migration_files entries).

(** What an instance that does not hold the lock, and one that does, may be at
    when [k] files are applied. *)
Definition outside (k : nat) (p : pc) : Prop :=
  match p with
  | Acquiring | Locking | Finished (Some _) => True
  | Finished None => k = length files
  | _ => False
  end.

Definition inside (w : mworld) (k : nat) (p : pc) : Prop :=
  match p with
  | Creating | Unlocking (Some _) => True
  | Unlocking None => k = length files
  | Reading => is_Some (mw_versions w)
  | Checking rest => is_Some (mw_versions w) ∧ ∃ j, (j ≤ k)%nat ∧ rest = drop j files
  | Beginning file sql rest | Executing file sql rest =>
      is_Some (mw_versions w) ∧ drop k files = file :: rest ∧ read_file file = inr sql
  | Recording file schema rest | Committing file schema rest =>
      is_Some (mw_versions w) ∧ drop k files = file :: rest ∧
      ∃ sql, read_file file = inr sql ∧ exec_sql sql (mw_schema w) = inr schema
  | _ => False
  end.

Record mig_inv (s0 : S) (w : mworld) (ps : gmap nat pc) (k : nat) : Prop := {
  mi_applied : applied s0 files w k;
  mi_holder me : mw_lock w = Some me → ∃ p, ps !! me = Some p ∧ inside w k p;
  mi_others me p : ps !! me = Some p → mw_lock w ≠ Some me → outside k p;
}.

Lemma files_nodup : NoDup files.
Proof.
  unfold migration_files. rewrite merge_sort_Permutation. apply (sublist_NoDup _ _ Hnames).
  apply fmap_sublist, sublist_filter.
Qed.

Lemma outside_mono k k' p : (k ≤ k' ≤ length files)%nat → outside k p → outside k' p.
Proof. destruct p as [| | | | | | | | | | [err |]]; cbn; try done. lia. Qed.

Lemma files_at j k : (j ≤ k)%nat → (j < length files)%nat → ∃ file, drop j files = file :: drop (Datatypes.S j) files ∧
  (file ∈ take k files ↔ (j < k)%nat).
Proof.
  intros Hjk Hj. destruct (lookup_lt_is_Some_2 files j Hj) as [file Hf]. exists file.
  split; [by apply drop_S |]. rewrite elem_of_take. split.
  - intros (i & Hi & Hlt). enough (i = j) by lia. by apply (proj1 (NoDup_alt _) files_nodup i j file).
  - intros Hlt. by exists j.
Qed.

Lemma applied_next s0 w k file sql schema rest :
  applied s0 files w k → drop k files = file :: rest → read_file file = inr sql →
  exec_sql sql (mw_schema w) = inr schema → applied s0 files (commit file schema w) (Datatypes.S k).
Proof.
  intros (Hk & Hv & Hs) Hd Hr He.
  assert (Hf : files !! k = Some file) by (rewrite <-(Nat.add_0_r k), <-lookup_drop, Hd; done).
  assert (Ht : take (Datatypes.S k) files = (take k files ++ [file])%list) by by apply take_S_r.
  split; [by apply lookup_lt_Some in Hf |]. rewrite Ht. cbn. split.
  - rewrite Hv, list_to_set_app_L. cbn. set_solver.
  - clear -Hs Hr He. revert s0 Hs. induction (take k files) as [| f l IH]; intros s0 Hs; cbn in *.
    + injection Hs as ->. by rewrite Hr; cbn; rewrite He.
    + apply rbind_inr in Hs as (q & -> & Hs). apply rbind_inr in Hs as (s1 & Hq & Hs). cbn. rewrite Hq. cbn. by apply IH.
Qed.

(** A step of [me] that moves the contents to [w'] and the count to [k']. *)
Lemma inv_set s0 w ps k me w' p' k' :
  mig_inv s0 w ps k → applied s0 files w' k' → (k ≤ k')%nat →
  (∀ i, i ≠ me → mw_lock w' = Some i ↔ mw_lock w = Some i) →
  (∀ i, i ≠ me → mw_lock w = Some i → w' = w ∧ k' = k) →
  (mw_lock w' = Some me → inside w' k' p') → (mw_lock w' ≠ Some me → outside k' p') →
  mig_inv s0 w' (<[me := p']> ps) k'.
Proof.
  intros [Ha Hh Ho] Ha' Hk Hlock Hsame Hin Hout. split; [done | |].
  - intros i Hi. destruct (decide (i = me)) as [-> | Hne]; [exists p'; rewrite lookup_insert_eq; auto |].
    rewrite lookup_insert_ne by done. apply Hlock in Hi as Hi'; [| done]. destruct (Hsame i Hne Hi') as [-> ->]. auto.
  - intros i p Hp Hi. destruct (decide (i = me)) as [-> | Hne].
    + rewrite lookup_insert_eq in Hp. injection Hp as <-. auto.
    + rewrite lookup_insert_ne in Hp by done. apply (outside_mono k); [split; [done | apply Ha'] |].
      apply (Ho i); [done |]. by rewrite <-Hlock.
Qed.

Lemma close_lock me (w : mworld) : mw_lock (close me w) ≠ Some me.
Proof. unfold close. by case_decide. Qed.

Lemma close_other me (w : mworld) i : i ≠ me → mw_lock (close me w) = Some i ↔ mw_lock w = Some i.
Proof. unfold close. case_decide as Hl; cbn; [| done]. rewrite Hl. split; [done | congruence]. Qed.

Lemma close_applied s0 me w k : applied s0 files w k → applied s0 files (close me w) k.
Proof. unfold close. by case_decide. Qed.

(** The holder gives up, or ends: the lock is free again. *)
Lemma inv_close s0 w ps k me w1 k' r :
  mig_inv s0 w ps k → mw_lock w = Some me → mw_lock w1 = Some me → applied s0 files w1 k' → (k ≤ k')%nat →
  outside k' (Finished r) → mig_inv s0 (close me w1) (<[me := Finished r]> ps) k'.
Proof.
  intros Hinv Hl Hl1 Ha Hk Hr. apply (inv_set s0 w ps k); try done.
  - by apply close_applied.
  - intros i Hi. rewrite close_other, Hl, Hl1 by done. done.
  - intros i Hi Hli. congruence.
  - intros Hc. by apply close_lock in Hc.
Qed.

(** The holder goes on. *)
Lemma inv_hold s0 w ps k me w' p' k' :
  mig_inv s0 w ps k → mw_lock w = Some me → mw_lock w' = Some me → applied s0 files w' k' → (k ≤ k')%nat →
  inside w' k' p' → mig_inv s0 w' (<[me := p']> ps) k'.
Proof.
  intros Hinv Hl Hl' Ha Hk Hp. apply (inv_set s0 w ps k); try done.
  - intros i Hi. by rewrite Hl, Hl'.
  - intros i Hi Hli. congruence.
Qed.

(** Another instance takes a step outside. *)
Lemma inv_outside s0 w ps k me p' :
  mig_inv s0 w ps k → mw_lock w ≠ Some me → outside k p' → mig_inv s0 w (<[me := p']> ps) k.
Proof. intros Hinv Hl Hp. by apply (inv_set s0 w ps k); try done; apply Hinv. Qed.

Lemma step_outside_inv s0 w ps k me p o w' p' :
  mig_inv s0 w ps k → mw_lock w ≠ Some me → outside k p → step o me w p = Some (w', p') →
  mig_inv s0 w' (<[me := p']> ps) k.
Proof.
  intros Hinv Hl Hp Hs.
  assert (Hc : close me w = w) by (unfold close; by rewrite decide_False).
  destruct p as [| | | | | | | | | r | r]; cbn in Hp; try done; cbn in Hs; unfold disconnect in Hs; try rewrite Hc in Hs.
  - destruct o; injection Hs as <- <-; by apply inv_outside.
  - destruct o as [| ? ? | ? ?]; [| injection Hs as <- <-; by apply inv_outside..].
    destruct (mw_lock w) as [i |] eqn:Ei; [done |]. injection Hs as <- <-. apply (inv_set s0 w ps k); try done.
    + apply Hinv.
    + intros i Hi. cbn. rewrite Ei. split; [intros [= ->]; done | done].
    + intros i Hi Hli. congruence.
Qed.

Lemma lost_closes s0 w ps k me w1 k1 p' w' next :
  mig_inv s0 w ps k → mw_lock w = Some me → applied s0 files w1 k1 → (k ≤ k1)%nat → mw_lock w1 = Some me →
  ∀ o (wrap : error → error),
  match o with
  | Delivered => next
  | LostBefore c t => Some (disconnect me w (wrap (ErrTransport c t)))
  | LostAfter c t => Some (disconnect me w1 (wrap (ErrTransport c t)))
  end = Some (w', p') →
  (∃ k', (k ≤ k')%nat ∧ mig_inv s0 w' (<[me := p']> ps) k') ∨ next = Some (w', p').
Proof.
  intros Hinv Hl Ha1 Hk1 Hl1 o wrap Hs. destruct o; [by right | left..]; injection Hs as <- <-.
  - exists k. split; [done |]. by apply (inv_close s0 w ps k); try apply Hinv.
  - exists k1. split; [done |]. by apply (inv_close s0 w ps k).
Qed.

Lemma step_inside_inv s0 w ps k me p o w' p' :
  mig_inv s0 w ps k → mw_lock w = Some me → inside w k p → step o me w p = Some (w', p') →
  ∃ k', (k ≤ k')%nat ∧ mig_inv s0 w' (<[me := p']> ps) k'.
Proof.
  intros Hinv Hl Hp Hs. pose proof (mi_applied _ _ _ _ Hinv) as Ha.
  assert (Hstay : ∀ p1, inside w k p1 → ∃ k', (k ≤ k')%nat ∧ mig_inv s0 w (<[me := p1]> ps) k').
  { intros p1 Hp1. exists k. split; [done |]. by eapply inv_hold. }
  assert (Hlost : ∀ next wrap,
    match o with
    | Delivered => next
    | LostBefore c t => Some (disconnect me w (wrap (ErrTransport c t)))
    | LostAfter c t => Some (disconnect me w (wrap (ErrTransport c t)))
    end = Some (w', p') →
    (next = Some (w', p') → ∃ k', (k ≤ k')%nat ∧ mig_inv s0 w' (<[me := p']> ps) k') →
    ∃ k', (k ≤ k')%nat ∧ mig_inv s0 w' (<[me := p']> ps) k').
  { intros next wrap Hm Hn. destruct (lost_closes s0 w ps k me w k p' w' next Hinv Hl Ha (le_n k) Hl o wrap Hm);
      auto. }
  destruct p as [| | | | [| file rest] | file sql rest | file sql rest | file schema rest | file schema rest | r | r];
    cbn in Hp; try done; cbn [step] in Hs.
  - (* Creating *)
    destruct (lost_closes s0 w ps k me (create_table w) k p' w' _ Hinv Hl Ha (le_n k) Hl o (λ e, e) Hs)
      as [? | [= <- <-]]; [done |].
    exists k. split; [done |]. apply (inv_hold s0 w ps k); try done. by eexists.
  - (* Reading *)
    rewrite Hdir in Hs. injection Hs as <- <-. apply Hstay. split; [done |]. exists 0%nat. split; [lia | done].
  - (* Checking [] *)
    injection Hs as <- <-. apply Hstay. destruct Hp as [_ (j & Hj & Hr)]. cbn.
    symmetry in Hr. apply drop_nil_inv in Hr. destruct Ha as [? _]. lia.
  - (* Checking (file :: rest) *)
    apply (Hlost _ (λ e, e) Hs). clear Hs Hlost. intros Hs. destruct Hp as [[vs Hvs] (j & Hj & Hr)]. rewrite Hvs in Hs.
    assert (Hjl : (j < length files)%nat).
    { destruct (decide (j < length files)%nat); [done |]. rewrite drop_ge in Hr by lia. done. }
    destruct (files_at j k Hj Hjl) as (f & Hf & Hin). rewrite <-Hr in Hf. injection Hf as <- Hrest.
    assert (Hv : vs = list_to_set (take k files)) by (destruct Ha as (_ & Hv & _); by rewrite Hvs in Hv).
    case_decide as Hmem.
    + injection Hs as <- <-. apply Hstay. split; [by eexists |]. exists (Datatypes.S j). split; [| done].
      rewrite Hv, elem_of_list_to_set in Hmem. apply Hin in Hmem. lia.
    + assert (j = k) as ->.
      { rewrite Hv, elem_of_list_to_set, Hin in Hmem. lia. }
      destruct (read_file file) as [err | sql] eqn:Hread; injection Hs as <- <-; apply Hstay; [done |].
      split_and!; [by eexists | done | done].
  - (* Beginning *) apply (Hlost _ (λ e, e) Hs). intros [= <- <-]. by apply Hstay.
  - (* Executing *)
    apply (Hlost _ _ Hs). clear Hs. intros Hs. destruct Hp as (Hvs & Hd & Hr).
    destruct (exec_sql sql (mw_schema w)) as [err | schema] eqn:He; injection Hs as <- <-; apply Hstay; [done |].
    split_and!; [done | done | by exists sql].
  - (* Recording *) apply (Hlost _ _ Hs). intros [= <- <-]. by apply Hstay.
  - (* Committing *)
    destruct Hp as (Hvs & Hd & sql & Hr & He). pose proof (applied_next s0 w k file sql schema rest Ha Hd Hr He) as Ha1.
    destruct (lost_closes s0 w ps k me (commit file schema w) (Datatypes.S k) p' w' _ Hinv Hl Ha1 (Nat.le_succ_diag_r k) Hl o
      (ErrWrap ("commit migration " +:+ file)) Hs) as [? | [= <- <-]]; [done |].
    exists (Datatypes.S k). split; [lia |]. apply (inv_hold s0 w ps k); try done; [lia |]. cbn. split; [by eexists |].
    exists (Datatypes.S k). split; [done |]. rewrite <-Nat.add_1_r, <-drop_drop, Hd. done.
  - (* Unlocking *)
    injection Hs as <- <-. exists k. split; [done |]. by apply (inv_close s0 w ps k).
Qed.

Lemma mig_step_inv s0 c c' k :
  mig_inv s0 c.1 c.2 k → mig_step c c' → ∃ k', (k ≤ k')%nat ∧ mig_inv s0 c'.1 c'.2 k'.
Proof.
  intros Hinv Hstep. inversion Hstep as [w ps me Hme | w ps me p o w' p' Hp Hs | w ps me p Hp]; subst; cbn in *.
  - exists k. split; [done |]. apply inv_outside; [done | | done].
    intros Hl. by destruct (mi_holder _ _ _ _ Hinv me Hl) as (p & Hp & _); congruence.
  - destruct (decide (mw_lock w = Some me)) as [Hl | Hl].
    + destruct (mi_holder _ _ _ _ Hinv me Hl) as (p1 & Hp1 & Hin). rewrite Hp in Hp1. injection Hp1 as <-.
      by eapply step_inside_inv.
    + exists k. split; [done |]. eapply step_outside_inv; [done | done | by eapply mi_others | done].
  - exists k. split; [done |]. split.
    + apply close_applied, Hinv.
    + intros i Hi. destruct (decide (i = me)) as [-> | Hne]; [by apply close_lock in Hi |].
      apply close_other in Hi as Hi'; [| done]. rewrite lookup_delete_ne by done.
      destruct (mi_holder _ _ _ _ Hinv i Hi') as (q & Hq & Hin). exists q. split; [done |].
      unfold close in *. case_decide; [congruence | done].
    + intros i q Hq Hi. destruct (decide (i = me)) as [-> | Hne]; [by rewrite lookup_delete_eq in Hq |].
      rewrite lookup_delete_ne in Hq by done. apply (mi_others _ _ _ _ Hinv i q Hq). by rewrite <-(close_other me).
Qed.

Lemma mig_reach_inv s0 c c' k :
  mig_inv s0 c.1 c.2 k → rtc mig_step c c' → ∃ k', (k ≤ k')%nat ∧ mig_inv s0 c'.1 c'.2 k'.
Proof.
  intros Hinv Hr. revert k Hinv. induction Hr as [c | c c1 c' Hs _ IH]; intros k Hinv; [by exists k |].
  destruct (mig_step_inv _ _ _ _ Hinv Hs) as (k1 & Hk1 & Hinv1). destruct (IH k1 Hinv1) as (k' & Hk' & ?).
  exists k'. split; [lia | done].
Qed.

Lemma mig_inv_start s0 : mig_inv s0 (mk_mworld s0 None None) ∅ 0.
Proof.
  split; [split_and!; [lia | done | done] | by intros me [=] |]. intros me p Hp. by rewrite lookup_empty in Hp.
Qed.

Lemma mig_start_reach_inv s0 w ps :
  rtc mig_step (mk_mworld s0 None None, ∅) (w, ps) → ∃ k, mig_inv s0 w ps k.
Proof.
  intros Hr. destruct (mig_reach_inv s0 _ _ 0 (mig_inv_start s0 : mig_inv s0 (_, _).1 (_, _).2 0) Hr) as (k & _ & ?).
  by exists k.
Qed.

(** ** Progress of one instance *)

(** How many more steps it takes. *)
Definition remaining (p : pc) : nat :=
  match p with
  | Acquiring => 6 + 5 * length files
  | Locking => 5 + 5 * length files
  | Creating => 4 + 5 * length files
  | Reading => 3 + 5 * length files
  | Checking rest => 2 + 5 * length rest
  | Beginning _ _ rest => 6 + 5 * length rest
  | Executing _ _ rest => 5 + 5 * length rest
  | Recording _ _ rest => 4 + 5 * length rest
  | Committing _ _ rest => 3 + 5 * length rest
  | Unlocking _ => 1
  | Finished _ => 0
  end.

(** It is not kept waiting by another's lock. *)
Definition unblocked (w : mworld) (p : pc) : Prop := p = Acquiring ∨ p = Locking → mw_lock w = None.

Lemma step_decreases me w p :
  unblocked w p → (∀ r, p ≠ Finished r) →
  ∃ w' p', step Delivered me w p = Some (w', p') ∧ (remaining p' < remaining p)%nat ∧ unblocked w' p'.
Proof.
  unfold unblocked. intros Hu Hf.
  destruct p as [| | | | [| f rest] | f sql rest | f sql rest | f schema rest | f schema rest | r | r]; cbn [step].
  2: rewrite Hu by auto.
  4: rewrite Hdir.
  6: destruct (mw_versions w) as [vs |]; [case_decide; [| destruct (read_file f)] |].
  11: destruct (exec_sql sql (mw_schema w)).
  all: try (by destruct (Hf r)).
  all: eexists _, _; split; [reflexivity |]; cbn [remaining length]; split; [lia | intros [Hp | Hp]; try done].
  apply Hu. by left.
Qed.

Lemma run_alone_finishes n me w p :
  (remaining p ≤ n)%nat → unblocked w p → ∃ w' r, run_alone n me w p = (w', Finished r).
Proof.
  assert (Hdec : (∃ r, p = Finished r) ∨ ∀ r, p ≠ Finished r) by (destruct p; eauto).
  revert w p Hdec. induction n as [| n IH]; intros w p [[r ->] | Hf] Hn Hu.
  - by exists w, r.
  - destruct p; cbn in Hn; try lia. by destruct (Hf result).
  - by exists w, r.
  - destruct (step_decreases me w p Hu Hf) as (w' & p' & Hs & Hlt & Hu'). cbn [run_alone]. rewrite Hs.
    apply IH; [destruct p'; eauto | lia | done].
Qed.

Lemma run_alone_steps n me w p ps :
  ps !! me = Some p → rtc mig_step (w, ps) (let '(w', p') := run_alone n me w p in (w', <[me := p']> ps)).
Proof.
  revert w p ps. induction n as [| n IH]; intros w p ps Hp; cbn; [by rewrite insert_id |].
  destruct (step Delivered me w p) as [[w1 p1] |] eqn:Hs; [| by rewrite insert_id].
  eapply rtc_l; [by eapply mig_run |]. specialize (IH w1 p1 (<[me := p1]> ps) (lookup_insert_eq _ _ _)).
  destruct (run_alone n me w1 p1) as [w' p']. by rewrite insert_insert_eq in IH.
Qed.

(** C14: however many instances apply the migrations at the same time, lose
    their connection at any call or crash, the schema is at every moment what the
    first [k] scripts make of it, in the order of their names, each applied once,
    and exactly these are recorded; [k] only grows; and an instance that returns
    without an error has seen all of them applied. *)
Theorem migrations_once_in_order s0 w ps :
  rtc mig_step (mk_mworld s0 None None, ∅) (w, ps) →
  ∃ k, applied s0 files w k ∧
    (∀ me, ps !! me = Some (Finished None) → k = length files) ∧
    ∀ w' ps', rtc mig_step (w, ps) (w', ps') → ∃ k', (k ≤ k')%nat ∧ applied s0 files w' k'.
Proof.
  intros Hr. destruct (mig_start_reach_inv s0 w ps Hr) as (k & Hinv).
  exists k. split; [apply Hinv |]. split.
  - intros me Hme. destruct (decide (mw_lock w = Some me)) as [Hl | Hl].
    + destruct (mi_holder _ _ _ _ Hinv me Hl) as (p & Hp & Hin). rewrite Hme in Hp. by injection Hp as <-.
    + exact (mi_others _ _ _ _ Hinv me _ Hme Hl).
  - intros w' ps' Hr'. destruct (mig_reach_inv s0 (w, ps) (w', ps') k Hinv Hr') as (k' & Hk & Hinv').
    exists k'. split; [done | apply Hinv'].
Qed.

(** C24: in any reachable state in which nobody holds the lock, an instance whose
    calls are answered returns, within 5 calls per file and 6 more; if it returns
    no error then all migrations are applied, and running another instance after it
    changes nothing. *)
Theorem migrations_finish s0 w ps me :
  rtc mig_step (mk_mworld s0 None None, ∅) (w, ps) → mw_lock w = None → ps !! me = None →
  ∃ w' r, run_alone (6 + 5 * length files) me w Acquiring = (w', Finished r) ∧
    (r = None → applied s0 files w' (length files) ∧
     ∀ w'' ps'', rtc mig_step (w', <[me := Finished r]> ps) (w'', ps'') →
       mw_schema w'' = mw_schema w' ∧ default ∅ (mw_versions w'') = default ∅ (mw_versions w')).
Proof.
  intros Hr Hl Hme. destruct (run_alone_finishes (6 + 5 * length files) me w Acquiring) as (w' & r & Hrun);
    [done | by intros _ |].
  exists w', r. split; [done |]. intros ->.
  assert (Hr' : rtc mig_step (mk_mworld s0 None None, ∅) (w', <[me := Finished None]> ps)).
  { etrans; [exact Hr |]. eapply rtc_l; [by apply (mig_start w ps me) |].
    pose proof (run_alone_steps (6 + 5 * length files) me w Acquiring (<[me := Acquiring]> ps) (lookup_insert_eq _ _ _))
      as Hs. by rewrite Hrun, insert_insert_eq in Hs. }
  destruct (mig_start_reach_inv s0 _ _ Hr') as (k & Hinv).
  assert (Hk : k = length files).
  { destruct (decide (mw_lock w' = Some me)) as [Hlm | Hlm].
    - destruct (mi_holder _ _ _ _ Hinv me Hlm) as (p & Hp & Hin). rewrite lookup_insert_eq in Hp. by injection Hp as <-.
    - exact (mi_others _ _ _ _ Hinv me _ (lookup_insert_eq _ _ _) Hlm). }
  subst k. split; [apply Hinv |]. intros w'' ps'' Hr2.
  destruct (mig_reach_inv s0 (w', _) (w'', ps'') _ Hinv Hr2) as (k2 & Hk2 & Hinv2). cbn in Hinv2.
  destruct (mi_applied _ _ _ _ Hinv) as (_ & Hv & Hs). destruct (mi_applied _ _ _ _ Hinv2) as (Hle & Hv2 & Hs2).
  assert (k2 = length files) as -> by lia. rewrite Hv, Hv2. split; [| done]. congruence.
Qed.

End invariant.
End migrate.

(** * A concrete run: the migrations of the repository, a server that logs the
    scripts, and an instance whose commit is answered too late. *)

Module Migrations.

Definition log_sql (sql : string) (s : list string) : error + list string := inr (s ++ [sql])%list.

Definition directory : list (string * bool) :=
  [("003_idempotency_record_ownership.sql", false); ("archive.sql", true); ("001_init.sql", false);
   ("README.md", false); ("002_idempotency_records.sql", false)].

Definition contents (file : string) : error + string := inr ("-- " +:+ file).

Abbreviation demo_step := (step log_sql (inr directory) contents).
Abbreviation demo_mig_step := (mig_step log_sql (inr directory) contents).

Example directory_files :
  migration_files directory =
  ["001_init.sql"; "002_idempotency_records.sql"; "003_idempotency_record_ownership.sql"].
Proof. vm_compute. reflexivity. Qed.

(** The steps of [me] with the given outcomes. *)
Fixpoint play (me : nat) (os : list outcome) (w : mworld) (p : pc) : mworld * pc :=
  match os with
  | [] => (w, p)
  | o :: os' => match demo_step o me w p with Some (w', p') => play me os' w' p' | None => (w, p) end
  end.

Lemma play_steps me os w p ps :
  ps !! me = Some p → rtc demo_mig_step (w, ps) (let '(w', p') := play me os w p in (w', <[me := p']> ps)).
Proof.
  revert w p ps. induction os as [| o os IH]; intros w p ps Hp; cbn; [by rewrite insert_id |].
  destruct (demo_step o me w p) as [[w1 p1] |] eqn:Hs; [| by rewrite insert_id].
  eapply rtc_l; [by eapply mig_run |]. specialize (IH w1 p1 (<[me := p1]> ps) (lookup_insert_eq _ _ _)).
  destruct (play me os w1 p1) as [w' p']. by rewrite insert_insert_eq in IH.
Qed.

Definition nothing : mworld := mk_mworld (@nil string) None None.

(** Instance 1 commits the first migration, and its connection breaks before
    the answer arrives. *)
Definition broken : mworld * pc :=
  play 1 (replicate 8 Delivered ++ [LostAfter false "connection reset by peer"])%list nothing Acquiring.

Example broken_ex : broken = (mk_mworld ["-- 001_init.sql"] (Some {["001_init.sql"]}) None,
  Finished (Some (ErrWrap "commit migration 001_init.sql" (ErrTransport false "connection reset by peer")))).
Proof. vm_compute. reflexivity. Qed.

Lemma broken_reached : rtc demo_mig_step (nothing, ∅) (broken.1, {[1%nat := broken.2]}).
Proof.
  eapply rtc_l; [by apply (mig_start _ _ _ nothing ∅ 1) |].
  pose proof (play_steps 1 (replicate 8 Delivered ++ [LostAfter false "connection reset by peer"])%list nothing Acquiring
    (<[1%nat := Acquiring]> ∅) (lookup_insert_eq _ _ _)) as Hs.
  unfold broken. destruct (play 1 _ nothing Acquiring) as [w p]. by rewrite insert_insert_eq in Hs.
Qed.

Lemma directory_names : NoDup directory.*1.
Proof. apply (bool_decide_unpack (NoDup _)). vm_compute. exact I. Qed.

Lemma migrations_once_in_order_witness :
  ∃ k, applied log_sql contents [] (migration_files directory) broken.1 k ∧
    default ∅ (mw_versions broken.1) = list_to_set (take k (migration_files directory)).
Proof.
  destruct (migrations_once_in_order log_sql (inr directory) contents directory eq_refl directory_names [] _ _
    broken_reached) as (k & Ha & _).
  exists k. split; [exact Ha | apply Ha].
Defined.

(** Instance 2 applies the other two. *)
Lemma migrations_finish_witness :
  applied log_sql contents [] (migration_files directory)
    (run_alone log_sql (inr directory) contents (6 + 5 * length (migration_files directory)) 2 broken.1 Acquiring).1 3.
Proof.
  destruct (migrations_finish log_sql (inr directory) contents directory eq_refl directory_names [] _ _ 2
    broken_reached) as (w' & r & Hrun & Hr); [vm_compute; reflexivity | vm_compute; reflexivity |].
  rewrite Hrun. cbn [fst].
  assert (Hend : (run_alone log_sql (inr directory) contents (6 + 5 * length (migration_files directory)) 2 broken.1
    Acquiring).2 = Finished None) by (vm_compute; reflexivity).
  rewrite Hrun in Hend. injection Hend as ->. apply (Hr eq_refl).
Defined.

End Migrations.
