(* ===== verification/TestUtil.v ===== *)
(** Support of the integration tests (internal/testutil/integration.go): when a test is
    skipped, and the store that the tests of one process share the migrations of. *)

From S2P Require Import Prelude GoString GoJson GoUrl GoError Config.

Open Scope string_scope.
Open Scope list_scope.

(** * Paths ([path/filepath], with slashes) *)

(** The elements of a path that are kept, the last one first. *)
Definition clean_element (rooted : bool) (kept : list string) (e : string) : list string :=
  if bool_decide (e ∈ [""; "."]) then kept
  else if String.eqb e ".." then
    match kept with
    | [] => if rooted then [] else [".."]
    | top :: rest => if String.eqb top ".." then ".." :: kept else rest
    end
  else e :: kept.

Definition filepath_Clean (path : string) : string :=
  let rooted := has_prefix "/" path in
  let text := join "/" (reverse (foldl (clean_element rooted) [] (Split path 47))) in
  if rooted then "/" +:+ text else if String.eqb text "" then "." else text.

Definition filepath_Join (l : list string) : string :=
  match filter (λ e, e ≠ "") l with [] => "" | l => filepath_Clean (join "/" l) end.

(** The text up to the last slash, which is included. *)
Definition filepath_Dir (path : string) : string :=
  filepath_Clean (match reverse (Split path 47) with
                  | _ :: ((_ :: _) as rest) => join "/" (reverse rest) +:+ "/"
                  | _ => ""
                  end).

Example filepath_ex :
  filepath_Clean <$> ["/a/b/../../c"; "a//b/."; "../../x"; ""; "/.."; "a/.."; "/"] = ["/c"; "a/b"; "../../x"; "."; "/"; "."; "/"] ∧
  filepath_Dir <$> ["/a/b.go"; "b.go"; "/b"; "a/"] = ["/a"; "."; "/"; "a"] ∧
  filepath_Join ["/src/internal/testutil"; ".."; ".."] = "/src" ∧ filepath_Join ["/src"; "migrations"] = "/src/migrations".
Proof. vm_compute. auto. Qed.

(** * Tests *)

(** How a helper leaves its test: [t.Skip], [t.Fatalf] and [panic] do not return. *)
Inductive helper (A : Type) : Type :=
| Skip (reason : string)
| Fatalf (text : string)
| Panic (text : string)
| Returns (a : A).
Arguments Skip {A} _.
Arguments Fatalf {A} _.
Arguments Panic {A} _.
Arguments Returns {A} _.

Definition helper_bind {A B} (h : helper A) (k : A → helper B) : helper B :=
  match h with Skip s => Skip s | Fatalf s => Fatalf s | Panic s => Panic s | Returns a => k a end.

Section testutil.
Context `{ErrorTexts} (getenv : string → string).

(** The two functions that look for a server. *)
Definition require_server (key : string) : helper string :=
  if negb (String.eqb (getenv "ENABLE_INTEGRATION_TESTS") "true")
  then Skip "integration test skipped: ENABLE_INTEGRATION_TESTS is not set to true"
  else
    let value := getenv key in
    if String.eqb value "" then Skip ("integration test skipped: " +:+ key +:+ " is not set") else Returns value.

Definition RequireIntegrationDatabase : helper string := require_server "TEST_DATABASE_URL".
Definition RequireIntegrationRedis : helper string := require_server "TEST_REDIS_ADDR".

(** What [runtime.Caller(0)] answers: the path of this file when it was compiled. *)
Context (currentFile : option string).

Definition repoRoot : helper string :=
  match currentFile with
  | None => Panic "failed to resolve integration helper path"
  | Some file => Returns (filepath_Clean (filepath_Join [filepath_Dir file; ".."; ".."]))
  end.

(** The pools of the database, and what [db.Open] and [db.ApplyMigrations] return
    when they are called the n-th time. *)
Context {Pool : Type} (db_Open : nat → string → error + Pool) (db_ApplyMigrations : nat → string → option error).

(** The globals of the package, and the calls made so far. *)
Record globals : Type := mkGlobals {
  migrationsOnce : bool;
  migrationsErr : option error;
  opens : nat;
  migrations : nat;
}.
Definition globals_start : globals := mkGlobals false None 0 0.

(** [migrationsOnce.Do]: the function runs once, also when it panics. *)
Definition migrate_once (g : globals) : helper unit * globals :=
  if migrationsOnce g then (Returns tt, g)
  else
    match repoRoot with
    | Returns root =>
        (Returns tt,
         mkGlobals true (db_ApplyMigrations (migrations g) (filepath_Join [root; "migrations"])) (opens g) (S (migrations g)))
    | Skip s => (Skip s, mkGlobals true (migrationsErr g) (opens g) (migrations g))
    | Fatalf s => (Fatalf s, mkGlobals true (migrationsErr g) (opens g) (migrations g))
    | Panic s => (Panic s, mkGlobals true (migrationsErr g) (opens g) (migrations g))
    end.

Inductive cleanup : Type := Cancel | ClosePool (pool : Pool).

(** The pool of the store that is returned, and the calls left for the end of the
    test, the last one first. *)
Definition OpenIntegrationStore (g : globals) : helper Pool * list cleanup * globals :=
  match RequireIntegrationDatabase with
  | Returns databaseURL =>
      let g1 := mkGlobals (migrationsOnce g) (migrationsErr g) (S (opens g)) (migrations g) in
      match db_Open (opens g) databaseURL with
      | inl err => (Fatalf ("open integration database: " +:+ Error err), [Cancel], g1)
      | inr pool =>
          let '(done, g2) := migrate_once g1 in
          (helper_bind done (λ _,
             match migrationsErr g2 with
             | Some err => Fatalf ("apply migrations: " +:+ Error err)
             | None => Returns pool
             end), [ClosePool pool; Cancel], g2)
      end
  | Skip s => (Skip s, [], g)
  | Fatalf s => (Fatalf s, [], g)
  | Panic s => (Panic s, [], g)
  end.

(** The tests of a process, one after the other. *)
Fixpoint open_all (n : nat) (g : globals) : list (helper Pool) * globals :=
  match n with
  | O => ([], g)
  | S n => let '(h, _, g) := OpenIntegrationStore g in let '(hs, g) := open_all n g in (h :: hs, g)
  end.

(** ** Lemmas *)

Definition once_inv (g : globals) : Prop :=
  if migrationsOnce g then (migrations g ≤ 1)%nat else migrations g = 0 ∧ migrationsErr g = None.

(** A store is handed out only when the migrations were applied without an error. *)
Definition handed_out (g : globals) (h : helper Pool) : Prop :=
  match h with Returns _ => migrationsOnce g = true ∧ migrationsErr g = None | _ => True end.

Lemma migrate_once_inv g : once_inv g →
  once_inv (migrate_once g).2 ∧ migrationsOnce (migrate_once g).2 = true ∧
  (migrationsOnce g = true → (migrate_once g).2 = g).
Proof.
  unfold migrate_once, once_inv. destruct (migrationsOnce g) eqn:Ho; [cbn [snd]; rewrite Ho; by intros; split_and! |]. intros [Hm He].
  destruct repoRoot; cbn; split_and!; try done; lia.
Qed.

Lemma open_inv g : once_inv g →
  let '(h, _, g') := OpenIntegrationStore g in
  once_inv g' ∧ handed_out g' h ∧ (migrationsOnce g = true → migrationsOnce g' = true ∧ migrationsErr g' = migrationsErr g).
Proof.
  intros Hg. unfold OpenIntegrationStore. destruct RequireIntegrationDatabase as [| | | url]; try done.
  destruct (db_Open (opens g) url) as [err | pool]; [done |].
  set (g1 := mkGlobals _ _ _ _). assert (Hg1 : once_inv g1) by exact Hg.
  destruct (migrate_once_inv g1 Hg1) as (Hi & Ho & Hsame). destruct (migrate_once g1) as [done g2]. cbn [snd] in *.
  split; [done |]. split; [| intros Hdone; by rewrite (Hsame Hdone)].
  destruct done; cbn; try exact I. by destruct (migrationsErr g2) eqn:?.
Qed.

(** However many tests open a store, the migrations are applied once at most; when
    that failed, no test gets a store. *)
Lemma migrations_shared n : let '(hs, g) := open_all n globals_start in
  (migrations g ≤ 1)%nat ∧ (is_Some (migrationsErr g) → Forall (λ h, match h with Returns _ => False | _ => True end) hs).
Proof.
  assert (Hall : ∀ g, once_inv g → let '(hs, g') := open_all n g in
    once_inv g' ∧ (migrationsOnce g = true → migrationsOnce g' = true ∧ migrationsErr g' = migrationsErr g) ∧
    (is_Some (migrationsErr g') → Forall (λ h, match h with Returns _ => False | _ => True end) hs)).
  { induction n as [| n IH]; intros g Hg; cbn [open_all]; [by split_and!; [| | intros; apply Forall_nil_2] |].
    pose proof (open_inv g Hg) as Ho. destruct (OpenIntegrationStore g) as [[h c] g1]. destruct Ho as (Hg1 & Hh & Hk).
    specialize (IH g1 Hg1). destruct (open_all n g1) as [hs g2]. destruct IH as (Hg2 & Hk2 & Hf).
    split; [done |]. split.
    - intros Hd. destruct (Hk Hd) as [Hd1 He1]. destruct (Hk2 Hd1) as [Hd2 He2]. split; [done | by rewrite He2].
    - intros He. apply Forall_cons_2; [| auto]. destruct h as [| | | pool]; try done. cbn in Hh. destruct Hh as [Hd He1].
      destruct (Hk2 Hd) as [_ He2]. rewrite He2, He1 in He. by destruct He. }
  specialize (Hall globals_start). destruct (open_all n globals_start) as [hs g]. destruct Hall as (Hg & _ & Hf); [done |].
  split; [| done]. unfold once_inv in Hg. destruct (migrationsOnce g); [done | lia].
Qed.

End testutil.

Definition demo_env (key : string) : string :=
  if String.eqb key "ENABLE_INTEGRATION_TESTS" then "true" else if String.eqb key "TEST_DATABASE_URL" then "postgres://db" else "".

Definition demo_open (migrated : option error) : list (helper string) :=
  (@open_all (Build_ErrorTexts "" "" id id id id) demo_env (Some "/src/internal/testutil/integration.go") string
     (λ _ url, inr url) (λ _ dir, if String.eqb dir "/src/migrations" then migrated else None) 2 globals_start).1.

Example demo_stores :
  demo_open None = [Returns "postgres://db"; Returns "postgres://db"] ∧
  demo_open (Some (ErrNew "no lock")) = [Fatalf "apply migrations: no lock"; Fatalf "apply migrations: no lock"] ∧
  RequireIntegrationRedis demo_env = Skip "integration test skipped: TEST_REDIS_ADDR is not set".
Proof. vm_compute. auto. Qed.
