(* ===== verification/Domain.v ===== *)
(** The domain model (internal/domain/models.go): status constants and structs.

    Times read from the database are microseconds since the epoch ([Z]); a
    nullable time is an option; a [json.RawMessage] is its bytes, nil being the
    empty string. *)

From S2P Require Import Prelude GoString GoJson.

Open Scope string_scope.

(** * Status constants *)

Definition WorkflowDefinitionStatusActive := "active".

Definition ExecutionStatusRunning := "running".
Definition ExecutionStatusSucceeded := "succeeded".
Definition ExecutionStatusFailed := "failed".

Definition TaskStatusPending := "pending".
Definition TaskStatusRunning := "running".
Definition TaskStatusSucceeded := "succeeded".
Definition TaskStatusFailed := "failed".
Definition TaskStatusDeadLettered := "dead_lettered".

Definition TaskAttemptStatusRunning := "running".
Definition TaskAttemptStatusSucceeded := "succeeded".
Definition TaskAttemptStatusFailed := "failed".

Definition IdempotencyStatusInProgress := "in_progress".
Definition IdempotencyStatusCompleted := "completed".

(** * Structs *)

Record WorkflowTaskSpec : Type := mkWorkflowTaskSpec {
  ts_Name : string;
  ts_HandlerKey : string;
  ts_MaxAttempts : Z;
  ts_BackoffSeconds : Z;
  ts_NextTask : string;
}.

Record WorkflowDefinitionSpec : Type := mkWorkflowDefinitionSpec {
  ws_EntryTask : string;
  ws_Tasks : list WorkflowTaskSpec;
}.

Record WorkflowDefinition : Type := mkWorkflowDefinition {
  wd_ID : string;
  wd_Name : string;
  wd_Description : string;
  wd_Version : Z;
  wd_Status : string;
  wd_DefinitionJSON : string;
  wd_CreatedAt : Z;
  wd_UpdatedAt : Z;
}.

Record WorkflowExecution : Type := mkWorkflowExecution {
  we_ID : string;
  we_WorkflowDefinitionID : string;
  we_Status : string;
  we_InputJSON : string;
  we_OutputJSON : string;
  we_ErrorText : string;
  we_CreatedAt : Z;
  we_UpdatedAt : Z;
  we_StartedAt : option Z;
  we_CompletedAt : option Z;
}.

Record TaskInstance : Type := mkTaskInstance {
  ti_ID : string;
  ti_WorkflowExecutionID : string;
  ti_TaskName : string;
  ti_HandlerKey : string;
  ti_Status : string;
  ti_InputJSON : string;
  ti_OutputJSON : string;
  ti_NextRunAt : option Z;
  ti_LastErrorText : string;
  ti_AttemptsTotal : Z;
  ti_IdempotencyKey : string;
  ti_DispatchedAt : option Z;
  ti_CompletedAt : option Z;
  ti_CreatedAt : Z;
  ti_UpdatedAt : Z;
}.

Record TaskAttempt : Type := mkTaskAttempt {
  ta_ID : string;
  ta_TaskInstanceID : string;
  ta_AttemptNumber : Z;
  ta_Status : string;
  ta_StartedAt : Z;
  ta_FinishedAt : option Z;
  ta_ErrorText : string;
  ta_OutputJSON : string;
  ta_CreatedAt : Z;
}.

(** The zero value of the struct, [domain.TaskAttempt{}]. *)
Definition zero_attempt : TaskAttempt := mkTaskAttempt "" "" 0 "" 0 None "" "" 0.

Record OutboxEvent : Type := mkOutboxEvent {
  oe_ID : string;
  oe_AggregateType : string;
  oe_AggregateID : string;
  oe_EventType : string;
  oe_PayloadJSON : string;
  oe_AvailableAt : Z;
  oe_DispatchedAt : option Z;
  oe_AttemptCount : Z;
  oe_LastErrorText : string;
  oe_CreatedAt : Z;
}.

Record DispatchTaskPayload : Type := mkDispatchTaskPayload {
  dp_TaskID : string;
  dp_ExecutionID : string;
  dp_HandlerKey : string;
}.

Record ExecutionStartResult : Type := mkExecutionStartResult {
  sr_Execution : WorkflowExecution;
  sr_Task : TaskInstance;
}.

Record TaskSnapshot : Type := mkTaskSnapshot {
  tsn_Task : TaskInstance;
  tsn_Attempts : list TaskAttempt;
}.

Record ExecutionSnapshot : Type := mkExecutionSnapshot {
  es_Execution : WorkflowExecution;
  es_Tasks : list TaskSnapshot;
}.

(** * JSON of the dispatch payload

    [json.Marshal] writes the fields in the order of the struct with the names
    of its tags; [json.Unmarshal] sets a field per matching member. *)

Definition payload_json (p : DispatchTaskPayload) : json :=
  JObj [("task_id", JStr (dp_TaskID p));
        ("execution_id", JStr (dp_ExecutionID p));
        ("handler_key", JStr (dp_HandlerKey p))].

Definition marshal_payload (p : DispatchTaskPayload) : string := of_bytes (encode (payload_json p)).

Definition set_payload (k : string) (v : json) (p : DispatchTaskPayload)
    : option DispatchTaskPayload :=
  if is_field "task_id" k then
    s ← decode_string (dp_TaskID p) v; Some (mkDispatchTaskPayload s (dp_ExecutionID p) (dp_HandlerKey p))
  else if is_field "execution_id" k then
    s ← decode_string (dp_ExecutionID p) v; Some (mkDispatchTaskPayload (dp_TaskID p) s (dp_HandlerKey p))
  else if is_field "handler_key" k then
    s ← decode_string (dp_HandlerKey p) v; Some (mkDispatchTaskPayload (dp_TaskID p) (dp_ExecutionID p) s)
  else Some p.

Definition zero_payload : DispatchTaskPayload := mkDispatchTaskPayload "" "" "".

(** [None]: [json.Unmarshal] returned an error. *)
Definition unmarshal_payload (raw : string) : option DispatchTaskPayload :=
  v ← parse raw; decode_struct set_payload zero_payload v.

(** Proofs use these through the lemmas below. *)
#[global] Arguments marshal_payload : simpl never.
#[global] Arguments unmarshal_payload : simpl never.

(** * Lemmas *)

(** The strings of a payload that survive JSON: valid UTF-8. *)
Definition payload_valid (p : DispatchTaskPayload) : bool :=
  (utf8_valid (to_bytes (dp_TaskID p)) && utf8_valid (to_bytes (dp_ExecutionID p))
   && utf8_valid (to_bytes (dp_HandlerKey p)))%bool.

Lemma parse_marshal_payload p :
  payload_valid p = true → parse (marshal_payload p) = Some (payload_json p).
Proof.
  unfold payload_valid. rewrite !andb_true_iff. intros [[H1 H2] H3].
  apply parse_encode; [| cbn; apply le_n_S, Nat.le_0_l].
  simpl. by rewrite H1, H2, H3.
Qed.

(** The members of a payload decode to it in whatever order they come: Postgres
    reorders the members of a [jsonb] object. *)
Lemma decode_payload_members p l :
  l ≡ₚ [("task_id", JStr (dp_TaskID p)); ("execution_id", JStr (dp_ExecutionID p));
        ("handler_key", JStr (dp_HandlerKey p))] →
  decode_members set_payload l zero_payload = Some p.
Proof.
  destruct p as [t x h]; simpl. intros Hp.
  symmetry in Hp. apply permutations_Permutation in Hp.
  repeat (apply elem_of_cons in Hp as [-> | Hp]; [reflexivity |]).
  by apply elem_of_nil in Hp.
Qed.
