(* ===== verification/DomainJson.v ===== *)
(** The JSON of the domain structs (the tags of internal/domain/models.go), as
    [json.Marshal] writes it for the responses of the API.

    Times of the database are microseconds; [local] is the time zone of the
    process, as the offset in minutes at a time.  A marshalled value is kept with
    the JSON value it is the text of. *)

From S2P Require Import Prelude GoString GoFloat GoStrconv GoTime GoRfc3339 GoJson GoEncoder GoFmt Domain.

Open Scope string_scope.

(** * Marshalled values *)

Record marshalled : Type := mk_marshalled { m_value : json; m_bytes : bytes }.

Definition m_string (s : string) : option marshalled := Some (mk_marshalled (JStr s) (quote s)).
Definition m_int (z : Z) : option marshalled := Some (mk_marshalled (JNum (Itoa z)) (to_bytes (Itoa z))).
Definition m_null : marshalled := mk_marshalled JNull (to_bytes "null").

Definition m_raw (raw : string) : option marshalled :=
  b ← marshal_raw raw; Some (mk_marshalled (default JNull (parse raw)) b).

(** A list of values, or the first error. *)
Fixpoint all_some {A} (l : list (option A)) : option (list A) :=
  match l with
  | [] => Some []
  | o :: l' => x ← o; r ← all_some l'; Some (x :: r)
  end.

Definition m_array (l : list (option marshalled)) : option marshalled :=
  items ← all_some l; Some (mk_marshalled (JArr (m_value <$> items)) (array_bytes (m_bytes <$> items))).

(** A nil slice is null. *)
Definition m_nil_slice (l : list (option marshalled)) : option marshalled :=
  match l with [] => Some m_null | _ => m_array l end.

Definition m_member (p : string * option marshalled) : option (string * marshalled) := m ← p.2; Some (p.1, m).

Definition m_object (l : list (string * option marshalled)) : option marshalled :=
  members ← all_some (m_member <$> l);
  Some (mk_marshalled (JObj ((λ p, (p.1, m_value p.2)) <$> members))
          (object_bytes ((λ p, (p.1, m_bytes p.2)) <$> members))).

(** * The structs *)

(** A field with [omitempty] of a string or raw value, and of a pointer. *)
Definition unless_empty (key s : string) (m : option marshalled) : list (string * option marshalled) :=
  if String.eqb s "" then [] else [(key, m)].
Definition unless_nil {A} (key : string) (o : option A) (f : A → option marshalled) : list (string * option marshalled) :=
  match o with Some a => [(key, f a)] | None => [] end.

Section structs.
Context (local : Z → Z).

Definition m_time (t : Z) : option marshalled := s ← marshal_time (local t) (t * 1000); m_string s.

Definition WorkflowDefinition_json (d : WorkflowDefinition) : option marshalled :=
  m_object
    [("id", m_string (wd_ID d)); ("name", m_string (wd_Name d)); ("description", m_string (wd_Description d));
     ("version", m_int (wd_Version d)); ("status", m_string (wd_Status d)); ("definition", m_raw (wd_DefinitionJSON d));
     ("created_at", m_time (wd_CreatedAt d)); ("updated_at", m_time (wd_UpdatedAt d))].

Definition WorkflowExecution_fields (x : WorkflowExecution) : list (string * option marshalled) :=
    ([("id", m_string (we_ID x)); ("workflow_definition_id", m_string (we_WorkflowDefinitionID x));
      ("status", m_string (we_Status x)); ("input", m_raw (we_InputJSON x))] ++
     unless_empty "output" (we_OutputJSON x) (m_raw (we_OutputJSON x)) ++
     unless_empty "error" (we_ErrorText x) (m_string (we_ErrorText x)) ++
     [("created_at", m_time (we_CreatedAt x)); ("updated_at", m_time (we_UpdatedAt x))] ++
     unless_nil "started_at" (we_StartedAt x) m_time ++ unless_nil "completed_at" (we_CompletedAt x) m_time)%list.
Definition WorkflowExecution_json (x : WorkflowExecution) : option marshalled := m_object (WorkflowExecution_fields x).

Definition TaskInstance_fields (t : TaskInstance) : list (string * option marshalled) :=
    ([("id", m_string (ti_ID t)); ("workflow_execution_id", m_string (ti_WorkflowExecutionID t));
      ("task_name", m_string (ti_TaskName t)); ("handler_key", m_string (ti_HandlerKey t));
      ("status", m_string (ti_Status t)); ("input", m_raw (ti_InputJSON t))] ++
     unless_empty "output" (ti_OutputJSON t) (m_raw (ti_OutputJSON t)) ++
     unless_nil "next_run_at" (ti_NextRunAt t) m_time ++
     unless_empty "last_error" (ti_LastErrorText t) (m_string (ti_LastErrorText t)) ++
     [("attempts_total", m_int (ti_AttemptsTotal t)); ("idempotency_key", m_string (ti_IdempotencyKey t))] ++
     unless_nil "dispatched_at" (ti_DispatchedAt t) m_time ++ unless_nil "completed_at" (ti_CompletedAt t) m_time ++
     [("created_at", m_time (ti_CreatedAt t)); ("updated_at", m_time (ti_UpdatedAt t))])%list.
Definition TaskInstance_json (t : TaskInstance) : option marshalled := m_object (TaskInstance_fields t).

Definition TaskAttempt_fields (a : TaskAttempt) : list (string * option marshalled) :=
    ([("id", m_string (ta_ID a)); ("task_instance_id", m_string (ta_TaskInstanceID a));
      ("attempt_number", m_int (ta_AttemptNumber a)); ("status", m_string (ta_Status a));
      ("started_at", m_time (ta_StartedAt a))] ++
     unless_nil "finished_at" (ta_FinishedAt a) m_time ++
     unless_empty "error" (ta_ErrorText a) (m_string (ta_ErrorText a)) ++
     unless_empty "output" (ta_OutputJSON a) (m_raw (ta_OutputJSON a)) ++
     [("created_at", m_time (ta_CreatedAt a))])%list.
Definition TaskAttempt_json (a : TaskAttempt) : option marshalled := m_object (TaskAttempt_fields a).

Definition ExecutionStartResult_json (r : ExecutionStartResult) : option marshalled :=
  m_object [("execution", WorkflowExecution_json (sr_Execution r)); ("task", TaskInstance_json (sr_Task r))].

Definition TaskSnapshot_json (t : TaskSnapshot) : option marshalled :=
  m_object [("task", TaskInstance_json (tsn_Task t)); ("attempts", m_array (TaskAttempt_json <$> tsn_Attempts t))].

Definition ExecutionSnapshot_json (s : ExecutionSnapshot) : option marshalled :=
  m_object [("execution", WorkflowExecution_json (es_Execution s)); ("tasks", m_array (TaskSnapshot_json <$> es_Tasks s))].

End structs.

Example WorkflowExecution_json_ex :
  of_bytes ∘ m_bytes <$> WorkflowExecution_json (λ _, 0%Z)
    (mkWorkflowExecution "x1" "d1" "running" "{ }" "" "" 0 1500000 (Some 0%Z) None) =
  Some (of_bytes (encode (JObj [("id", JStr "x1"); ("workflow_definition_id", JStr "d1"); ("status", JStr "running");
    ("input", JObj []); ("created_at", JStr "1970-01-01T00:00:00Z"); ("updated_at", JStr "1970-01-01T00:00:01.5Z");
    ("started_at", JStr "1970-01-01T00:00:00Z")]))).
Proof. vm_compute. reflexivity. Qed.

(** * Lemmas: what is marshalled is read as its value *)

Definition good (d : nat) (m : marshalled) : Prop := reads d (m_bytes m) (m_value m).

Lemma good_null d : good d m_null.
Proof. apply (reads_literal d JNull). by left. Qed.

Lemma good_string d s m : utf8_valid (to_bytes s) = true → m_string s = Some m → good d m.
Proof. intros Hs [= <-]. by apply reads_string. Qed.

Lemma good_int d z m : m_int z = Some m → good d m.
Proof. intros [= <-]. apply reads_number, number_ok_Itoa. Qed.

Lemma plain_utf8 b : plain b = true → utf8_valid b = true.
Proof.
  unfold plain. induction b as [| c b IH]; [done |]. cbn [forallb]. intros [Hc Hb]%andb_true_iff.
  rewrite utf8_tail; [auto | unfold in_range in Hc; lia].
Qed.

Lemma good_time local d t m : m_time local t = Some m → good d m.
Proof.
  unfold m_time. destruct (marshal_time _ _) as [s |] eqn:E; [| done]. cbn. apply good_string.
  by eapply plain_utf8, marshal_time_plain.
Qed.

(** A raw value that [d] more levels of nesting can hold. *)
Definition raw_ok (d : nat) (raw : string) : bool :=
  (utf8_valid (to_bytes raw) && Nat.leb (jdepth (default JNull (parse raw))) d)%bool.

Lemma good_raw n d raw m : raw_ok n raw = true → (n ≤ d)%nat → m_raw raw = Some m → good d m.
Proof.
  unfold raw_ok, m_raw. intros [Hu Hd%Nat.leb_le]%andb_true_iff Hnd.
  destruct (marshal_raw raw) as [b |] eqn:E; [| done]. intros [= <-].
  destruct (reads_raw raw b Hu E) as (v & Hv & Hr). unfold good. cbn [m_value m_bytes].
  destruct Hv as [[-> ->] | Hv]; [apply Hr; cbn; lia |]. rewrite Hv in *. apply Hr. by etrans.
Qed.

Lemma all_some_inv {A} (l : list (option A)) r : all_some l = Some r → Forall2 (λ o x, o = Some x) l r.
Proof.
  revert r. induction l as [| [x |] l IH]; intros r; cbn; [by intros [= <-]; constructor | | done].
  destruct (all_some l) as [r' |]; [| done]. intros [= <-]. constructor; [done | auto].
Qed.

Lemma m_array_inv l m : m_array l = Some m →
  ∃ r, Forall2 (λ o x, o = Some x) l r ∧ m = mk_marshalled (JArr (m_value <$> r)) (array_bytes (m_bytes <$> r)).
Proof.
  unfold m_array. destruct (all_some l) as [r |] eqn:E; [| done]. intros [= <-]. exists r. split; [by apply all_some_inv | done].
Qed.

Lemma good_array d l m : (∀ o x, o ∈ l → o = Some x → good d x) → m_array l = Some m → good (S d) m.
Proof.
  intros Hg (r & E & ->)%m_array_inv. unfold good. cbn [m_value m_bytes].
  pose proof (reads_array d ((λ x, (m_value x, m_bytes x)) <$> r)) as Ha.
  rewrite <-!list_fmap_compose in Ha. apply Ha. clear Ha. apply Forall_fmap.
  induction E as [| o x l r Ho _ IH]; [by apply Forall_nil_2 |]. apply Forall_cons_2.
  - apply (Hg o x); [by left | done].
  - apply IH. intros o' x' Hin. apply Hg. by right.
Qed.

(** The members of a marshalled object: those of its fields. *)
Definition fields (l : list (string * option marshalled)) (r : list (string * marshalled)) : Prop :=
  Forall2 (λ p q, q.1 = p.1 ∧ p.2 = Some q.2) l r.

Definition member_values (r : list (string * marshalled)) : list (string * json) := (λ q, (q.1, m_value q.2)) <$> r.

Lemma m_object_inv l m : m_object l = Some m → ∃ r, fields l r ∧ m = mk_marshalled (JObj (member_values r))
    (object_bytes ((λ p, (p.1, m_bytes p.2)) <$> r)).
Proof.
  unfold m_object. destruct (all_some _) as [r |] eqn:E; [| done]. intros [= <-]. exists r. split; [| done].
  apply all_some_inv in E. unfold fields. revert r E.
  induction l as [| [k [o |]] l IH]; intros r E; cbn in E; inversion E; simplify_eq; constructor; [done | by apply IH].
Qed.

Lemma good_object d l m :
  (∀ k o, (k, o) ∈ l → utf8_valid (to_bytes k) = true ∧ ∀ x, o = Some x → good d x) → m_object l = Some m →
  good (S d) m.
Proof.
  intros Hg (r & Hf & ->)%m_object_inv. unfold good. cbn [m_value m_bytes].
  pose proof (reads_object d ((λ q, (q.1, (m_value q.2, m_bytes q.2))) <$> r)) as Ho.
  rewrite <-!list_fmap_compose in Ho. apply Ho. clear Ho. apply Forall_fmap.
  induction Hf as [| [k o] [k' x] l r [Hk Ho] _ IH]; [by apply Forall_nil_2 |]. cbn in *. subst k' o.
  destruct (Hg k (Some x)) as [Hu Hgx]; [by left |]. apply Forall_cons_2.
  - split; cbn; [done | by apply Hgx].
  - apply IH. intros k' o' Hin. apply Hg. by right.
Qed.

(** ** The texts and raw values of the structs *)

Definition text_ok (s : string) : bool := utf8_valid (to_bytes s).

Definition printable_execution (d : nat) (x : WorkflowExecution) : bool :=
  (forallb text_ok [we_ID x; we_WorkflowDefinitionID x; we_Status x; we_ErrorText x] &&
   forallb (raw_ok d) [we_InputJSON x; we_OutputJSON x])%bool.

Definition printable_task (d : nat) (t : TaskInstance) : bool :=
  (forallb text_ok [ti_ID t; ti_WorkflowExecutionID t; ti_TaskName t; ti_HandlerKey t; ti_Status t; ti_LastErrorText t;
     ti_IdempotencyKey t] && forallb (raw_ok d) [ti_InputJSON t; ti_OutputJSON t])%bool.

Definition printable_attempt (d : nat) (a : TaskAttempt) : bool :=
  (forallb text_ok [ta_ID a; ta_TaskInstanceID a; ta_Status a; ta_ErrorText a] && raw_ok d (ta_OutputJSON a))%bool.

Lemma in_optional {A} (key : string) (o : option A) f k v :
  (k, v) ∈ unless_nil key o f → ∃ a, o = Some a ∧ k = key ∧ v = f a.
Proof. destruct o; cbn; [rewrite list_elem_of_singleton; intros [= -> ->]; eauto | by rewrite elem_of_nil]. Qed.

Lemma in_unless_empty key s m k v : (k, v) ∈ unless_empty key s m → k = key ∧ v = m.
Proof.
  unfold unless_empty. destruct (String.eqb s ""); [by rewrite elem_of_nil |].
  by rewrite list_elem_of_singleton; intros [= -> ->].
Qed.

(** The fields of a struct, one after the other. *)
Ltac each_field :=
  intros ? ?; try unfold WorkflowExecution_fields; try unfold TaskInstance_fields; try unfold TaskAttempt_fields;
  rewrite ?elem_of_app, ?elem_of_cons, ?elem_of_nil;
  intros Hin; repeat match type of Hin with _ ∨ _ => destruct Hin as [Hin | Hin] end; try done;
  first [ injection Hin as -> -> | apply in_optional in Hin as (? & _ & -> & ->)
        | apply in_unless_empty in Hin as [-> ->] ];
  (split; [reflexivity |]); intros ? ?;
  first [ by eapply good_time | eapply good_string; [| eassumption]; assumption
        | eapply good_raw; [| eassumption | eassumption]; eassumption | eapply good_int; eassumption | idtac ].

Section structs_good.
Context (local : Z → Z).

Lemma good_execution n d x m : printable_execution n x = true → (n ≤ d)%nat → WorkflowExecution_json local x = Some m → good (S d) m.
Proof.
  unfold printable_execution. cbn [forallb]. unfold text_ok. rewrite !andb_true_iff. intros [(? & ? & ? & ? & _) (? & ? & _)] Hd Hm.
  eapply good_object in Hm; [exact Hm |]. each_field.
Qed.

Lemma good_task n d t m : printable_task n t = true → (n ≤ d)%nat → TaskInstance_json local t = Some m → good (S d) m.
Proof.
  unfold printable_task. cbn [forallb]. unfold text_ok. rewrite !andb_true_iff.
  intros [(? & ? & ? & ? & ? & ? & ? & _) (? & ? & _)] Hd Hm.
  eapply good_object in Hm; [exact Hm |]. each_field.
Qed.

Lemma good_attempt n d a m : printable_attempt n a = true → (n ≤ d)%nat → TaskAttempt_json local a = Some m → good (S d) m.
Proof.
  unfold printable_attempt. cbn [forallb]. unfold text_ok. rewrite !andb_true_iff. intros [(? & ? & ? & ? & _) ?] Hd Hm.
  eapply good_object in Hm; [exact Hm |]. each_field.
Qed.

End structs_good.
