(* ===== verification/Db.v ===== *)
(** The database (migrations/001_init.sql to 003_idempotency_record_ownership.sql
    and the SQL of internal/db): tables as finite maps from the primary key,
    parameters as Postgres reads them, statements and transactions.

    A transaction takes effect atomically when it commits; between the
    statements of one transaction no other transaction is modelled (the row
    locks of SELECT ... FOR UPDATE and of UPDATE serialise the transactions on
    one task).  What the server decides is a parameter: which parameter values
    it accepts ([Postgres]) and the clock, identifiers and failures ([env]). *)

From S2P Require Import Prelude GoString GoError Proc.

Open Scope string_scope.

(** * Parameters of SQL statements

    How Postgres reads a parameter of each column type: the stored value or
    the error of the statement. *)
Class Postgres := {
  uuid_in : string → error + string;       (* UUID; the canonical text *)
  text_in : string → error + string;       (* TEXT *)
  jsonb_in : string → error + string;      (* JSONB; the text it is read back as *)
  int4_in : Z → error + Z;                 (* INTEGER *)
  timestamptz_in : Z → Z;                  (* TIMESTAMPTZ, from Go nanoseconds *)
  constraint_text : string → string → string;  (* text of a constraint violation *)
}.

(** * Rows and tables *)

(** A row of workflow_definitions. *)
Record def_row : Type := mk_def_row {
  dr_name : string;
  dr_description : string;
  dr_version : Z;
  dr_status : string;
  dr_definition_json : string;
  dr_created_at : Z;
  dr_updated_at : Z;
}.

(** A row of workflow_executions. *)
Record exec_row : Type := mk_exec_row {
  er_workflow_definition_id : string;
  er_status : string;
  er_input_json : string;
  er_output_json : option string;
  er_error_text : option string;
  er_created_at : Z;
  er_updated_at : Z;
  er_started_at : option Z;
  er_completed_at : option Z;
}.

(** A row of task_instances. *)
Record task_row : Type := mk_task_row {
  tr_workflow_execution_id : string;
  tr_task_name : string;
  tr_handler_key : string;
  tr_status : string;
  tr_input_json : string;
  tr_output_json : option string;
  tr_next_run_at : option Z;
  tr_last_error_text : option string;
  tr_attempts_total : Z;
  tr_idempotency_key : string;
  tr_dispatched_at : option Z;
  tr_completed_at : option Z;
  tr_created_at : Z;
  tr_updated_at : Z;
}.

(** A row of task_attempts. *)
Record attempt_row : Type := mk_attempt_row {
  ar_task_instance_id : string;
  ar_attempt_number : Z;
  ar_status : string;
  ar_started_at : Z;
  ar_finished_at : option Z;
  ar_error_text : option string;
  ar_output_json : option string;
  ar_created_at : Z;
}.

(** A row of outbox_events. *)
Record outbox_row : Type := mk_outbox_row {
  or_aggregate_type : string;
  or_aggregate_id : string;
  or_event_type : string;
  or_payload_json : string;
  or_available_at : Z;
  or_dispatched_at : option Z;
  or_attempt_count : Z;
  or_last_error_text : option string;
  or_created_at : Z;
}.

(** A row of idempotency_records, without its key. *)
Record idem_row : Type := mk_idem_row {
  ir_owner_task_instance_id : option string;
  ir_status : string;
  ir_response_json : option string;
  ir_created_at : Z;
  ir_updated_at : Z;
}.

(** The database. *)
Record db : Type := mk_db {
  workflow_definitions : gmap string def_row;
  workflow_executions : gmap string exec_row;
  task_instances : gmap string task_row;
  task_attempts : gmap string attempt_row;
  outbox_events : gmap string outbox_row;
  idempotency_records : gmap (string * string) idem_row;
}.

Definition empty_db : db := mk_db ∅ ∅ ∅ ∅ ∅ ∅.

(** ** Assignments: the SET clauses of UPDATE *)

Definition set_er_status (v : string) (r : exec_row) : exec_row :=
  mk_exec_row (er_workflow_definition_id r) v (er_input_json r) (er_output_json r) (er_error_text r) (er_created_at r) (er_updated_at r) (er_started_at r) (er_completed_at r).
Definition set_er_output_json (v : option string) (r : exec_row) : exec_row :=
  mk_exec_row (er_workflow_definition_id r) (er_status r) (er_input_json r) v (er_error_text r) (er_created_at r) (er_updated_at r) (er_started_at r) (er_completed_at r).
Definition set_er_error_text (v : option string) (r : exec_row) : exec_row :=
  mk_exec_row (er_workflow_definition_id r) (er_status r) (er_input_json r) (er_output_json r) v (er_created_at r) (er_updated_at r) (er_started_at r) (er_completed_at r).
Definition set_er_updated_at (v : Z) (r : exec_row) : exec_row :=
  mk_exec_row (er_workflow_definition_id r) (er_status r) (er_input_json r) (er_output_json r) (er_error_text r) (er_created_at r) v (er_started_at r) (er_completed_at r).
Definition set_er_completed_at (v : option Z) (r : exec_row) : exec_row :=
  mk_exec_row (er_workflow_definition_id r) (er_status r) (er_input_json r) (er_output_json r) (er_error_text r) (er_created_at r) (er_updated_at r) (er_started_at r) v.
Definition set_tr_status (v : string) (r : task_row) : task_row :=
  mk_task_row (tr_workflow_execution_id r) (tr_task_name r) (tr_handler_key r) v (tr_input_json r) (tr_output_json r) (tr_next_run_at r) (tr_last_error_text r) (tr_attempts_total r) (tr_idempotency_key r) (tr_dispatched_at r) (tr_completed_at r) (tr_created_at r) (tr_updated_at r).
Definition set_tr_output_json (v : option string) (r : task_row) : task_row :=
  mk_task_row (tr_workflow_execution_id r) (tr_task_name r) (tr_handler_key r) (tr_status r) (tr_input_json r) v (tr_next_run_at r) (tr_last_error_text r) (tr_attempts_total r) (tr_idempotency_key r) (tr_dispatched_at r) (tr_completed_at r) (tr_created_at r) (tr_updated_at r).
Definition set_tr_next_run_at (v : option Z) (r : task_row) : task_row :=
  mk_task_row (tr_workflow_execution_id r) (tr_task_name r) (tr_handler_key r) (tr_status r) (tr_input_json r) (tr_output_json r) v (tr_last_error_text r) (tr_attempts_total r) (tr_idempotency_key r) (tr_dispatched_at r) (tr_completed_at r) (tr_created_at r) (tr_updated_at r).
Definition set_tr_last_error_text (v : option string) (r : task_row) : task_row :=
  mk_task_row (tr_workflow_execution_id r) (tr_task_name r) (tr_handler_key r) (tr_status r) (tr_input_json r) (tr_output_json r) (tr_next_run_at r) v (tr_attempts_total r) (tr_idempotency_key r) (tr_dispatched_at r) (tr_completed_at r) (tr_created_at r) (tr_updated_at r).
Definition set_tr_attempts_total (v : Z) (r : task_row) : task_row :=
  mk_task_row (tr_workflow_execution_id r) (tr_task_name r) (tr_handler_key r) (tr_status r) (tr_input_json r) (tr_output_json r) (tr_next_run_at r) (tr_last_error_text r) v (tr_idempotency_key r) (tr_dispatched_at r) (tr_completed_at r) (tr_created_at r) (tr_updated_at r).
Definition set_tr_completed_at (v : option Z) (r : task_row) : task_row :=
  mk_task_row (tr_workflow_execution_id r) (tr_task_name r) (tr_handler_key r) (tr_status r) (tr_input_json r) (tr_output_json r) (tr_next_run_at r) (tr_last_error_text r) (tr_attempts_total r) (tr_idempotency_key r) (tr_dispatched_at r) v (tr_created_at r) (tr_updated_at r).
Definition set_tr_updated_at (v : Z) (r : task_row) : task_row :=
  mk_task_row (tr_workflow_execution_id r) (tr_task_name r) (tr_handler_key r) (tr_status r) (tr_input_json r) (tr_output_json r) (tr_next_run_at r) (tr_last_error_text r) (tr_attempts_total r) (tr_idempotency_key r) (tr_dispatched_at r) (tr_completed_at r) (tr_created_at r) v.
Definition set_ar_status (v : string) (r : attempt_row) : attempt_row :=
  mk_attempt_row (ar_task_instance_id r) (ar_attempt_number r) v (ar_started_at r) (ar_finished_at r) (ar_error_text r) (ar_output_json r) (ar_created_at r).
Definition set_ar_finished_at (v : option Z) (r : attempt_row) : attempt_row :=
  mk_attempt_row (ar_task_instance_id r) (ar_attempt_number r) (ar_status r) (ar_started_at r) v (ar_error_text r) (ar_output_json r) (ar_created_at r).
Definition set_ar_error_text (v : option string) (r : attempt_row) : attempt_row :=
  mk_attempt_row (ar_task_instance_id r) (ar_attempt_number r) (ar_status r) (ar_started_at r) (ar_finished_at r) v (ar_output_json r) (ar_created_at r).
Definition set_ar_output_json (v : option string) (r : attempt_row) : attempt_row :=
  mk_attempt_row (ar_task_instance_id r) (ar_attempt_number r) (ar_status r) (ar_started_at r) (ar_finished_at r) (ar_error_text r) v (ar_created_at r).
Definition set_or_dispatched_at (v : option Z) (r : outbox_row) : outbox_row :=
  mk_outbox_row (or_aggregate_type r) (or_aggregate_id r) (or_event_type r) (or_payload_json r) (or_available_at r) v (or_attempt_count r) (or_last_error_text r) (or_created_at r).
Definition set_or_attempt_count (v : Z) (r : outbox_row) : outbox_row :=
  mk_outbox_row (or_aggregate_type r) (or_aggregate_id r) (or_event_type r) (or_payload_json r) (or_available_at r) (or_dispatched_at r) v (or_last_error_text r) (or_created_at r).
Definition set_or_last_error_text (v : option string) (r : outbox_row) : outbox_row :=
  mk_outbox_row (or_aggregate_type r) (or_aggregate_id r) (or_event_type r) (or_payload_json r) (or_available_at r) (or_dispatched_at r) (or_attempt_count r) v (or_created_at r).
Definition set_ir_status (v : string) (r : idem_row) : idem_row :=
  mk_idem_row (ir_owner_task_instance_id r) v (ir_response_json r) (ir_created_at r) (ir_updated_at r).
Definition set_ir_response_json (v : option string) (r : idem_row) : idem_row :=
  mk_idem_row (ir_owner_task_instance_id r) (ir_status r) v (ir_created_at r) (ir_updated_at r).
Definition set_ir_updated_at (v : Z) (r : idem_row) : idem_row :=
  mk_idem_row (ir_owner_task_instance_id r) (ir_status r) (ir_response_json r) (ir_created_at r) v.

Definition set_workflow_definitions (v : gmap string def_row) (d : db) : db :=
  mk_db v (workflow_executions d) (task_instances d) (task_attempts d) (outbox_events d) (idempotency_records d).
Definition set_workflow_executions (v : gmap string exec_row) (d : db) : db :=
  mk_db (workflow_definitions d) v (task_instances d) (task_attempts d) (outbox_events d) (idempotency_records d).
Definition set_task_instances (v : gmap string task_row) (d : db) : db :=
  mk_db (workflow_definitions d) (workflow_executions d) v (task_attempts d) (outbox_events d) (idempotency_records d).
Definition set_task_attempts (v : gmap string attempt_row) (d : db) : db :=
  mk_db (workflow_definitions d) (workflow_executions d) (task_instances d) v (outbox_events d) (idempotency_records d).
Definition set_outbox_events (v : gmap string outbox_row) (d : db) : db :=
  mk_db (workflow_definitions d) (workflow_executions d) (task_instances d) (task_attempts d) v (idempotency_records d).
Definition set_idempotency_records (v : gmap (string * string) idem_row) (d : db) : db :=
  mk_db (workflow_definitions d) (workflow_executions d) (task_instances d) (task_attempts d) (outbox_events d) v.

(** * Statements

    A statement of call number [n] at time [now] on the database: an error, or
    a result and the new contents. *)
Definition stmt (A : Type) : Type := env → nat → Z → db → error + (A * db).

Section violations.
Context `{Postgres}.

Definition unique_violation (name : string) : error := ErrPg "23505" (constraint_text "23505" name).
Definition foreign_key_violation (name : string) : error :=
  ErrPg "23503" (constraint_text "23503" name).

(** LIMIT: a negative count is an error. *)
Definition limit_in (limit : Z) : error + nat :=
  if Z.ltb limit 0 then inl (ErrPg "2201W" (constraint_text "2201W" "")) else inr (Z.to_nat limit).
End violations.

(** The state that database clients share: the contents, and the number of the
    next call. *)
Record dbw : Type := mk_dbw { w_db : db; w_tick : nat }.

(** ** A statement on its own (autocommit) *)
Definition autocommit {A} (s : stmt A) (e : env) (w : dbw) : (error + A) * dbw :=
  let n := w_tick w in
  match e_outcome e n with
  | Delivered =>
      match s e n (e_now e n) (w_db w) with
      | inl err => (inl err, mk_dbw (w_db w) (S n))
      | inr (a, d) => (inr a, mk_dbw d (S n))
      end
  | LostBefore c t => (inl (ErrTransport c t), mk_dbw (w_db w) (S n))
  | LostAfter c t =>
      match s e n (e_now e n) (w_db w) with
      | inl _ => (inl (ErrTransport c t), mk_dbw (w_db w) (S n))
      | inr (_, d) => (inl (ErrTransport c t), mk_dbw d (S n))
      end
  end.

(** ** Transactions

    The body of a transaction runs its statements on a private copy; the first
    error ends it.  NOW() is the time the transaction began. *)
Definition tx (A : Type) : Type := env → Z → nat → db → (error + (A * db)) * nat.

Definition tx_ret {A} (a : A) : tx A := λ _ _ n d, (inr (a, d), n).

Definition tx_fail {A} (err : error) : tx A := λ _ _ n _, (inl err, n).

Definition tx_stmt {A} (s : stmt A) : tx A := λ e now n d,
  (match e_outcome e n with
   | Delivered => s e n now d
   | LostBefore c t | LostAfter c t => inl (ErrTransport c t)
   end, S n).

Definition tx_bind {A B} (t : tx A) (k : A → tx B) : tx B := λ e now n d,
  match t e now n d with
  | (inl err, n') => (inl err, n')
  | (inr (a, d'), n') => k a e now n' d'
  end.

Notation "'let$' x := t 'in' k" := (tx_bind t (λ x, k))
  (at level 10, x pattern, t at level 100, k at level 200,
   format "'[v' 'let$'  x  :=  t  'in' '//' k ']'") : go_scope.

(** [for _, x := range l { body x }] inside a transaction. *)
Fixpoint tx_for {A} (l : list A) (body : A → tx unit) : tx unit :=
  match l with
  | [] => tx_ret tt
  | x :: l' => let$ _ := body x in tx_for l' body
  end.

(** [tx := pool.BeginTx(); defer tx.Rollback(); ...; tx.Commit()]: an error
    leaves the contents as they were; when the answer to COMMIT is lost the
    client sees an error and the contents may be the old or the new ones. *)
Definition in_tx {A} (body : tx A) (e : env) (w : dbw) : (error + A) * dbw :=
  let n := w_tick w in
  match e_outcome e n with
  | LostBefore c t | LostAfter c t => (inl (ErrTransport c t), mk_dbw (w_db w) (S n))
  | Delivered =>
      match body e (e_now e n) (S n) (w_db w) with
      | (inl err, n') => (inl err, mk_dbw (w_db w) (S n'))
      | (inr (a, d), n') =>
          match e_outcome e n' with
          | Delivered => (inr a, mk_dbw d (S n'))
          | LostBefore c t => (inl (ErrTransport c t), mk_dbw (w_db w) (S n'))
          | LostAfter c t => (inl (ErrTransport c t), mk_dbw d (S n'))
          end
      end
  end.

(** * Specifications

    [writes E P m]: in environments of [E] the atomic call [m] either applies a
    change allowed by [P] as a whole or leaves the contents as they were; it
    returns a result only when the change took place. *)
Definition writes {A} (E : env → Prop) (P : db → A → db → Prop)
    (m : env → dbw → (error + A) * dbw) : Prop :=
  ∀ e w r w', E e → m e w = (r, w') →
  match r with
  | inr a => P (w_db w) a (w_db w')
  | inl _ => w_db w' = w_db w ∨ ∃ a, P (w_db w) a (w_db w')
  end.

(** Every call of the environment is delivered and answered. *)
Definition reliable (e : env) : Prop := ∀ n, e_outcome e n = Delivered.

(** [tx_post E P t Q]: a body that runs to its end from contents in [P] ends
    with a result and contents in [Q]. *)
Definition tx_post {A} (E : env → Prop) (P : db → Prop) (t : tx A) (Q : A → db → Prop) : Prop :=
  ∀ e now n d a d' n', E e → t e now n d = (inr (a, d'), n') → P d → Q a d'.

(** * Lemmas *)

Lemma tx_bind_ok {A B} (t : tx A) (k : A → tx B) e now n d b d' n' :
  tx_bind t k e now n d = (inr (b, d'), n') ↔
  ∃ a d1 n1, t e now n d = (inr (a, d1), n1) ∧ k a e now n1 d1 = (inr (b, d'), n').
Proof.
  unfold tx_bind. destruct (t e now n d) as [[err | [a d1]] n1]; split.
  - done.
  - by intros (? & ? & ? & [=] & _).
  - eauto 10.
  - by intros (? & ? & ? & [= <- <- <-] & ?).
Qed.

Lemma tx_stmt_ok {A} (s : stmt A) e now n d a d' n' :
  tx_stmt s e now n d = (inr (a, d'), n') ↔
  e_outcome e n = Delivered ∧ s e n now d = inr (a, d') ∧ n' = S n.
Proof.
  unfold tx_stmt. destruct (e_outcome e n); split; intros; destruct_and?; simplify_eq; try done.
  by f_equal.
Qed.

Lemma in_tx_writes {A} E (P : db → A → db → Prop) (body : tx A) :
  (∀ e now n d a d' n', E e → body e now n d = (inr (a, d'), n') → P d a d') →
  writes E P (in_tx body).
Proof.
  intros Hb e w r w' He. unfold in_tx.
  destruct (e_outcome e (w_tick w)); [| by intros [= <- <-]; left..].
  destruct (body _ _ _ _) as [[err | [a d]] n'] eqn:Eb; [by intros [= <- <-]; left |].
  apply Hb in Eb; [| done]. destruct (e_outcome e n'); intros [= <- <-]; simpl; eauto.
Qed.

Lemma autocommit_writes {A} E (P : db → A → db → Prop) (s : stmt A) :
  (∀ e n now d a d', E e → s e n now d = inr (a, d') → P d a d') → writes E P (autocommit s).
Proof.
  intros Hs e w r w' He. unfold autocommit.
  destruct (e_outcome e (w_tick w)); [| by intros [= <- <-]; left |];
    (destruct (s _ _ _ _) as [err | [a d]] eqn:Es; [| apply Hs in Es; [| done]]);
    intros [= <- <-]; simpl; eauto.
Qed.

Lemma writes_mono {A} E (P Q : db → A → db → Prop) m :
  (∀ d a d', P d a d' → Q d a d') → writes E P m → writes E Q m.
Proof.
  intros HPQ Hm e w r w' He Hr. specialize (Hm e w r w' He Hr). destruct r as [err | a]; [| eauto].
  destruct Hm as [-> | [a Ha]]; eauto.
Qed.

(** An invariant kept by the change is kept by the call, failures included. *)
Lemma writes_invariant {A} E (P : db → A → db → Prop) (I : db → Prop) m :
  writes E P m → (∀ d a d', P d a d' → I d → I d') →
  all_steps E (λ w w', I (w_db w) → I (w_db w')) (atomic m).
Proof.
  intros Hm HP. apply all_steps_single. intros e w r w' He Hr Hw.
  specialize (Hm e w r w' He Hr). destruct r as [err | a]; [| eauto].
  destruct Hm as [-> | [a Ha]]; eauto.
Qed.

Lemma tx_post_bind {A B} E P (t : tx A) Q (k : A → tx B) S :
  tx_post E P t Q → (∀ a, tx_post E (Q a) (k a) S) → tx_post E P (tx_bind t k) S.
Proof. intros Ht Hk e now n d b d' n' He (a & d1 & n1 & Ha & Hb)%tx_bind_ok HP. by eapply Hk; eauto. Qed.

Lemma tx_post_stmt {A} E P (s : stmt A) Q :
  (∀ e n now d a d', E e → s e n now d = inr (a, d') → P d → Q a d') → tx_post E P (tx_stmt s) Q.
Proof. intros Hs e now n d a d' n' He (_ & H & _)%tx_stmt_ok HP. eauto. Qed.

Lemma tx_post_ret {A} E P (a : A) Q : (∀ d, P d → Q a d) → tx_post E P (tx_ret a) Q.
Proof. intros HQ e now n d a' d' n' He Heq HP. unfold tx_ret in Heq. simplify_eq. auto. Qed.

Lemma tx_post_fail {A} E P err (Q : A → db → Prop) : tx_post E P (tx_fail err) Q.
Proof. intros e now n d a d' n' He Heq. unfold tx_fail in Heq. by simplify_eq. Qed.

Lemma tx_post_conseq {A} E (P P' : db → Prop) (t : tx A) (Q Q' : A → db → Prop) :
  tx_post E P t Q → (∀ d, P' d → P d) → (∀ a d, Q a d → Q' a d) → tx_post E P' t Q'.
Proof. intros Ht HP HQ e now n d a d' n' He H Hd. eauto. Qed.

Lemma tx_post_for {A} E (I : db → Prop) (l : list A) (body : A → tx unit) :
  (∀ x, x ∈ l → tx_post E I (body x) (λ _, I)) → tx_post E I (tx_for l body) (λ _, I).
Proof.
  induction l as [| x l IH]; intros Hb; simpl; [by apply tx_post_ret |].
  eapply tx_post_bind; [apply Hb; set_solver |]. intros ?. apply IH. set_solver.
Qed.

(** An invariant of the contents over a transaction. *)
Lemma in_tx_invariant {A} E (I : db → Prop) (body : tx A) Q :
  tx_post E I body Q → (∀ a d, Q a d → I d) →
  all_steps E (λ w w', I (w_db w) → I (w_db w')) (atomic (in_tx body)).
Proof.
  intros Hb HQ. eapply writes_invariant.
  - apply (in_tx_writes E (λ d _ d', I d → I d')). intros. eauto.
  - auto.
Qed.

Lemma autocommit_invariant {A} E (I : db → Prop) (s : stmt A) :
  (∀ e n now d a d', E e → s e n now d = inr (a, d') → I d → I d') →
  all_steps E (λ w w', I (w_db w) → I (w_db w')) (atomic (autocommit s)).
Proof.
  intros Hs. eapply writes_invariant.
  - apply (autocommit_writes E (λ d _ d', I d → I d')). intros. eauto.
  - auto.
Qed.

(** ** Runs without failures *)

Lemma run_in_tx {A} (body : tx A) e w :
  reliable e →
  in_tx body e w =
  match body e (e_now e (w_tick w)) (S (w_tick w)) (w_db w) with
  | (inl err, n') => (inl err, mk_dbw (w_db w) (S n'))
  | (inr (a, d), n') => (inr a, mk_dbw d (S n'))
  end.
Proof.
  intros He. unfold in_tx. rewrite He.
  destruct (body _ _ _ _) as [[err | [a d]] n']; [done |]. by rewrite He.
Qed.

Lemma run_autocommit {A} (s : stmt A) e w :
  reliable e →
  autocommit s e w =
  match s e (w_tick w) (e_now e (w_tick w)) (w_db w) with
  | inl err => (inl err, mk_dbw (w_db w) (S (w_tick w)))
  | inr (a, d) => (inr a, mk_dbw d (S (w_tick w)))
  end.
Proof. intros He. unfold autocommit. by rewrite He. Qed.

Lemma run_tx_stmt {A} (s : stmt A) e now n d :
  reliable e → tx_stmt s e now n d = (s e n now d, S n).
Proof. intros He. unfold tx_stmt. by rewrite He. Qed.

(** [inv_tx] turns the success of a transaction body into the success of its
    statements. *)
Ltac inv_tx :=
  repeat match goal with
  | H : tx_bind _ _ _ _ _ _ = (inr _, _) |- _ =>
      apply tx_bind_ok in H as (? & ? & ? & ? & H)
  | H : tx_stmt _ _ _ _ _ = (inr _, _) |- _ => apply tx_stmt_ok in H as (_ & H & ->)
  | H : tx_ret _ _ _ _ _ = (inr _, _) |- _ => unfold tx_ret in H; simplify_eq
  | H : tx_fail _ _ _ _ _ = (inr _, _) |- _ => unfold tx_fail in H; simplify_eq
  end.

#[export] Hint Resolve tx_post_ret tx_post_fail : go.
