(* ===== verification/Pg.v ===== *)
(** What the program relies on of Postgres, as laws of the class [Postgres] of
    Db.v, and a small concrete server that obeys them (for the witnesses). *)

From S2P Require Import Prelude GoString GoJson GoError Proc Domain Db.

Open Scope string_scope.
Open Scope nat_scope.

(** * Laws *)

(** The canonical text of a UUID: 36 lower-case hexadecimal digits and dashes. *)
Definition uuid_char (c : ascii) : bool :=
  (in_range 48 57 c || in_range 97 102 c || Z.eqb (byte c) 45)%bool.
Definition uuid_text (s : string) : bool :=
  (Nat.eqb (String.length s) 36 && forallb uuid_char (to_bytes s))%bool.

(** A string without the zero byte, which TEXT cannot hold. *)
Definition no_nul (s : string) : bool := forallb (λ c, negb (Z.eqb (byte c) 0)) (to_bytes s).

Definition string_members (l : list (string * string)) : list (string * json) :=
  (λ p, (p.1, JStr p.2)) <$> l.

Class PostgresLaws `{Postgres} : Prop := {
  (** UUID is read to its canonical text, which is read to itself. *)
  uuid_in_canonical s u : uuid_in s = inr u → uuid_text u = true ∧ uuid_in u = inr u;
  (** TEXT is kept as it is; it must be valid UTF-8 without a zero byte. *)
  text_in_inr s t : text_in s = inr t → t = s ∧ utf8_valid (to_bytes s) = true;
  text_in_accepts s : utf8_valid (to_bytes s) = true → no_nul s = true →
    (Z.of_nat (String.length s) < 2 ^ 20)%Z → text_in s = inr s;
  (** INTEGER is 32 bits wide. *)
  int4_in_inr z i : int4_in z = inr i → i = z ∧ (- 2 ^ 31 ≤ z < 2 ^ 31)%Z;
  int4_in_accepts z : (- 2 ^ 31 ≤ z < 2 ^ 31)%Z → int4_in z = inr z;
  (** JSONB: what is read back is read to itself; an object keeps its members
      but not their order. *)
  jsonb_in_stable s j : jsonb_in s = inr j → jsonb_in j = inr j ∧ j ≠ "";
  jsonb_in_object l j : NoDup l.*1 →
    encodable (JObj (string_members l)) = true →
    jsonb_in (of_bytes (encode (JObj (string_members l)))) = inr j →
    ∃ l', l' ≡ₚ string_members l ∧ parse j = Some (JObj l');
  (** An object of texts that TEXT can hold is accepted. *)
  jsonb_in_accepts l : NoDup l.*1 → encodable (JObj (string_members l)) = true →
    Forall (λ p, no_nul p.1 = true ∧ no_nul p.2 = true ∧ (Z.of_nat (String.length p.2) < 2 ^ 20)%Z) l →
    is_ok (jsonb_in (of_bytes (encode (JObj (string_members l))))) = true;
  (** A rejected parameter is a server error that is no constraint violation. *)
  uuid_in_error s err : uuid_in s = inl err → ∃ c t, err = ErrPg c t ∧ c ≠ "23505";
  text_in_error s err : text_in s = inl err → ∃ c t, err = ErrPg c t ∧ c ≠ "23505";
  jsonb_in_error s err : jsonb_in s = inl err → ∃ c t, err = ErrPg c t ∧ c ≠ "23505";
  int4_in_error z err : int4_in z = inl err → ∃ c t, err = ErrPg c t ∧ c ≠ "23505";
}.

(** The identifiers the server generates are canonical. *)
Definition env_ok `{Postgres} (e : env) : Prop := ∀ n, uuid_in (e_uuid e n) = inr (e_uuid e n).

(** ** Consequences *)

Lemma ascii_utf8_valid b : forallb (λ c, Z.ltb (byte c) 128) b = true → utf8_valid b = true.
Proof. induction b as [| c b IH]; simpl; [done |]. intros [-> H]%andb_true_iff. auto. Qed.

Lemma uuid_text_utf8 s : uuid_text s = true → utf8_valid (to_bytes s) = true.
Proof.
  unfold uuid_text. intros [_ H]%andb_true_iff. apply ascii_utf8_valid.
  rewrite forallb_forall in H |- *. intros c Hc%H.
  unfold uuid_char, in_range in Hc. lia.
Qed.

Lemma uuid_text_length s : uuid_text s = true → String.length s = 36.
Proof. unfold uuid_text. intros [H _]%andb_true_iff. by apply Nat.eqb_eq in H. Qed.

Section laws.
Context `{PostgresLaws}.

Lemma uuid_in_fix s u : uuid_in s = inr u → uuid_in u = inr u.
Proof. intros Hs. by apply uuid_in_canonical in Hs as [_ ?]. Qed.

Lemma uuid_in_utf8 s u : uuid_in s = inr u → utf8_valid (to_bytes u) = true.
Proof. intros [Hu _]%uuid_in_canonical. by apply uuid_text_utf8. Qed.

Lemma env_ok_utf8 e n : env_ok e → utf8_valid (to_bytes (e_uuid e n)) = true.
Proof. intros He. eapply uuid_in_utf8, He. Qed.

Lemma text_in_same s t : text_in s = inr t → t = s.
Proof. intros Hs. by apply text_in_inr in Hs as [? _]. Qed.

(** A dispatch payload written by [json.Marshal] into a JSONB column and read
    back by [json.Unmarshal] is the payload that was written. *)
Lemma payload_jsonb p j :
  payload_valid p = true → jsonb_in (marshal_payload p) = inr j → unmarshal_payload j = Some p.
Proof.
  intros Hp Hj.
  set (l := [("task_id", dp_TaskID p); ("execution_id", dp_ExecutionID p);
             ("handler_key", dp_HandlerKey p)]).
  destruct (jsonb_in_object l j) as (l' & Hl & Hparse).
  - apply (bool_decide_unpack (NoDup _)). reflexivity.
  - unfold payload_valid in Hp. rewrite !andb_true_iff in Hp. destruct Hp as [[H1 H2] H3].
    simpl. by rewrite H1, H2, H3.
  - exact Hj.
  - unfold unmarshal_payload. rewrite Hparse. simpl.
    by apply decode_payload_members.
Qed.
End laws.

#[export] Hint Resolve uuid_in_fix uuid_in_utf8 env_ok_utf8 : go.

(** * A concrete server *)

Module Demo.

Definition demo_error (code what : string) : error := ErrPg code ("ERROR: " +:+ what).

(** Accepts canonical UUIDs only; prints JSON compactly, members in the order
    they came. *)
#[export] Instance server : Postgres := {|
  uuid_in s := if uuid_text s then inr s else inl (demo_error "22P02" "invalid input syntax for type uuid");
  text_in s := if (utf8_valid (to_bytes s) && no_nul s)%bool then inr s
               else inl (demo_error "22021" "invalid byte sequence for encoding UTF8");
  jsonb_in s := match parse s with
                | Some v => if (encodable v && Nat.leb (jdepth v) max_nesting)%bool then inr (of_bytes (encode v))
                            else inl (demo_error "22P02" "invalid input syntax for type json")
                | None => inl (demo_error "22P02" "invalid input syntax for type json")
                end;
  int4_in z := if (Z.leb (- 2 ^ 31) z && Z.ltb z (2 ^ 31))%bool then inr z
               else inl (demo_error "22003" "integer out of range");
  timestamptz_in ns := (ns / 1000)%Z;
  constraint_text code name := "ERROR: constraint " +:+ name +:+ " (SQLSTATE " +:+ code +:+ ")";
|}.

Lemma of_bytes_ne b : b ≠ [] → of_bytes b ≠ "".
Proof. by destruct b. Qed.

Lemma encode_ne v : encodable v = true → encode v ≠ [].
Proof. intros (c & t & -> & _)%encode_starts. done. Qed.

Lemma string_members_depth l : jdepth (JObj (string_members l)) ≤ 1.
Proof. induction l as [| p l IH]; [done | exact IH]. Qed.

#[export] Instance server_laws : PostgresLaws.
Proof.
  split; cbn [uuid_in text_in jsonb_in int4_in server].
  - intros s u. destruct (uuid_text s) eqn:E; [| done]. intros [= <-]. by rewrite E.
  - intros s t. case_res; [| done]. intros [= <-]. split; [done |].
    match goal with E : andb _ _ = true |- _ => by apply andb_true_iff in E as [-> _] end.
  - by intros s -> ->.
  - intros z i. case_res; [| done]. intros [= <-]. split; [done |]. lia.
  - intros z Hz. case_res; [done |]. lia.
  - intros s j. case_res; [| done]. case_res; [| done]. intros [= <-].
    match goal with E : andb _ _ = true |- _ => apply andb_true_iff in E as [He Hd] end.
    rewrite parse_encode by (done || by apply Nat.leb_le). rewrite He, Hd. simpl. split; [done |].
    by apply of_bytes_ne, encode_ne.
  - intros l j _ He.
    assert (Hd : jdepth (JObj (string_members l)) ≤ max_nesting)
      by (etrans; [apply string_members_depth | apply Nat.leb_le; reflexivity]).
    rewrite parse_encode by done.
    rewrite He, (proj2 (Nat.leb_le _ _) Hd). intros Hj. apply (inj inr) in Hj as <-.
    exists (string_members l). split; [done |]. by apply parse_encode.
  - intros l _ He _.
    assert (Hd : jdepth (JObj (string_members l)) ≤ max_nesting)
      by (etrans; [apply string_members_depth | apply Nat.leb_le; reflexivity]).
    rewrite parse_encode by done. by rewrite He, (proj2 (Nat.leb_le _ _) Hd).
  - intros s err. case_res; [done |]. intros [= <-]. eexists _, _. by split.
  - intros s err. case_res; [done |]. intros [= <-]. eexists _, _. by split.
  - intros s err. repeat case_res; try done; intros [= <-]; eexists _, _; by split.
  - intros s err. case_res; [done |]. intros [= <-]. eexists _, _. by split.
Qed.

(** Its identifiers, numbered, and an environment in which every call number
    takes a second and none fails. *)
Fixpoint digits (k n : nat) : bytes :=
  match k with
  | 0 => []
  | S k' => (digits k' (n / 10) ++ [chr (48 + Z.of_nat (n mod 10))])%list
  end.
Definition uuid (n : nat) : string := "00000000-0000-4000-8000-" +:+ of_bytes (digits 12 n).

Definition calm : env := {|
  e_now n := (Z.of_nat n * 1000000)%Z;
  e_uuid := uuid;
  e_outcome _ := Delivered;
  e_locked _ _ := false;
  e_time n := (Z.of_nat n * 1000000000)%Z;
|}.

Lemma digits_length k n : length (digits k n) = k.
Proof. revert n. induction k as [| k IH]; intros n; simpl; [done |]. rewrite length_app, IH. simpl. lia. Qed.

Lemma digits_uuid_char k n : forallb uuid_char (digits k n) = true.
Proof.
  revert n. induction k as [| k IH]; intros n; cbn [digits]; [done |].
  rewrite forallb_app, IH. cbn [forallb]. pose proof (Nat.mod_upper_bound n 10 ltac:(lia)).
  unfold uuid_char, in_range. rewrite byte_chr by lia. lia.
Qed.

Lemma uuid_is_text n : uuid_text (uuid n) = true.
Proof.
  unfold uuid_text, uuid. rewrite <-length_to_bytes, to_bytes_app, to_of_bytes, length_app, forallb_app,
    digits_length, digits_uuid_char. reflexivity.
Qed.

Lemma calm_ok : env_ok calm.
Proof. intros n. cbn [e_uuid calm uuid_in server]. by rewrite uuid_is_text. Qed.

Lemma calm_reliable : reliable calm.
Proof. done. Qed.

(** Texts of the errors of other packages. *)
#[export] Instance demo_texts : ErrorTexts := {|
  pgx_norows_text := "no rows in result set";
  redis_nil_text := "redis: nil";
  json_error_text raw := "invalid JSON: " +:+ raw;
  quoted s := "'" +:+ s +:+ "'";
  duration_error_text raw := "time: invalid duration: " +:+ raw;
  scan_error_text raw := "expected integer: " +:+ raw;
|}.

End Demo.
