(* ===== verification/Store.v ===== *)
(** The store (internal/db/store.go): every method of [Store] as the SQL
    statements it sends, in its transactions. *)

From S2P Require Import Prelude GoString GoJson GoError Proc Domain Db.

Open Scope string_scope.

(** * Helpers (store.go, end of file) *)

Definition makeTaskIdempotencyKey (executionID taskName : string) : string :=
  executionID +:+ ":" +:+ taskName.

Definition normalizeJSON (raw : string) : string :=
  if Nat.eqb (String.length raw) 0 then "{}" else raw.

Definition truncate (input : string) (limit : nat) : string :=
  if Nat.leb (String.length input) limit then input else String.substring 0 limit input.

Definition stringValue (value : option string) : string :=
  match value with None => "" | Some s => s end.

(** A nullable JSON column scanned into a byte slice: NULL is nil. *)
Definition bytesValue (value : option string) : string :=
  match value with None => "" | Some s => s end.

Definition scanWorkflowDefinition (id : string) (r : def_row) : WorkflowDefinition :=
  mkWorkflowDefinition id (dr_name r) (dr_description r) (dr_version r) (dr_status r)
    (dr_definition_json r) (dr_created_at r) (dr_updated_at r).

Definition scanWorkflowExecution (id : string) (r : exec_row) : WorkflowExecution :=
  mkWorkflowExecution id (er_workflow_definition_id r) (er_status r) (er_input_json r)
    (bytesValue (er_output_json r)) (stringValue (er_error_text r)) (er_created_at r)
    (er_updated_at r) (er_started_at r) (er_completed_at r).

Definition scanTaskInstance (id : string) (r : task_row) : TaskInstance :=
  mkTaskInstance id (tr_workflow_execution_id r) (tr_task_name r) (tr_handler_key r)
    (tr_status r) (tr_input_json r) (bytesValue (tr_output_json r)) (tr_next_run_at r)
    (stringValue (tr_last_error_text r)) (tr_attempts_total r) (tr_idempotency_key r)
    (tr_dispatched_at r) (tr_completed_at r) (tr_created_at r) (tr_updated_at r).

Definition scanTaskAttempt (id : string) (r : attempt_row) : TaskAttempt :=
  mkTaskAttempt id (ar_task_instance_id r) (ar_attempt_number r) (ar_status r)
    (ar_started_at r) (ar_finished_at r) (stringValue (ar_error_text r))
    (bytesValue (ar_output_json r)) (ar_created_at r).

Definition scanOutboxEvent (id : string) (r : outbox_row) : OutboxEvent :=
  mkOutboxEvent id (or_aggregate_type r) (or_aggregate_id r) (or_event_type r)
    (or_payload_json r) (or_available_at r) (or_dispatched_at r) (or_attempt_count r)
    (stringValue (or_last_error_text r)) (or_created_at r).

Section store.
Context `{Postgres}.

(** * Statements

    Status values are constants of the program; other parameters are read by
    the column's type first.  A row found by primary key, and a row inserted
    under a generated key: the key and the unique columns are checked before
    the foreign keys. *)

Definition select_row {V A} (table : db → gmap string V) (scan : string → V → A) (id : string)
    : stmt A := λ _ _ _ d,
  let? u := uuid_in id in
  match table d !! u with
  | None => inl ErrNoRows
  | Some r => inr (scan u r, d)
  end.

Definition insert_definition (name description definition : string) : stmt WorkflowDefinition :=
  λ e n now d,
  let? name := text_in name in
  let? description := text_in description in
  let? js := jsonb_in definition in
  let u := e_uuid e n in
  let row := mk_def_row name description 1 WorkflowDefinitionStatusActive js now now in
  if bool_decide (is_Some (workflow_definitions d !! u)) then
    inl (unique_violation "workflow_definitions_pkey")
  else if existsb (λ p, String.eqb (dr_name (snd p)) name) (map_to_list (workflow_definitions d)) then
    inl (unique_violation "workflow_definitions_name_key")
  else inr (scanWorkflowDefinition u row,
            set_workflow_definitions (<[u := row]> (workflow_definitions d)) d).

Definition insert_execution (definitionID input : string) : stmt WorkflowExecution :=
  λ e n now d,
  let? did := uuid_in definitionID in
  let? js := jsonb_in input in
  let u := e_uuid e n in
  let row := mk_exec_row did ExecutionStatusRunning js None None now now (Some now) None in
  if bool_decide (is_Some (workflow_executions d !! u)) then
    inl (unique_violation "workflow_executions_pkey")
  else if bool_decide (workflow_definitions d !! did = None) then
    inl (foreign_key_violation "workflow_executions_workflow_definition_id_fkey")
  else inr (scanWorkflowExecution u row,
            set_workflow_executions (<[u := row]> (workflow_executions d)) d).

Definition insert_task (executionID taskName handlerKey input idempotencyKey : string)
    : stmt TaskInstance := λ e n now d,
  let? xid := uuid_in executionID in
  let? name := text_in taskName in
  let? hkey := text_in handlerKey in
  let? js := jsonb_in input in
  let? ikey := text_in idempotencyKey in
  let u := e_uuid e n in
  let row := mk_task_row xid name hkey TaskStatusPending js None None None 0 ikey None None now now in
  if bool_decide (is_Some (task_instances d !! u)) then
    inl (unique_violation "task_instances_pkey")
  else if existsb (λ p, String.eqb (tr_idempotency_key (snd p)) ikey)
            (map_to_list (task_instances d)) then
    inl (unique_violation "idx_task_instances_idempotency_key_unique")
  else if bool_decide (workflow_executions d !! xid = None) then
    inl (foreign_key_violation "task_instances_workflow_execution_id_fkey")
  else inr (scanTaskInstance u row, set_task_instances (<[u := row]> (task_instances d)) d).

(** INSERT INTO outbox_events ... ("task_instance", task id, "task.dispatch",
    payload, NOW()). *)
Definition insert_outbox (taskID payload : string) : stmt unit := λ e n now d,
  let? tid := uuid_in taskID in
  let? js := jsonb_in payload in
  let u := e_uuid e n in
  let row := mk_outbox_row "task_instance" tid "task.dispatch" js now None 0 None now in
  if bool_decide (is_Some (outbox_events d !! u)) then
    inl (unique_violation "outbox_events_pkey")
  else inr (tt, set_outbox_events (<[u := row]> (outbox_events d)) d).

Definition insert_attempt (taskID : string) (attemptNumber : Z) : stmt TaskAttempt :=
  λ e n now d,
  let? tid := uuid_in taskID in
  let? number := int4_in attemptNumber in
  let u := e_uuid e n in
  let row := mk_attempt_row tid number TaskAttemptStatusRunning now None None None now in
  if bool_decide (is_Some (task_attempts d !! u)) then
    inl (unique_violation "task_attempts_pkey")
  else if bool_decide (task_instances d !! tid = None) then
    inl (foreign_key_violation "task_attempts_task_instance_id_fkey")
  else inr (scanTaskAttempt u row, set_task_attempts (<[u := row]> (task_attempts d)) d).

(** UPDATE ... WHERE id = $1; no row with that id is not an error. *)
Definition update_task (id : string) (set : Z → error + (task_row → task_row)) : stmt unit :=
  λ _ _ now d,
  let? u := uuid_in id in
  let? f := set now in
  inr (tt, set_task_instances (alter f u (task_instances d)) d).

(** UPDATE ... WHERE id = $1 RETURNING ..., read with [QueryRow]. *)
Definition update_task_returning (id : string) (set : Z → error + (task_row → task_row))
    : stmt TaskInstance := λ _ _ now d,
  let? u := uuid_in id in
  let? f := set now in
  match task_instances d !! u with
  | None => inl ErrNoRows
  | Some r => inr (scanTaskInstance u (f r),
                   set_task_instances (<[u := f r]> (task_instances d)) d)
  end.

Definition update_attempt (id : string) (set : Z → error + (attempt_row → attempt_row)) : stmt unit :=
  λ _ _ now d,
  let? u := uuid_in id in
  let? f := set now in
  inr (tt, set_task_attempts (alter f u (task_attempts d)) d).

Definition update_execution (id : string) (set : Z → error + (exec_row → exec_row)) : stmt unit :=
  λ _ _ now d,
  let? u := uuid_in id in
  let? f := set now in
  inr (tt, set_workflow_executions (alter f u (workflow_executions d)) d).

(** ** The SET clauses *)

(** Task: [status = running, attempts_total = $3, next_run_at = NULL, updated_at = NOW()]. *)
Definition set_task_started (number : Z) (now : Z) : error + (task_row → task_row) :=
  let? number := int4_in number in
  inr (λ r, set_tr_updated_at now (set_tr_next_run_at None
              (set_tr_attempts_total number (set_tr_status TaskStatusRunning r)))).

(** Task: [status = succeeded, output_json = $3, completed_at = NOW(), updated_at = NOW()]. *)
Definition set_task_succeeded (payload : string) (now : Z) : error + (task_row → task_row) :=
  let? js := jsonb_in payload in
  inr (λ r, set_tr_updated_at now (set_tr_completed_at (Some now)
              (set_tr_output_json (Some js) (set_tr_status TaskStatusSucceeded r)))).

(** Task: [status = pending, last_error_text = $3, next_run_at = $4, updated_at = NOW()]. *)
Definition set_task_retry (errorText : string) (nextRunAt : Z) (now : Z)
    : error + (task_row → task_row) :=
  let? txt := text_in errorText in
  inr (λ r, set_tr_updated_at now (set_tr_next_run_at (Some (timestamptz_in nextRunAt))
              (set_tr_last_error_text (Some txt) (set_tr_status TaskStatusPending r)))).

(** Task: [status = dead_lettered, last_error_text = $3, next_run_at = NULL,
    completed_at = NOW(), updated_at = NOW()]. *)
Definition set_task_dead_lettered (errorText : string) (now : Z) : error + (task_row → task_row) :=
  let? txt := text_in errorText in
  inr (λ r, set_tr_updated_at now (set_tr_completed_at (Some now) (set_tr_next_run_at None
              (set_tr_last_error_text (Some txt) (set_tr_status TaskStatusDeadLettered r))))).

(** Task: [status = pending, output_json = NULL, next_run_at = NULL,
    last_error_text = NULL, completed_at = NULL, updated_at = NOW()]. *)
Definition set_task_replayed (now : Z) : error + (task_row → task_row) :=
  inr (λ r, set_tr_updated_at now (set_tr_completed_at None (set_tr_last_error_text None
              (set_tr_next_run_at None (set_tr_output_json None
                 (set_tr_status TaskStatusPending r)))))).

(** Task: [next_run_at = NULL, updated_at = NOW()]. *)
Definition set_task_enqueued (now : Z) : error + (task_row → task_row) :=
  inr (λ r, set_tr_updated_at now (set_tr_next_run_at None r)).

(** Attempt: [status = succeeded, finished_at = NOW(), output_json = $3]. *)
Definition set_attempt_succeeded (payload : string) (now : Z)
    : error + (attempt_row → attempt_row) :=
  let? js := jsonb_in payload in
  inr (λ r, set_ar_output_json (Some js) (set_ar_finished_at (Some now)
              (set_ar_status TaskAttemptStatusSucceeded r))).

(** Attempt: [status = failed, finished_at = NOW(), error_text = $3]. *)
Definition set_attempt_failed (errorText : string) (now : Z)
    : error + (attempt_row → attempt_row) :=
  let? txt := text_in errorText in
  inr (λ r, set_ar_error_text (Some txt) (set_ar_finished_at (Some now)
              (set_ar_status TaskAttemptStatusFailed r))).

(** Execution: [status = succeeded, output_json = $3, completed_at = NOW(), updated_at = NOW()]. *)
Definition set_execution_succeeded (payload : string) (now : Z) : error + (exec_row → exec_row) :=
  let? js := jsonb_in payload in
  inr (λ r, set_er_updated_at now (set_er_completed_at (Some now)
              (set_er_output_json (Some js) (set_er_status ExecutionStatusSucceeded r)))).

(** Execution: [status = failed, error_text = $3, completed_at = NOW(), updated_at = NOW()]. *)
Definition set_execution_failed (errorText : string) (now : Z) : error + (exec_row → exec_row) :=
  let? txt := text_in errorText in
  inr (λ r, set_er_updated_at now (set_er_completed_at (Some now)
              (set_er_error_text (Some txt) (set_er_status ExecutionStatusFailed r)))).

(** Execution: [status = running, error_text = NULL, completed_at = NULL, updated_at = NOW()]. *)
Definition set_execution_running (now : Z) : error + (exec_row → exec_row) :=
  inr (λ r, set_er_updated_at now (set_er_completed_at None (set_er_error_text None
              (set_er_status ExecutionStatusRunning r)))).

(** * The methods of the store *)

Definition CreateWorkflowDefinition (name description definition : string)
    : proc dbw WorkflowDefinition :=
  atomic (autocommit (insert_definition name description (normalizeJSON definition))).

Definition GetWorkflowDefinition (id : string) : proc dbw WorkflowDefinition :=
  atomic (autocommit (select_row workflow_definitions scanWorkflowDefinition id)).

Definition GetWorkflowExecution (id : string) : proc dbw WorkflowExecution :=
  atomic (autocommit (select_row workflow_executions scanWorkflowExecution id)).

Definition GetTaskInstance (id : string) : proc dbw TaskInstance :=
  atomic (autocommit (select_row task_instances scanTaskInstance id)).

(** [json.Marshal(domain.DispatchTaskPayload{...})] and the INSERT. *)
Definition enqueue_dispatch (taskID executionID handlerKey : string) : tx unit :=
  tx_stmt (insert_outbox taskID
             (marshal_payload (mkDispatchTaskPayload taskID executionID handlerKey))).

Definition create_execution_body (workflowDefinitionID input taskName handlerKey : string)
    : tx ExecutionStartResult :=
  let$ execution := tx_stmt (insert_execution workflowDefinitionID (normalizeJSON input)) in
  let$ task := tx_stmt (insert_task (we_ID execution) taskName handlerKey (normalizeJSON input)
                          (makeTaskIdempotencyKey (we_ID execution) taskName)) in
  let$ _ := enqueue_dispatch (ti_ID task) (we_ID execution) (ti_HandlerKey task) in
  tx_ret (mkExecutionStartResult execution task).

Definition CreateExecutionAndTask (workflowDefinitionID input taskName handlerKey : string)
    : proc dbw ExecutionStartResult :=
  atomic (in_tx (create_execution_body workflowDefinitionID input taskName handlerKey)).

(** ** Reads of several rows *)

(** WHERE workflow_execution_id = $1 ORDER BY created_at. *)
Definition select_tasks_of (executionID : string) : stmt (list TaskInstance) := λ _ _ _ d,
  let? u := uuid_in executionID in
  inr ((λ p, scanTaskInstance p.1 p.2) <$>
         sort_by (λ p, tr_created_at p.2)
           (filter (λ p, tr_workflow_execution_id p.2 = u) (map_to_list (task_instances d))), d).

(** The ORDER BY of the attempts: task_instance_id, then attempt_number (the
    order of UUIDs is that of their canonical texts). *)
Definition attempt_le (p q : string * attempt_row) : Prop :=
  if decide (ar_task_instance_id p.2 = ar_task_instance_id q.2) then
    (ar_attempt_number p.2 ≤ ar_attempt_number q.2)%Z
  else String.le (ar_task_instance_id p.2) (ar_task_instance_id q.2).

#[global] Instance attempt_le_dec p q : Decision (attempt_le p q).
Proof. unfold attempt_le. case_decide; apply _. Defined.

(** Attempts joined with the tasks of the execution. *)
Definition select_attempts_of (executionID : string) : stmt (list TaskAttempt) := λ _ _ _ d,
  let? u := uuid_in executionID in
  inr ((λ p, scanTaskAttempt p.1 p.2) <$>
         merge_sort attempt_le
           (filter (λ p, tr_workflow_execution_id <$> (task_instances d !! ar_task_instance_id p.2) = Some u)
              (map_to_list (task_attempts d))), d).

(** [attemptsByTask[a.TaskInstanceID] = append(attemptsByTask[a.TaskInstanceID], a)]. *)
Definition add_attempt (m : gmap string (list TaskAttempt)) (a : TaskAttempt)
    : gmap string (list TaskAttempt) :=
  <[ta_TaskInstanceID a := (default [] (m !! ta_TaskInstanceID a) ++ [a])%list]> m.

Definition group_attempts (attempts : list TaskAttempt) : gmap string (list TaskAttempt) :=
  foldl add_attempt ∅ attempts.

(** Three separate statements, not one transaction. *)
Definition GetExecutionSnapshot (executionID : string) : proc dbw ExecutionSnapshot :=
  let! execution := GetWorkflowExecution executionID in
  let! tasks := atomic (autocommit (select_tasks_of executionID)) in
  let! attempts := atomic (autocommit (select_attempts_of executionID)) in
  let attemptsByTask := group_attempts attempts in
  return_ (mkExecutionSnapshot execution
    ((λ task, mkTaskSnapshot task (default [] (attemptsByTask !! ti_ID task))) <$> tasks)).

(** WHERE status = dead_lettered ORDER BY updated_at DESC LIMIT $2. *)
Definition select_dead_lettered (limit : Z) : stmt (list TaskInstance) := λ _ _ _ d,
  let? n := limit_in limit in
  inr ((λ p, scanTaskInstance p.1 p.2) <$>
         take n (sort_by (λ p, - tr_updated_at p.2)%Z
           (filter (λ p, tr_status p.2 = TaskStatusDeadLettered) (map_to_list (task_instances d)))), d).

Definition ListDeadLetteredTasks (limit : Z) : proc dbw (list TaskInstance) :=
  atomic (autocommit (select_dead_lettered limit)).

(** ** Replay *)

Definition replay_body (taskID : string) : tx TaskInstance :=
  let$ task := tx_stmt (select_row task_instances scanTaskInstance taskID) in
  if negb (String.eqb (ti_Status task) TaskStatusDeadLettered) then tx_fail ErrTaskNotReplayable
  else
    let$ updatedTask := tx_stmt (update_task_returning (ti_ID task) set_task_replayed) in
    let$ _ := tx_stmt (update_execution (ti_WorkflowExecutionID task) set_execution_running) in
    let$ _ := enqueue_dispatch (ti_ID updatedTask) (ti_WorkflowExecutionID updatedTask)
                (ti_HandlerKey updatedTask) in
    tx_ret updatedTask.

Definition ReplayDeadLetteredTask (taskID : string) : proc dbw TaskInstance :=
  atomic (in_tx (replay_body taskID)).

(** ** Attempts *)

Definition start_attempt_body (taskID : string) : tx (TaskInstance * TaskAttempt * bool) :=
  let$ task := tx_stmt (select_row task_instances scanTaskInstance taskID) in
  if (String.eqb (ti_Status task) TaskStatusSucceeded
      || String.eqb (ti_Status task) TaskStatusDeadLettered)%bool
  then tx_ret (task, zero_attempt, true)
  else
    let attemptNumber := wrap64 (ti_AttemptsTotal task + 1) in
    let$ attempt := tx_stmt (insert_attempt (ti_ID task) attemptNumber) in
    let$ updatedTask := tx_stmt (update_task_returning (ti_ID task) (set_task_started attemptNumber)) in
    tx_ret (updatedTask, attempt, false).

Definition StartTaskAttempt (taskID : string) : proc dbw (TaskInstance * TaskAttempt * bool) :=
  atomic (in_tx (start_attempt_body taskID)).

(** SELECT workflow_execution_id FROM task_instances WHERE id = $1 FOR UPDATE. *)
Definition select_execution_of (taskID : string) : stmt string :=
  select_row task_instances (λ _ r, tr_workflow_execution_id r) taskID.

Definition complete_body (taskID attemptID output : string) : tx unit :=
  let$ executionID := tx_stmt (select_execution_of taskID) in
  let payload := normalizeJSON output in
  let$ _ := tx_stmt (update_attempt attemptID (set_attempt_succeeded payload)) in
  let$ _ := tx_stmt (update_task taskID (set_task_succeeded payload)) in
  tx_stmt (update_execution executionID (set_execution_succeeded payload)).

Definition CompleteTaskAttempt (taskID attemptID output : string) : proc dbw unit :=
  atomic (in_tx (complete_body taskID attemptID output)).

Definition complete_and_enqueue_body (taskID attemptID nextTaskName nextHandlerKey output : string)
    : tx unit :=
  let$ executionID := tx_stmt (select_execution_of taskID) in
  let payload := normalizeJSON output in
  let$ _ := tx_stmt (update_attempt attemptID (set_attempt_succeeded payload)) in
  let$ _ := tx_stmt (update_task taskID (set_task_succeeded payload)) in
  let$ nextTask := tx_stmt (insert_task executionID nextTaskName nextHandlerKey payload
                              (makeTaskIdempotencyKey executionID nextTaskName)) in
  enqueue_dispatch (ti_ID nextTask) executionID nextHandlerKey.

Definition CompleteTaskAttemptAndEnqueueNextTask
    (taskID attemptID nextTaskName nextHandlerKey output : string) : proc dbw unit :=
  atomic (in_tx (complete_and_enqueue_body taskID attemptID nextTaskName nextHandlerKey output)).

(** ** Retries *)

(** WHERE status = pending AND next_run_at IS NOT NULL AND next_run_at <= NOW()
    ORDER BY next_run_at LIMIT $2 FOR UPDATE SKIP LOCKED. *)
Definition is_due (now : Z) (r : task_row) : bool :=
  (String.eqb (tr_status r) TaskStatusPending &&
   match tr_next_run_at r with Some t => Z.leb t now | None => false end)%bool.

Definition select_due (limit : Z) : stmt (list (string * string * string)) := λ e n now d,
  let? lim := limit_in limit in
  inr ((λ p, (p.1, tr_workflow_execution_id p.2, tr_handler_key p.2)) <$>
         take lim (sort_by (λ p, default 0%Z (tr_next_run_at p.2))
           (filter (λ p, is_due now p.2 = true ∧ e_locked e n p.1 = false)
              (map_to_list (task_instances d)))), d).

Definition enqueue_retry (item : string * string * string) : tx unit :=
  let '(taskID, executionID, handlerKey) := item in
  let$ _ := enqueue_dispatch taskID executionID handlerKey in
  tx_stmt (update_task taskID set_task_enqueued).

Definition enqueue_due_body (limit : Z) : tx Z :=
  let$ dueTasks := tx_stmt (select_due limit) in
  let$ _ := tx_for dueTasks enqueue_retry in
  tx_ret (Z.of_nat (length dueTasks)).

Definition EnqueueDueTaskRetries (limit : Z) : proc dbw Z :=
  atomic (in_tx (enqueue_due_body limit)).

Definition schedule_retry_body (taskID attemptID errorText : string) (nextRunAt : Z) : tx unit :=
  let$ _ := tx_stmt (update_attempt attemptID (set_attempt_failed (truncate errorText 1000))) in
  tx_stmt (update_task taskID (set_task_retry (truncate errorText 1000) nextRunAt)).

Definition ScheduleTaskRetry (taskID attemptID errorText : string) (nextRunAt : Z) : proc dbw unit :=
  atomic (in_tx (schedule_retry_body taskID attemptID errorText nextRunAt)).

Definition fail_body (taskID attemptID errorText : string) : tx unit :=
  let$ executionID := tx_stmt (select_execution_of taskID) in
  let$ _ := tx_stmt (update_attempt attemptID (set_attempt_failed (truncate errorText 1000))) in
  let$ _ := tx_stmt (update_task taskID (set_task_dead_lettered (truncate errorText 1000))) in
  tx_stmt (update_execution executionID (set_execution_failed (truncate errorText 1000))).

Definition FailTaskAttempt (taskID attemptID errorText : string) : proc dbw unit :=
  atomic (in_tx (fail_body taskID attemptID errorText)).

(** ** Outbox *)

(** WHERE dispatched_at IS NULL AND available_at <= NOW() ORDER BY created_at LIMIT $1. *)
Definition is_ready (now : Z) (r : outbox_row) : bool :=
  (match or_dispatched_at r with None => true | Some _ => false end
   && Z.leb (or_available_at r) now)%bool.

Definition select_pending_outbox (limit : Z) : stmt (list OutboxEvent) := λ _ _ now d,
  let? n := limit_in limit in
  inr ((λ p, scanOutboxEvent p.1 p.2) <$>
         take n (sort_by (λ p, or_created_at p.2)
           (filter (λ p, is_ready now p.2 = true) (map_to_list (outbox_events d)))), d).

Definition ListPendingOutbox (limit : Z) : proc dbw (list OutboxEvent) :=
  atomic (autocommit (select_pending_outbox limit)).

(** UPDATE outbox_events SET attempt_count = attempt_count + 1, ... WHERE id = $1. *)
Definition update_outbox (id : string) (set : Z → error + (outbox_row → outbox_row)) : stmt unit :=
  λ _ _ now d,
  let? u := uuid_in id in
  let? f := set now in
  match outbox_events d !! u with
  | None => inr (tt, d)
  | Some r =>
      let? count := int4_in (or_attempt_count r + 1) in
      inr (tt, set_outbox_events (<[u := set_or_attempt_count count (f r)]> (outbox_events d)) d)
  end.

Definition MarkOutboxDispatched (id : string) : proc dbw unit :=
  atomic (autocommit (update_outbox id (λ now, inr (set_or_dispatched_at (Some now))))).

(** [dispatchErr] is the text of the error. *)
Definition RecordOutboxFailure (id dispatchErr : string) : proc dbw unit :=
  atomic (autocommit (update_outbox id (λ _,
    let? txt := text_in (truncate dispatchErr 1000) in
    inr (set_or_last_error_text (Some txt))))).

End store.
