(* ===== verification/Idempotency.v ===== *)
(** Idempotency records (internal/db/idempotency.go): a handler reserves the
    pair (handler key, idempotency key) for a task, stores the response of its
    side effect under it, or releases the reservation. *)

From S2P Require Import Prelude GoString GoJson GoError Proc Domain Db Pg Store.

Open Scope string_scope.

Section idempotency.
Context `{Postgres}.

(** INSERT ... ON CONFLICT (handler_key, idempotency_key) DO NOTHING; the
    result is whether a row was inserted. *)
Definition reserve_record (handlerKey idempotencyKey ownerTaskID : string) : stmt bool :=
  λ _ _ now d,
  let? hk := text_in handlerKey in
  let? ik := text_in idempotencyKey in
  let? owner := uuid_in ownerTaskID in
  let row := mk_idem_row (Some owner) IdempotencyStatusInProgress None now now in
  if bool_decide (is_Some (idempotency_records d !! (hk, ik))) then inr (false, d)
  else if bool_decide (task_instances d !! owner = None) then
    inl (foreign_key_violation "idempotency_records_owner_task_instance_id_fkey")
  else inr (true, set_idempotency_records (<[(hk, ik) := row]> (idempotency_records d)) d).

(** SELECT status, response_json, owner_task_instance_id::text. *)
Definition select_record (handlerKey idempotencyKey : string) : stmt idem_row := λ _ _ _ d,
  let? hk := text_in handlerKey in
  let? ik := text_in idempotencyKey in
  match idempotency_records d !! (hk, ik) with
  | None => inl ErrNoRows
  | Some r => inr (r, d)
  end.

(** Two statements: the reservation, then the read of the record that was
    there.  The result is the cached response when there is one. *)
Definition BeginIdempotentTask (handlerKey idempotencyKey ownerTaskID : string)
    : proc dbw (string * bool) :=
  let! inserted := atomic (autocommit (reserve_record handlerKey idempotencyKey ownerTaskID)) in
  if (inserted : bool) then return_ ("", false)
  else
    let! row := atomic (autocommit (select_record handlerKey idempotencyKey)) in
    if String.eqb (ir_status row) IdempotencyStatusCompleted then
      return_ (bytesValue (ir_response_json row), true)
    else
      match ir_owner_task_instance_id row with
      | Some owner =>
          if String.eqb owner ownerTaskID then return_ ("", false)
          else fail ErrIdempotencyKeyInProgress
      | None => fail ErrIdempotencyKeyInProgress
      end.

(** UPDATE ... WHERE key and owner match; the result is the number of rows. *)
Definition complete_record (handlerKey idempotencyKey ownerTaskID response : string) : stmt nat :=
  λ _ _ now d,
  let? hk := text_in handlerKey in
  let? ik := text_in idempotencyKey in
  let? owner := uuid_in ownerTaskID in
  let? js := jsonb_in response in
  match idempotency_records d !! (hk, ik) with
  | Some r =>
      if bool_decide (ir_owner_task_instance_id r = Some owner) then
        let row := set_ir_updated_at now (set_ir_response_json (Some js)
                     (set_ir_status IdempotencyStatusCompleted r)) in
        inr (1%nat, set_idempotency_records (<[(hk, ik) := row]> (idempotency_records d)) d)
      else inr (0%nat, d)
  | None => inr (0%nat, d)
  end.

Definition CompleteIdempotentTask (handlerKey idempotencyKey ownerTaskID response : string)
    : proc dbw unit :=
  let! rows := atomic (autocommit (complete_record handlerKey idempotencyKey ownerTaskID
                                     (normalizeJSON response))) in
  if Nat.eqb rows 0 then fail ErrNoRows else return_ tt.

(** DELETE ... WHERE key and owner match AND status = in_progress. *)
Definition release_record (handlerKey idempotencyKey ownerTaskID : string) : stmt unit :=
  λ _ _ _ d,
  let? hk := text_in handlerKey in
  let? ik := text_in idempotencyKey in
  let? owner := uuid_in ownerTaskID in
  match idempotency_records d !! (hk, ik) with
  | Some r =>
      if (bool_decide (ir_owner_task_instance_id r = Some owner)
          && String.eqb (ir_status r) IdempotencyStatusInProgress)%bool
      then inr (tt, set_idempotency_records (delete (hk, ik) (idempotency_records d)) d)
      else inr (tt, d)
  | None => inr (tt, d)
  end.

Definition ReleaseIdempotentTask (handlerKey idempotencyKey ownerTaskID : string) : proc dbw unit :=
  atomic (autocommit (release_record handlerKey idempotencyKey ownerTaskID)).

End idempotency.
