(* ===== verification/History.v ===== *)
(** History: what no operation of the store ever undoes.  Rows of the tables
    are never deleted (idempotency reservations apart), the columns that
    identify them never change, attempt counters only grow, and an outbox event
    that was marked dispatched stays so. *)

From S2P Require Import Prelude GoString GoJson GoError Proc Domain Db Pg Store Idempotency.

Open Scope string_scope.

(** * The order on databases *)

Record exec_kept (r r' : exec_row) : Prop := {
  xk_definition : er_workflow_definition_id r' = er_workflow_definition_id r;
  xk_input : er_input_json r' = er_input_json r;
  xk_created : er_created_at r' = er_created_at r;
  xk_started : er_started_at r' = er_started_at r;
}.

Record task_kept (r r' : task_row) : Prop := {
  tk_execution : tr_workflow_execution_id r' = tr_workflow_execution_id r;
  tk_name : tr_task_name r' = tr_task_name r;
  tk_handler : tr_handler_key r' = tr_handler_key r;
  tk_input : tr_input_json r' = tr_input_json r;
  tk_key : tr_idempotency_key r' = tr_idempotency_key r;
  tk_created : tr_created_at r' = tr_created_at r;
}.

Record attempt_kept (r r' : attempt_row) : Prop := {
  ak_task : ar_task_instance_id r' = ar_task_instance_id r;
  ak_number : ar_attempt_number r' = ar_attempt_number r;
  ak_started : ar_started_at r' = ar_started_at r;
  ak_created : ar_created_at r' = ar_created_at r;
}.

Record outbox_kept (r r' : outbox_row) : Prop := {
  ok_kind : or_aggregate_type r' = or_aggregate_type r ∧ or_event_type r' = or_event_type r;
  ok_task : or_aggregate_id r' = or_aggregate_id r;
  ok_payload : or_payload_json r' = or_payload_json r;
  ok_available : or_available_at r' = or_available_at r;
  ok_created : or_created_at r' = or_created_at r;
  ok_dispatched : is_Some (or_dispatched_at r) → is_Some (or_dispatched_at r');
  ok_count : (or_attempt_count r ≤ or_attempt_count r')%Z;
}.

(** Every row of [m] is still in [m'], changed only as [R] allows. *)
Definition table_kept {V} (R : V → V → Prop) (m m' : gmap string V) : Prop :=
  ∀ k v, m !! k = Some v → ∃ v', m' !! k = Some v' ∧ R v v'.

Record evolves (d d' : db) : Prop := {
  ev_definitions : table_kept eq (workflow_definitions d) (workflow_definitions d');
  ev_executions : table_kept exec_kept (workflow_executions d) (workflow_executions d');
  ev_tasks : table_kept task_kept (task_instances d) (task_instances d');
  ev_attempts : table_kept attempt_kept (task_attempts d) (task_attempts d');
  ev_outbox : table_kept outbox_kept (outbox_events d) (outbox_events d');
}.

#[export] Instance exec_kept_po : PreOrder exec_kept.
Proof. split; [by split |]. intros x y z [] []. split; congruence. Qed.
#[export] Instance task_kept_po : PreOrder task_kept.
Proof. split; [by split |]. intros x y z [] []. split; congruence. Qed.
#[export] Instance attempt_kept_po : PreOrder attempt_kept.
Proof. split; [by split |]. intros x y z [] []. split; congruence. Qed.
#[export] Instance outbox_kept_po : PreOrder outbox_kept.
Proof. split; [by split |]. intros x y z [[]] [[]]. split; [split; congruence | congruence.. | auto | lia]. Qed.

#[export] Instance table_kept_po {V} (R : V → V → Prop) : PreOrder R → PreOrder (table_kept R).
Proof.
  intros HR. split.
  - intros m k v Hv. exists v. by split.
  - intros m1 m2 m3 H12 H23 k v (v2 & Hv2 & H2)%H12. destruct (H23 k v2 Hv2) as (v3 & Hv3 & H3).
    exists v3. split; [done |]. by etrans.
Qed.

#[export] Instance evolves_po : PreOrder evolves.
Proof.
  split.
  - by intros d.
  - intros d1 d2 d3 [] []. split; by etrans.
Qed.

#[export] Instance on_contents_po (R : db → db → Prop) :
  PreOrder R → PreOrder (λ w w', R (w_db w) (w_db w')).
Proof. intros HR. split; [by intros w | intros x y z Hxy Hyz; by etrans]. Qed.

Lemma table_kept_insert {V} (R : V → V → Prop) `{!PreOrder R} m k v :
  (∀ v0, m !! k = Some v0 → R v0 v) → table_kept R m (<[k := v]> m).
Proof.
  intros Hk i x Hx. destruct (decide (k = i)) as [<- | Hne].
  - exists v. rewrite lookup_insert_eq. auto.
  - exists x. by rewrite lookup_insert_ne.
Qed.

Lemma table_kept_alter {V} (R : V → V → Prop) `{!PreOrder R} f m k :
  (∀ v, R v (f v)) → table_kept R m (alter f k m).
Proof.
  intros Hf i x Hx. destruct (decide (k = i)) as [<- | Hne].
  - exists (f x). by rewrite lookup_alter_eq, Hx.
  - exists x. by rewrite lookup_alter_ne.
Qed.

(** * Statements and transactions that keep a preorder on the contents *)

Definition stmt_rel {A} (R : db → db → Prop) (s : stmt A) : Prop :=
  ∀ e n now d a d', s e n now d = inr (a, d') → R d d'.

Definition tx_rel {A} (R : db → db → Prop) (t : tx A) : Prop :=
  ∀ e now n d a d' n', t e now n d = (inr (a, d'), n') → R d d'.

Section rel.
Context (R : db → db → Prop) `{!PreOrder R}.

Lemma tx_rel_stmt {A} (s : stmt A) : stmt_rel R s → tx_rel R (tx_stmt s).
Proof. intros Hs e now n d a d' n' (_ & Ha & _)%tx_stmt_ok. eauto. Qed.

Lemma stmt_rel_same {A} (s : stmt A) : stmt_rel eq s → stmt_rel R s.
Proof. intros Hs e n now d a d' Ha. by rewrite (Hs _ _ _ _ _ _ Ha). Qed.

Lemma tx_rel_bind {A B} (t : tx A) (k : A → tx B) :
  tx_rel R t → (∀ a, tx_rel R (k a)) → tx_rel R (tx_bind t k).
Proof.
  intros Ht Hk e now n d b d' n' (a & d1 & n1 & Ha & Hb)%tx_bind_ok.
  etrans; [by eapply Ht | by eapply Hk].
Qed.

Lemma tx_rel_ret {A} (a : A) : tx_rel R (tx_ret a).
Proof. intros e now n d a' d' n' Heq. unfold tx_ret in Heq. by simplify_eq. Qed.

Lemma tx_rel_fail {A} err : tx_rel R (tx_fail err : tx A).
Proof. intros e now n d a' d' n' Heq. unfold tx_fail in Heq. by simplify_eq. Qed.

Lemma tx_rel_for {A} (l : list A) (body : A → tx unit) :
  (∀ x, tx_rel R (body x)) → tx_rel R (tx_for l body).
Proof. intros Hb. induction l as [| x l IH]; simpl; [apply tx_rel_ret | by apply tx_rel_bind]. Qed.

Lemma tx_rel_atomic {A} E (t : tx A) :
  tx_rel R t → all_steps E (λ w w', R (w_db w) (w_db w')) (atomic (in_tx t)).
Proof.
  intros Ht. apply all_steps_single. intros e w r w' He Hr.
  assert (Hw : writes E (λ d _ d', R d d') (in_tx t)) by (apply in_tx_writes; intros; by eapply Ht).
  specialize (Hw e w r w' He Hr).
  destruct r as [err | a]; [| done]. destruct Hw as [-> | [a Ha]]; done.
Qed.

Lemma stmt_rel_atomic {A} E (s : stmt A) :
  stmt_rel R s → all_steps E (λ w w', R (w_db w) (w_db w')) (atomic (autocommit s)).
Proof.
  intros Hs. apply all_steps_single. intros e w r w' He Hr.
  assert (Hw : writes E (λ d _ d', R d d') (autocommit s))
    by (apply autocommit_writes; intros; by eapply Hs).
  specialize (Hw e w r w' He Hr).
  destruct r as [err | a]; [| done]. destruct Hw as [-> | [a Ha]]; done.
Qed.
End rel.

Create HintDb rel discriminated.
#[export] Hint Resolve tx_rel_stmt tx_rel_bind tx_rel_ret tx_rel_fail tx_rel_for
  tx_rel_atomic stmt_rel_atomic all_steps_bind all_steps_try evolves_po : rel.
#[export] Hint Extern 1 (all_steps _ _ (return_ _)) => exact I : rel.
#[export] Hint Extern 1 (all_steps _ _ (fail _)) => exact I : rel.
#[export] Hint Extern 1 (all_steps _ _ (lift_res _)) => exact I : rel.
#[export] Hint Extern 1 (PreOrder _) => apply _ : rel.
#[export] Hint Extern 5 (tx_rel _ (match ?b with _ => _ end)) => destruct b : rel.
#[export] Hint Extern 5 (all_steps _ _ (match ?b with _ => _ end)) => destruct b : rel.

(** * The statements of the store evolve the database *)

Section store.
Context `{PostgresLaws}.

(** A successful statement: its parameters were accepted, its guards passed. *)
Ltac inv_stmt :=
  intros e n now d a d' Hs; cbv beta zeta delta
    [select_row insert_definition insert_execution insert_task insert_outbox insert_attempt
     update_task update_task_returning update_attempt update_execution update_outbox
     select_tasks_of select_attempts_of select_dead_lettered select_due select_pending_outbox
     reserve_record select_record complete_record release_record] in Hs;
  inv_res; repeat case_match; inv_res; simplify_eq; try done.

Lemma set_definitions_evolves d m :
  table_kept eq (workflow_definitions d) m → evolves d (set_workflow_definitions m d).
Proof. by split. Qed.
Lemma set_executions_evolves d m :
  table_kept exec_kept (workflow_executions d) m → evolves d (set_workflow_executions m d).
Proof. by split. Qed.
Lemma set_tasks_evolves d m :
  table_kept task_kept (task_instances d) m → evolves d (set_task_instances m d).
Proof. by split. Qed.
Lemma set_attempts_evolves d m :
  table_kept attempt_kept (task_attempts d) m → evolves d (set_task_attempts m d).
Proof. by split. Qed.
Lemma set_outbox_evolves d m :
  table_kept outbox_kept (outbox_events d) m → evolves d (set_outbox_events m d).
Proof. by split. Qed.
Lemma set_records_evolves d m : evolves d (set_idempotency_records m d).
Proof. by split. Qed.

Ltac insert_new :=
  inv_stmt; first [apply set_definitions_evolves | apply set_executions_evolves
    | apply set_tasks_evolves | apply set_attempts_evolves | apply set_outbox_evolves];
  apply table_kept_insert; [apply _ |]; intros v0 Hv0;
  repeat case_bool_decide; naive_solver.

Lemma select_row_same {V A} (table : db → gmap string V) (scan : string → V → A) id :
  stmt_rel eq (select_row table scan id).
Proof. inv_stmt. Qed.

Lemma insert_definition_evolves name desc def : stmt_rel evolves (insert_definition name desc def).
Proof. insert_new. Qed.
Lemma insert_execution_evolves def input : stmt_rel evolves (insert_execution def input).
Proof. insert_new. Qed.
Lemma insert_task_evolves x t h i k : stmt_rel evolves (insert_task x t h i k).
Proof. insert_new. Qed.
Lemma insert_outbox_evolves t p : stmt_rel evolves (insert_outbox t p).
Proof. insert_new. Qed.
Lemma insert_attempt_evolves t k : stmt_rel evolves (insert_attempt t k).
Proof. insert_new. Qed.

(** [set] changes a row only as [R] allows. *)
Definition sets {V} (R : V → V → Prop) (set : Z → error + (V → V)) : Prop :=
  ∀ now f, set now = inr f → ∀ r, R r (f r).

Lemma update_task_evolves id set : sets task_kept set → stmt_rel evolves (update_task id set).
Proof. intros Hset. inv_stmt. apply set_tasks_evolves, table_kept_alter; [apply _ | eauto]. Qed.
Lemma update_task_returning_evolves id set :
  sets task_kept set → stmt_rel evolves (update_task_returning id set).
Proof.
  intros Hset. inv_stmt. apply set_tasks_evolves, table_kept_insert; [apply _ |].
  intros v0 Hv0. simplify_eq. eauto.
Qed.
Lemma update_attempt_evolves id set :
  sets attempt_kept set → stmt_rel evolves (update_attempt id set).
Proof. intros Hset. inv_stmt. apply set_attempts_evolves, table_kept_alter; [apply _ | eauto]. Qed.
Lemma update_execution_evolves id set :
  sets exec_kept set → stmt_rel evolves (update_execution id set).
Proof. intros Hset. inv_stmt. apply set_executions_evolves, table_kept_alter; [apply _ | eauto]. Qed.

(** The SET clauses keep the identifying columns. *)
Ltac clause := intros now f Hf; cbv beta delta
    [set_task_started set_task_succeeded set_task_retry set_task_dead_lettered set_task_replayed
     set_task_enqueued set_attempt_succeeded set_attempt_failed set_execution_succeeded
     set_execution_failed set_execution_running] in Hf; inv_res; by split.

Lemma set_task_started_kept k : sets task_kept (set_task_started k).
Proof. clause. Qed.
Lemma set_task_succeeded_kept p : sets task_kept (set_task_succeeded p).
Proof. clause. Qed.
Lemma set_task_retry_kept p t : sets task_kept (set_task_retry p t).
Proof. clause. Qed.
Lemma set_task_dead_lettered_kept p : sets task_kept (set_task_dead_lettered p).
Proof. clause. Qed.
Lemma set_task_replayed_kept : sets task_kept set_task_replayed.
Proof. clause. Qed.
Lemma set_task_enqueued_kept : sets task_kept set_task_enqueued.
Proof. clause. Qed.
Lemma set_attempt_succeeded_kept p : sets attempt_kept (set_attempt_succeeded p).
Proof. clause. Qed.
Lemma set_attempt_failed_kept p : sets attempt_kept (set_attempt_failed p).
Proof. clause. Qed.
Lemma set_execution_succeeded_kept p : sets exec_kept (set_execution_succeeded p).
Proof. clause. Qed.
Lemma set_execution_failed_kept p : sets exec_kept (set_execution_failed p).
Proof. clause. Qed.
Lemma set_execution_running_kept : sets exec_kept set_execution_running.
Proof. clause. Qed.

Lemma update_outbox_evolves id set :
  (∀ now f, set now = inr f → ∀ r k, (or_attempt_count r ≤ k)%Z →
     outbox_kept r (set_or_attempt_count k (f r))) →
  stmt_rel evolves (update_outbox id set).
Proof.
  intros Hset. inv_stmt.
  match goal with Hi : int4_in _ = inr _ |- _ => apply int4_in_inr in Hi as [-> _] end.
  apply set_outbox_evolves, table_kept_insert; [apply _ |].
  intros v0 Hv0. simplify_eq. eapply Hset; [done | lia].
Qed.

Lemma mark_dispatched_evolves id :
  stmt_rel evolves (update_outbox id (λ now, inr (set_or_dispatched_at (Some now)))).
Proof. apply update_outbox_evolves. intros now f [= <-] r k Hk. by split. Qed.

Lemma record_failure_evolves id text :
  stmt_rel evolves (update_outbox id (λ _,
    let? txt := text_in (truncate text 1000) in inr (set_or_last_error_text (Some txt)))).
Proof. apply update_outbox_evolves. intros now f Hf r k Hk. inv_res. by split. Qed.

Lemma reserve_record_evolves h k o : stmt_rel evolves (reserve_record h k o).
Proof. inv_stmt. Qed.
Lemma complete_record_evolves h k o r : stmt_rel evolves (complete_record h k o r).
Proof. inv_stmt. Qed.
Lemma release_record_evolves h k o : stmt_rel evolves (release_record h k o).
Proof. inv_stmt. Qed.

(** Queries change nothing. *)
Lemma select_tasks_of_same x : stmt_rel eq (select_tasks_of x).
Proof. inv_stmt. Qed.
Lemma select_attempts_of_same x : stmt_rel eq (select_attempts_of x).
Proof. inv_stmt. Qed.
Lemma select_dead_lettered_same k : stmt_rel eq (select_dead_lettered k).
Proof. inv_stmt. Qed.
Lemma select_due_same k : stmt_rel eq (select_due k).
Proof. inv_stmt. Qed.
Lemma select_pending_outbox_same k : stmt_rel eq (select_pending_outbox k).
Proof. inv_stmt. Qed.
Lemma select_record_same h k : stmt_rel eq (select_record h k).
Proof. inv_stmt. Qed.

End store.

#[export] Hint Resolve insert_definition_evolves insert_execution_evolves insert_task_evolves
  insert_outbox_evolves insert_attempt_evolves update_task_evolves update_task_returning_evolves
  update_attempt_evolves update_execution_evolves mark_dispatched_evolves record_failure_evolves
  reserve_record_evolves complete_record_evolves release_record_evolves
  select_row_same select_tasks_of_same select_attempts_of_same select_dead_lettered_same
  select_due_same select_pending_outbox_same select_record_same : rel.
#[export] Hint Resolve stmt_rel_same | 10 : rel.
#[export] Hint Resolve set_task_started_kept set_task_succeeded_kept set_task_retry_kept
  set_task_dead_lettered_kept set_task_replayed_kept set_task_enqueued_kept
  set_attempt_succeeded_kept set_attempt_failed_kept set_execution_succeeded_kept
  set_execution_failed_kept set_execution_running_kept : rel.

(** * The methods

    Every method of the store, as an operation a client may start. *)

Inductive store_op : Type :=
| OpCreateWorkflowDefinition (name description definition : string)
| OpGetWorkflowDefinition (id : string)
| OpGetWorkflowExecution (id : string)
| OpGetTaskInstance (id : string)
| OpCreateExecutionAndTask (definitionID input taskName handlerKey : string)
| OpGetExecutionSnapshot (executionID : string)
| OpListDeadLetteredTasks (limit : Z)
| OpReplayDeadLetteredTask (taskID : string)
| OpStartTaskAttempt (taskID : string)
| OpCompleteTaskAttempt (taskID attemptID output : string)
| OpCompleteTaskAttemptAndEnqueueNextTask (taskID attemptID nextTask nextHandler output : string)
| OpEnqueueDueTaskRetries (limit : Z)
| OpScheduleTaskRetry (taskID attemptID errorText : string) (nextRunAt : Z)
| OpFailTaskAttempt (taskID attemptID errorText : string)
| OpListPendingOutbox (limit : Z)
| OpMarkOutboxDispatched (id : string)
| OpRecordOutboxFailure (id dispatchErr : string)
| OpBeginIdempotentTask (handlerKey key owner : string)
| OpCompleteIdempotentTask (handlerKey key owner response : string)
| OpReleaseIdempotentTask (handlerKey key owner : string).

Section ops.
Context `{Postgres}.

Definition op_proc (op : store_op) : proc dbw unit :=
  match op with
  | OpCreateWorkflowDefinition n d j => discard (CreateWorkflowDefinition n d j)
  | OpGetWorkflowDefinition i => discard (GetWorkflowDefinition i)
  | OpGetWorkflowExecution i => discard (GetWorkflowExecution i)
  | OpGetTaskInstance i => discard (GetTaskInstance i)
  | OpCreateExecutionAndTask d i t h => discard (CreateExecutionAndTask d i t h)
  | OpGetExecutionSnapshot i => discard (GetExecutionSnapshot i)
  | OpListDeadLetteredTasks l => discard (ListDeadLetteredTasks l)
  | OpReplayDeadLetteredTask i => discard (ReplayDeadLetteredTask i)
  | OpStartTaskAttempt i => discard (StartTaskAttempt i)
  | OpCompleteTaskAttempt t a o => discard (CompleteTaskAttempt t a o)
  | OpCompleteTaskAttemptAndEnqueueNextTask t a n h o =>
      discard (CompleteTaskAttemptAndEnqueueNextTask t a n h o)
  | OpEnqueueDueTaskRetries l => discard (EnqueueDueTaskRetries l)
  | OpScheduleTaskRetry t a x n => discard (ScheduleTaskRetry t a x n)
  | OpFailTaskAttempt t a x => discard (FailTaskAttempt t a x)
  | OpListPendingOutbox l => discard (ListPendingOutbox l)
  | OpMarkOutboxDispatched i => discard (MarkOutboxDispatched i)
  | OpRecordOutboxFailure i x => discard (RecordOutboxFailure i x)
  | OpBeginIdempotentTask h k o => discard (BeginIdempotentTask h k o)
  | OpCompleteIdempotentTask h k o r => discard (CompleteIdempotentTask h k o r)
  | OpReleaseIdempotentTask h k o => discard (ReleaseIdempotentTask h k o)
  end.

(** A process that is some method of the store. *)
Definition is_store_op (p : proc dbw unit) : Prop := ∃ op, p = op_proc op.
End ops.

Section methods.
Context `{PostgresLaws}.

Lemma op_evolves E op : all_steps E (λ w w', evolves (w_db w) (w_db w')) (op_proc op).
Proof.
  destruct op; apply all_steps_discard; cbv beta zeta delta [
    CreateWorkflowDefinition GetWorkflowDefinition GetWorkflowExecution GetTaskInstance
    CreateExecutionAndTask GetExecutionSnapshot ListDeadLetteredTasks ReplayDeadLetteredTask
    StartTaskAttempt CompleteTaskAttempt CompleteTaskAttemptAndEnqueueNextTask
    EnqueueDueTaskRetries ScheduleTaskRetry FailTaskAttempt ListPendingOutbox
    MarkOutboxDispatched RecordOutboxFailure BeginIdempotentTask CompleteIdempotentTask
    ReleaseIdempotentTask create_execution_body replay_body start_attempt_body complete_body
    complete_and_enqueue_body enqueue_due_body schedule_retry_body fail_body enqueue_dispatch
    select_execution_of enqueue_retry]; auto 30 with rel.
Qed.
End methods.

Section property.
Context `{PostgresLaws}.

End property.

Import Demo.

