(* ===== verification/Wf.v ===== *)
(** Well-formedness of the database: the invariant that every operation of the
    store keeps, whatever is interleaved with it and whichever calls fail. *)

From S2P Require Import Prelude GoString GoJson GoError Proc Domain Db Pg Store Idempotency History.

Open Scope string_scope.

Section wf.
Context `{PostgresLaws}.

(** * The invariant *)

(** An execution belongs to a definition; it has a completion time exactly when
    it is not running, an output when it succeeded, an error when it failed. *)
Record exec_ok (d : db) (r : exec_row) : Prop := {
  xo_definition_id : uuid_in (er_workflow_definition_id r) = inr (er_workflow_definition_id r);
  xo_definition : is_Some (workflow_definitions d !! er_workflow_definition_id r);
  xo_status : er_status r ∈ [ExecutionStatusRunning; ExecutionStatusSucceeded; ExecutionStatusFailed];
  xo_completed : er_completed_at r = None ↔ er_status r = ExecutionStatusRunning;
  xo_output : er_status r = ExecutionStatusSucceeded → is_Some (er_output_json r);
  xo_error : er_status r = ExecutionStatusFailed → is_Some (er_error_text r);
}.

(** A task belongs to an execution and has the idempotency key made of it and
    its name; only a pending task (or one completed late) has a retry time; a
    succeeded task has an output and a dead-lettered one an error. *)
Record task_ok (d : db) (r : task_row) : Prop := {
  to_execution_id : uuid_in (tr_workflow_execution_id r) = inr (tr_workflow_execution_id r);
  to_execution : is_Some (workflow_executions d !! tr_workflow_execution_id r);
  to_key : tr_idempotency_key r = makeTaskIdempotencyKey (tr_workflow_execution_id r) (tr_task_name r);
  to_handler : utf8_valid (to_bytes (tr_handler_key r)) = true;
  to_status : tr_status r ∈ [TaskStatusPending; TaskStatusRunning; TaskStatusSucceeded; TaskStatusDeadLettered];
  to_attempts : (0 ≤ tr_attempts_total r < 2 ^ 31)%Z;
  to_running : tr_status r = TaskStatusRunning → (1 ≤ tr_attempts_total r)%Z;
  to_next_run : is_Some (tr_next_run_at r) → tr_status r = TaskStatusPending ∨ tr_status r = TaskStatusSucceeded;
  to_succeeded : tr_status r = TaskStatusSucceeded → is_Some (tr_output_json r) ∧ is_Some (tr_completed_at r);
  to_dead : tr_status r = TaskStatusDeadLettered → is_Some (tr_last_error_text r) ∧ is_Some (tr_completed_at r);
}.

(** An attempt belongs to a task, and its number is one the task has used. *)
Record attempt_ok (d : db) (r : attempt_row) : Prop := {
  ao_task : ∃ t, task_instances d !! ar_task_instance_id r = Some t
                 ∧ (1 ≤ ar_attempt_number r ≤ tr_attempts_total t)%Z;
  ao_status : ar_status r ∈ [TaskAttemptStatusRunning; TaskAttemptStatusSucceeded; TaskAttemptStatusFailed];
  ao_finished : ar_finished_at r = None ↔ ar_status r = TaskAttemptStatusRunning;
  ao_output : ar_status r = TaskAttemptStatusSucceeded → is_Some (ar_output_json r);
  ao_error : ar_status r = TaskAttemptStatusFailed → is_Some (ar_error_text r);
}.

(** An outbox event asks for the dispatch of a task of the database: its
    payload, read by the publisher, names that task, its execution and handler. *)
Record outbox_ok (d : db) (r : outbox_row) : Prop := {
  oo_kind : or_aggregate_type r = "task_instance" ∧ or_event_type r = "task.dispatch";
  oo_payload : ∃ t, task_instances d !! or_aggregate_id r = Some t ∧
    unmarshal_payload (or_payload_json r) =
    Some (mkDispatchTaskPayload (or_aggregate_id r) (tr_workflow_execution_id t) (tr_handler_key t));
}.

(** An idempotency record is owned by a task; a completed one has a response. *)
Record record_ok (d : db) (r : idem_row) : Prop := {
  io_owner : ∃ o, ir_owner_task_instance_id r = Some o ∧ is_Some (task_instances d !! o);
  io_status : ir_status r ∈ [IdempotencyStatusInProgress; IdempotencyStatusCompleted];
  io_response : ir_status r = IdempotencyStatusCompleted → is_Some (ir_response_json r);
}.

Record db_wf (d : db) : Prop := {
  wf_definitions : map_Forall (λ u _, uuid_in u = inr u) (workflow_definitions d);
  wf_executions : map_Forall (λ u r, uuid_in u = inr u ∧ exec_ok d r) (workflow_executions d);
  wf_tasks : map_Forall (λ u r, uuid_in u = inr u ∧ task_ok d r) (task_instances d);
  wf_attempts : map_Forall (λ _ r, attempt_ok d r) (task_attempts d);
  wf_outbox : map_Forall (λ u r, uuid_in u = inr u ∧ outbox_ok d r) (outbox_events d);
  wf_records : map_Forall (λ _ r, record_ok d r) (idempotency_records d);
  (** no two tasks share an idempotency key *)
  wf_keys : ∀ u1 u2 r1 r2, task_instances d !! u1 = Some r1 → task_instances d !! u2 = Some r2 →
    tr_idempotency_key r1 = tr_idempotency_key r2 → u1 = u2;
  (** the attempts of a task are numbered 1, 2, ..., attempts_total, once each *)
  wf_numbers : ∀ a1 a2 r1 r2, task_attempts d !! a1 = Some r1 → task_attempts d !! a2 = Some r2 →
    ar_task_instance_id r1 = ar_task_instance_id r2 → ar_attempt_number r1 = ar_attempt_number r2 →
    a1 = a2;
  wf_every_number : ∀ u t k, task_instances d !! u = Some t → (1 ≤ k ≤ tr_attempts_total t)%Z →
    ∃ a r, task_attempts d !! a = Some r ∧ ar_task_instance_id r = u ∧ ar_attempt_number r = k;
}.

Lemma empty_wf : db_wf empty_db.
Proof. split; intros *; rewrite ?lookup_empty; done. Qed.

(** * Rows stay well-formed when the rest of the database grows *)

Record grows (d d' : db) : Prop := {
  gr_evolves : evolves d d';
  gr_attempts : ∀ u t t', task_instances d !! u = Some t → task_instances d' !! u = Some t' →
    (tr_attempts_total t ≤ tr_attempts_total t')%Z;
}.

Lemma kept_some {V} (R : V → V → Prop) m m' k : table_kept R m m' → is_Some (m !! k) → is_Some (m' !! k).
Proof. intros Hm [v (v' & -> & _)%Hm]. eauto. Qed.

Lemma exec_ok_grows d d' r : grows d d' → exec_ok d r → exec_ok d' r.
Proof. intros [[] _] []. split; [done | by eapply kept_some | done..]. Qed.

Lemma task_ok_grows d d' r : grows d d' → task_ok d r → task_ok d' r.
Proof. intros [[] _] []. split; [done | by eapply kept_some | done..]. Qed.

Lemma attempt_ok_grows d d' r : grows d d' → attempt_ok d r → attempt_ok d' r.
Proof.
  intros [He Hg] [(t & Ht & Hn)]. split; [| done..].
  destruct (ev_tasks _ _ He _ _ Ht) as (t' & Ht' & _). exists t'. split; [done |].
  specialize (Hg _ _ _ Ht Ht'). lia.
Qed.

Lemma outbox_ok_grows d d' r : grows d d' → outbox_ok d r → outbox_ok d' r.
Proof.
  intros [He _] [? (t & Ht & Hp)]. split; [done |].
  destruct (ev_tasks _ _ He _ _ Ht) as (t' & Ht' & []). exists t'. split; [done |]. congruence.
Qed.

Lemma record_ok_grows d d' r : grows d d' → record_ok d r → record_ok d' r.
Proof. intros [[] _] [(o & Ho & Ht)]. split; [exists o; split; [done | by eapply kept_some] | done..]. Qed.

(** A change keeps the invariant when the rows it wrote are well-formed. *)
Lemma wf_change d d' :
  db_wf d → grows d d' →
  (∀ u r, workflow_definitions d' !! u = Some r → workflow_definitions d !! u = Some r ∨ uuid_in u = inr u) →
  (∀ u r, workflow_executions d' !! u = Some r →
     workflow_executions d !! u = Some r ∨ uuid_in u = inr u ∧ exec_ok d' r) →
  (∀ u r, task_instances d' !! u = Some r → task_instances d !! u = Some r ∨ uuid_in u = inr u ∧ task_ok d' r) →
  (∀ u r, task_attempts d' !! u = Some r → task_attempts d !! u = Some r ∨ attempt_ok d' r) →
  (∀ u r, outbox_events d' !! u = Some r → outbox_events d !! u = Some r ∨ uuid_in u = inr u ∧ outbox_ok d' r) →
  (∀ u r, idempotency_records d' !! u = Some r → idempotency_records d !! u = Some r ∨ record_ok d' r) →
  (∀ u1 u2 r1 r2, task_instances d' !! u1 = Some r1 → task_instances d' !! u2 = Some r2 →
    tr_idempotency_key r1 = tr_idempotency_key r2 → u1 = u2) →
  (∀ a1 a2 r1 r2, task_attempts d' !! a1 = Some r1 → task_attempts d' !! a2 = Some r2 →
    ar_task_instance_id r1 = ar_task_instance_id r2 → ar_attempt_number r1 = ar_attempt_number r2 →
    a1 = a2) →
  (∀ u t k, task_instances d' !! u = Some t → (1 ≤ k ≤ tr_attempts_total t)%Z →
    ∃ a r, task_attempts d' !! a = Some r ∧ ar_task_instance_id r = u ∧ ar_attempt_number r = k) →
  db_wf d'.
Proof.
  intros [] Hg Hd Hx Ht Ha Ho Hr Hk Hn He. split; try done.
  - intros u r [Hu | Hu]%Hd; eauto.
  - intros u r [Hu | Hu]%Hx; [| done]. apply wf_executions0 in Hu as [? ?]. eauto using exec_ok_grows.
  - intros u r [Hu | Hu]%Ht; [| done]. apply wf_tasks0 in Hu as [? ?]. eauto using task_ok_grows.
  - intros u r [Hu | Hu]%Ha; [| done]. apply wf_attempts0 in Hu. eauto using attempt_ok_grows.
  - intros u r [Hu | Hu]%Ho; [| done]. apply wf_outbox0 in Hu as [? ?]. eauto using outbox_ok_grows.
  - intros u r [Hu | Hu]%Hr; [| done]. apply wf_records0 in Hu. eauto using record_ok_grows.
Qed.

(** * Changes of one table *)

Lemma grows_same_tasks d d' : evolves d d' → task_instances d' = task_instances d → grows d d'.
Proof. intros He Ht. split; [done |]. intros u t t'. rewrite Ht. intros. by simplify_eq. Qed.

(** The tables a change does not touch. *)
Ltac frame Hwf :=
  apply (wf_change _ _ Hwf); [| try (simpl; intros; by left).. | | |];
  try (simpl; exact (wf_keys _ Hwf)); try (simpl; exact (wf_numbers _ Hwf));
  try (simpl; exact (wf_every_number _ Hwf)).

Lemma wf_add_definition d u r :
  db_wf d → workflow_definitions d !! u = None → uuid_in u = inr u →
  db_wf (set_workflow_definitions (<[u := r]> (workflow_definitions d)) d).
Proof.
  intros Hwf Hu Hc. frame Hwf.
  - apply grows_same_tasks; [| done]. apply set_definitions_evolves, table_kept_insert; [apply _ |].
    intros v. by rewrite Hu.
  - simpl. intros v x [[-> _] | [_ ?]]%lookup_insert_Some; auto.
Qed.

Lemma wf_add_execution d u r :
  db_wf d → workflow_executions d !! u = None → uuid_in u = inr u → exec_ok d r →
  db_wf (set_workflow_executions (<[u := r]> (workflow_executions d)) d).
Proof.
  intros Hwf Hu Hc Hr.
  assert (Hg : grows d (set_workflow_executions (<[u := r]> (workflow_executions d)) d)).
  { apply grows_same_tasks; [| done]. apply set_executions_evolves, table_kept_insert; [apply _ |].
    intros v. by rewrite Hu. }
  frame Hwf; [done |].
  simpl. intros v x [[-> <-] | [_ ?]]%lookup_insert_Some; eauto using exec_ok_grows.
Qed.

Lemma wf_alter_execution d u f :
  db_wf d → (∀ r, exec_kept r (f r)) → (∀ r, exec_ok d r → exec_ok d (f r)) →
  db_wf (set_workflow_executions (alter f u (workflow_executions d)) d).
Proof.
  intros Hwf Hk Hf.
  assert (Hg : grows d (set_workflow_executions (alter f u (workflow_executions d)) d)).
  { apply grows_same_tasks; [| done]. apply set_executions_evolves, table_kept_alter; [apply _ | done]. }
  frame Hwf; [done |].
  simpl. intros v x [(-> & y & Hy & ->) | [_ ?]]%lookup_alter_Some; [| auto].
  right. apply (wf_executions _ Hwf) in Hy as [? ?]. eauto using exec_ok_grows.
Qed.

Lemma wf_add_task d u r :
  db_wf d → task_instances d !! u = None → uuid_in u = inr u → task_ok d r →
  tr_attempts_total r = 0%Z →
  (∀ u' r', task_instances d !! u' = Some r' → tr_idempotency_key r' ≠ tr_idempotency_key r) →
  db_wf (set_task_instances (<[u := r]> (task_instances d)) d).
Proof.
  intros Hwf Hu Hc Hr Hz Hnew.
  assert (Hg : grows d (set_task_instances (<[u := r]> (task_instances d)) d)).
  { split.
    - apply set_tasks_evolves, table_kept_insert; [apply _ |]. intros v. by rewrite Hu.
    - simpl. intros v t t' Ht. rewrite lookup_insert_ne by congruence. intros. by simplify_eq. }
  frame Hwf; [done | | |].
  - simpl. intros v x [[-> <-] | [_ ?]]%lookup_insert_Some; eauto using task_ok_grows.
  - simpl. intros u1 u2 r1 r2 [[<- <-] | [? ?]]%lookup_insert_Some [[<- <-] | [? ?]]%lookup_insert_Some ?;
      [done | naive_solver.. | by eapply wf_keys].
  - simpl. intros v t k [[<- <-] | [? ?]]%lookup_insert_Some Hk; [lia | by eapply wf_every_number].
Qed.

Lemma wf_alter_task d u f :
  db_wf d → (∀ r, task_kept r (f r)) → (∀ r, tr_attempts_total (f r) = tr_attempts_total r) →
  (∀ r, task_ok d r → task_ok d (f r)) →
  db_wf (set_task_instances (alter f u (task_instances d)) d).
Proof.
  intros Hwf Hk Hz Hf.
  assert (Hg : grows d (set_task_instances (alter f u (task_instances d)) d)).
  { split.
    - apply set_tasks_evolves, table_kept_alter; [apply _ | done].
    - simpl. intros v t t' Ht [(-> & y & Hy & ->) | [_ ?]]%lookup_alter_Some; simplify_eq; [| done].
      by rewrite Hz. }
  frame Hwf; [done | | |].
  - simpl. intros v x [(-> & y & Hy & ->) | [_ ?]]%lookup_alter_Some; [| auto].
    right. apply (wf_tasks _ Hwf) in Hy as [? ?]. eauto using task_ok_grows.
  - simpl. assert (Hkey : ∀ v x, alter f u (task_instances d) !! v = Some x →
      ∃ y, task_instances d !! v = Some y ∧ tr_idempotency_key y = tr_idempotency_key x).
    { intros v x [(-> & y & Hy & ->) | [_ ?]]%lookup_alter_Some; [| eauto].
      exists y. split; [done |]. symmetry. apply Hk. }
    intros u1 u2 r1 r2 (y1 & H1 & E1)%Hkey (y2 & H2 & E2)%Hkey ?.
    eapply wf_keys; [done.. | congruence].
  - simpl. intros v t k [(-> & y & Hy & ->) | [_ ?]]%lookup_alter_Some Hn; [rewrite Hz in Hn |];
      by eapply wf_every_number.
Qed.

Lemma wf_alter_attempt d u f :
  db_wf d → (∀ r, attempt_kept r (f r)) → (∀ r, attempt_ok d r → attempt_ok d (f r)) →
  db_wf (set_task_attempts (alter f u (task_attempts d)) d).
Proof.
  intros Hwf Hk Hf.
  assert (He : evolves d (set_task_attempts (alter f u (task_attempts d)) d))
    by (apply set_attempts_evolves, table_kept_alter; [apply _ | done]).
  assert (Hg : grows d (set_task_attempts (alter f u (task_attempts d)) d)) by by apply grows_same_tasks.
  assert (Hold : ∀ v x, alter f u (task_attempts d) !! v = Some x →
    ∃ y, task_attempts d !! v = Some y ∧ attempt_kept y x).
  { intros v x [(-> & y & Hy & ->) | [_ ?]]%lookup_alter_Some; [exists y; auto | by exists x]. }
  frame Hwf; [done | | |].
  - simpl. intros v x [(-> & y & Hy & ->) | [_ ?]]%lookup_alter_Some; [| auto].
    right. apply (wf_attempts _ Hwf) in Hy. eauto using attempt_ok_grows.
  - simpl. intros a1 a2 r1 r2 (y1 & H1 & [])%Hold (y2 & H2 & [])%Hold ??.
    eapply wf_numbers; [done.. | congruence | congruence].
  - simpl. intros v t k Ht Hn. destruct (wf_every_number _ Hwf v t k Ht Hn) as (a & r & Ha & <- & <-).
    destruct (ev_attempts _ _ He _ _ Ha) as (r' & Hr' & [? ? _ _]). by exists a, r'.
Qed.

Lemma wf_put_outbox d u r :
  db_wf d → uuid_in u = inr u → (∀ r0, outbox_events d !! u = Some r0 → outbox_kept r0 r) → outbox_ok d r →
  db_wf (set_outbox_events (<[u := r]> (outbox_events d)) d).
Proof.
  intros Hwf Hc Hu Hr.
  assert (Hg : grows d (set_outbox_events (<[u := r]> (outbox_events d)) d))
    by (apply grows_same_tasks; [apply set_outbox_evolves, table_kept_insert; [apply _ | done] | done]).
  frame Hwf; [done |].
  simpl. intros v x [[-> <-] | [_ ?]]%lookup_insert_Some; eauto using outbox_ok_grows.
Qed.

Lemma wf_put_record d k r :
  db_wf d → record_ok d r → db_wf (set_idempotency_records (<[k := r]> (idempotency_records d)) d).
Proof.
  intros Hwf Hr.
  assert (Hg : grows d (set_idempotency_records (<[k := r]> (idempotency_records d)) d))
    by (apply grows_same_tasks; [apply set_records_evolves | done]).
  frame Hwf; [done |].
  simpl. intros v x [[-> <-] | [_ ?]]%lookup_insert_Some; eauto using record_ok_grows.
Qed.

Lemma wf_delete_record d k :
  db_wf d → db_wf (set_idempotency_records (delete k (idempotency_records d)) d).
Proof.
  intros Hwf. frame Hwf; [apply grows_same_tasks; [apply set_records_evolves | done] |].
  simpl. intros v x [_ ?]%lookup_delete_Some. by left.
Qed.

(** A new attempt and the counter of its task change together. *)
Lemma wf_start d u t t' a r :
  db_wf d → task_instances d !! u = Some t → task_attempts d !! a = None →
  task_kept t t' → task_ok d t' → tr_attempts_total t' = (tr_attempts_total t + 1)%Z →
  ar_task_instance_id r = u → ar_attempt_number r = (tr_attempts_total t + 1)%Z →
  attempt_ok (set_task_instances (<[u := t']> (task_instances d)) d) r →
  db_wf (set_task_instances (<[u := t']> (task_instances d))
           (set_task_attempts (<[a := r]> (task_attempts d)) d)).
Proof.
  intros Hwf Ht Ha Hk Hok Hz Hrt Hrn Hr.
  set (d' := set_task_instances _ _).
  assert (Hg : grows d d').
  { split.
    - split; try done; (apply table_kept_insert; [apply _ |]); intros v.
      + rewrite Ht. by intros [= <-].
      + by rewrite Ha.
    - simpl. intros v x x' Hx [[<- <-] | [? ?]]%lookup_insert_Some; simplify_eq; lia. }
  frame Hwf; [done | | | | |].
  - simpl. intros v x [[<- <-] | [_ ?]]%lookup_insert_Some; [| auto]. right.
    apply (wf_tasks _ Hwf) in Ht as [? _]. eauto using task_ok_grows.
  - simpl. intros v x [[<- <-] | [_ ?]]%lookup_insert_Some; [| auto]. right. by destruct Hr.
  - simpl. assert (Hkey : ∀ v x, <[u := t']> (task_instances d) !! v = Some x →
      ∃ y, task_instances d !! v = Some y ∧ tr_idempotency_key y = tr_idempotency_key x).
    { intros v x [[<- <-] | [_ ?]]%lookup_insert_Some; [| eauto]. exists t. split; [done |].
      symmetry. apply Hk. }
    intros u1 u2 r1 r2 (y1 & H1 & E1)%Hkey (y2 & H2 & E2)%Hkey ?.
    eapply wf_keys; [done.. | congruence].
  - simpl. assert (Hlt : ∀ v x, task_attempts d !! v = Some x → ar_task_instance_id x = u →
      ar_attempt_number x ≠ (tr_attempts_total t + 1)%Z).
    { intros v x Hx Hxu. apply (wf_attempts _ Hwf) in Hx as [(y & Hy & Hn) _ _ _ _].
      rewrite Hxu in Hy. simplify_eq. lia. }
    intros a1 a2 r1 r2 [[<- <-] | [? ?]]%lookup_insert_Some [[<- <-] | [? ?]]%lookup_insert_Some ??;
      [done | | | by eapply wf_numbers]; exfalso; eapply Hlt; eauto; congruence.
  - simpl. intros v x k [[<- <-] | [? Hx]]%lookup_insert_Some Hn.
    + destruct (decide (k = tr_attempts_total t + 1)%Z) as [-> | Hne].
      * exists a, r. by rewrite lookup_insert_eq.
      * destruct (wf_every_number _ Hwf u t k Ht ltac:(lia)) as (b & y & Hb & ? & ?).
        exists b, y. rewrite lookup_insert_ne by congruence. done.
    + destruct (wf_every_number _ Hwf v x k Hx Hn) as (b & y & Hb & ? & ?).
      exists b, y. rewrite lookup_insert_ne by congruence. done.
Qed.

End wf.
