(* ===== verification/WfStore.v ===== *)
(** Every method of the store keeps the database well-formed. *)

From S2P Require Import Prelude GoString GoJson GoError Proc Domain Db Pg Store Idempotency History Wf.

Open Scope string_scope.

(** A task the client holds is the row of the database. *)
Definition has_task (d : db) (t : TaskInstance) : Prop :=
  ∃ r, task_instances d !! ti_ID t = Some r ∧ t = scanTaskInstance (ti_ID t) r.

Section wf_store.
Context `{PostgresLaws}.

(** * The SET clauses keep rows well-formed *)

(** Decides the columns of a row after an assignment. *)
Ltac columns :=
  simpl in *; eauto; try set_solver; try (by intros [=]); try (split; by intros [=]); try naive_solver; try lia.

Definition task_clause (set : Z → error + (task_row → task_row)) : Prop :=
  ∀ now f, set now = inr f →
  (∀ r, tr_attempts_total (f r) = tr_attempts_total r) ∧ ∀ d r, task_ok d r → task_ok d (f r).

Definition attempt_clause (set : Z → error + (attempt_row → attempt_row)) : Prop :=
  ∀ now f, set now = inr f → ∀ d r, attempt_ok d r → attempt_ok d (f r).

Definition exec_clause (set : Z → error + (exec_row → exec_row)) : Prop :=
  ∀ now f, set now = inr f → ∀ d r, exec_ok d r → exec_ok d (f r).

Lemma set_task_succeeded_ok p : task_clause (set_task_succeeded p).
Proof. intros now f Hf. unfold set_task_succeeded in Hf. inv_res. split; [done |]. intros d r []. split; columns. Qed.
Lemma set_task_retry_ok p t : task_clause (set_task_retry p t).
Proof. intros now f Hf. unfold set_task_retry in Hf. inv_res. split; [done |]. intros d r []. split; columns. Qed.
Lemma set_task_dead_lettered_ok p : task_clause (set_task_dead_lettered p).
Proof. intros now f Hf. unfold set_task_dead_lettered in Hf. inv_res. split; [done |]. intros d r []. split; columns. Qed.
Lemma set_task_replayed_ok : task_clause set_task_replayed.
Proof. intros now f Hf. unfold set_task_replayed in Hf. inv_res. split; [done |]. intros d r []. split; columns. Qed.
Lemma set_task_enqueued_ok : task_clause set_task_enqueued.
Proof. intros now f Hf. unfold set_task_enqueued in Hf. inv_res. split; [done |]. intros d r []. split; columns. Qed.

Lemma set_attempt_succeeded_ok p : attempt_clause (set_attempt_succeeded p).
Proof. intros now f Hf d r []. unfold set_attempt_succeeded in Hf. inv_res. split; columns. Qed.
Lemma set_attempt_failed_ok p : attempt_clause (set_attempt_failed p).
Proof. intros now f Hf d r []. unfold set_attempt_failed in Hf. inv_res. split; columns. Qed.

Lemma set_execution_succeeded_ok p : exec_clause (set_execution_succeeded p).
Proof. intros now f Hf d r []. unfold set_execution_succeeded in Hf. inv_res. split; columns. Qed.
Lemma set_execution_failed_ok p : exec_clause (set_execution_failed p).
Proof. intros now f Hf d r []. unfold set_execution_failed in Hf. inv_res. split; columns. Qed.
Lemma set_execution_running_ok : exec_clause set_execution_running.
Proof. intros now f Hf d r []. unfold set_execution_running in Hf. inv_res. split; columns. Qed.

(** * Statements *)

Lemma insert_alter {V} (m : gmap string V) u r f : m !! u = Some r → <[u := f r]> m = alter f u m.
Proof.
  intros Hu. apply map_eq. intros v. destruct (decide (u = v)) as [<- | Hne].
  - by rewrite lookup_insert_eq, lookup_alter_eq, Hu.
  - by rewrite lookup_insert_ne, lookup_alter_ne.
Qed.

Lemma update_task_wf id set e n now d a d' :
  task_clause set → sets task_kept set →
  update_task id set e n now d = inr (a, d') → db_wf d → db_wf d'.
Proof.
  intros Hc Hk Hs Hwf. unfold update_task in Hs. inv_res.
  edestruct Hc as [? ?]; [done |]. apply wf_alter_task; eauto.
Qed.

Lemma update_attempt_wf id set e n now d a d' :
  attempt_clause set → sets attempt_kept set →
  update_attempt id set e n now d = inr (a, d') → db_wf d → db_wf d'.
Proof.
  intros Hc Hk Hs Hwf. unfold update_attempt in Hs. inv_res. apply wf_alter_attempt; eauto.
Qed.

Lemma update_execution_wf id set e n now d a d' :
  exec_clause set → sets exec_kept set →
  update_execution id set e n now d = inr (a, d') → db_wf d → db_wf d'.
Proof.
  intros Hc Hk Hs Hwf. unfold update_execution in Hs. inv_res. apply wf_alter_execution; eauto.
Qed.

Lemma update_task_returning_wf id set e n now d t d' :
  task_clause set → sets task_kept set →
  update_task_returning id set e n now d = inr (t, d') → db_wf d → db_wf d' ∧ has_task d' t.
Proof.
  intros Hc Hk Hs Hwf. unfold update_task_returning in Hs. inv_res.
  destruct (task_instances d !! _) as [r |] eqn:Hr; [| done]. inv_res. split.
  - rewrite insert_alter by done. edestruct Hc as [? ?]; [done |]. apply wf_alter_task; eauto.
  - eexists. simpl. by rewrite lookup_insert_eq.
Qed.

Lemma select_task_wf id e n now d t d' :
  select_row task_instances scanTaskInstance id e n now d = inr (t, d') → d' = d ∧ has_task d t.
Proof.
  unfold select_row. intros Hs. inv_res. destruct (task_instances d !! _) as [r |] eqn:Hr; [| done].
  inv_res. split; [done |]. by exists r.
Qed.

(** A reservation or a completed record of an existing task. *)
Lemma reserve_record_wf h k o e n now d b d' :
  reserve_record h k o e n now d = inr (b, d') → db_wf d → db_wf d'.
Proof.
  intros Hs Hwf. unfold reserve_record in Hs. inv_res. repeat case_bool_decide; inv_res; try done.
  apply wf_put_record; [done |]. split; columns.
  eexists. split; [done |]. destruct (task_instances d !! _); naive_solver.
Qed.

Lemma complete_record_wf h k o r e n now d b d' :
  complete_record h k o r e n now d = inr (b, d') → db_wf d → db_wf d'.
Proof.
  intros Hs Hwf. unfold complete_record in Hs. inv_res.
  destruct (idempotency_records d !! _) as [row |] eqn:Hx; inv_res; [| done].
  case_bool_decide; inv_res; [| done].
  apply (wf_records _ Hwf) in Hx as []. apply wf_put_record; [done |]. split; columns.
Qed.

Lemma release_record_wf h k o e n now d b d' :
  release_record h k o e n now d = inr (b, d') → db_wf d → db_wf d'.
Proof.
  intros Hs Hwf. unfold release_record in Hs. inv_res.
  destruct (idempotency_records d !! _) as [row |] eqn:Hx; inv_res; [| done].
  destruct (_ && _)%bool; inv_res; [by apply wf_delete_record | done].
Qed.

Lemma update_outbox_wf id set e n now d a d' :
  (∀ now f, set now = inr f → ∀ r k, (or_attempt_count r ≤ k)%Z →
     outbox_kept r (set_or_attempt_count k (f r))) →
  update_outbox id set e n now d = inr (a, d') → db_wf d → db_wf d'.
Proof.
  intros Hset Hs Hwf. unfold update_outbox in Hs. inv_res.
  destruct (outbox_events d !! _) as [r |] eqn:Hr; inv_res; [| done].
  match goal with Hi : int4_in _ = inr _ |- _ => apply int4_in_inr in Hi as [-> _] end.
  match goal with Hf : set now = inr ?f |- _ =>
    pose proof (Hset _ _ Hf r (or_attempt_count r + 1)%Z ltac:(lia)) as Hk end.
  apply wf_put_outbox; [done | by eauto with go | by intros r0 [= <-]%(eq_trans (eq_sym Hr)) |].
  apply (wf_outbox _ Hwf) in Hr as [_ [? (t & ? & ?)]]. destruct Hk as [[? ?] ? ? ? ? ? ?].
  split; [intuition congruence |]. exists t. split; congruence.
Qed.

(** ** Inserted rows *)

Lemma insert_definition_wf name desc def e n now d a d' :
  env_ok e → insert_definition name desc def e n now d = inr (a, d') → db_wf d → db_wf d'.
Proof.
  intros He Hs Hwf. unfold insert_definition in Hs. inv_res. case_bool_decide as Hu; [done |].
  destruct (existsb _ _); [done |]. inv_res. apply wf_add_definition; [done | | apply He].
  by apply eq_None_not_Some.
Qed.

Lemma insert_execution_wf def input e n now d x d' :
  env_ok e → insert_execution def input e n now d = inr (x, d') → db_wf d →
  db_wf d' ∧ uuid_in (we_ID x) = inr (we_ID x).
Proof.
  intros He Hs Hwf. unfold insert_execution in Hs. inv_res. case_bool_decide as Hu; [done |].
  case_bool_decide as Hd; [done |]. inv_res. split; [| apply He].
  apply wf_add_execution; [done | by apply eq_None_not_Some | apply He |].
  split; columns; [eauto with go |]. by destruct (workflow_definitions d !! _).
Qed.

(** The key of a new task is new, because the unique index accepted it. *)
Lemma no_such_key k (m : gmap string task_row) :
  existsb (λ p, String.eqb (tr_idempotency_key (snd p)) k) (map_to_list m) = false →
  ∀ u r, m !! u = Some r → tr_idempotency_key r ≠ k.
Proof.
  intros Hf u r Hu Hk. apply (not_true_iff_false _) in Hf as []. apply existsb_exists.
  exists (u, r). split; [by apply list_elem_of_In, elem_of_map_to_list | by apply String.eqb_eq].
Qed.

Lemma insert_task_wf x name h input e n now d t d' :
  env_ok e → uuid_in x = inr x →
  insert_task x name h input (makeTaskIdempotencyKey x name) e n now d = inr (t, d') → db_wf d →
  db_wf d' ∧ has_task d' t ∧ ti_WorkflowExecutionID t = x ∧ ti_HandlerKey t = h.
Proof.
  intros He Hx Hs Hwf. unfold insert_task in Hs. rewrite Hx in Hs. inv_res.
  case_bool_decide as Hu; [done |]. destruct (existsb _ _) eqn:Hkey; [done |].
  case_bool_decide as Hd; [done |]. inv_res.
  repeat match goal with Ht : text_in _ = inr _ |- _ => apply text_in_inr in Ht as [-> ?] end.
  split; [| split; [eexists; simpl; by rewrite lookup_insert_eq | done]].
  apply wf_add_task; [done | by apply eq_None_not_Some | apply He | | done |].
  - split; columns. by destruct (workflow_executions d !! _).
  - by apply no_such_key.
Qed.

(** The event asks for the dispatch of the task it was made for. *)
Lemma enqueue_dispatch_wf u r e now n d a d' n' :
  env_ok e → task_instances d !! u = Some r →
  enqueue_dispatch u (tr_workflow_execution_id r) (tr_handler_key r) e now n d = (inr (a, d'), n') →
  db_wf d → db_wf d' ∧ task_instances d' = task_instances d.
Proof.
  intros He Hu (_ & Hs & _)%tx_stmt_ok Hwf. unfold insert_outbox in Hs.
  destruct (wf_tasks _ Hwf u r Hu) as [Hc []]. rewrite Hc in Hs. inv_res.
  case_bool_decide as Ho; [done |]. inv_res. split; [| done].
  apply wf_put_outbox; [done | apply He | naive_solver |].
  split; [done |]. exists r. split; [done |]. simpl. eapply payload_jsonb; [| done].
  unfold payload_valid. simpl. rewrite !andb_true_iff. eauto with go.
Qed.

Hint Resolve set_task_succeeded_ok set_task_retry_ok set_task_dead_lettered_ok set_task_replayed_ok
  set_task_enqueued_ok set_attempt_succeeded_ok set_attempt_failed_ok set_execution_succeeded_ok
  set_execution_failed_ok set_execution_running_ok : rel.

(** * Transactions *)

(** The same, for a task the client holds. *)
Lemma enqueue_held_wf t e now n d a d' n' :
  env_ok e → has_task d t →
  enqueue_dispatch (ti_ID t) (ti_WorkflowExecutionID t) (ti_HandlerKey t) e now n d = (inr (a, d'), n') →
  db_wf d → db_wf d' ∧ task_instances d' = task_instances d.
Proof. intros He (r & Hr & ->) Hs Hwf. by eapply enqueue_dispatch_wf. Qed.

Definition tx_keeps {A} (body : tx A) : Prop := tx_post env_ok db_wf body (λ _, db_wf).

Lemma create_execution_wf def input name h : tx_keeps (create_execution_body def input name h).
Proof.
  intros e now n d a d' n' He Hs Hwf. unfold create_execution_body in Hs.
  apply tx_bind_ok in Hs as (x & d1 & n1 & (_ & Hx & ->)%tx_stmt_ok & Hs).
  apply insert_execution_wf in Hx as [Hd1 Hc]; [| done..].
  apply tx_bind_ok in Hs as (t & d2 & n2 & (_ & Ht & ->)%tx_stmt_ok & Hs).
  apply insert_task_wf in Ht as (Hd2 & Ht & Hx & _); [| done..]. rewrite <-Hx in Hs. inv_tx.
  by eapply enqueue_held_wf.
Qed.

Lemma replay_wf id : tx_keeps (replay_body id).
Proof.
  intros e now n d a d' n' He Hs Hwf. unfold replay_body in Hs.
  apply tx_bind_ok in Hs as (t & d1 & n1 & (_ & Ht & ->)%tx_stmt_ok & Hs).
  apply select_task_wf in Ht as [-> Ht]. destruct (negb _); [done |].
  apply tx_bind_ok in Hs as (t1 & d2 & n2 & (_ & Ht1 & ->)%tx_stmt_ok & Hs).
  apply update_task_returning_wf in Ht1 as [Hd2 Ht1]; [| by auto with rel..| done].
  apply tx_bind_ok in Hs as (u & d3 & n3 & (_ & Hu & ->)%tx_stmt_ok & Hs).
  assert (Ht3 : has_task d3 t1) by (unfold update_execution in Hu; by inv_res).
  apply update_execution_wf in Hu; [| by auto with rel..]. inv_tx. by eapply enqueue_held_wf.
Qed.

(** The row and the new number that a successful start writes. *)
Lemma start_attempt_inv u r e now n d a1 d1 n1 t d2 n2 k :
  db_wf d → task_instances d !! u = Some r → k = wrap64 (tr_attempts_total r + 1) →
  insert_attempt u k e n1 now d = inr (a1, d1) →
  update_task_returning u (set_task_started k) e n2 now d1 = inr (t, d2) → n1 = n →
  k = (tr_attempts_total r + 1)%Z ∧ task_attempts d !! e_uuid e n = None ∧
  (k < 2 ^ 31)%Z ∧
  let row := mk_attempt_row u k TaskAttemptStatusRunning now None None None now in
  let r' := set_tr_updated_at now (set_tr_next_run_at None
              (set_tr_attempts_total k (set_tr_status TaskStatusRunning r))) in
  a1 = scanTaskAttempt (e_uuid e n) row ∧ t = scanTaskInstance u r' ∧
  d2 = set_task_instances (<[u := r']> (task_instances d))
         (set_task_attempts (<[e_uuid e n := row]> (task_attempts d)) d).
Proof.
  intros Hwf Hr Hk Ha Hu ->. destruct (wf_tasks _ Hwf _ _ Hr) as [Hc Hok].
  unfold insert_attempt in Ha. rewrite Hc in Ha. inv_res. case_bool_decide as Hn; [done |].
  case_bool_decide; [done |]. inv_res.
  unfold update_task_returning, set_task_started in Hu. rewrite Hc in Hu. simpl in Hu.
  rewrite Hr in Hu. inv_res.
  repeat match goal with Hi : int4_in _ = inr _ |- _ => apply int4_in_inr in Hi as [-> ?] end.
  destruct (to_attempts _ _ Hok). rewrite wrap64_id in * by (unfold int64_min, int64_max; lia).
  repeat split; [by apply eq_None_not_Some | lia].
Qed.

Lemma started_task_ok d r k now :
  (1 ≤ k < 2 ^ 31)%Z → task_ok d r →
  task_ok d (set_tr_updated_at now (set_tr_next_run_at None
              (set_tr_attempts_total k (set_tr_status TaskStatusRunning r)))).
Proof. intros Hk []. split; try done; try (simpl; lia); try (by intros [=]); [set_solver |]. by intros [? [=]]. Qed.

Lemma started_attempt_ok d u t k now :
  task_instances d !! u = Some t → (1 ≤ k ≤ tr_attempts_total t)%Z →
  attempt_ok d (mk_attempt_row u k TaskAttemptStatusRunning now None None None now).
Proof. intros Ht Hk. split; columns. Qed.

Lemma start_attempt_wf id : tx_keeps (start_attempt_body id).
Proof.
  intros e now n d a d' n' He Hs Hwf. unfold start_attempt_body in Hs.
  apply tx_bind_ok in Hs as (t & d1 & n1 & (_ & Ht & ->)%tx_stmt_ok & Hs).
  apply select_task_wf in Ht as [-> (r & Hr & Et)]. destruct (_ || _)%bool; [by inv_tx |].
  assert (Er : ti_AttemptsTotal t = tr_attempts_total r) by by rewrite Et. rewrite Er in Hs.
  inv_tx. destruct (wf_tasks _ Hwf _ _ Hr) as [_ Hok].
  lazymatch goal with Ha : insert_attempt _ _ _ _ _ _ = _, Hu : update_task_returning _ _ _ _ _ _ = _ |- _ =>
    destruct (start_attempt_inv _ r _ _ _ _ _ _ _ _ _ _ _ Hwf Hr eq_refl Ha Hu eq_refl)
      as (Hk & Hn & Hlt & _ & _ & ->) end.
  pose proof (to_attempts _ _ Hok) as Hr0.
  apply (wf_start _ _ r); [done.. | by split | | done | done | done |].
  - apply started_task_ok; [lia | done].
  - eapply started_attempt_ok; [apply lookup_insert_eq | simpl; lia].
Qed.


Lemma select_execution_of_wf id e n now d x d' :
  db_wf d → select_execution_of id e n now d = inr (x, d') → d' = d ∧ uuid_in x = inr x.
Proof.
  unfold select_execution_of, select_row. intros Hwf Hs. inv_res.
  destruct (task_instances d !! _) as [r |] eqn:Hr; [| done]. inv_res. split; [done |].
  by apply (wf_tasks _ Hwf) in Hr as [_ []].
Qed.

(** Chains of updates. *)
Ltac keep_updates :=
  inv_tx;
  repeat match goal with
  | Hx : update_attempt _ _ _ _ _ _ = inr _ |- _ => apply update_attempt_wf in Hx; [| by auto with rel..]
  | Hx : update_task _ _ _ _ _ _ = inr _ |- _ => apply update_task_wf in Hx; [| by auto with rel..]
  | Hx : update_execution _ _ _ _ _ _ = inr _ |- _ => apply update_execution_wf in Hx; [| by auto with rel..]
  end; try done.

Lemma complete_wf t a o : tx_keeps (complete_body t a o).
Proof.
  intros e now n d b d' n' He Hs Hwf. unfold complete_body in Hs.
  apply tx_bind_ok in Hs as (x & d1 & n1 & (_ & Hx & ->)%tx_stmt_ok & Hs).
  apply select_execution_of_wf in Hx as [-> _]; [| done]. keep_updates.
Qed.

Lemma fail_wf t a x : tx_keeps (fail_body t a x).
Proof.
  intros e now n d b d' n' He Hs Hwf. unfold fail_body in Hs.
  apply tx_bind_ok in Hs as (y & d1 & n1 & (_ & Hx & ->)%tx_stmt_ok & Hs).
  apply select_execution_of_wf in Hx as [-> _]; [| done]. keep_updates.
Qed.

Lemma schedule_retry_wf t a x r : tx_keeps (schedule_retry_body t a x r).
Proof. intros e now n d b d' n' He Hs Hwf. unfold schedule_retry_body in Hs. keep_updates. Qed.

Lemma complete_and_enqueue_wf t a nt nh o : tx_keeps (complete_and_enqueue_body t a nt nh o).
Proof.
  intros e now n d b d' n' He Hs Hwf. unfold complete_and_enqueue_body in Hs.
  apply tx_bind_ok in Hs as (x & d1 & n1 & (_ & Hx & ->)%tx_stmt_ok & Hs).
  apply select_execution_of_wf in Hx as [-> Hx]; [| done].
  apply tx_bind_ok in Hs as (? & d2 & n2 & (_ & H2 & ->)%tx_stmt_ok & Hs).
  apply update_attempt_wf in H2; [| by auto with rel..].
  apply tx_bind_ok in Hs as (? & d3 & n3 & (_ & H3 & ->)%tx_stmt_ok & Hs).
  apply update_task_wf in H3; [| by auto with rel..].
  apply tx_bind_ok in Hs as (t' & d4 & n4 & (_ & H4 & ->)%tx_stmt_ok & Hs).
  apply insert_task_wf in H4 as (H4 & Ht & Ex & Eh); [| done..].
  rewrite <-Ex, <-Eh in Hs. by eapply enqueue_held_wf.
Qed.

(** The tasks a retry is enqueued for stay what they were. *)
Definition due_item_of (d : db) (item : string * string * string) : Prop :=
  ∃ r, task_instances d !! item.1.1 = Some r ∧
       item.1.2 = tr_workflow_execution_id r ∧ item.2 = tr_handler_key r.

Lemma due_item_evolves d d' item : evolves d d' → due_item_of d item → due_item_of d' item.
Proof.
  intros He (r & Hr & Hx & Hh). destruct (ev_tasks _ _ He _ _ Hr) as (r' & Hr' & []).
  exists r'. split; [done |]. split; congruence.
Qed.

Lemma enqueue_retries_wf items e now n d b d' n' :
  env_ok e → tx_for items enqueue_retry e now n d = (inr (b, d'), n') →
  Forall (due_item_of d) items → db_wf d → db_wf d'.
Proof.
  intros He. revert n d. induction items as [| [[t x] h] items IH]; intros n d Hs Hi Hwf.
  { by cbn in Hs; inv_tx. }
  apply Forall_cons_1 in Hi as [(r & Hr & Ex & Eh) Hi]. cbn [fst snd] in *.
  cbn [tx_for] in Hs. apply tx_bind_ok in Hs as (? & d1 & n1 & H1 & Hs).
  unfold enqueue_retry in H1. apply tx_bind_ok in H1 as (? & d2 & n2 & H2 & (_ & H3 & _)%tx_stmt_ok).
  pose proof H2 as (_ & He2%insert_outbox_evolves & _)%tx_stmt_ok.
  rewrite Ex, Eh in H2. apply (enqueue_dispatch_wf t r) in H2 as [H2 _]; [| done..].
  pose proof H3 as He3%update_task_evolves; [| by auto with rel].
  apply update_task_wf in H3; [| by auto with rel..].
  apply (IH _ _ Hs); [| done]. eapply Forall_impl; [| exact Hi]. intros item Hit.
  eapply due_item_evolves; [| exact Hit]. by etrans.
Qed.

Lemma enqueue_due_wf limit : tx_keeps (enqueue_due_body limit).
Proof.
  intros e now n d b d' n' He Hs Hwf. unfold enqueue_due_body in Hs.
  apply tx_bind_ok in Hs as (items & d1 & n1 & (_ & H1 & ->)%tx_stmt_ok & Hs).
  apply tx_bind_ok in Hs as (? & d2 & n2 & H2 & Hs). inv_tx.
  unfold select_due in H1. inv_res. eapply enqueue_retries_wf; [exact He | exact H2 | | done].
  apply Forall_fmap, Forall_take, Forall_forall. intros [u r] Hu.
  apply list_elem_of_In, elem_of_sort_by, list_elem_of_filter in Hu as [_ Hu%elem_of_map_to_list].
  by exists r.
Qed.

(** * The methods *)

Lemma op_keeps_wf op :
  all_steps env_ok (λ w w', db_wf (w_db w) → db_wf (w_db w')) (op_proc op).
Proof.
  assert (Htx : ∀ A (b : tx A), tx_keeps b →
    all_steps env_ok (λ w w', db_wf (w_db w) → db_wf (w_db w')) (atomic (in_tx b))).
  { intros A b Hb. by eapply in_tx_invariant. }
  assert (Hro : ∀ A (s : stmt A), stmt_rel eq s →
    all_steps env_ok (λ w w', db_wf (w_db w) → db_wf (w_db w')) (atomic (autocommit s))).
  { intros A s' Hs. apply autocommit_invariant. by intros e n now d a d' _ ->%Hs. }
  assert (Hst : ∀ A (s : stmt A), (∀ e n now d a d', env_ok e → s e n now d = inr (a, d') → db_wf d → db_wf d') →
    all_steps env_ok (λ w w', db_wf (w_db w) → db_wf (w_db w')) (atomic (autocommit s))).
  { intros A s' Hs. by apply autocommit_invariant. }
  destruct op; apply all_steps_discard;
    try (apply Htx; auto using create_execution_wf, replay_wf, start_attempt_wf, complete_wf,
           complete_and_enqueue_wf, enqueue_due_wf, schedule_retry_wf, fail_wf);
    try (apply Hro; by auto with rel).
  - apply Hst. eauto using insert_definition_wf.
  - repeat (apply all_steps_bind; [apply Hro; by auto with rel |]; intros ?). done.
  - apply Hst. intros e n now d a d' _. apply update_outbox_wf. intros ? f [= <-] r k Hk. by split.
  - apply Hst. intros e n now d a d' _. apply update_outbox_wf. intros ? f Hf r k Hk. inv_res. by split.
  - apply all_steps_bind; [apply Hst; eauto using reserve_record_wf |]. intros []; [done |].
    apply all_steps_bind; [apply Hro; by auto with rel |]. intros row. by repeat case_match.
  - apply all_steps_bind; [apply Hst; eauto using complete_record_wf |]. intros k. by case_match.
  - apply Hst. eauto using release_record_wf.
Qed.

End wf_store.

Section property.
Context `{PostgresLaws}.

(** C4: however the methods of the store are interleaved, whatever calls are
    lost and whichever clients crash, the database stays well-formed: every
    reference resolves, statuses agree with the completion columns, no two tasks
    share an idempotency key, the attempts of a task are numbered from 1 to its
    counter once each, and every outbox event carries a payload from which the
    publisher reads the task, execution and handler it was written for. *)
Theorem store_keeps_wf w w' ps' :
  db_wf (w_db w) → rtc (pool_step env_ok is_store_op) (w, []) (w', ps') → db_wf (w_db w').
Proof.
  intros Hwf Hrun. eapply (pool_invariant env_ok is_store_op (λ w, db_wf (w_db w))); [| done | done | done].
  intros p [op ->]. apply op_keeps_wf.
Qed.
End property.

Import Demo.

(** * A concrete history

    One definition, an execution of it, its first task started and completed
    into a second task, which is started and fails for good. *)
Definition demo_history : list store_op :=
  [OpCreateWorkflowDefinition "orders" "" "{}";
   OpCreateExecutionAndTask (uuid 0) "{}" "reserve" "sample.echo";
   OpStartTaskAttempt (uuid 3);
   OpCompleteTaskAttemptAndEnqueueNextTask (uuid 3) (uuid 8) "ship" "sample.echo" "{}";
   OpStartTaskAttempt (uuid 15);
   OpFailTaskAttempt (uuid 15) (uuid 20) "carrier is down"].

Definition demo_world : dbw := run_all (op_proc <$> demo_history) calm (mk_dbw empty_db 0).

Lemma demo_reached : rtc (pool_step env_ok is_store_op) (mk_dbw empty_db 0, []) (demo_world, []).
Proof.
  apply pool_run_all; [apply calm_ok |]. apply Forall_fmap, Forall_forall. intros op _. by exists op.
Qed.

(** The history is what its comment says: the statuses at the end. *)
Example demo_statuses :
  (tr_status <$> (task_instances (w_db demo_world) !! uuid 3)) = Some TaskStatusSucceeded ∧
  (tr_status <$> (task_instances (w_db demo_world) !! uuid 15)) = Some TaskStatusDeadLettered ∧
  size (task_attempts (w_db demo_world)) = 2%nat ∧ size (outbox_events (w_db demo_world)) = 2%nat.
Proof. vm_compute. auto. Qed.

Lemma store_keeps_wf_witness : db_wf (w_db demo_world).
Proof. exact (store_keeps_wf (mk_dbw empty_db 0) demo_world [] empty_wf demo_reached). Defined.
