(* ===== verification/StoreSpec.v ===== *)
(** What each method of the store does, as a change of the database: the
    transaction takes effect as a whole or not at all, and a result is returned
    only when it took effect. *)

From S2P Require Import Prelude GoString GoJson GoError Proc Domain Db Pg Store Idempotency History Wf.
From S2P Require Import WfStore.

Open Scope string_scope.

(** [transacts E P m]: the run of a method against its specification. *)
Definition transacts {A} (E : env → Prop) (P : db → A → db → Prop) (p : proc dbw A) : Prop :=
  ∀ e w r w', E e → run p e w = (r, w') →
  match r with
  | inr a => P (w_db w) a (w_db w')
  | inl _ => w_db w' = w_db w ∨ ∃ a, P (w_db w) a (w_db w')
  end.

Lemma in_tx_transacts {A} E (P : db → A → db → Prop) (body : tx A) :
  (∀ e now n d a d' n', E e → body e now n d = (inr (a, d'), n') → P d a d') →
  transacts E P (atomic (in_tx body)).
Proof. intros Hb e w r w' He Hr. rewrite run_atomic in Hr. by eapply in_tx_writes. Qed.

Lemma autocommit_transacts {A} E (P : db → A → db → Prop) (s : stmt A) :
  (∀ e n now d a d', E e → s e n now d = inr (a, d') → P d a d') →
  transacts E P (atomic (autocommit s)).
Proof. intros Hs e w r w' He Hr. rewrite run_atomic in Hr. by eapply autocommit_writes. Qed.

(** A transaction that returned a result ran its body to the end. *)
Lemma run_tx_ok {A} (body : tx A) e w a w' :
  run (atomic (in_tx body)) e w = (inr a, w') →
  ∃ now n n', body e now n (w_db w) = (inr (a, w_db w'), n').
Proof.
  intros Hr.
  assert (Hw : transacts (eq e) (λ d a d', ∃ now n n', body e now n d = (inr (a, d'), n')) (atomic (in_tx body)))
    by (apply in_tx_transacts; intros ??????? <-; eauto).
  exact (Hw e w (inr a) w' eq_refl Hr).
Qed.

Section spec.
Context `{PostgresLaws}.

(** A new task of an execution, pending, with the event that dispatches it. *)
Definition fresh_task (x name h js : string) (now : Z) : task_row :=
  mk_task_row x name h TaskStatusPending js None None None 0
    (makeTaskIdempotencyKey x name) None None now now.

Definition dispatch_event (t pj : string) (now : Z) : outbox_row :=
  mk_outbox_row "task_instance" t "task.dispatch" pj now None 0 None now.

Definition key_unused (d : db) (k : string) : Prop :=
  map_Forall (λ _ r, tr_idempotency_key r ≠ k) (task_instances d).

(** The statements of [create_execution_body] and the like, inverted. *)
Lemma insert_task_inv x name h input key e n now d t d' :
  insert_task x name h input key e n now d = inr (t, d') →
  ∃ xid js, uuid_in x = inr xid ∧ jsonb_in input = inr js ∧
    utf8_valid (to_bytes name) = true ∧ utf8_valid (to_bytes h) = true ∧
    task_instances d !! e_uuid e n = None ∧ key_unused d key ∧ is_Some (workflow_executions d !! xid) ∧
    let row := mk_task_row xid name h TaskStatusPending js None None None 0 key None None now now in
    t = scanTaskInstance (e_uuid e n) row ∧
    d' = set_task_instances (<[e_uuid e n := row]> (task_instances d)) d.
Proof.
  intros Hs. unfold insert_task in Hs. inv_res.
  case_bool_decide as Hu; [done |]. destruct (existsb _ _) eqn:Hkey; [done |].
  case_bool_decide as Hd; [done |]. inv_res.
  repeat match goal with Ht : text_in _ = inr _ |- _ => apply text_in_inr in Ht as [-> ?] end.
  eexists _, _. split_and!; try done.
  - by apply eq_None_not_Some.
  - intros u r. by apply no_such_key.
  - by destruct (workflow_executions d !! _).
Qed.

Lemma insert_outbox_inv u payload e n now d a d' :
  insert_outbox u payload e n now d = inr (a, d') →
  ∃ t pj, uuid_in u = inr t ∧ jsonb_in payload = inr pj ∧ outbox_events d !! e_uuid e n = None ∧
  d' = set_outbox_events (<[e_uuid e n := dispatch_event t pj now]> (outbox_events d)) d.
Proof.
  intros Hs. unfold insert_outbox in Hs. inv_res. case_bool_decide as Hu; [done |]. inv_res.
  eexists _, _. split_and!; try done. by apply eq_None_not_Some.
Qed.

(** ** Triggering an execution *)

Definition execution_created (def input name h : string) (d : db) (res : ExecutionStartResult) (d' : db)
    : Prop :=
  ∃ did js x t o pj now,
    uuid_in def = inr did ∧ is_Some (workflow_definitions d !! did) ∧
    jsonb_in (normalizeJSON input) = inr js ∧
    workflow_executions d !! x = None ∧ task_instances d !! t = None ∧ outbox_events d !! o = None ∧
    key_unused d (makeTaskIdempotencyKey x name) ∧
    unmarshal_payload pj = Some (mkDispatchTaskPayload t x h) ∧
    let er := mk_exec_row did ExecutionStatusRunning js None None now now (Some now) None in
    let tr := fresh_task x name h js now in
    res = mkExecutionStartResult (scanWorkflowExecution x er) (scanTaskInstance t tr) ∧
    d' = mk_db (workflow_definitions d) (<[x := er]> (workflow_executions d))
           (<[t := tr]> (task_instances d)) (task_attempts d)
           (<[o := dispatch_event t pj now]> (outbox_events d)) (idempotency_records d).

Lemma create_execution_inv def input name h e now n d res d' n' :
  env_ok e → create_execution_body def input name h e now n d = (inr (res, d'), n') →
  execution_created def input name h d res d'.
Proof.
  intros He Hs. unfold create_execution_body in Hs.
  apply tx_bind_ok in Hs as (x & d1 & n1 & (_ & Hx & ->)%tx_stmt_ok & Hs).
  unfold insert_execution in Hx. inv_res. case_bool_decide as Hu; [done |].
  case_bool_decide as Hdef; [done |]. inv_res. inv_tx.
  match goal with Ht : insert_task _ _ _ _ _ _ _ _ _ = _ |- _ =>
    apply insert_task_inv in Ht as (xid & js & Hxid & Hjs & ? & ? & ? & ? & ? & -> & ->) end.
  match goal with Ho : enqueue_dispatch _ _ _ _ _ _ _ = _ |- _ =>
    apply tx_stmt_ok in Ho as (_ & (t & pj & Ht & Hpj & ? & ->)%insert_outbox_inv & _) end.
  cbn in Hxid, Ht, Hpj. rewrite He in Hxid, Ht. simplify_eq. same_res.
  eexists _, _, _, _, _, pj, now. split_and!; try done.
  - by destruct (workflow_definitions d !! _).
  - by apply eq_None_not_Some.
  - eapply payload_jsonb; [| done]. unfold payload_valid. cbn. rewrite !andb_true_iff. eauto with go.
Qed.

(** C15: CreateExecutionAndTask inserts the execution, its entry task and the
    event that dispatches it in one transaction: either all three rows are there
    (the execution running, the task pending with the key of execution and name,
    the event with a payload that reads back as this task) or none, whatever
    call is lost; and a result is returned only when they are there. *)
Theorem create_execution_spec def input name h :
  transacts env_ok (execution_created def input name h) (CreateExecutionAndTask def input name h).
Proof.
  apply in_tx_transacts. eauto using create_execution_inv.
Qed.

(** ** Completing an attempt *)

Definition task_succeeded (now : Z) (js : string) (r : task_row) : task_row :=
  set_tr_updated_at now (set_tr_completed_at (Some now)
    (set_tr_output_json (Some js) (set_tr_status TaskStatusSucceeded r))).

Definition attempt_succeeded (now : Z) (js : string) (r : attempt_row) : attempt_row :=
  set_ar_output_json (Some js) (set_ar_finished_at (Some now)
    (set_ar_status TaskAttemptStatusSucceeded r)).

Definition execution_succeeded (now : Z) (js : string) (r : exec_row) : exec_row :=
  set_er_updated_at now (set_er_completed_at (Some now)
    (set_er_output_json (Some js) (set_er_status ExecutionStatusSucceeded r))).

Lemma select_execution_of_inv t e n now d x d' :
  select_execution_of t e n now d = inr (x, d') →
  d' = d ∧ ∃ tid r, uuid_in t = inr tid ∧ task_instances d !! tid = Some r ∧ x = tr_workflow_execution_id r.
Proof.
  unfold select_execution_of, select_row. intros Hs. inv_res.
  destruct (task_instances d !! _) as [r |] eqn:Hr; [| done]. inv_res. eauto 10.
Qed.

Lemma update_attempt_succeeded_inv a p e n now d b d' :
  update_attempt a (set_attempt_succeeded p) e n now d = inr (b, d') →
  ∃ aid js, uuid_in a = inr aid ∧ jsonb_in p = inr js ∧
    d' = set_task_attempts (alter (attempt_succeeded now js) aid (task_attempts d)) d.
Proof. unfold update_attempt, set_attempt_succeeded. intros Hs. inv_res. eauto 10. Qed.

Lemma update_task_succeeded_inv t tid r p e n now d b d' :
  uuid_in t = inr tid → task_instances d !! tid = Some r →
  update_task t (set_task_succeeded p) e n now d = inr (b, d') →
  ∃ js, jsonb_in p = inr js ∧
    d' = set_task_instances (<[tid := task_succeeded now js r]> (task_instances d)) d.
Proof.
  unfold update_task, set_task_succeeded. intros Ht Hr Hs. rewrite Ht in Hs. inv_res.
  eexists. split; [done |]. f_equal. symmetry.
  apply (insert_alter _ _ _ (task_succeeded now _)), Hr.
Qed.

(** The task succeeded with output [out], and so did the whole execution. *)
Definition execution_finished (t a out : string) (d : db) (d' : db) : Prop :=
  ∃ tid aid r js now,
    uuid_in t = inr tid ∧ uuid_in a = inr aid ∧ jsonb_in (normalizeJSON out) = inr js ∧
    task_instances d !! tid = Some r ∧
    d' = mk_db (workflow_definitions d)
           (alter (execution_succeeded now js) (tr_workflow_execution_id r) (workflow_executions d))
           (<[tid := task_succeeded now js r]> (task_instances d))
           (alter (attempt_succeeded now js) aid (task_attempts d))
           (outbox_events d) (idempotency_records d).

Lemma complete_inv t a out e now n d b d' n' :
  db_wf d → complete_body t a out e now n d = (inr (b, d'), n') → execution_finished t a out d d'.
Proof.
  intros Hwf Hs. unfold complete_body in Hs.
  apply tx_bind_ok in Hs as (x & d1 & n1 & (_ & Hx & ->)%tx_stmt_ok & Hs).
  apply select_execution_of_inv in Hx as (-> & tid & r & Htid & Hr & ->).
  apply tx_bind_ok in Hs as (? & d2 & n2 & (_ & Ha & ->)%tx_stmt_ok & Hs).
  apply update_attempt_succeeded_inv in Ha as (aid & js & Haid & Hjs & ->).
  apply tx_bind_ok in Hs as (? & d3 & n3 & (_ & Ht & ->)%tx_stmt_ok & (_ & Hs & _)%tx_stmt_ok).
  apply (update_task_succeeded_inv _ tid r) in Ht as (js' & Hjs' & ->); [| done | done].
  unfold update_execution, set_execution_succeeded in Hs. inv_res. same_res.
  destruct (wf_tasks _ Hwf _ _ Hr) as [_ [Hxc _ _ _ _ _ _ _ _ _]]. same_res.
  by eexists tid, aid, r, _, now.
Qed.

(** CompleteTaskAttempt marks attempt, task and execution succeeded with
    the same output in one transaction, and changes nothing else. *)
Theorem complete_spec t a out :
  transacts env_ok (λ d _ d', db_wf d → execution_finished t a out d d') (CompleteTaskAttempt t a out).
Proof. apply in_tx_transacts. eauto using complete_inv. Qed.

(** The task succeeded with output [out], which is the input of the next task. *)
Definition task_advanced (t a nt nh out : string) (d : db) (d' : db) : Prop :=
  ∃ tid aid r js u o pj now,
    uuid_in t = inr tid ∧ uuid_in a = inr aid ∧ jsonb_in (normalizeJSON out) = inr js ∧
    task_instances d !! tid = Some r ∧ task_instances d !! u = None ∧ outbox_events d !! o = None ∧
    key_unused d (makeTaskIdempotencyKey (tr_workflow_execution_id r) nt) ∧
    unmarshal_payload pj = Some (mkDispatchTaskPayload u (tr_workflow_execution_id r) nh) ∧
    d' = mk_db (workflow_definitions d) (workflow_executions d)
           (<[u := fresh_task (tr_workflow_execution_id r) nt nh js now]>
              (<[tid := task_succeeded now js r]> (task_instances d)))
           (alter (attempt_succeeded now js) aid (task_attempts d))
           (<[o := dispatch_event u pj now]> (outbox_events d)) (idempotency_records d).

Lemma complete_and_enqueue_inv t a nt nh out e now n d b d' n' :
  env_ok e → db_wf d → complete_and_enqueue_body t a nt nh out e now n d = (inr (b, d'), n') →
  task_advanced t a nt nh out d d'.
Proof.
  intros He Hwf Hs. unfold complete_and_enqueue_body in Hs.
  apply tx_bind_ok in Hs as (x & d1 & n1 & (_ & Hx & ->)%tx_stmt_ok & Hs).
  apply select_execution_of_inv in Hx as (-> & tid & r & Htid & Hr & ->).
  apply tx_bind_ok in Hs as (? & d2 & n2 & (_ & Ha & ->)%tx_stmt_ok & Hs).
  apply update_attempt_succeeded_inv in Ha as (aid & js & Haid & Hjs & ->).
  apply tx_bind_ok in Hs as (? & d3 & n3 & (_ & Ht & ->)%tx_stmt_ok & Hs).
  apply (update_task_succeeded_inv _ tid r) in Ht as (js' & Hjs' & ->); [| done | done].
  apply tx_bind_ok in Hs as (t' & d4 & n4 & (_ & Ht' & ->)%tx_stmt_ok & Hs).
  apply insert_task_inv in Ht' as (xid & js2 & Hxid & Hjs2 & ? & ? & Hnew & Hkey & ? & -> & ->).
  apply tx_stmt_ok in Hs as (_ & (u & pj & Hu & Hpj & ? & ->)%insert_outbox_inv & _).
  destruct (wf_tasks _ Hwf _ _ Hr) as [_ [Hxc _ _ _ _ _ _ _ _ _]]. same_res.
  cbn in Hu, Hpj. rewrite He in Hu. simplify_eq.
  cbn in Hnew. apply lookup_insert_None in Hnew as [Hnew Hne].
  eexists tid, aid, r, _, _, _, pj, now. split_and!; try done.
  - intros v y Hy. destruct (decide (v = tid)) as [-> | Hv].
    + rewrite Hr in Hy. injection Hy as <-. apply (Hkey tid _ (lookup_insert_eq _ _ _)).
    + apply (Hkey v y). cbn. by rewrite lookup_insert_ne.
  - eapply payload_jsonb; [| done]. unfold payload_valid. cbn. rewrite !andb_true_iff. eauto with go.
Qed.

(** C16: CompleteTaskAttemptAndEnqueueNextTask marks attempt and task succeeded,
    creates the next task of the same execution with the output as its input,
    and writes the event that dispatches it, in one transaction; the execution
    itself is left as it is (running). *)
Theorem advance_spec t a nt nh out :
  transacts env_ok (λ d _ d', db_wf d → task_advanced t a nt nh out d d')
    (CompleteTaskAttemptAndEnqueueNextTask t a nt nh out).
Proof. apply in_tx_transacts. eauto using complete_and_enqueue_inv. Qed.

Definition key_used (d : db) (k : string) : Prop :=
  ∃ u r, task_instances d !! u = Some r ∧ tr_idempotency_key r = k.

(** In a calm run the body fails at the unique index of the keys. *)
Lemma advance_conflict_error t tid r a nt nh out js e now n d :
  reliable e → db_wf d → uuid_in t = inr tid → task_instances d !! tid = Some r →
  is_ok (uuid_in a) → jsonb_in (normalizeJSON out) = inr js → is_ok (text_in nt) → is_ok (text_in nh) →
  is_ok (text_in (makeTaskIdempotencyKey (tr_workflow_execution_id r) nt)) →
  key_used d (makeTaskIdempotencyKey (tr_workflow_execution_id r) nt) →
  ∃ err n', complete_and_enqueue_body t a nt nh out e now n d = (inl err, n') ∧
  IsUniqueViolation err = true.
Proof.
  intros He Hwf Ht Hr Ha Hjs Hnt Hnh Hk (u & r' & Hu & Hkey).
  destruct (wf_tasks _ Hwf _ _ Hr) as [_ [Hx _ _ _ _ _ _ _ _ _]].
  destruct (uuid_in a) as [|aid] eqn:Ea; [done |]. destruct (text_in nt) as [|nt'] eqn:Ent; [done |].
  destruct (text_in nh) as [|nh'] eqn:Enh; [done |]. destruct (text_in (makeTaskIdempotencyKey _ _)) as [|k] eqn:Ek; [done |].
  apply text_in_inr in Ek as Ek'. destruct Ek' as [-> _].
  unfold complete_and_enqueue_body, tx_bind. rewrite !run_tx_stmt by done.
  unfold select_execution_of, select_row. rewrite Ht. cbn [rbind]. rewrite Hr.
  rewrite run_tx_stmt by done. unfold update_attempt, set_attempt_succeeded. rewrite Ea, Hjs. cbn [rbind].
  rewrite run_tx_stmt by done. unfold update_task, set_task_succeeded. rewrite Ht, Hjs. cbn [rbind].
  rewrite run_tx_stmt by done. unfold insert_task. rewrite Hx, Ent, Enh, Hjs, Ek. cbn [rbind].
  case_bool_decide; [by eexists _, _ |].
  rewrite (proj2 (existsb_exists _ _)); [by eexists _, _ |].
  set (f := λ _ : task_row, _). 
  exists (u, if decide (u = tid) then f r' else r'). split.
  - apply list_elem_of_In, elem_of_map_to_list. cbn. case_decide; subst.
    + by rewrite lookup_alter_eq, Hu.
    + by rewrite lookup_alter_ne.
  - apply String.eqb_eq. by case_decide.
Qed.

(** When the execution already has a task of the next task's name, the
    completion cannot succeed: it returns an error, and attempt, task and
    everything else stay as they were; with a server that answers and accepts
    the parameters the error is a violation of the unique index of the
    idempotency keys. *)
Theorem advance_conflict t tid r a nt nh out e w res w' :
  env_ok e → db_wf (w_db w) → uuid_in t = inr tid → task_instances (w_db w) !! tid = Some r →
  key_used (w_db w) (makeTaskIdempotencyKey (tr_workflow_execution_id r) nt) →
  run (CompleteTaskAttemptAndEnqueueNextTask t a nt nh out) e w = (res, w') →
  w_db w' = w_db w ∧ ∃ err, res = inl err ∧
  (reliable e → is_ok (uuid_in a) → is_ok (jsonb_in (normalizeJSON out)) → is_ok (text_in nt) →
   is_ok (text_in nh) → is_ok (text_in (makeTaskIdempotencyKey (tr_workflow_execution_id r) nt)) →
   IsUniqueViolation err = true).
Proof.
  intros He Hwf Ht Hr Hk Hrun.
  assert (Hno : ∀ d', ¬ task_advanced t a nt nh out (w_db w) d').
  { intros d' (tid' & aid & r' & js & u & o & pj & now & Ht' & _ & _ & Hr' & _ & _ & Hun & _).
    same_res. simplify_eq. destruct Hk as (v & y & Hv & Hy). by apply (Hun v y). }
  assert (Hsp : transacts env_ok (λ d _ d', db_wf d → task_advanced t a nt nh out d d')
    (CompleteTaskAttemptAndEnqueueNextTask t a nt nh out))
    by (apply in_tx_transacts; eauto using complete_and_enqueue_inv).
  specialize (Hsp e w res w' He Hrun). destruct res as [err | []]; [| by apply Hsp in Hwf; apply Hno in Hwf].
  split; [destruct Hsp as [? | [a' Ha']]; [done | by apply Ha' in Hwf; apply Hno in Hwf] |].
  exists err. split; [done |]. intros Hrel Ha Hjs Hnt Hnh Hkt.
  destruct (jsonb_in (normalizeJSON out)) as [|js] eqn:Ejs; [done |].
  unfold CompleteTaskAttemptAndEnqueueNextTask in Hrun. rewrite run_atomic, run_in_tx in Hrun by done.
  destruct (advance_conflict_error t tid r a nt nh out js e (e_now e (w_tick w)) (S (w_tick w)) (w_db w))
    as (err' & n' & Eb & Hu); try done.
  rewrite Eb in Hrun. by simplify_eq.
Qed.

(** ** Starting an attempt *)

Definition task_started (now k : Z) (r : task_row) : task_row :=
  set_tr_updated_at now (set_tr_next_run_at None
    (set_tr_attempts_total k (set_tr_status TaskStatusRunning r))).

Definition terminal (status : string) : Prop :=
  status = TaskStatusSucceeded ∨ status = TaskStatusDeadLettered.

#[global] Instance terminal_dec status : Decision (terminal status).
Proof. unfold terminal. apply _. Defined.

Definition attempt_started (t : string) (d : db) (res : TaskInstance * TaskAttempt * bool) (d' : db) : Prop :=
  ∃ tid r, uuid_in t = inr tid ∧ task_instances d !! tid = Some r ∧
  if decide (terminal (tr_status r)) then res = (scanTaskInstance tid r, zero_attempt, true) ∧ d' = d
  else ∃ a now, task_attempts d !! a = None ∧
    let k := (tr_attempts_total r + 1)%Z in
    let ar := mk_attempt_row tid k TaskAttemptStatusRunning now None None None now in
    res = (scanTaskInstance tid (task_started now k r), scanTaskAttempt a ar, false) ∧
    d' = mk_db (workflow_definitions d) (workflow_executions d)
           (<[tid := task_started now k r]> (task_instances d)) (<[a := ar]> (task_attempts d))
           (outbox_events d) (idempotency_records d).

Lemma start_attempt_spec_inv t e now n d res d' n' :
  db_wf d → start_attempt_body t e now n d = (inr (res, d'), n') → attempt_started t d res d'.
Proof.
  intros Hwf Hs. unfold start_attempt_body in Hs.
  apply tx_bind_ok in Hs as (task & d1 & n1 & (_ & Ht & ->)%tx_stmt_ok & Hs).
  unfold select_row in Ht. inv_res. destruct (task_instances d !! _) as [r |] eqn:Hr; [| done]. inv_res.
  exists x, r. split; [done |]. split; [done |]. cbn [ti_Status scanTaskInstance] in Hs.
  case_decide as Hterm; unfold terminal in Hterm; rewrite <-!String.eqb_eq in Hterm.
  - rewrite (proj2 (orb_true_iff _ _) Hterm) in Hs. by inv_tx.
  - destruct (_ || _)%bool eqn:Eb; [by apply orb_true_iff in Eb |]. inv_tx.
    lazymatch goal with Ha : insert_attempt _ _ _ _ _ _ = _, Hu : update_task_returning _ _ _ _ _ _ = _ |- _ =>
      destruct (start_attempt_inv _ r _ _ _ _ _ _ _ _ _ _ _ Hwf Hr eq_refl Ha Hu eq_refl)
        as (Hk & Hn & _ & -> & -> & ->) end.
    exists (e_uuid e (S n)), now. split; [done |]. cbn zeta. unfold task_started. cbn in Hk. by rewrite Hk.
Qed.

(** C17: StartTaskAttempt on a succeeded or dead-lettered task reports it as
    already completed and changes nothing; on any other task, a running one
    included, it adds the attempt with the next number, marks the task running,
    clears its retry time, and returns both rows. *)
Theorem start_attempt_spec t :
  transacts env_ok (λ d res d', db_wf d → attempt_started t d res d') (StartTaskAttempt t).
Proof. apply in_tx_transacts. eauto using start_attempt_spec_inv. Qed.

(** ** Failing an attempt *)

Definition attempt_failed (now : Z) (text : string) (r : attempt_row) : attempt_row :=
  set_ar_error_text (Some text) (set_ar_finished_at (Some now)
    (set_ar_status TaskAttemptStatusFailed r)).

Definition task_retried (now at_ : Z) (text : string) (r : task_row) : task_row :=
  set_tr_updated_at now (set_tr_next_run_at (Some at_)
    (set_tr_last_error_text (Some text) (set_tr_status TaskStatusPending r))).

Definition task_dead (now : Z) (text : string) (r : task_row) : task_row :=
  set_tr_updated_at now (set_tr_completed_at (Some now) (set_tr_next_run_at None
    (set_tr_last_error_text (Some text) (set_tr_status TaskStatusDeadLettered r)))).

Definition execution_failed (now : Z) (text : string) (r : exec_row) : exec_row :=
  set_er_updated_at now (set_er_completed_at (Some now)
    (set_er_error_text (Some text) (set_er_status ExecutionStatusFailed r))).

Definition retry_scheduled (t a text : string) (at_ : Z) (d d' : db) : Prop :=
  ∃ tid aid now, uuid_in t = inr tid ∧ uuid_in a = inr aid ∧
    utf8_valid (to_bytes (truncate text 1000)) = true ∧
    d' = mk_db (workflow_definitions d) (workflow_executions d)
           (alter (task_retried now (timestamptz_in at_) (truncate text 1000)) tid (task_instances d))
           (alter (attempt_failed now (truncate text 1000)) aid (task_attempts d))
           (outbox_events d) (idempotency_records d).

Lemma update_attempt_failed_inv a text e n now d b d' :
  update_attempt a (set_attempt_failed text) e n now d = inr (b, d') →
  ∃ aid, uuid_in a = inr aid ∧ utf8_valid (to_bytes text) = true ∧
    d' = set_task_attempts (alter (attempt_failed now text) aid (task_attempts d)) d.
Proof.
  unfold update_attempt, set_attempt_failed. intros Hs. inv_res.
  match goal with Ht : text_in _ = inr _ |- _ => apply text_in_inr in Ht as [-> ?] end. eauto.
Qed.

Lemma schedule_retry_inv t a text at_ e now n d b d' n' :
  schedule_retry_body t a text at_ e now n d = (inr (b, d'), n') → retry_scheduled t a text at_ d d'.
Proof.
  intros Hs. unfold schedule_retry_body in Hs.
  apply tx_bind_ok in Hs as (? & d1 & n1 & (_ & Ha & ->)%tx_stmt_ok & (_ & Ht & _)%tx_stmt_ok).
  apply update_attempt_failed_inv in Ha as (aid & Haid & Hutf & ->).
  unfold update_task, set_task_retry in Ht. inv_res.
  match goal with Hx : text_in _ = inr _ |- _ => apply text_in_inr in Hx as [-> ?] end.
  by eexists _, aid, now.
Qed.

(** ScheduleTaskRetry fails the attempt and makes the task pending with a
    retry time, in one transaction; nothing else changes.  It does not look at
    the status the task has. *)
Theorem schedule_retry_spec t a text at_ :
  transacts env_ok (λ d _ d', retry_scheduled t a text at_ d d') (ScheduleTaskRetry t a text at_).
Proof. apply in_tx_transacts. eauto using schedule_retry_inv. Qed.

Definition attempt_dead (t a text : string) (d d' : db) : Prop :=
  ∃ tid aid r now, uuid_in t = inr tid ∧ uuid_in a = inr aid ∧ task_instances d !! tid = Some r ∧
    utf8_valid (to_bytes (truncate text 1000)) = true ∧
    d' = mk_db (workflow_definitions d)
           (alter (execution_failed now (truncate text 1000)) (tr_workflow_execution_id r) (workflow_executions d))
           (<[tid := task_dead now (truncate text 1000) r]> (task_instances d))
           (alter (attempt_failed now (truncate text 1000)) aid (task_attempts d))
           (outbox_events d) (idempotency_records d).

Lemma fail_inv t a text e now n d b d' n' :
  db_wf d → fail_body t a text e now n d = (inr (b, d'), n') → attempt_dead t a text d d'.
Proof.
  intros Hwf Hs. unfold fail_body in Hs.
  apply tx_bind_ok in Hs as (x & d1 & n1 & (_ & Hx & ->)%tx_stmt_ok & Hs).
  apply select_execution_of_inv in Hx as (-> & tid & r & Htid & Hr & ->).
  apply tx_bind_ok in Hs as (? & d2 & n2 & (_ & Ha & ->)%tx_stmt_ok & Hs).
  apply update_attempt_failed_inv in Ha as (aid & Haid & Hutf & ->).
  apply tx_bind_ok in Hs as (? & d3 & n3 & (_ & Ht & ->)%tx_stmt_ok & (_ & Hs & _)%tx_stmt_ok).
  unfold update_task, set_task_dead_lettered in Ht. unfold update_execution, set_execution_failed in Hs.
  destruct (wf_tasks _ Hwf _ _ Hr) as [_ [Hxc _ _ _ _ _ _ _ _ _]].
  inv_res. same_res. match goal with Hx : text_in _ = inr _ |- _ => apply text_in_inr in Hx as [-> ?] end.
  eexists _, aid, r, now. split_and!; try done. cbn.
  by rewrite (insert_alter _ _ _ (task_dead now (truncate text 1000)) Hr).
Qed.

(** FailTaskAttempt fails the attempt, dead-letters its task and fails the
    execution, all with the truncated error text, in one transaction. *)
Theorem fail_spec t a text :
  transacts env_ok (λ d _ d', db_wf d → attempt_dead t a text d d') (FailTaskAttempt t a text).
Proof. apply in_tx_transacts. eauto using fail_inv. Qed.

End spec.
