(* ===== verification/StoreSpec2.v ===== *)
(** Specifications of the store, continued: replaying a dead-lettered task,
    enqueueing the retries that are due, and the queries with an order and a
    limit. *)

From S2P Require Import Prelude GoString GoJson GoError Proc Domain Db Pg Store Idempotency History Wf.
From S2P Require Import WfStore StoreSpec.

Open Scope string_scope.

Section spec.
Context `{PostgresLaws}.

(** ** Replay *)

Definition task_rewound (now : Z) (r : task_row) : task_row :=
  set_tr_updated_at now (set_tr_completed_at None (set_tr_last_error_text None
    (set_tr_next_run_at None (set_tr_output_json None (set_tr_status TaskStatusPending r))))).

Definition execution_rerun (now : Z) (r : exec_row) : exec_row :=
  set_er_updated_at now (set_er_completed_at None (set_er_error_text None
    (set_er_status ExecutionStatusRunning r))).

Definition task_replayed (t : string) (d : db) (res : TaskInstance) (d' : db) : Prop :=
  ∃ tid r o pj now, uuid_in t = inr tid ∧ task_instances d !! tid = Some r ∧
    tr_status r = TaskStatusDeadLettered ∧ outbox_events d !! o = None ∧
    unmarshal_payload pj = Some (mkDispatchTaskPayload tid (tr_workflow_execution_id r) (tr_handler_key r)) ∧
    res = scanTaskInstance tid (task_rewound now r) ∧
    d' = mk_db (workflow_definitions d)
           (alter (execution_rerun now) (tr_workflow_execution_id r) (workflow_executions d))
           (<[tid := task_rewound now r]> (task_instances d)) (task_attempts d)
           (<[o := dispatch_event tid pj now]> (outbox_events d)) (idempotency_records d).

Lemma replay_inv t e now n d res d' n' :
  db_wf d → replay_body t e now n d = (inr (res, d'), n') → task_replayed t d res d'.
Proof.
  intros Hwf Hs. unfold replay_body in Hs.
  apply tx_bind_ok in Hs as (task & d1 & n1 & (_ & Ht & ->)%tx_stmt_ok & Hs).
  unfold select_row in Ht. inv_res. rename x into tid.
  destruct (task_instances d !! _) as [r |] eqn:Hr; [| done]. inv_res.
  cbn [ti_Status ti_ID ti_WorkflowExecutionID scanTaskInstance] in Hs.
  destruct (String.eqb (tr_status r) TaskStatusDeadLettered) eqn:Hst; [| done]. cbn [negb] in Hs.
  apply String.eqb_eq in Hst. destruct (wf_tasks _ Hwf _ _ Hr) as [Hc [Hxc _ _ Hh _ _ _ _ _ _]].
  apply tx_bind_ok in Hs as (t1 & d2 & n2 & (_ & Ht1 & ->)%tx_stmt_ok & Hs).
  unfold update_task_returning, set_task_replayed in Ht1. rewrite Hc in Ht1. cbn [rbind] in Ht1.
  rewrite Hr in Ht1. inv_res.
  apply tx_bind_ok in Hs as (? & d3 & n3 & (_ & Hx & ->)%tx_stmt_ok & Hs).
  unfold update_execution, set_execution_running in Hx. rewrite Hxc in Hx. cbn [rbind] in Hx. inv_res.
  apply tx_bind_ok in Hs as (? & d4 & n4 & (_ & Ho & ->)%tx_stmt_ok & Hs).
  apply insert_outbox_inv in Ho as (u & pj & Hu & Hpj & Hnew & ->). inv_tx.
  cbn [ti_ID scanTaskInstance] in Hu. same_res.
  eexists _, r, _, pj, now. split_and!; try done.
  eapply payload_jsonb; [| exact Hpj]. unfold payload_valid. cbn. rewrite !andb_true_iff. eauto with go.
Qed.

(** In a calm run, a task that is not dead-lettered is refused. *)
Lemma replay_refused t tid r e w :
  reliable e → uuid_in t = inr tid → task_instances (w_db w) !! tid = Some r →
  tr_status r ≠ TaskStatusDeadLettered →
  (run (ReplayDeadLetteredTask t) e w).1 = inl ErrTaskNotReplayable.
Proof.
  intros He Ht Hr Hst. unfold ReplayDeadLetteredTask. rewrite run_atomic, run_in_tx by done.
  unfold replay_body, tx_bind. rewrite run_tx_stmt by done. unfold select_row. rewrite Ht. cbn [rbind].
  rewrite Hr. cbn [ti_Status scanTaskInstance].
  destruct (String.eqb _ _) eqn:E; [by apply String.eqb_eq in E |]. done.
Qed.

(** C19: ReplayDeadLetteredTask returns only after it made a dead-lettered task
    pending again (without error, output and completion time), its execution
    running again, and wrote a new dispatch event, in one transaction that keeps
    all attempts and the attempt counter; a task in any other status is refused
    with the not-replayable error and nothing is changed. *)
Theorem replay_spec t :
  transacts env_ok (λ d res d', db_wf d → task_replayed t d res d') (ReplayDeadLetteredTask t) ∧
  ∀ tid r e w res w', uuid_in t = inr tid → task_instances (w_db w) !! tid = Some r →
    tr_status r ≠ TaskStatusDeadLettered → env_ok e → db_wf (w_db w) →
    run (ReplayDeadLetteredTask t) e w = (res, w') →
    w_db w' = w_db w ∧ (reliable e → res = inl ErrTaskNotReplayable).
Proof.
  assert (Hsp : transacts env_ok (λ d res d', db_wf d → task_replayed t d res d') (ReplayDeadLetteredTask t))
    by (apply in_tx_transacts; eauto using replay_inv).
  split; [done |]. intros tid r e w res w' Ht Hr Hst He Hwf Hrun. split.
  - specialize (Hsp e w res w' He Hrun).
    assert (Hno : ∀ a d', ¬ task_replayed t (w_db w) a d').
    { intros a d' (tid' & r' & ? & ? & ? & Ht' & Hr' & Hst' & _). same_res. simplify_eq. }
    destruct res as [err | a]; [| by apply Hsp, Hno in Hwf].
    destruct Hsp as [? | [a Ha]]; [done | by apply Ha, Hno in Hwf].
  - intros Hrel. pose proof (replay_refused t tid r e w Hrel Ht Hr Hst) as Hf. by rewrite Hrun in Hf.
Qed.

(** ** Due retries *)

Definition task_enqueued (now : Z) (r : task_row) : task_row :=
  set_tr_updated_at now (set_tr_next_run_at None r).

(** [items] of [d] get one event each and lose their retry time; nothing else changes. *)
Record retries_written (now : Z) (items : list (string * task_row)) (d d' : db) : Prop := {
  rw_tasks u : task_instances d' !! u =
    (if decide (u ∈ items.*1) then task_enqueued now <$> (task_instances d !! u) else task_instances d !! u);
  rw_rest : workflow_definitions d' = workflow_definitions d ∧ workflow_executions d' = workflow_executions d ∧
    task_attempts d' = task_attempts d ∧ idempotency_records d' = idempotency_records d;
  rw_events : ∃ os : list string, length os = length items ∧ NoDup os ∧
    (∀ o, o ∈ os → outbox_events d !! o = None) ∧
    (∀ o, o ∉ os → outbox_events d' !! o = outbox_events d !! o) ∧
    ∀ i o u r, os !! i = Some o → items !! i = Some (u, r) →
      ∃ pj, outbox_events d' !! o = Some (dispatch_event u pj now) ∧
        unmarshal_payload pj = Some (mkDispatchTaskPayload u (tr_workflow_execution_id r) (tr_handler_key r));
}.

(** One step of the loop. *)
Lemma enqueue_retry_inv u r e now n d b d' n' :
  db_wf d → task_instances d !! u = Some r →
  enqueue_retry (u, tr_workflow_execution_id r, tr_handler_key r) e now n d = (inr (b, d'), n') →
  ∃ o pj, outbox_events d !! o = None ∧
    unmarshal_payload pj = Some (mkDispatchTaskPayload u (tr_workflow_execution_id r) (tr_handler_key r)) ∧
    d' = set_task_instances (<[u := task_enqueued now r]> (task_instances d))
           (set_outbox_events (<[o := dispatch_event u pj now]> (outbox_events d)) d).
Proof.
  intros Hwf Hr Hs. unfold enqueue_retry in Hs.
  apply tx_bind_ok in Hs as (? & d1 & n1 & (_ & Ho & ->)%tx_stmt_ok & (_ & Ht & _)%tx_stmt_ok).
  destruct (wf_tasks _ Hwf _ _ Hr) as [Hc [Hxc _ _ Hh _ _ _ _ _ _]].
  apply insert_outbox_inv in Ho as (v & pj & Hv & Hpj & Hnew & ->). same_res.
  unfold update_task, set_task_enqueued in Ht. inv_res. same_res.
  eexists _, pj. split; [done |]. split.
  - eapply payload_jsonb; [| exact Hpj]. unfold payload_valid. cbn. rewrite !andb_true_iff. eauto with go.
  - cbn. by rewrite (insert_alter _ _ _ (task_enqueued now) Hr).
Qed.

Lemma retries_written_cons now u r items d d1 d' :
  u ∉ items.*1 → task_instances d !! u = Some r →
  (∃ o pj, outbox_events d !! o = None ∧
    unmarshal_payload pj = Some (mkDispatchTaskPayload u (tr_workflow_execution_id r) (tr_handler_key r)) ∧
    d1 = set_task_instances (<[u := task_enqueued now r]> (task_instances d))
           (set_outbox_events (<[o := dispatch_event u pj now]> (outbox_events d)) d)) →
  retries_written now items d1 d' → retries_written now ((u, r) :: items) d d'.
Proof.
  intros Hu Hr (o & pj & Ho & Hpj & ->) [Ht (? & ? & ? & ?) (os & Hlen & Hnd & Hnew & Hold & Hev)].
  cbn in *. split; [| done |].
  - intros v. rewrite Ht. destruct (decide (v = u)) as [-> | Hne].
    + rewrite decide_False, decide_True by set_solver. by rewrite lookup_insert_eq, Hr.
    + rewrite lookup_insert_ne by done. case_decide; [rewrite decide_True | rewrite decide_False]; set_solver.
  - assert (Hos : o ∉ os) by (intros Hin%Hnew; by rewrite lookup_insert_eq in Hin).
    exists (o :: os). split_and!; [cbn; lia | by constructor | | |].
    + intros o' [-> | Hin]%elem_of_cons; [done |]. apply Hnew in Hin.
      by apply lookup_insert_None in Hin as [? _].
    + intros o' [Hne Hin]%not_elem_of_cons. by rewrite Hold, lookup_insert_ne.
    + intros [| i] o' u' r' Ho' Hi; cbn in *; [| by eapply Hev]. simplify_eq.
      exists pj. split; [| done]. rewrite Hold by done. apply lookup_insert_eq.
Qed.

Definition item_of (p : string * task_row) : string * string * string :=
  (p.1, tr_workflow_execution_id p.2, tr_handler_key p.2).

Lemma retries_loop items e now n d b d' n' :
  env_ok e → db_wf d → NoDup items.*1 → Forall (λ p, task_instances d !! p.1 = Some p.2) items →
  tx_for (item_of <$> items) enqueue_retry e now n d = (inr (b, d'), n') →
  retries_written now items d d'.
Proof.
  intros He. revert n d. induction items as [| [u r] items IH]; intros n d Hwf Hnd Hin Hs.
  { cbn in Hs. inv_tx. split; [intros u; by rewrite decide_False by set_solver | done |].
    exists []. split_and!; try done. by intros o ?%elem_of_nil. }
  apply Forall_cons_1 in Hin as [Hr Hin]. apply list.NoDup_cons in Hnd as [Hu Hnd]. cbn [fst snd] in *.
  cbn [fmap list_fmap tx_for] in Hs. apply tx_bind_ok in Hs as ([] & d1 & n1 & H1 & Hs).
  assert (Hwf1 : db_wf d1).
  { eapply (enqueue_retries_wf [item_of (u, r)]); [exact He | | | exact Hwf].
    - cbn [tx_for]. apply tx_bind_ok. exists (), d1, n1. split; [exact H1 | reflexivity].
    - constructor; [by exists r | done]. }
  apply enqueue_retry_inv in H1; [| done..].
  eapply (retries_written_cons now u r items d d1); [done | done | exact H1 |].
  apply (IH n1); [done | done | | exact Hs].
  destruct H1 as (o & pj & _ & _ & ->). apply Forall_forall. intros [v y] Hv%list_elem_of_In.
  cbn. rewrite lookup_insert_ne.
  - by apply (proj1 (Forall_forall _ _) Hin (v, y)), list_elem_of_In.
  - intros ->. apply Hu. by apply (list_elem_of_fmap_2' fst _ (v, y)).
Qed.

(** The tasks that are due and that no other transaction has locked. *)
Definition due_tasks (now : Z) (locked : string → bool) (d : db) : list (string * task_row) :=
  filter (λ p, is_due now p.2 = true ∧ locked p.1 = false) (map_to_list (task_instances d)).

(** [l] is the first [limit] elements of a sorting of [all] by [key]. *)
Record first_by {A} (key : A → Z) (limit : Z) (all l : list A) : Prop := {
  fb_limit : (0 ≤ limit)%Z;
  fb_length : length l = Nat.min (Z.to_nat limit) (length all);
  fb_sub : ∃ rest, (l ++ rest)%list ≡ₚ all ∧ ∀ x y, x ∈ l → y ∈ rest → (key x ≤ key y)%Z;
  fb_sorted : StronglySorted (λ x y, (key x ≤ key y)%Z) l;
}.

Lemma take_sort_first {A} (key : A → Z) limit all :
  (0 ≤ limit)%Z → first_by key limit all (take (Z.to_nat limit) (sort_by key all)).
Proof.
  intros Hl. pose proof (sort_by_sorted key all) as Hs. pose proof (sort_by_perm key all) as Hp.
  rewrite <-(take_drop (Z.to_nat limit) (sort_by key all)) in Hs, Hp.
  apply StronglySorted_app in Hs as (Hxy & Hs & _).
  split; [done | | | exact Hs].
  - rewrite length_take. by rewrite (sort_by_perm key all).
  - exists (drop (Z.to_nat limit) (sort_by key all)). split; [done |]. intros x y. apply Hxy.
Qed.

Lemma first_by_elem {A} (key : A → Z) limit all l x : first_by key limit all l → x ∈ l → x ∈ all.
Proof. intros [_ _ (rest & <- & _) _] Hx. apply elem_of_app. by left. Qed.

(** Rows selected from a table are of different keys. *)
Lemma first_by_nodup {V} (key : string * V → Z) limit (P : string * V → Prop) `{∀ p, Decision (P p)} m l :
  first_by key limit (filter P (map_to_list m)) l → NoDup l.*1.
Proof.
  intros [_ _ (rest & Hp & _) _].
  assert (Hnd : NoDup (filter P (map_to_list m)).*1).
  { eapply sublist_NoDup; [apply (NoDup_fst_map_to_list m) | apply fmap_sublist, sublist_filter]. }
  rewrite <-Hp, fmap_app in Hnd. by apply list.NoDup_app in Hnd as [? _].
Qed.

Lemma limit_in_inr limit k : limit_in limit = inr k → (0 ≤ limit)%Z ∧ k = Z.to_nat limit.
Proof. unfold limit_in. destruct (Z.ltb limit 0) eqn:E; [done |]. intros [= <-]. split; [lia | done]. Qed.

Definition retries_enqueued (limit : Z) (d : db) (count : Z) (d' : db) : Prop :=
  ∃ now locked items,
    first_by (λ p, default 0%Z (tr_next_run_at p.2)) limit (due_tasks now locked d) items ∧
    retries_written now items d d' ∧ count = Z.of_nat (length items).

Lemma enqueue_due_inv limit e now n d count d' n' :
  env_ok e → db_wf d → enqueue_due_body limit e now n d = (inr (count, d'), n') →
  retries_enqueued limit d count d'.
Proof.
  intros He Hwf Hs. unfold enqueue_due_body in Hs.
  apply tx_bind_ok in Hs as (its & d1 & n1 & (_ & H1 & ->)%tx_stmt_ok & Hs).
  apply tx_bind_ok in Hs as ([] & d2 & n2 & H2 & Hs). inv_tx.
  unfold select_due in H1. apply rbind_inr in H1 as (k & Hk & H1). injection H1 as <- <-.
  apply limit_in_inr in Hk as [Hl ->].
  pose proof (take_sort_first (λ p : string * task_row, default 0%Z (tr_next_run_at p.2)) limit
    (due_tasks now (e_locked e n) d) Hl) as Hfirst.
  unfold due_tasks in Hfirst |- *. set (items := take _ _) in *.
  exists now, (e_locked e n), items. split; [exact Hfirst |]. split.
  - eapply retries_loop; [exact He | exact Hwf | | | exact H2].
    + by eapply first_by_nodup.
    + apply Forall_forall. intros [u r] Hu%list_elem_of_In.
      eapply first_by_elem, list_elem_of_filter in Hu as [_ Hu]; [| exact Hfirst].
      by apply elem_of_map_to_list in Hu.
  - by rewrite length_fmap.
Qed.


(** ** Queries *)

(** ListPendingOutbox returns, oldest first, the [limit] oldest events
    that are not marked dispatched and whose time has come, and changes nothing. *)
Theorem list_pending_spec limit :
  transacts env_ok (λ d events d', d' = d ∧ ∃ now rows,
    events = (λ p, scanOutboxEvent p.1 p.2) <$> rows ∧ NoDup rows.*1 ∧
    first_by (λ p, or_created_at p.2) limit
      (filter (λ p, or_dispatched_at p.2 = None ∧ (or_available_at p.2 ≤ now)%Z)
         (map_to_list (outbox_events d))) rows)
    (ListPendingOutbox limit).
Proof.
  apply autocommit_transacts. intros e n now d events d' He Hs. unfold select_pending_outbox in Hs.
  apply rbind_inr in Hs as (k & [Hl ->]%limit_in_inr & [= <- <-]). split; [done |].
  pose proof (take_sort_first (λ p : string * outbox_row, or_created_at p.2) limit
    (filter (λ p, is_ready now p.2 = true) (map_to_list (outbox_events d))) Hl) as Hf.
  exists now. eexists. split; [done |]. split; [by eapply first_by_nodup |].
  erewrite list_filter_iff; [exact Hf |]. intros [o r]. unfold is_ready. cbn.
  rewrite andb_true_iff, Z.leb_le. destruct (or_dispatched_at r); naive_solver.
Qed.

(** ListDeadLetteredTasks returns, latest change first, the [limit] tasks
    that were dead-lettered last, and changes nothing. *)
Theorem list_dead_lettered_spec limit :
  transacts env_ok (λ d tasks d', d' = d ∧ ∃ rows,
    tasks = (λ p, scanTaskInstance p.1 p.2) <$> rows ∧ NoDup rows.*1 ∧
    first_by (λ p, - tr_updated_at p.2)%Z limit
      (filter (λ p, tr_status p.2 = TaskStatusDeadLettered) (map_to_list (task_instances d))) rows)
    (ListDeadLetteredTasks limit).
Proof.
  apply autocommit_transacts. intros e n now d tasks d' He Hs. unfold select_dead_lettered in Hs.
  apply rbind_inr in Hs as (k & [Hl ->]%limit_in_inr & [= <- <-]). split; [done |].
  pose proof (take_sort_first (λ p : string * task_row, - tr_updated_at p.2)%Z limit
    (filter (λ p, tr_status p.2 = TaskStatusDeadLettered) (map_to_list (task_instances d))) Hl) as Hf.
  eexists. split; [done |]. split; [by eapply first_by_nodup | exact Hf].
Qed.

End spec.
