(* ===== verification/Snapshot.v ===== *)
(** GetExecutionSnapshot (internal/db/store.go): the grouping of attempts by
    task. *)

From S2P Require Import Prelude GoString GoJson GoError Proc Domain Db Pg Store Idempotency History Wf.
From S2P Require Import WfStore StoreSpec.

Open Scope string_scope.

(** The map of slices built by the loop holds, per task, its attempts in the
    order they came. *)
Lemma group_lookup l t :
  default [] (group_attempts l !! t) = filter (λ a, ta_TaskInstanceID a = t) l.
Proof.
  unfold group_attempts. induction l as [| a l IH] using rev_ind; [done |].
  rewrite foldl_snoc, list.filter_app, <-IH. unfold add_attempt at 1. set (m := foldl _ _ _).
  destruct (decide (ta_TaskInstanceID a = t)) as [<- | Hne].
  - by rewrite lookup_insert_eq, filter_cons_True by done.
  - rewrite lookup_insert_ne, filter_cons_False, filter_nil by done. by rewrite app_nil_r.
Qed.

Lemma filter_fmap_scan (l : list (string * attempt_row)) t :
  filter (λ a, ta_TaskInstanceID a = t) ((λ p, scanTaskAttempt p.1 p.2) <$> l) =
  (λ p, scanTaskAttempt p.1 p.2) <$> filter (λ p : string * attempt_row, ar_task_instance_id p.2 = t) l.
Proof.
  induction l as [| p l IH]; [done |]. cbn [fmap list_fmap].
  destruct (decide (ar_task_instance_id p.2 = t)).
  - by rewrite !filter_cons_True, IH.
  - by rewrite !filter_cons_False, IH.
Qed.

(** ** Order *)

#[export] Instance attempt_le_total : Total attempt_le.
Proof.
  intros p q. unfold attempt_le. destruct (decide (ar_task_instance_id p.2 = ar_task_instance_id q.2)) as [E | E].
  - rewrite decide_True by done. lia.
  - rewrite decide_False by congruence. apply String.le_total.
Qed.

#[export] Instance attempt_le_trans : Transitive attempt_le.
Proof.
  intros p q r. unfold attempt_le. repeat case_decide; try congruence; try lia; intros Hpq Hqr.
  - exfalso. match goal with E : _ = _, N : _ ≠ _ |- _ => rewrite <-E in Hqr; by apply N, (anti_symm String.le) end.
  - by etrans.
Qed.

Lemma StronglySorted_filter {A} (R : A → A → Prop) (P : A → Prop) `{∀ x, Decision (P x)} l :
  StronglySorted R l → StronglySorted R (filter P l).
Proof.
  induction 1 as [| x l Hl IH Hx]; [constructor |]. destruct (decide (P x)).
  - rewrite filter_cons_True by done. constructor; [done |]. apply Forall_forall.
    intros y [_ Hy]%list_elem_of_In%list_elem_of_filter. by apply (proj1 (Forall_forall _ _) Hx), list_elem_of_In.
  - by rewrite filter_cons_False.
Qed.

(** A sorted list of integers without duplicates that holds exactly 1, ..., n. *)
Lemma numbers_seqZ (l : list Z) n :
  (0 ≤ n)%Z → StronglySorted Z.le l → NoDup l → (∀ k, k ∈ l ↔ (1 ≤ k ≤ n)%Z) → l = seqZ 1 n.
Proof.
  intros Hn Hs Hnd Hl. apply (StronglySorted_unique Z.le); [done | |].
  - clear. unfold seqZ. generalize (Z.to_nat n). intros m. generalize 0%nat as s. induction m as [| m IH]; intros s; [constructor |].
    cbn. constructor; [apply IH |]. apply Forall_forall. intros y Hy%list_elem_of_In.
    apply list_elem_of_fmap in Hy as (i & -> & Hi%elem_of_seq). lia.
  - apply list.NoDup_Permutation; [done | apply NoDup_seqZ |]. intros k. rewrite Hl, elem_of_seqZ. lia.
Qed.

Section snapshot.
Context `{PostgresLaws}.

(** A query that answered read the contents and changed nothing. *)
Lemma run_query {A} (s : stmt A) e w a w' :
  stmt_rel eq s → run (atomic (autocommit s)) e w = (inr a, w') →
  w_db w' = w_db w ∧ ∃ n now, s e n now (w_db w) = inr (a, w_db w).
Proof.
  intros Hs Hr.
  assert (Hw : transacts (eq e) (λ d a d', ∃ n now, s e n now d = inr (a, d')) (atomic (autocommit s)))
    by (apply autocommit_transacts; intros ?????? <-; eauto).
  destruct (Hw e w (inr a) w' eq_refl Hr) as (n & now & Ha).
  pose proof (Hs _ _ _ _ _ _ Ha) as Hd. split; [done |]. rewrite <-Hd in Ha. eauto.
Qed.

(** The attempts of a well-formed database that belong to a task, by number. *)
Lemma attempts_of_task d u r (l : list (string * attempt_row)) :
  db_wf d → task_instances d !! u = Some r → StronglySorted attempt_le l →
  l ≡ₚ filter (λ p, tr_workflow_execution_id <$> (task_instances d !! ar_task_instance_id p.2)
                    = Some (tr_workflow_execution_id r)) (map_to_list (task_attempts d)) →
  ar_attempt_number ∘ snd <$> filter (λ p, ar_task_instance_id p.2 = u) l = seqZ 1 (tr_attempts_total r).
Proof.
  intros Hwf Hr Hs Hp.
  assert (Hin : ∀ p, p ∈ filter (λ p, ar_task_instance_id p.2 = u) l ↔
    task_attempts d !! p.1 = Some p.2 ∧ ar_task_instance_id p.2 = u).
  { intros [a x]. rewrite list_elem_of_filter, Hp, list_elem_of_filter, elem_of_map_to_list. cbn.
    split; [naive_solver |]. intros [Ha Hu]. by rewrite Hu, Hr. }
  apply numbers_seqZ.
  - apply (wf_tasks _ Hwf) in Hr as [_ []]. lia.
  - assert (Hsf : StronglySorted attempt_le (filter (λ p, ar_task_instance_id p.2 = u) l))
      by by apply StronglySorted_filter.
    assert (Hsame : Forall (λ p, ar_task_instance_id p.2 = u) (filter (λ p, ar_task_instance_id p.2 = u) l))
      by (apply Forall_forall; intros p Hq%list_elem_of_In; by apply Hin in Hq as [_ ?]).
    revert Hsame. generalize dependent (filter (λ p, ar_task_instance_id p.2 = u) l). intros k _ Hk Hsame.
    induction Hk as [| x k Hk IH Hx]; [constructor |]. apply Forall_cons_1 in Hsame as [Ex Hsame].
    cbn. constructor; [auto |]. apply Forall_fmap, Forall_forall. intros y Hy. cbn.
    pose proof (proj1 (Forall_forall _ _) Hx y Hy) as Hle. pose proof (proj1 (Forall_forall _ _) Hsame y Hy) as Ey.
    unfold attempt_le in Hle. cbn in Ex, Ey. by rewrite decide_True in Hle by congruence.
  - apply NoDup_fmap_2_strong.
    + intros p q [Ha Hu]%Hin [Hb Hv]%Hin Heq. cbn in Heq.
      assert (Hpq : p.1 = q.1) by (eapply wf_numbers; [done | exact Ha | exact Hb | congruence | done]).
      rewrite Hpq in Ha. destruct p, q. cbn in *. by simplify_eq.
    + apply list.NoDup_filter. rewrite Hp. apply list.NoDup_filter, NoDup_map_to_list.
  - intros k. rewrite list_elem_of_fmap. split.
    + intros (p & -> & [Ha Hu]%Hin). apply (wf_attempts _ Hwf) in Ha as [(t & Ht & Hk) _ _ _ _].
      rewrite Hu, Hr in Ht. by simplify_eq.
    + intros Hk. destruct (wf_every_number _ Hwf u r k Hr Hk) as (a & x & Ha & Hu & <-).
      exists (a, x). split; [done |]. by apply Hin.
Qed.

(** What a snapshot of the execution [x] shows of the database. *)
Definition snapshot_shows (d : db) (x : string) (snap : ExecutionSnapshot) : Prop :=
  ∃ xid er (rows : list (string * task_row)),
    uuid_in x = inr xid ∧ workflow_executions d !! xid = Some er ∧
    es_Execution snap = scanWorkflowExecution xid er ∧
    rows ≡ₚ filter (λ p, tr_workflow_execution_id p.2 = xid) (map_to_list (task_instances d)) ∧
    StronglySorted (λ p q, (tr_created_at p.2 ≤ tr_created_at q.2)%Z) rows ∧
    Forall2 (λ p ts, tsn_Task ts = scanTaskInstance p.1 p.2 ∧
      ta_AttemptNumber <$> tsn_Attempts ts = seqZ 1 (tr_attempts_total p.2) ∧
      ∀ a, a ∈ tsn_Attempts ts → ∃ ar, task_attempts d !! ta_ID a = Some ar ∧
        ar_task_instance_id ar = p.1 ∧ a = scanTaskAttempt (ta_ID a) ar)
      rows (es_Tasks snap).

Lemma snapshot_contents x e w snap w' :
  db_wf (w_db w) → run (GetExecutionSnapshot x) e w = (inr snap, w') →
  w_db w' = w_db w ∧ snapshot_shows (w_db w) x snap.
Proof.
  intros Hwf Hrun. unfold GetExecutionSnapshot in Hrun. rewrite run_bind in Hrun.
  destruct (run (GetWorkflowExecution x) e w) as [[|ex] w1] eqn:E1; [done |].
  apply run_query in E1 as (Hd1 & n1 & now1 & Hx); [| auto with rel].
  rewrite run_bind in Hrun. destruct (run _ e w1) as [[|tasks] w2] eqn:E2; [done |].
  apply run_query in E2 as (Hd2 & n2 & now2 & Ht); [| auto with rel]. rewrite Hd1 in Hd2, Ht.
  rewrite run_bind in Hrun. destruct (run _ e w2) as [[|attempts] w3] eqn:E3; [done |].
  apply run_query in E3 as (Hd3 & n3 & now3 & Ha); [| auto with rel]. rewrite Hd2 in Hd3, Ha.
  cbn in Hrun. injection Hrun as <- <-. split; [congruence |].
  unfold select_row in Hx. apply rbind_inr in Hx as (xid & Hxid & Hx).
  destruct (workflow_executions (w_db w) !! xid) as [er |] eqn:Her; [| done]. injection Hx as <-.
  unfold select_tasks_of in Ht. unfold select_attempts_of in Ha. rewrite Hxid in Ht, Ha. cbn [rbind] in Ht, Ha.
  injection Ht as <-. injection Ha as <-.
  set (rows := sort_by (λ p : string * task_row, tr_created_at p.2) _).
  exists xid, er, rows. split_and!; [done | done | done | apply sort_by_perm | apply sort_by_sorted |].
  cbn [es_Tasks]. rewrite <-list_fmap_compose. apply Forall2_fmap_r, Forall_Forall2_diag, Forall_forall.
  intros [u r] [Hxr Hr%elem_of_map_to_list]%list_elem_of_In%elem_of_sort_by%list_elem_of_filter. cbn in Hxr. subst xid.
  cbn [compose tsn_Task tsn_Attempts fst snd ti_ID scanTaskInstance]. rewrite group_lookup, filter_fmap_scan.
  set (l := merge_sort attempt_le _). split; [done |]. split.
  - rewrite <-(attempts_of_task (w_db w) u r l Hwf Hr).
    + by rewrite <-list_fmap_compose.
    + apply StronglySorted_merge_sort; apply _.
    + apply merge_sort_Permutation.
  - intros a ([a' ar] & -> & [Hu Hl]%list_elem_of_filter)%list_elem_of_fmap.
    unfold l in Hl. rewrite merge_sort_Permutation in Hl.
    apply list_elem_of_filter in Hl as [_ Hl%elem_of_map_to_list]. by exists ar.
Qed.


End snapshot.
