(* ===== verification/IdemSpec.v ===== *)
(** What the idempotency records promise to the handlers. *)

From S2P Require Import Prelude GoString GoJson GoError Proc Domain Db Pg Store Idempotency History Wf.
From S2P Require Import WfStore.

Open Scope string_scope.

Section spec.
Context `{PostgresLaws}.

(** ** One call after the other *)

(** The result of [BeginIdempotentTask] as a function of the record. *)
Definition begin_result (r : option idem_row) (owner : string) : error + (string * bool) :=
  match r with
  | None => inr ("", false)
  | Some r =>
      if decide (ir_status r = IdempotencyStatusCompleted) then inr (bytesValue (ir_response_json r), true)
      else if decide (ir_owner_task_instance_id r = Some owner) then inr ("", false)
      else inl ErrIdempotencyKeyInProgress
  end.

Lemma run_begin h k o e w :
  reliable e → text_in h = inr h → text_in k = inr k → uuid_in o = inr o →
  is_Some (task_instances (w_db w) !! o) →
  let '(res, w') := run (BeginIdempotentTask h k o) e w in
  res = begin_result (idempotency_records (w_db w) !! (h, k)) o ∧
  w_db w' = match idempotency_records (w_db w) !! (h, k) with
            | None => let row := mk_idem_row (Some o) IdempotencyStatusInProgress None
                                   (e_now e (w_tick w)) (e_now e (w_tick w)) in
                      set_idempotency_records (<[(h, k) := row]> (idempotency_records (w_db w))) (w_db w)
            | Some _ => w_db w
            end.
Proof.
  intros He Hh Hk Ho [t Ht]. unfold BeginIdempotentTask. rewrite run_bind, run_atomic, run_autocommit by done.
  unfold reserve_record. rewrite Hh, Hk, Ho. cbn [rbind].
  destruct (idempotency_records (w_db w) !! (h, k)) as [r |] eqn:Hr.
  - rewrite bool_decide_eq_true_2 by eauto. rewrite run_bind, run_atomic, run_autocommit by done.
    unfold select_record. rewrite Hh, Hk. cbn [rbind w_db]. rewrite Hr. unfold begin_result.
    destruct (String.eqb_spec (ir_status r) IdempotencyStatusCompleted).
    { by rewrite decide_True. }
    rewrite decide_False by done. destruct (ir_owner_task_instance_id r) as [o' |]; [| by rewrite decide_False].
    destruct (String.eqb_spec o' o); [rewrite decide_True by congruence | rewrite decide_False by congruence]; done.
  - rewrite bool_decide_eq_false_2 by (intros [? ?]; done).
    rewrite bool_decide_eq_false_2 by congruence. done.
Qed.

Lemma run_complete h k o resp js r e w :
  reliable e → text_in h = inr h → text_in k = inr k → uuid_in o = inr o →
  jsonb_in (normalizeJSON resp) = inr js →
  idempotency_records (w_db w) !! (h, k) = Some r → ir_owner_task_instance_id r = Some o →
  let '(res, w') := run (CompleteIdempotentTask h k o resp) e w in
  res = inr tt ∧ ∃ now, w_db w' = set_idempotency_records
    (<[(h, k) := set_ir_updated_at now (set_ir_response_json (Some js)
         (set_ir_status IdempotencyStatusCompleted r))]> (idempotency_records (w_db w))) (w_db w).
Proof.
  intros He Hh Hk Ho Hjs Hr Hown. unfold CompleteIdempotentTask.
  rewrite run_bind, run_atomic, run_autocommit by done. unfold complete_record.
  rewrite Hh, Hk, Ho, Hjs. cbn [rbind]. rewrite Hr, bool_decide_eq_true_2 by done. cbn. eauto.
Qed.


(** ** Under interleaving *)

(** A completed record stays completed and keeps its owner. *)
Definition completed_kept (d d' : db) : Prop :=
  ∀ key r, idempotency_records d !! key = Some r → ir_status r = IdempotencyStatusCompleted →
  ∃ r', idempotency_records d' !! key = Some r' ∧ ir_status r' = IdempotencyStatusCompleted ∧
    ir_owner_task_instance_id r' = ir_owner_task_instance_id r.

#[local] Instance completed_kept_po : PreOrder completed_kept.
Proof.
  split; [intros d key r Hr Hs; eauto |].
  intros d1 d2 d3 H12 H23 key r Hr Hs. destruct (H12 key r Hr Hs) as (r2 & Hr2 & Hs2 & Ho2).
  destruct (H23 key r2 Hr2 Hs2) as (r3 & Hr3 & Hs3 & Ho3). exists r3. by rewrite Ho3.
Qed.

(** A statement that leaves the records alone. *)
Lemma same_records_kept {A} (s : stmt A) :
  (∀ e n now d a d', s e n now d = inr (a, d') → idempotency_records d' = idempotency_records d) →
  stmt_rel completed_kept s.
Proof. intros Hs e n now d a d' Ha key r Hr Hst. rewrite (Hs _ _ _ _ _ _ Ha). eauto. Qed.

Ltac records_alone :=
  apply same_records_kept; intros ? ? ? ? ? ? Hs; cbv beta zeta delta
    [insert_definition insert_execution insert_task insert_outbox insert_attempt
     update_task update_task_returning update_attempt update_execution update_outbox] in Hs;
  inv_res; repeat case_match; inv_res; simplify_eq; done.

Hint Extern 9 (stmt_rel completed_kept _) => records_alone : rel.

Lemma reserve_record_keeps h k o : stmt_rel completed_kept (reserve_record h k o).
Proof.
  intros e n now d a d' Hs key r Hr Hst. unfold reserve_record in Hs. inv_res.
  repeat case_bool_decide; inv_res; eauto. cbn. exists r. split; [| done].
  rewrite lookup_insert_ne; naive_solver.
Qed.

Lemma complete_record_keeps h k o p : stmt_rel completed_kept (complete_record h k o p).
Proof.
  intros e n now d a d' Hs key r Hr Hst. unfold complete_record in Hs. inv_res.
  destruct (idempotency_records d !! _) as [row |] eqn:Hrow; inv_res; eauto.
  case_bool_decide; inv_res; eauto. cbn. destruct (decide (key = (x, x0))) as [-> | Hne].
  - simplify_eq. eexists. by rewrite lookup_insert_eq.
  - exists r. by rewrite lookup_insert_ne.
Qed.

Lemma release_record_keeps h k o : stmt_rel completed_kept (release_record h k o).
Proof.
  intros e n now d a d' Hs key r Hr Hst. unfold release_record in Hs. inv_res.
  destruct (idempotency_records d !! _) as [row |] eqn:Hrow; inv_res; eauto.
  destruct (_ && _)%bool eqn:Eb; inv_res; eauto. cbn. exists r. split; [| done].
  rewrite lookup_delete_ne; [done |]. intros <-. simplify_eq.
  apply andb_true_iff in Eb as [_ Eb%String.eqb_eq]. by rewrite Hst in Eb.
Qed.

Lemma op_keeps_completed E op :
  all_steps E (λ w w', completed_kept (w_db w) (w_db w')) (op_proc op).
Proof.
  destruct op; apply all_steps_discard; cbv beta zeta delta [
    CreateWorkflowDefinition GetWorkflowDefinition GetWorkflowExecution GetTaskInstance
    CreateExecutionAndTask GetExecutionSnapshot ListDeadLetteredTasks ReplayDeadLetteredTask
    StartTaskAttempt CompleteTaskAttempt CompleteTaskAttemptAndEnqueueNextTask
    EnqueueDueTaskRetries ScheduleTaskRetry FailTaskAttempt ListPendingOutbox
    MarkOutboxDispatched RecordOutboxFailure BeginIdempotentTask CompleteIdempotentTask
    ReleaseIdempotentTask create_execution_body replay_body start_attempt_body complete_body
    complete_and_enqueue_body enqueue_due_body schedule_retry_body fail_body enqueue_dispatch
    select_execution_of enqueue_retry];
    auto 30 using reserve_record_keeps, complete_record_keeps, release_record_keeps with rel.
Qed.

(** C22: once a key is completed, no interleaving of the methods of the store,
    lost call or crash can release it or give it to another task. *)
Theorem completed_forever E w w' ps' :
  rtc (pool_step E is_store_op) (w, []) (w', ps') → completed_kept (w_db w) (w_db w').
Proof.
  intros Hrun. apply (pool_preorder E is_store_op (λ w w', completed_kept (w_db w) (w_db w')))
    in Hrun as [? _]; [done | | done].
  intros p [op ->]. apply op_keeps_completed.
Qed.
End spec.
