(* ===== verification/Progress.v ===== *)
(** The methods of the store do what they are called for: with a server that
    answers, parameters it accepts, the rows they need and identifiers that are
    new, every method succeeds.  With the specifications of StoreSpec.v, which
    say what a success has done, this is total correctness. *)

From S2P Require Import Prelude GoString GoJson GoError Proc Domain Db Pg Store Idempotency History Wf.
From S2P Require Import WfStore StoreSpec StoreSpec2 Snapshot IdemSpec.

Open Scope string_scope.

(** * Success of a transaction *)

(** [body] runs to its end, in a state that satisfies [Q]. *)
Definition tx_wp {A} (body : tx A) (e : env) (now : Z) (n : nat) (d : db) (Q : A → db → nat → Prop) : Prop :=
  ∃ a d' n', body e now n d = (inr (a, d'), n') ∧ Q a d' n'.

Lemma tx_wp_bind {A B} (t : tx A) (k : A → tx B) e now n d Q :
  tx_wp t e now n d (λ a d' n', tx_wp (k a) e now n' d' Q) → tx_wp (tx_bind t k) e now n d Q.
Proof. intros (a & d1 & n1 & Ht & Hk). unfold tx_wp, tx_bind. by rewrite Ht. Qed.

Lemma tx_wp_stmt {A} (s : stmt A) e now n d (Q : A → db → nat → Prop) a d' :
  reliable e → s e n now d = inr (a, d') → Q a d' (S n) → tx_wp (tx_stmt s) e now n d Q.
Proof. intros He Hs HQ. exists a, d', (S n). by rewrite run_tx_stmt, Hs. Qed.

Lemma tx_wp_ret {A} (a : A) e now n d (Q : A → db → nat → Prop) : Q a d n → tx_wp (tx_ret a) e now n d Q.
Proof. by exists a, d, n. Qed.

Lemma in_tx_succeeds {A} (body : tx A) e w :
  reliable e → tx_wp body e (e_now e (w_tick w)) (S (w_tick w)) (w_db w) (λ _ _ _, True) →
  is_ok (run (atomic (in_tx body)) e w).1 = true.
Proof. intros He (a & d & n & Hb & _). rewrite run_atomic, run_in_tx by done. by rewrite Hb. Qed.

Lemma autocommit_succeeds {A} (s : stmt A) e w a d :
  reliable e → s e (w_tick w) (e_now e (w_tick w)) (w_db w) = inr (a, d) →
  run (atomic (autocommit s)) e w = (inr a, mk_dbw d (S (w_tick w))).
Proof. intros He Hs. rewrite run_atomic, run_autocommit by done. by rewrite Hs. Qed.

Section progress.
Context `{PostgresLaws}.

(** * Preconditions *)

(** A text that TEXT and JSONB accept. *)
Definition good_text (s : string) : Prop :=
  utf8_valid (to_bytes s) = true ∧ no_nul s = true ∧ (Z.of_nat (String.length s) < 2 ^ 19)%Z.

Definition row_at {V} (table : gmap string V) (id : string) (P : V → Prop) : Prop :=
  ∃ u r, uuid_in id = inr u ∧ table !! u = Some r ∧ P r.

(** A method called with call number [n] uses no later number than this. *)
Definition calls_from (n : nat) (d : db) (k : nat) : Prop := (n ≤ k < n + 6 + 2 * size (task_instances d))%nat.

(** The identifiers generated during the method are new, and no two are equal. *)
Record fresh_ids (e : env) (n : nat) (d : db) : Prop := {
  fi_definitions k : calls_from n d k → workflow_definitions d !! e_uuid e k = None;
  fi_executions k : calls_from n d k → workflow_executions d !! e_uuid e k = None;
  fi_tasks k : calls_from n d k → task_instances d !! e_uuid e k = None;
  fi_attempts k : calls_from n d k → task_attempts d !! e_uuid e k = None;
  fi_outbox k : calls_from n d k → outbox_events d !! e_uuid e k = None;
  fi_distinct i j : calls_from n d i → calls_from n d j → e_uuid e i = e_uuid e j → i = j;
}.

(** What each method needs, of its parameters and of the rows it works on. *)
Definition ready (op : store_op) (d : db) : Prop :=
  match op with
  | OpCreateWorkflowDefinition n ds j =>
      good_text n ∧ good_text ds ∧ is_ok (jsonb_in (normalizeJSON j)) = true ∧
      map_Forall (λ _ r, dr_name r ≠ n) (workflow_definitions d)
  | OpGetWorkflowDefinition i => row_at (workflow_definitions d) i (λ _, True)
  | OpGetWorkflowExecution i => row_at (workflow_executions d) i (λ _, True)
  | OpGetTaskInstance i => row_at (task_instances d) i (λ _, True)
  | OpCreateExecutionAndTask def i t h =>
      row_at (workflow_definitions d) def (λ _, True) ∧ is_ok (jsonb_in (normalizeJSON i)) = true ∧
      good_text t ∧ good_text h
  | OpGetExecutionSnapshot i => row_at (workflow_executions d) i (λ _, True)
  | OpListDeadLetteredTasks l => (0 ≤ l)%Z
  | OpReplayDeadLetteredTask t => row_at (task_instances d) t (λ r,
      tr_status r = TaskStatusDeadLettered ∧ good_text (tr_handler_key r))
  | OpStartTaskAttempt t => row_at (task_instances d) t (λ r,
      terminal (tr_status r) ∨ (tr_attempts_total r < 2 ^ 31 - 1)%Z)
  | OpCompleteTaskAttempt t a o =>
      row_at (task_instances d) t (λ _, True) ∧ is_ok (uuid_in a) = true ∧
      is_ok (jsonb_in (normalizeJSON o)) = true
  | OpCompleteTaskAttemptAndEnqueueNextTask t a nt nh o =>
      row_at (task_instances d) t (λ r, key_unused d (makeTaskIdempotencyKey (tr_workflow_execution_id r) nt)) ∧
      is_ok (uuid_in a) = true ∧ is_ok (jsonb_in (normalizeJSON o)) = true ∧ good_text nt ∧ good_text nh
  | OpEnqueueDueTaskRetries l =>
      (0 ≤ l)%Z ∧ map_Forall (λ _ r, good_text (tr_handler_key r)) (task_instances d)
  | OpScheduleTaskRetry t a x _ =>
      is_ok (uuid_in t) = true ∧ is_ok (uuid_in a) = true ∧ good_text (truncate x 1000)
  | OpFailTaskAttempt t a x =>
      row_at (task_instances d) t (λ _, True) ∧ is_ok (uuid_in a) = true ∧ good_text (truncate x 1000)
  | OpListPendingOutbox l => (0 ≤ l)%Z
  | OpMarkOutboxDispatched o => row_at (outbox_events d) o (λ r, (0 ≤ or_attempt_count r < 2 ^ 31 - 1)%Z)
  | OpRecordOutboxFailure o x =>
      row_at (outbox_events d) o (λ r, (0 ≤ or_attempt_count r < 2 ^ 31 - 1)%Z) ∧ good_text (truncate x 1000)
  | OpBeginIdempotentTask h k o =>
      good_text h ∧ good_text k ∧ uuid_in o = inr o ∧ is_Some (task_instances d !! o) ∧
      is_ok (begin_result (idempotency_records d !! (h, k)) o) = true
  | OpCompleteIdempotentTask h k o r =>
      good_text h ∧ good_text k ∧ uuid_in o = inr o ∧ is_ok (jsonb_in (normalizeJSON r)) = true ∧
      ∃ row, idempotency_records d !! (h, k) = Some row ∧ ir_owner_task_instance_id row = Some o
  | OpReleaseIdempotentTask h k o => good_text h ∧ good_text k ∧ is_ok (uuid_in o) = true
  end.

(** The method returns no error. *)
Definition op_ok (op : store_op) (e : env) (w : dbw) : bool :=
  match op with
  | OpCreateWorkflowDefinition n d j => is_ok (run (CreateWorkflowDefinition n d j) e w).1
  | OpGetWorkflowDefinition i => is_ok (run (GetWorkflowDefinition i) e w).1
  | OpGetWorkflowExecution i => is_ok (run (GetWorkflowExecution i) e w).1
  | OpGetTaskInstance i => is_ok (run (GetTaskInstance i) e w).1
  | OpCreateExecutionAndTask d i t h => is_ok (run (CreateExecutionAndTask d i t h) e w).1
  | OpGetExecutionSnapshot i => is_ok (run (GetExecutionSnapshot i) e w).1
  | OpListDeadLetteredTasks l => is_ok (run (ListDeadLetteredTasks l) e w).1
  | OpReplayDeadLetteredTask i => is_ok (run (ReplayDeadLetteredTask i) e w).1
  | OpStartTaskAttempt i => is_ok (run (StartTaskAttempt i) e w).1
  | OpCompleteTaskAttempt t a o => is_ok (run (CompleteTaskAttempt t a o) e w).1
  | OpCompleteTaskAttemptAndEnqueueNextTask t a n h o =>
      is_ok (run (CompleteTaskAttemptAndEnqueueNextTask t a n h o) e w).1
  | OpEnqueueDueTaskRetries l => is_ok (run (EnqueueDueTaskRetries l) e w).1
  | OpScheduleTaskRetry t a x n => is_ok (run (ScheduleTaskRetry t a x n) e w).1
  | OpFailTaskAttempt t a x => is_ok (run (FailTaskAttempt t a x) e w).1
  | OpListPendingOutbox l => is_ok (run (ListPendingOutbox l) e w).1
  | OpMarkOutboxDispatched i => is_ok (run (MarkOutboxDispatched i) e w).1
  | OpRecordOutboxFailure i x => is_ok (run (RecordOutboxFailure i x) e w).1
  | OpBeginIdempotentTask h k o => is_ok (run (BeginIdempotentTask h k o) e w).1
  | OpCompleteIdempotentTask h k o r => is_ok (run (CompleteIdempotentTask h k o r) e w).1
  | OpReleaseIdempotentTask h k o => is_ok (run (ReleaseIdempotentTask h k o) e w).1
  end.

(** ** Parameters *)

Lemma good_text_in s : good_text s → text_in s = inr s.
Proof. intros (? & ? & ?). apply text_in_accepts; [done | done | lia]. Qed.

Lemma no_nul_app s t : no_nul s = true → no_nul t = true → no_nul (s +:+ t) = true.
Proof. unfold no_nul. rewrite to_bytes_app, forallb_app. by intros -> ->. Qed.

Lemma uuid_no_nul s : uuid_text s = true → no_nul s = true.
Proof.
  unfold uuid_text, no_nul. intros [_ Hc]%andb_true_iff. rewrite forallb_forall in Hc |- *.
  intros c Hin%Hc. unfold uuid_char, in_range in Hin. lia.
Qed.

Lemma utf8_valid_app b1 b2 : utf8_valid b1 = true → utf8_valid b2 = true → utf8_valid (b1 ++ b2)%list = true.
Proof.
  intros Hv Hv2. revert b1 Hv. apply utf8_valid_ind; [done | intros; cbn [app utf8_valid]..].
  - by rewrite (proj2 (Z.ltb_lt _ _)).
  - rewrite (proj2 (Z.ltb_ge _ _)) by done. by case_match.
  - rewrite (proj2 (Z.ltb_ge _ _)) by done. repeat case_match; congruence.
  - rewrite (proj2 (Z.ltb_ge _ _)) by done. repeat case_match; congruence.
Qed.

Lemma key_text_in x name : uuid_in x = inr x → good_text name →
  text_in (makeTaskIdempotencyKey x name) = inr (makeTaskIdempotencyKey x name).
Proof.
  intros [Hx _]%uuid_in_canonical (Hu & Hn & Hl). unfold makeTaskIdempotencyKey.
  apply text_in_accepts.
  - rewrite !to_bytes_app. repeat apply utf8_valid_app; [by apply uuid_text_utf8 | done | done].
  - apply no_nul_app; [by apply uuid_no_nul |]. by apply no_nul_app.
  - rewrite <-length_to_bytes, !to_bytes_app, !length_app, !length_to_bytes, (uuid_text_length x) by done.
    cbn [String.length]. lia.
Qed.

Lemma payload_accepted t x h : uuid_in t = inr t → uuid_in x = inr x → good_text h →
  ∃ pj, jsonb_in (marshal_payload (mkDispatchTaskPayload t x h)) = inr pj.
Proof.
  intros [Ht _]%uuid_in_canonical [Hx _]%uuid_in_canonical (Hu & Hn & Hl).
  assert (Hok : is_ok (jsonb_in (marshal_payload (mkDispatchTaskPayload t x h))) = true).
  { apply (jsonb_in_accepts [("task_id", t); ("execution_id", x); ("handler_key", h)]).
    - apply (bool_decide_unpack (NoDup _)). reflexivity.
    - apply uuid_text_utf8 in Ht, Hx. simpl. by rewrite Ht, Hx, Hu.
    - repeat apply Forall_cons_2; [..| by apply Forall_nil_2]; cbn [fst snd]; split_and!;
        auto using uuid_no_nul; rewrite ?uuid_text_length by done; lia. }
  destruct (jsonb_in _) as [| pj]; [done | eauto].
Qed.

(** ** Statements *)

Lemma insert_execution_ok def did input js e n now d :
  uuid_in def = inr did → jsonb_in input = inr js → workflow_executions d !! e_uuid e n = None →
  is_Some (workflow_definitions d !! did) →
  let row := mk_exec_row did ExecutionStatusRunning js None None now now (Some now) None in
  insert_execution def input e n now d =
  inr (scanWorkflowExecution (e_uuid e n) row,
       set_workflow_executions (<[e_uuid e n := row]> (workflow_executions d)) d).
Proof.
  intros Hd Hj Hx [r Hr]. unfold insert_execution. rewrite Hd, Hj. cbn [rbind].
  rewrite bool_decide_eq_false_2 by (rewrite Hx; by intros [? ?]). by rewrite bool_decide_eq_false_2 by congruence.
Qed.

Lemma insert_task_ok x name h input js key e n now d :
  uuid_in x = inr x → text_in name = inr name → text_in h = inr h → jsonb_in input = inr js →
  text_in key = inr key → task_instances d !! e_uuid e n = None → key_unused d key →
  is_Some (workflow_executions d !! x) →
  let row := mk_task_row x name h TaskStatusPending js None None None 0 key None None now now in
  insert_task x name h input key e n now d =
  inr (scanTaskInstance (e_uuid e n) row, set_task_instances (<[e_uuid e n := row]> (task_instances d)) d).
Proof.
  intros Hx Hn Hh Hj Hk Ht Hu [r Hr]. unfold insert_task. rewrite Hx, Hn, Hh, Hj, Hk. cbn [rbind].
  rewrite bool_decide_eq_false_2 by (rewrite Ht; by intros [? ?]).
  destruct (existsb _ _) eqn:He; [| by rewrite bool_decide_eq_false_2 by congruence].
  apply existsb_exists in He as ([u r'] & Hin%list_elem_of_In%elem_of_map_to_list & Heq%String.eqb_eq).
  by apply Hu in Hin.
Qed.

Lemma insert_outbox_ok t payload pj e n now d :
  uuid_in t = inr t → jsonb_in payload = inr pj → outbox_events d !! e_uuid e n = None →
  insert_outbox t payload e n now d =
  inr (tt, set_outbox_events (<[e_uuid e n := dispatch_event t pj now]> (outbox_events d)) d).
Proof.
  intros Ht Hp Ho. unfold insert_outbox. rewrite Ht, Hp. cbn [rbind].
  by rewrite bool_decide_eq_false_2 by (rewrite Ho; by intros [? ?]).
Qed.

Lemma enqueue_dispatch_ok t x h e now n d (Q : unit → db → nat → Prop) :
  reliable e → uuid_in t = inr t → uuid_in x = inr x → good_text h → outbox_events d !! e_uuid e n = None →
  (∀ pj, Q tt (set_outbox_events (<[e_uuid e n := dispatch_event t pj now]> (outbox_events d)) d) (S n)) →
  tx_wp (enqueue_dispatch t x h) e now n d Q.
Proof.
  intros He Ht Hx Hh Ho HQ. destruct (payload_accepted t x h Ht Hx Hh) as [pj Hpj].
  eapply tx_wp_stmt; [done | by apply insert_outbox_ok | apply HQ].
Qed.

(** The key of a task of a new execution is not used. *)
Lemma key_unused_fresh d x name :
  db_wf d → uuid_in x = inr x → workflow_executions d !! x = None → key_unused d (makeTaskIdempotencyKey x name).
Proof.
  intros Hwf [Hx _]%uuid_in_canonical Hn u r Hr Hk. destruct (wf_tasks _ Hwf _ _ Hr) as [_ [Hxc [xr Hxr] Hkey _ _ _ _ _ _ _]].
  rewrite Hkey in Hk. apply uuid_in_canonical in Hxc as [Hxt _].
  apply uuid_text_length in Hx, Hxt. unfold makeTaskIdempotencyKey in Hk.
  enough (tr_workflow_execution_id r = x) by congruence.
  apply (f_equal to_bytes) in Hk. rewrite !to_bytes_app in Hk.
  apply app_inj_1 in Hk as [Hb _]; [| by rewrite !length_to_bytes, Hx, Hxt].
  by rewrite <-(of_to_bytes (tr_workflow_execution_id r)), Hb, of_to_bytes.
Qed.

Lemma is_ok_inr {E A} (r : E + A) : is_ok r = true → ∃ a, r = inr a.
Proof. destruct r as [| a]; [done | eauto]. Qed.

(** ** The methods *)

Ltac in_calls := unfold calls_from in *; cbn [w_tick] in *; lia.

Section ops.
Context (e : env) (w : dbw) (He : reliable e) (Hok : env_ok e) (Hwf : db_wf (w_db w))
  (Hf : fresh_ids e (w_tick w) (w_db w)).

Lemma create_execution_succeeds def i t h :
  ready (OpCreateExecutionAndTask def i t h) (w_db w) → is_ok (run (CreateExecutionAndTask def i t h) e w).1 = true.
Proof.
  intros ((did & r & Hd & Hr & _) & [js Hjs]%is_ok_inr & Ht & Hh).
  apply in_tx_succeeds; [done |]. apply tx_wp_bind.
  eapply tx_wp_stmt; [done | apply insert_execution_ok; [done | done | apply Hf; in_calls | by eexists] |].
  apply tx_wp_bind. cbn [we_ID scanWorkflowExecution].
  eapply tx_wp_stmt; [done | apply insert_task_ok |]; try done.
  - by apply good_text_in.
  - by apply good_text_in.
  - apply key_text_in; [apply Hok | done].
  - apply (fi_tasks _ _ _ Hf). in_calls.
  - apply (key_unused_fresh (w_db w)); [done | apply Hok | apply Hf; in_calls].
  - cbn. rewrite lookup_insert_eq. by eexists.
  - apply tx_wp_bind, enqueue_dispatch_ok; [done | apply Hok | apply Hok | done | cbn; apply Hf; in_calls |].
    intros pj. by apply tx_wp_ret.
Qed.

Lemma replay_succeeds t :
  ready (OpReplayDeadLetteredTask t) (w_db w) → is_ok (run (ReplayDeadLetteredTask t) e w).1 = true.
Proof.
  intros (tid & r & Ht & Hr & Hst & Hh). destruct (wf_tasks _ Hwf _ _ Hr) as [Hc [Hxc _ _ _ _ _ _ _ _ _]].
  apply in_tx_succeeds; [done |]. apply tx_wp_bind.
  eapply tx_wp_stmt; [done | unfold select_row; rewrite Ht; cbn [rbind]; by rewrite Hr |].
  cbn [ti_Status scanTaskInstance]. rewrite Hst. apply tx_wp_bind.
  eapply tx_wp_stmt; [done | unfold update_task_returning, set_task_replayed; cbn [ti_ID scanTaskInstance];
    rewrite Hc; cbn [rbind]; by rewrite Hr |].
  apply tx_wp_bind. eapply tx_wp_stmt; [done | unfold update_execution, set_execution_running;
    cbn [ti_WorkflowExecutionID scanTaskInstance]; by rewrite Hxc |].
  apply tx_wp_bind, enqueue_dispatch_ok; [done | done | done | done | cbn; apply Hf; in_calls |].
  intros pj. by apply tx_wp_ret.
Qed.

(** These two need new identifiers in some tables only. *)
Lemma start_attempt_succeeds t :
  (∀ k, calls_from (w_tick w) (w_db w) k → task_attempts (w_db w) !! e_uuid e k = None) →
  ready (OpStartTaskAttempt t) (w_db w) → is_ok (run (StartTaskAttempt t) e w).1 = true.
Proof.
  intros Hnew (tid & r & Ht & Hr & Hn). destruct (wf_tasks _ Hwf _ _ Hr) as [Hc [_ _ _ _ _ Hat _ _ _ _]].
  apply in_tx_succeeds; [done |]. apply tx_wp_bind.
  eapply tx_wp_stmt; [done | unfold select_row; rewrite Ht; cbn [rbind]; by rewrite Hr |].
  cbn [ti_Status ti_ID ti_AttemptsTotal scanTaskInstance]. case_match eqn:Hterm; [by apply tx_wp_ret |].
  destruct Hn as [Hn | Hn]; [exfalso; apply orb_false_iff in Hterm as [H1 H2]; apply String.eqb_neq in H1, H2;
    by destruct Hn |].
  assert (Hnum : int4_in (wrap64 (tr_attempts_total r + 1)) = inr (tr_attempts_total r + 1)%Z)
    by (rewrite wrap64_id by (unfold int64_min, int64_max; lia); apply int4_in_accepts; lia).
  apply tx_wp_bind. eapply tx_wp_stmt; [done | unfold insert_attempt; rewrite Hc, Hnum; cbn [rbind] |].
  { rewrite bool_decide_eq_false_2 by (rewrite Hnew by in_calls; by intros [? ?]).
    by rewrite bool_decide_eq_false_2 by congruence. }
  apply tx_wp_bind. eapply tx_wp_stmt; [done | unfold update_task_returning, set_task_started; rewrite Hc, Hnum;
    cbn [rbind]; cbn; by rewrite Hr |]. by apply tx_wp_ret.
Qed.

(** The statements that completing, failing and advancing share. *)
Lemma select_execution_ok t tid r n now d :
  uuid_in t = inr tid → task_instances d !! tid = Some r →
  select_execution_of t e n now d = inr (tr_workflow_execution_id r, d).
Proof. intros Ht Hr. unfold select_execution_of, select_row. rewrite Ht. cbn [rbind]. by rewrite Hr. Qed.

Lemma complete_succeeds t a o :
  ready (OpCompleteTaskAttempt t a o) (w_db w) → is_ok (run (CompleteTaskAttempt t a o) e w).1 = true.
Proof.
  intros ((tid & r & Ht & Hr & _) & [aid Ha]%is_ok_inr & [js Hjs]%is_ok_inr).
  destruct (wf_tasks _ Hwf _ _ Hr) as [_ [Hxc _ _ _ _ _ _ _ _ _]].
  apply in_tx_succeeds; [done |].
  apply tx_wp_bind; eapply tx_wp_stmt; [done | by eapply select_execution_ok |].
  apply tx_wp_bind; eapply tx_wp_stmt; [done | unfold update_attempt, set_attempt_succeeded; by rewrite Ha, Hjs |].
  apply tx_wp_bind; eapply tx_wp_stmt; [done | unfold update_task, set_task_succeeded; by rewrite Ht, Hjs |].
  eapply tx_wp_stmt; [done | unfold update_execution, set_execution_succeeded; by rewrite Hxc, Hjs | done].
Qed.

Lemma fail_succeeds t a x :
  ready (OpFailTaskAttempt t a x) (w_db w) → is_ok (run (FailTaskAttempt t a x) e w).1 = true.
Proof.
  intros ((tid & r & Ht & Hr & _) & [aid Ha]%is_ok_inr & Hx%good_text_in).
  destruct (wf_tasks _ Hwf _ _ Hr) as [_ [Hxc _ _ _ _ _ _ _ _ _]].
  apply in_tx_succeeds; [done |].
  apply tx_wp_bind; eapply tx_wp_stmt; [done | by eapply select_execution_ok |].
  apply tx_wp_bind; eapply tx_wp_stmt; [done | unfold update_attempt, set_attempt_failed; by rewrite Ha, Hx |].
  apply tx_wp_bind; eapply tx_wp_stmt; [done | unfold update_task, set_task_dead_lettered; by rewrite Ht, Hx |].
  eapply tx_wp_stmt; [done | unfold update_execution, set_execution_failed; by rewrite Hxc, Hx | done].
Qed.

Lemma schedule_retry_succeeds t a x at_ :
  ready (OpScheduleTaskRetry t a x at_) (w_db w) → is_ok (run (ScheduleTaskRetry t a x at_) e w).1 = true.
Proof.
  intros ([tid Ht]%is_ok_inr & [aid Ha]%is_ok_inr & Hx%good_text_in). apply in_tx_succeeds; [done |].
  apply tx_wp_bind; eapply tx_wp_stmt; [done | unfold update_attempt, set_attempt_failed; by rewrite Ha, Hx |].
  eapply tx_wp_stmt; [done | unfold update_task, set_task_retry; by rewrite Ht, Hx | done].
Qed.

Lemma advance_succeeds t a nt nh o :
  (∀ k, calls_from (w_tick w) (w_db w) k → task_instances (w_db w) !! e_uuid e k = None) →
  (∀ k, calls_from (w_tick w) (w_db w) k → outbox_events (w_db w) !! e_uuid e k = None) →
  ready (OpCompleteTaskAttemptAndEnqueueNextTask t a nt nh o) (w_db w) →
  is_ok (run (CompleteTaskAttemptAndEnqueueNextTask t a nt nh o) e w).1 = true.
Proof.
  intros Hnewt Hnewo ((tid & r & Ht & Hr & Hk) & [aid Ha]%is_ok_inr & [js Hjs]%is_ok_inr & Hnt & Hnh).
  destruct (wf_tasks _ Hwf _ _ Hr) as [_ [Hxc Hx _ _ _ _ _ _ _ _]].
  apply in_tx_succeeds; [done |].
  apply tx_wp_bind; eapply tx_wp_stmt; [done | by eapply select_execution_ok |].
  apply tx_wp_bind; eapply tx_wp_stmt; [done | unfold update_attempt, set_attempt_succeeded; by rewrite Ha, Hjs |].
  apply tx_wp_bind; eapply tx_wp_stmt; [done | unfold update_task, set_task_succeeded; by rewrite Ht, Hjs |].
  apply tx_wp_bind; eapply tx_wp_stmt; [done | apply insert_task_ok; try done |].
  - by apply good_text_in.
  - by apply good_text_in.
  - by apply key_text_in.
  - cbn. rewrite (lookup_alter_None _ _ _). apply Hnewt. in_calls.
  - intros u y. cbn. destruct (decide (u = tid)) as [-> | Hne].
    + rewrite lookup_alter_eq, Hr. intros [= <-]. exact (Hk tid r Hr).
    + rewrite lookup_alter_ne by done. apply Hk.
  - apply enqueue_dispatch_ok; [done | apply Hok | done | done | cbn; apply Hnewo; in_calls | done].
Qed.

(** The loop over the due tasks. *)
Lemma retries_loop_succeeds now items n d :
  (∀ u x h, (u, x, h) ∈ items → uuid_in u = inr u ∧ uuid_in x = inr x ∧ good_text h) →
  (∀ k, (n ≤ k < n + 2 * length items)%nat → outbox_events d !! e_uuid e k = None) →
  (∀ i j, (n ≤ i < n + 2 * length items)%nat → (n ≤ j < n + 2 * length items)%nat → e_uuid e i = e_uuid e j → i = j) →
  tx_wp (tx_for items enqueue_retry) e now n d (λ _ _ _, True).
Proof.
  revert n d. induction items as [| [[u x] h] items IH]; intros n d Hits Hfr Hinj; cbn [tx_for].
  { by apply tx_wp_ret. }
  cbn [length] in Hfr, Hinj. destruct (Hits u x h) as (Hu & Hx & Hh); [apply elem_of_cons; by left |].
  apply tx_wp_bind. cbn [enqueue_retry]. apply tx_wp_bind.
  apply enqueue_dispatch_ok; [done | done | done | done | apply Hfr; lia |]. intros pj.
  eapply tx_wp_stmt; [done | unfold update_task, set_task_enqueued; by rewrite Hu |].
  apply IH; [intros u' x' h' Hin; apply Hits, elem_of_cons; by right | | intros i j ? ?; apply Hinj; lia].
  intros k Hk. cbn. rewrite lookup_insert_ne; [apply Hfr; lia |]. intros Heq%Hinj; lia.
Qed.

Lemma enqueue_due_succeeds l :
  ready (OpEnqueueDueTaskRetries l) (w_db w) → is_ok (run (EnqueueDueTaskRetries l) e w).1 = true.
Proof.
  intros [Hl Hall]. apply in_tx_succeeds; [done |]. apply tx_wp_bind.
  eapply tx_wp_stmt; [done | unfold select_due, limit_in; rewrite (proj2 (Z.ltb_ge _ _)) by done; done |].
  apply tx_wp_bind. set (items := _ <$> _).
  assert (Hlen : (length items ≤ size (task_instances (w_db w)))%nat).
  { unfold items. rewrite length_fmap, length_take, (sort_by_perm _ _). etrans; [apply Nat.le_min_r |].
    etrans; [apply length_filter |]. by rewrite length_map_to_list. }
  destruct (retries_loop_succeeds (e_now e (w_tick w)) items (S (S (w_tick w))) (w_db w)) as (a & d & n & Hb & _).
  - intros u x h Hin. apply list_elem_of_fmap in Hin as ([u' r] & [= -> -> ->] & Hin).
    apply elem_of_take in Hin as (k & Hin%list_elem_of_lookup_2 & _).
    apply elem_of_sort_by, list_elem_of_filter in Hin as [_ Hr%elem_of_map_to_list].
    destruct (wf_tasks _ Hwf _ _ Hr) as [? [? _ _ _ _ _ _ _ _ _]]. by eauto.
  - intros k Hk. apply Hf. in_calls.
  - intros i j ? ?. apply Hf; in_calls.
  - exists a, d, n. split; [done |]. by apply tx_wp_ret.
Qed.

Lemma outbox_succeeds o f :
  row_at (outbox_events (w_db w)) o (λ r, (0 ≤ or_attempt_count r < 2 ^ 31 - 1)%Z) →
  is_ok (f (e_now e (w_tick w))) = true → is_ok (run (atomic (autocommit (update_outbox o f))) e w).1 = true.
Proof.
  intros (u & r & Hu & Hr & Hc) [g Hg]%is_ok_inr.
  erewrite autocommit_succeeds; [done | done |]. unfold update_outbox. rewrite Hu, Hg. cbn [rbind].
  rewrite Hr, int4_in_accepts by lia. done.
Qed.

Lemma select_row_succeeds {V A} (table : db → gmap string V) (scan : string → V → A) i n :
  row_at (table (w_db w)) i (λ _, True) →
  ∃ a, run (atomic (autocommit (select_row table scan i))) e (mk_dbw (w_db w) n) = (inr a, mk_dbw (w_db w) (S n)).
Proof.
  intros (u & r & Hu & Hr & _). eexists. erewrite autocommit_succeeds; [done | done |].
  unfold select_row. cbn. rewrite Hu. cbn [rbind]. by rewrite Hr.
Qed.

Lemma snapshot_succeeds x :
  ready (OpGetExecutionSnapshot x) (w_db w) → is_ok (run (GetExecutionSnapshot x) e w).1 = true.
Proof.
  intros Hx. pose proof Hx as (u & r & Hu & _ & _). unfold GetExecutionSnapshot. rewrite run_bind.
  destruct (select_row_succeeds workflow_executions scanWorkflowExecution x (w_tick w) Hx) as [a Ha].
  unfold GetWorkflowExecution. destruct w as [d n]. cbn [w_db w_tick] in *. rewrite Ha, run_bind.
  erewrite autocommit_succeeds; [| done | unfold select_tasks_of; by rewrite Hu].
  rewrite run_bind. erewrite autocommit_succeeds; [| done | unfold select_attempts_of; by rewrite Hu]. done.
Qed.

Lemma begin_succeeds h k o :
  ready (OpBeginIdempotentTask h k o) (w_db w) → is_ok (run (BeginIdempotentTask h k o) e w).1 = true.
Proof.
  intros (Hh%good_text_in & Hk%good_text_in & Ho & Ht & Hr).
  pose proof (run_begin h k o e w He Hh Hk Ho Ht) as Hrun.
  destruct (run (BeginIdempotentTask h k o) e w) as [r w']. by destruct Hrun as [-> _].
Qed.

Lemma complete_record_succeeds h k o r :
  ready (OpCompleteIdempotentTask h k o r) (w_db w) → is_ok (run (CompleteIdempotentTask h k o r) e w).1 = true.
Proof.
  intros (Hh%good_text_in & Hk%good_text_in & Ho & [js Hjs]%is_ok_inr & row & Hrow & Hown).
  pose proof (run_complete h k o r js row e w He Hh Hk Ho Hjs Hrow Hown) as Hrun.
  destruct (run (CompleteIdempotentTask h k o r) e w) as [res w']. by destruct Hrun as [-> _].
Qed.

Lemma release_succeeds h k o :
  ready (OpReleaseIdempotentTask h k o) (w_db w) → is_ok (run (ReleaseIdempotentTask h k o) e w).1 = true.
Proof.
  intros (Hh%good_text_in & Hk%good_text_in & [u Hu]%is_ok_inr). unfold ReleaseIdempotentTask.
  rewrite run_atomic, run_autocommit by done. unfold release_record. rewrite Hh, Hk, Hu. cbn [rbind].
  repeat case_match; done.
Qed.

Lemma create_definition_succeeds n ds j :
  ready (OpCreateWorkflowDefinition n ds j) (w_db w) → is_ok (run (CreateWorkflowDefinition n ds j) e w).1 = true.
Proof.
  intros (Hn%good_text_in & Hd%good_text_in & [js Hjs]%is_ok_inr & Hnew). unfold CreateWorkflowDefinition.
  erewrite autocommit_succeeds; [done | done |]. unfold insert_definition. rewrite Hn, Hd, Hjs. cbn [rbind].
  rewrite bool_decide_eq_false_2 by (rewrite (fi_definitions _ _ _ Hf) by in_calls; by intros [? ?]).
  destruct (existsb _ _) eqn:Hex; [| done]. exfalso.
  apply existsb_exists in Hex as ([u r] & Hin%list_elem_of_In%elem_of_map_to_list & Heq%String.eqb_eq).
  by apply Hnew in Hin.
Qed.

Lemma list_succeeds {A} (s : nat → stmt A) l :
  (0 ≤ l)%Z → (∀ n k now d, is_ok (s k e n now d) = true) →
  is_ok (run (atomic (autocommit (λ e n now d, let? k := limit_in l in s k e n now d))) e w).1 = true.
Proof.
  intros Hl Hs. rewrite run_atomic, run_autocommit by done. unfold limit_in.
  rewrite (proj2 (Z.ltb_ge _ _)) by done. cbn [rbind].
  specialize (Hs (w_tick w) (Z.to_nat l) (e_now e (w_tick w)) (w_db w)). by destruct (s _ _ _ _ _) as [| [? ?]].
Qed.

End ops.

(** C8: every method of the store succeeds when it can be expected to: with a
    server that answers every call, from a well-formed database, with generated
    identifiers that are new, parameters the columns accept, and the rows the
    method works on in the state it needs (say, a dead-lettered task to replay, no
    task yet with the idempotency key of the next task). *)
Theorem store_op_succeeds op e w :
  reliable e → env_ok e → db_wf (w_db w) → fresh_ids e (w_tick w) (w_db w) → ready op (w_db w) →
  op_ok op e w = true.
Proof.
  intros He Hok Hwf Hf Hr.
  assert (Hsel : ∀ V A (table : db → gmap string V) (scan : string → V → A) i,
    row_at (table (w_db w)) i (λ _, True) → is_ok (run (atomic (autocommit (select_row table scan i))) e w).1 = true).
  { intros V A table scan i Hrow. destruct (select_row_succeeds e w He table scan i (w_tick w) Hrow) as [a Ha].
    destruct w. cbn in Ha |- *. by rewrite Ha. }
  destruct op; cbn [op_ok].
  - by apply create_definition_succeeds.
  - by apply Hsel.
  - by apply Hsel.
  - by apply Hsel.
  - by apply create_execution_succeeds.
  - by apply snapshot_succeeds.
  - by apply (list_succeeds e w He (λ k _ _ _ d, inr (_, d)) limit).
  - by apply replay_succeeds.
  - apply start_attempt_succeeds; try done. apply Hf.
  - by apply complete_succeeds.
  - apply advance_succeeds; try done; apply Hf.
  - by apply enqueue_due_succeeds.
  - by apply schedule_retry_succeeds.
  - by apply fail_succeeds.
  - by apply (list_succeeds e w He (λ k _ _ now d, inr (_, d)) limit).
  - by apply outbox_succeeds.
  - destruct Hr as [Hr Hx%good_text_in]. apply outbox_succeeds; [done | done |]. by rewrite Hx.
  - by apply begin_succeeds.
  - by apply complete_record_succeeds.
  - by apply release_succeeds.
Qed.

End progress.
