(* ===== verification/Workflow.v ===== *)
(** Workflow definitions (internal/orchestrator/service.go, from
    ParseAndValidateWorkflowDefinition on, and the spec structs of
    internal/domain/models.go): the decoding of the JSON document, its
    validation, and the lookups of tasks. *)

From S2P Require Import Prelude GoString GoJson GoError Domain.

Open Scope string_scope.

(** * Decoding *)

Definition zero_task_spec : WorkflowTaskSpec := mkWorkflowTaskSpec "" "" 0 0 "".

Definition set_task_spec (k : string) (v : json) (t : WorkflowTaskSpec) : option WorkflowTaskSpec :=
  let '(mkWorkflowTaskSpec name hkey maxa back next) := t in
  if is_field "name" k then s ← decode_string name v; Some (mkWorkflowTaskSpec s hkey maxa back next)
  else if is_field "handler_key" k then s ← decode_string hkey v; Some (mkWorkflowTaskSpec name s maxa back next)
  else if is_field "max_attempts" k then z ← decode_int maxa v; Some (mkWorkflowTaskSpec name hkey z back next)
  else if is_field "backoff_seconds" k then z ← decode_int back v; Some (mkWorkflowTaskSpec name hkey maxa z next)
  else if is_field "next_task" k then s ← decode_string next v; Some (mkWorkflowTaskSpec name hkey maxa back s)
  else Some t.

(** The spec while it is decoded: the slice [Tasks] is its backing array and
    its length, since a second member "tasks" decodes its elements into the
    array the first one left. *)
Record spec_state : Type := mk_spec_state {
  ss_entry : string;
  ss_backing : list WorkflowTaskSpec;
  ss_len : nat;
}.

Fixpoint decode_tasks (backing : list WorkflowTaskSpec) (l : list json) : option (list WorkflowTaskSpec) :=
  match l with
  | [] => Some backing
  | v :: l' =>
      t ← decode_struct set_task_spec (default zero_task_spec (head backing)) v;
      rest ← decode_tasks (tail backing) l';
      Some (t :: rest)
  end.

Definition set_spec (k : string) (v : json) (s : spec_state) : option spec_state :=
  if is_field "entry_task" k then
    e ← decode_string (ss_entry s) v; Some (mk_spec_state e (ss_backing s) (ss_len s))
  else if is_field "tasks" k then
    match v with
    | JNull | JArr [] => Some (mk_spec_state (ss_entry s) [] 0)
    | JArr l => b ← decode_tasks (ss_backing s) l; Some (mk_spec_state (ss_entry s) b (length l))
    | _ => None
    end
  else Some s.

(** [json.Unmarshal(raw, &workflowSpec)]; [None] is an error. *)
Definition unmarshal_spec (raw : string) : option WorkflowDefinitionSpec :=
  v ← parse raw;
  s ← decode_struct set_spec (mk_spec_state "" [] 0) v;
  Some (mkWorkflowDefinitionSpec (ss_entry s) (take (ss_len s) (ss_backing s))).

(** * Lookups *)

Definition FindTaskSpecByName (workflowSpec : WorkflowDefinitionSpec) (taskName : string)
    : error + WorkflowTaskSpec :=
  match find (λ task, same_trimmed (ts_Name task) taskName) (ws_Tasks workflowSpec) with
  | Some task => inr task
  | None => inl (ErrNew ("task not found in workflow definition: " +:+ taskName))
  end.

Definition FindEntryTask (workflowSpec : WorkflowDefinitionSpec) : error + WorkflowTaskSpec :=
  let entryTaskName := TrimSpace (ws_EntryTask workflowSpec) in
  match find (λ task, String.eqb (TrimSpace (ts_Name task)) entryTaskName) (ws_Tasks workflowSpec) with
  | Some task => inr task
  | None => inl (ErrNew "entry_task must be one of the tasks defined in the workflow definition")
  end.

(** The result [(spec, true, nil)] is [Some spec], [(_, false, nil)] is [None]. *)
Definition FindNextTaskSpec (workflowSpec : WorkflowDefinitionSpec) (currentTaskName : string)
    : error + option WorkflowTaskSpec :=
  match FindTaskSpecByName workflowSpec currentTaskName with
  | inl err => inl (ErrWrap "failed to find current task" err)
  | inr taskSpec =>
      if blank (ts_NextTask taskSpec) then inr None
      else match FindTaskSpecByName workflowSpec (ts_NextTask taskSpec) with
           | inl err => inl (ErrWrap "invalid next_task reference" err)
           | inr nextTaskSpec => inr (Some nextTaskSpec)
           end
  end.

(** * Validation *)

(** The body of the loop over the tasks; the result is whether this task is
    the entry task. *)
Definition validate_task (spec : WorkflowDefinitionSpec) (task : WorkflowTaskSpec) : error + bool :=
  let? _ := guard_err (blank (ts_Name task))
              (ErrNew "workflow definition tasks must have a name") in
  let? _ := guard_err (blank (ts_HandlerKey task))
              (ErrNew "workflow definition tasks must have a handler_key") in
  let? _ := guard_err (Z.ltb (ts_MaxAttempts task) 0)
              (ErrNew "workflow definition tasks must have max_attempts of at least 0") in
  let? _ := guard_err (Z.ltb (ts_BackoffSeconds task) 0)
              (ErrNew "workflow definition tasks must have backoff_seconds of at least 0") in
  let? _ := guard_err (negb (blank (ts_NextTask task)) && same_trimmed (ts_NextTask task) (ts_Name task))
              (ErrNew "workflow definition tasks cannot have next_task that points to itself") in
  let? _ := (if negb (blank (ts_NextTask task)) then
               match FindTaskSpecByName spec (ts_NextTask task) with
               | inl err => inl (ErrWrap "workflow definition tasks have invalid next_task" err)
               | inr _ => inr tt
               end
             else inr tt) in
  inr (same_trimmed (ts_Name task) (ws_EntryTask spec)).

Fixpoint validate_tasks (spec : WorkflowDefinitionSpec) (tasks : list WorkflowTaskSpec)
    (entryTaskFound : bool) : error + bool :=
  match tasks with
  | [] => inr entryTaskFound
  | task :: rest =>
      let? is_entry := validate_task spec task in
      validate_tasks spec rest (entryTaskFound || is_entry)
  end.

Definition ParseAndValidateWorkflowDefinition (raw : string) : error + WorkflowDefinitionSpec :=
  match unmarshal_spec raw with
  | None => inl (ErrWrap "unmarshal workflow definition" (ErrJson raw))
  | Some spec =>
      let? _ := guard_err (blank (ws_EntryTask spec))
                  (ErrNew "workflow definition must have an entry_task") in
      let? _ := guard_err (Nat.eqb (length (ws_Tasks spec)) 0)
                  (ErrNew "workflow definition must have at least one task") in
      let? entryTaskFound := validate_tasks spec (ws_Tasks spec) false in
      let? _ := guard_err (negb entryTaskFound)
                  (ErrNew "entry_task must be one of the tasks defined in the workflow definition") in
      inr spec
  end.

(** * Limits of queries *)

Definition defaultDeadLetterTaskLimit : Z := 100.
Definition maxDeadLetterTaskLimit : Z := 500.

Definition normalizeDeadLetterTaskLimit (limit : Z) : Z :=
  if Z.leb limit 0 then defaultDeadLetterTaskLimit
  else if Z.ltb maxDeadLetterTaskLimit limit then maxDeadLetterTaskLimit
  else limit.

(** * Properties *)

(** What a task of an accepted definition satisfies. *)
Record task_spec_ok (spec : WorkflowDefinitionSpec) (t : WorkflowTaskSpec) : Prop := {
  sk_name : blank (ts_Name t) = false;
  sk_handler : blank (ts_HandlerKey t) = false;
  sk_attempts : (0 ≤ ts_MaxAttempts t)%Z;
  sk_backoff : (0 ≤ ts_BackoffSeconds t)%Z;
  sk_next : blank (ts_NextTask t) = false →
    TrimSpace (ts_NextTask t) ≠ TrimSpace (ts_Name t) ∧
    ∃ u, u ∈ ws_Tasks spec ∧ TrimSpace (ts_Name u) = TrimSpace (ts_NextTask t);
}.

Record spec_ok (spec : WorkflowDefinitionSpec) : Prop := {
  so_entry : blank (ws_EntryTask spec) = false;
  so_entry_task : ∃ t, t ∈ ws_Tasks spec ∧ TrimSpace (ts_Name t) = TrimSpace (ws_EntryTask spec);
  so_tasks : ∀ t, t ∈ ws_Tasks spec → task_spec_ok spec t;
}.

Lemma find_by_name_iff spec name :
  (∃ t, FindTaskSpecByName spec name = inr t) ↔
  ∃ u, u ∈ ws_Tasks spec ∧ TrimSpace (ts_Name u) = TrimSpace name.
Proof.
  unfold FindTaskSpecByName. destruct (find _ _) as [t |] eqn:E.
  - apply find_some in E as [Hin Ht]. split; [| eauto]. intros _. exists t.
    split; [by apply list_elem_of_In | by apply same_trimmed_true].
  - split; [intros [t Ht]; done |]. intros (u & Hu%list_elem_of_In & Heq).
    pose proof (find_none _ _ E u Hu) as Hn. cbn in Hn.
    by rewrite (proj2 (same_trimmed_true _ _) Heq) in Hn.
Qed.

Lemma find_by_name_inr spec name t :
  FindTaskSpecByName spec name = inr t → t ∈ ws_Tasks spec ∧ TrimSpace (ts_Name t) = TrimSpace name.
Proof.
  unfold FindTaskSpecByName. destruct (find _ _) as [u |] eqn:E; [| done]. intros [= ->].
  apply find_some in E as [Hin Ht]. split; [by apply list_elem_of_In | by apply same_trimmed_true].
Qed.

Lemma find_by_name_same spec a b :
  TrimSpace a = TrimSpace b → is_ok (FindTaskSpecByName spec a) = true →
  FindTaskSpecByName spec a = FindTaskSpecByName spec b.
Proof.
  intros Hab. unfold FindTaskSpecByName.
  assert (Hf : ∀ l, find (λ task, same_trimmed (ts_Name task) a) l = find (λ task, same_trimmed (ts_Name task) b) l).
  { induction l as [| x l IH]; cbn; [done |]. unfold same_trimmed at 1 3. by rewrite Hab, IH. }
  rewrite Hf. by case_match.
Qed.

Lemma validate_task_iff spec t b :
  validate_task spec t = inr b ↔
  task_spec_ok spec t ∧ b = same_trimmed (ts_Name t) (ws_EntryTask spec).
Proof.
  unfold validate_task. split.
  - intros Hv. inv_res.
    repeat match goal with E : guard_err _ _ = inr _ |- _ => apply guard_err_inr in E end.
    split; [| done]. split; try done; try lia.
    intros Hnb. destruct (blank (ts_NextTask t)); [done |]. cbn in *. split.
    + intros Heq. rewrite (proj2 (same_trimmed_true _ _) Heq) in *. done.
    + apply find_by_name_iff. destruct (FindTaskSpecByName spec (ts_NextTask t)); [done | eauto].
  - intros [[Hn Hh Ha Hb Hx] ->].
    rewrite Hn, Hh, (proj2 (Z.ltb_ge _ _) Ha), (proj2 (Z.ltb_ge _ _) Hb). cbn.
    destruct (blank (ts_NextTask t)) eqn:Enb; cbn; [done |].
    destruct (Hx eq_refl) as [Hne [u Hu]%find_by_name_iff]. rewrite Hu.
    destruct (same_trimmed (ts_NextTask t) (ts_Name t)) eqn:Es; [| done].
    by apply same_trimmed_true in Es.
Qed.

Lemma validate_tasks_iff spec tasks found b :
  validate_tasks spec tasks found = inr b ↔
  (∀ t, t ∈ tasks → task_spec_ok spec t) ∧
  b = (found || existsb (λ t, same_trimmed (ts_Name t) (ws_EntryTask spec)) tasks)%bool.
Proof.
  revert found. induction tasks as [| t tasks IH]; intros found; cbn [validate_tasks existsb].
  - rewrite orb_false_r. split; [intros [= ->]; set_solver | by intros [_ ->]].
  - rewrite rbind_inr, orb_assoc. setoid_rewrite validate_task_iff. setoid_rewrite IH.
    split; [intros (? & [? ->] & [? ->]); set_solver |]. intros [Hall ->]. eexists. split_and!; [| reflexivity | | reflexivity]; set_solver.
Qed.

(** Accepted means decoded and well-formed. *)
Lemma accepted_inv raw spec :
  ParseAndValidateWorkflowDefinition raw = inr spec → unmarshal_spec raw = Some spec ∧ spec_ok spec.
Proof.
  unfold ParseAndValidateWorkflowDefinition. destruct (unmarshal_spec raw) as [s |]; [| done].
  intros Hv. inv_res.
  match goal with E : validate_tasks _ _ _ = inr _ |- _ => apply validate_tasks_iff in E as [Hall ->] end.
  split; [done |]. split; [done | | done].
  match goal with E : negb (_ || _) = false |- _ => apply negb_false_iff in E; cbn in E;
    apply existsb_exists in E as (t & Ht%list_elem_of_In & Et%same_trimmed_true) end. eauto.
Qed.

Lemma accepted_intro raw spec :
  unmarshal_spec raw = Some spec → spec_ok spec → ParseAndValidateWorkflowDefinition raw = inr spec.
Proof.
  intros Hu [Hb (t & Ht & Et) Hall].
  unfold ParseAndValidateWorkflowDefinition. rewrite Hu, Hb. cbn [guard_err rbind].
  destruct (ws_Tasks spec) as [| t0 l] eqn:El; [by apply elem_of_nil in Ht |]. rewrite <-El in *. cbn [Nat.eqb].
  replace (Nat.eqb (length (ws_Tasks spec)) 0) with false by by rewrite El. cbn [guard_err rbind].
  rewrite (proj2 (validate_tasks_iff spec (ws_Tasks spec) false _)) by (split; [done | reflexivity]).
  cbn [rbind orb]. rewrite (proj2 (existsb_exists _ _)); [done |]. exists t.
  split; [by apply list_elem_of_In | by apply same_trimmed_true].
Qed.

(** C35: validation accepts exactly the definitions that decode to a spec with a
    non-blank entry task that is one of its tasks, whose tasks all have a name and
    a handler, non-negative limits, and a next task (if any) that exists and is
    another one. *)
Theorem validate_exact raw spec :
  ParseAndValidateWorkflowDefinition raw = inr spec ↔ unmarshal_spec raw = Some spec ∧ spec_ok spec.
Proof. split; [apply accepted_inv | intros []; by apply accepted_intro]. Qed.

(** C36: on an accepted definition the lookups of the engine never fail: there is
    an entry task; the task a name refers to has a next task exactly when its
    next_task is not blank; and that next task is one of the definition, has
    another name, and can be looked up again by its name. *)
Theorem lookups_total spec :
  spec_ok spec →
  (∃ t, FindEntryTask spec = inr t ∧ t ∈ ws_Tasks spec) ∧
  ∀ name t, FindTaskSpecByName spec name = inr t →
    if blank (ts_NextTask t) then FindNextTaskSpec spec name = inr None
    else ∃ u, FindNextTaskSpec spec name = inr (Some u) ∧ u ∈ ws_Tasks spec ∧
      TrimSpace (ts_Name u) = TrimSpace (ts_NextTask t) ∧ TrimSpace (ts_Name u) ≠ TrimSpace name ∧
      is_ok (FindTaskSpecByName spec (ts_Name u)) = true.
Proof.
  intros [Hb (t0 & Ht0 & E0) Hall]. split.
  - assert (He : ∃ t, FindTaskSpecByName spec (ws_EntryTask spec) = inr t) by (apply find_by_name_iff; eauto).
    destruct He as [t Ht]. exists t. split; [| by apply find_by_name_inr in Ht as [? _]].
    unfold FindTaskSpecByName in Ht. unfold FindEntryTask. unfold same_trimmed in Ht. by destruct (find _ _).
  - intros name t Ht. unfold FindNextTaskSpec. rewrite Ht.
    destruct (blank (ts_NextTask t)) eqn:Enb; [done |].
    apply find_by_name_inr in Ht as [Hin Hname]. destruct (Hall t Hin) as [_ _ _ _ [Hne Hx%find_by_name_iff]%(λ f, f Enb)].
    destruct Hx as [u Hu]. rewrite Hu. exists u. apply find_by_name_inr in Hu as [Huin Hun].
    split_and!; [done | done | done | congruence |].
    destruct (proj2 (find_by_name_iff spec (ts_Name u))) as [v ->]; eauto.
Qed.

(** ** Chains of tasks *)

(** The name of the task [n] steps after the task [name]; [None] when the chain
    ended before. *)
Fixpoint walk (spec : WorkflowDefinitionSpec) (n : nat) (name : string) : option string :=
  match n with
  | 0%nat => Some name
  | S n' => match FindNextTaskSpec spec name with
            | inr (Some u) => walk spec n' (ts_Name u)
            | _ => None
            end
  end.

Definition task_names (spec : WorkflowDefinitionSpec) : list string :=
  (λ t, TrimSpace (ts_Name t)) <$> ws_Tasks spec.

Lemma next_is_task spec name u :
  FindNextTaskSpec spec name = inr (Some u) → u ∈ ws_Tasks spec.
Proof.
  unfold FindNextTaskSpec. repeat case_match; intros [=]; subst.
  by eapply find_by_name_inr.
Qed.

Lemma walk_in_tasks spec n name m :
  TrimSpace name ∈ task_names spec → walk spec n name = Some m → TrimSpace m ∈ task_names spec.
Proof.
  revert name. induction n as [| n IH]; intros name Hin; cbn; [by intros [= <-] |].
  destruct (FindNextTaskSpec spec name) as [| [u |]] eqn:E; [done | | done]. apply IH.
  apply next_is_task in E. by apply (list_elem_of_fmap_2' (λ t, TrimSpace (ts_Name t)) _ u).
Qed.

Lemma walk_defined_before spec n m name : (n ≤ m)%nat → is_Some (walk spec m name) → is_Some (walk spec n name).
Proof.
  revert n name. induction m as [| m IH]; intros [| n] name Hle; cbn; try done; [lia |].
  destruct (FindNextTaskSpec spec name) as [| [u |]]; try done. apply IH. lia.
Qed.

(** The chain of tasks of a definition, followed from one of its tasks, ends
    after at most as many steps as there are tasks, or comes back to a name it
    has already visited. *)
Theorem chain_ends_or_repeats spec name :
  TrimSpace name ∈ task_names spec →
  walk spec (length (ws_Tasks spec)) name = None ∨
  ∃ i j a b, (i < j ≤ length (ws_Tasks spec))%nat ∧ walk spec i name = Some a ∧
    walk spec j name = Some b ∧ TrimSpace a = TrimSpace b.
Proof.
  intros Hin. set (n := length (ws_Tasks spec)).
  destruct (walk spec n name) as [last |] eqn:Elast; [| by left]. right.
  assert (Hdef : ∀ i, (i ≤ n)%nat → is_Some (walk spec i name)) by (intros i Hi; by eapply walk_defined_before).
  set (visited := (λ i, TrimSpace (default "" (walk spec i name))) <$> seq 0 (S n)).
  destruct (decide (NoDup visited)) as [Hnd | Hdup].
  - assert (Hle : (length visited ≤ length (task_names spec))%nat).
    { apply submseteq_length, NoDup_submseteq; [done |].
      intros x (i & -> & Hi%elem_of_seq)%list_elem_of_fmap. destruct (Hdef i) as [a Ha]; [lia |].
      rewrite Ha. by eapply walk_in_tasks. }
    unfold visited, task_names in Hle. rewrite !length_fmap, length_seq in Hle. lia.
  - apply dup_indices in Hdup as (i & j & x & Hij & Hi & Hj).
    apply list_lookup_fmap_Some in Hi as (i' & -> & Hi). apply list_lookup_fmap_Some in Hj as (j' & Hx & Hj).
    apply lookup_seq in Hi as [Ei Hi]. apply lookup_seq in Hj as [Ej Hj]. cbn in Ei, Ej. subst i' j'.
    destruct (Hdef i) as [a Ha]; [lia |]. destruct (Hdef j) as [b Hb]; [lia |]. rewrite Ha, Hb in Hx.
    exists i, j, a, b. split_and!; (done || lia).
Qed.

(** A definition with two tasks that name each other as the next one. *)
Definition cyclic_spec : WorkflowDefinitionSpec :=
  mkWorkflowDefinitionSpec "a" [mkWorkflowTaskSpec "a" "sample.echo" 0 0 "b";
                                mkWorkflowTaskSpec "b" "sample.echo" 0 0 "a"].

Definition cyclic_json : json :=
  JObj [("entry_task", JStr "a");
        ("tasks", JArr [JObj [("name", JStr "a"); ("handler_key", JStr "sample.echo"); ("next_task", JStr "b")];
                        JObj [("name", JStr "b"); ("handler_key", JStr "sample.echo"); ("next_task", JStr "a")]])].

Definition cyclic_definition : string := of_bytes (encode cyclic_json).

(** Validation does not exclude cycles: a definition whose two tasks name
    each other is accepted, although the chain from its entry task never ends. *)
Theorem cycle_accepted :
  ParseAndValidateWorkflowDefinition cyclic_definition = inr cyclic_spec ∧
  ∀ n, is_Some (walk cyclic_spec n (ws_EntryTask cyclic_spec)).
Proof.
  split; [vm_compute; reflexivity |].
  assert (Hab : ∀ n, is_Some (walk cyclic_spec n "a") ∧ is_Some (walk cyclic_spec n "b")).
  { induction n as [| n [Ha Hb]]; [split; by eexists |]. split; [exact Hb | exact Ha]. }
  intros n. apply Hab.
Qed.

(** Dead-letter queries ask for at least one task and at most 500. *)
Lemma dead_letter_limit_bounds limit :
  (1 ≤ normalizeDeadLetterTaskLimit limit ≤ maxDeadLetterTaskLimit)%Z.
Proof.
  unfold normalizeDeadLetterTaskLimit, defaultDeadLetterTaskLimit, maxDeadLetterTaskLimit.
  destruct (Z.leb limit 0) eqn:E1; [lia |]. destruct (Z.ltb 500 limit) eqn:E2; lia.
Qed.

(** ** Witnesses *)

Definition order_spec : WorkflowDefinitionSpec :=
  mkWorkflowDefinitionSpec "reserve" [mkWorkflowTaskSpec "reserve" "sample.echo" 3 60 "ship";
                                      mkWorkflowTaskSpec "ship" "sample.echo" 0 0 ""].

Definition order_definition : string :=
  of_bytes (encode (JObj
    [("entry_task", JStr "reserve");
     ("tasks", JArr [JObj [("name", JStr "reserve"); ("handler_key", JStr "sample.echo");
                           ("max_attempts", JNum "3"); ("backoff_seconds", JNum "60");
                           ("next_task", JStr "ship")];
                     JObj [("name", JStr "ship"); ("handler_key", JStr "sample.echo")]])])).

Lemma order_accepted : ParseAndValidateWorkflowDefinition order_definition = inr order_spec.
Proof. vm_compute. reflexivity. Qed.

Lemma lookups_total_witness :
  ∃ u, FindNextTaskSpec order_spec "reserve" = inr (Some u) ∧ ts_Name u = "ship".
Proof.
  destruct (lookups_total order_spec (proj2 (accepted_inv _ _ order_accepted))) as [_ H].
  destruct (H "reserve" (mkWorkflowTaskSpec "reserve" "sample.echo" 3 60 "ship") eq_refl) as (u & Hu & _).
  exists u. split; [exact Hu |]. cbv in Hu. injection Hu as <-. reflexivity.
Defined.

Lemma chain_ends_or_repeats_witness :
  ∃ i j a b, (i < j ≤ 2)%nat ∧ walk cyclic_spec i "a" = Some a ∧ walk cyclic_spec j "a" = Some b ∧
    TrimSpace a = TrimSpace b.
Proof.
  destruct (chain_ends_or_repeats cyclic_spec "a") as [H | H];
    [apply (bool_decide_unpack (_ ∈ _)); vm_compute; exact I | discriminate H | exact H].
Defined.
