(* ===== verification/Service.v ===== *)
(** The API's service (internal/orchestrator/service.go, methods of Service). *)

From S2P Require Import Prelude GoString GoJson GoError Proc Domain Db Pg Store Workflow.

Open Scope string_scope.

Record CreateWorkflowDefinitionRequest : Type := mkCreateRequest {
  cr_Name : string;
  cr_Description : string;
  cr_Definition : string;
}.

Record TriggerExecutionRequest : Type := mkTriggerRequest {
  tq_WorkflowDefinitionID : string;
  tq_Input : string;
}.

(** The definition used when the request has none (quotes written as
    apostrophes). *)
Definition json_text (s : string) : string :=
  of_bytes ((λ c, if Z.eqb (byte c) 39 then dq else c) <$> to_bytes s).

Definition default_definition : string := json_text
"{
  'entry_task': 'sample-task',
  'tasks': [
    {
      'name': 'sample-task',
      'handler_key': 'sample.echo'
    }
  ]
	}".

Example default_definition_accepted :
  ParseAndValidateWorkflowDefinition default_definition =
  inr (mkWorkflowDefinitionSpec "sample-task" [mkWorkflowTaskSpec "sample-task" "sample.echo" 0 0 ""]).
Proof. vm_compute. reflexivity. Qed.

Section service.
Context `{Postgres}.

Definition service_CreateWorkflowDefinition (req : CreateWorkflowDefinitionRequest)
    : proc dbw WorkflowDefinition :=
  let name := TrimSpace (cr_Name req) in
  if String.eqb name "" then fail (ErrNew "workflow name is required")
  else
    let definition := if Nat.eqb (String.length (cr_Definition req)) 0 then default_definition
                      else cr_Definition req in
    let! _ := lift_res (ParseAndValidateWorkflowDefinition definition) in
    try (CreateWorkflowDefinition name (cr_Description req) definition) (λ r,
    match r with
    | inl err => if IsUniqueViolation err then fail (ErrNew "workflow name already exists")
                 else fail (ErrWrap "create workflow definition" err)
    | inr item => return_ item
    end).

Definition TriggerExecution (req : TriggerExecutionRequest) : proc dbw ExecutionStartResult :=
  if blank (tq_WorkflowDefinitionID req) then fail (ErrNew "workflow_definition_id is required")
  else
    try (GetWorkflowDefinition (tq_WorkflowDefinitionID req)) (λ r,
    match r with
    | inl err => if IsNotFound err then fail (ErrWrap "workflow definition not found" err)
                 else fail (ErrWrap "get workflow definition" err)
    | inr workflowDefinition =>
        let! workflowSpec := lift_res (ParseAndValidateWorkflowDefinition (wd_DefinitionJSON workflowDefinition)) in
        let! entryTask := lift_res (FindEntryTask workflowSpec) in
        wrap_err "create execution"
          (CreateExecutionAndTask (tq_WorkflowDefinitionID req) (tq_Input req)
             (ts_Name entryTask) (ts_HandlerKey entryTask))
    end).

Definition service_GetExecutionSnapshot (executionID : string) : proc dbw ExecutionSnapshot :=
  GetExecutionSnapshot executionID.

Definition GetDeadLetteredTasks (limit : Z) : proc dbw (list TaskInstance) :=
  ListDeadLetteredTasks (normalizeDeadLetterTaskLimit limit).

Definition service_ReplayDeadLetteredTask (taskID : string) : proc dbw TaskInstance :=
  let taskID := TrimSpace taskID in
  if String.eqb taskID "" then fail (ErrNew "task id is required")
  else
    try (ReplayDeadLetteredTask taskID) (λ r,
    match r with
    | inl err => if (IsNotFound err || IsTaskNotReplayable err)%bool then fail err
                 else fail (ErrWrap "replay dead-lettered task" err)
    | inr task => return_ task
    end).

End service.
