(* ===== verification/HttpApi.v ===== *)
(** The HTTP API (internal/httpapi/router.go, health.go): requests, handlers and
    responses.  A handler is a process over the database that always ends in a
    response.  Paths are as [net/http] hands them to the router, in canonical
    form (it redirects others); headers of a response are a map, and a JSON body
    is the Go value that is encoded, whose bytes [body_text] gives. *)

From S2P Require Import Prelude GoString GoJson GoStrconv GoUrl GoDecoder GoError Proc Domain DomainJson Db Pg Store.
From S2P Require Import Workflow Service.

Open Scope string_scope.

(** * Requests and responses *)

Record request : Type := mkRequest {
  rq_Method : string;
  rq_Path : string;
  rq_RawQuery : string;
  rq_Body : string;
}.

(** The values the handlers encode. *)
Inductive payload : Type :=
| PError (text : string)                         (* map[string]any{"error": text} *)
| PDefinition (d : WorkflowDefinition)
| PStarted (r : ExecutionStartResult)
| PSnapshot (s : ExecutionSnapshot)
| PTasks (l : list TaskInstance)
| PTask (t : TaskInstance)
| PHealth (service status : string) (err : option string).

Inductive content : Type :=
| NoContent
| Text (s : string)
| Json (p : payload).

Record response : Type := mkResponse {
  rp_Status : Z;
  rp_Header : gmap string string;
  rp_Content : content;
}.

Definition writeJSON (status : Z) (p : payload) : response :=
  mkResponse status {["Content-Type" := "application/json"]} (Json p).

(** The bytes of a body: the encoder writes the value and a line feed, and
    nothing when the value cannot be marshalled (the error is dropped).  The keys
    of a marshalled map are sorted. *)
Definition payload_marshalled (local : Z → Z) (p : payload) : option marshalled :=
  match p with
  | PError text => m_object [("error", m_string text)]
  | PDefinition d => WorkflowDefinition_json local d
  | PStarted r => ExecutionStartResult_json local r
  | PSnapshot s => ExecutionSnapshot_json local s
  | PTasks l => m_nil_slice (TaskInstance_json local <$> l)
  | PTask t => TaskInstance_json local t
  | PHealth service status err =>
      m_object (match err with Some text => [("error", m_string text)] | None => [] end ++
                [("service", m_string service); ("status", m_string status)])%list
  end.

Definition body_text (local : Z → Z) (c : content) : string :=
  match c with
  | NoContent => ""
  | Text s => s
  | Json p => match payload_marshalled local p with Some m => of_bytes (m_bytes m ++ [chr 10])%list | None => "" end
  end.

(** [http.Error], and [w.WriteHeader] alone. *)
Definition http_Error (text : string) (status : Z) : response :=
  mkResponse status {["Content-Type" := "text/plain; charset=utf-8"; "X-Content-Type-Options" := "nosniff"]}
    (Text (text +:+ of_bytes [chr 10])).
Definition write_header (status : Z) : response := mkResponse status ∅ NoContent.

Definition method_not_allowed : response := http_Error "method not allowed" 405.

(** * Reading a request *)

Definition set_createWorkflowRequest (key : string) (v : json) (raw : string) (r : CreateWorkflowDefinitionRequest)
    : option CreateWorkflowDefinitionRequest :=
  if is_field "name" key then
    s ← decode_string (cr_Name r) v; Some (mkCreateRequest s (cr_Description r) (cr_Definition r))
  else if is_field "description" key then
    s ← decode_string (cr_Description r) v; Some (mkCreateRequest (cr_Name r) s (cr_Definition r))
  else if is_field "definition" key then Some (mkCreateRequest (cr_Name r) (cr_Description r) raw)
  else Some r.

Definition decode_createWorkflowRequest (body : string) : option CreateWorkflowDefinitionRequest :=
  Decode set_createWorkflowRequest (mkCreateRequest "" "" "") body.

Definition set_triggerExecutionRequest (key : string) (v : json) (raw : string) (r : TriggerExecutionRequest)
    : option TriggerExecutionRequest :=
  if is_field "workflow_definition_id" key then
    s ← decode_string (tq_WorkflowDefinitionID r) v; Some (mkTriggerRequest s (tq_Input r))
  else if is_field "input" key then Some (mkTriggerRequest (tq_WorkflowDefinitionID r) raw)
  else Some r.

Definition decode_triggerExecutionRequest (body : string) : option TriggerExecutionRequest :=
  Decode set_triggerExecutionRequest (mkTriggerRequest "" "") body.

Definition parsePositiveIntQuery (r : request) (key : string) : error + Z :=
  let raw := TrimSpace (query_get (rq_RawQuery r) key) in
  if String.eqb raw "" then inr 0%Z
  else match Atoi raw with
  | None => inl (ErrNew (key +:+ " must be a valid integer"))
  | Some value =>
      let? _ := guard_err (Z.leb value 0) (ErrNew (key +:+ " must be greater than 0")) in
      inr value
  end.

Definition parseTaskActionPath (path : string) : option (string * string) :=
  let trimmed := TrimPrefix path "/api/tasks/" in
  match Split (Trim trimmed 47) 47 with
  | [taskID; action] => if (blank taskID || blank action)%bool then None else Some (taskID, action)
  | _ => None
  end.

(** * The handlers *)

(** [OPTIONS] and a method other than the one that is served. *)
Definition with_method {W} (method : string) (r : request) (serve : proc W response) : proc W response :=
  if String.eqb (rq_Method r) "OPTIONS" then return_ (write_header 204)
  else if negb (String.eqb (rq_Method r) method) then return_ method_not_allowed
  else serve.

(** Every response carries the CORS headers; [OPTIONS] goes no further. *)
Definition cors_header (h : gmap string string) : gmap string string :=
  h ∪ {["Access-Control-Allow-Origin" := "*"; "Access-Control-Allow-Headers" := "Content-Type";
        "Access-Control-Allow-Methods" := "GET,POST,OPTIONS"]}.

Definition cors {W} (next : request → proc W response) (r : request) : proc W response :=
  let set_headers rp := mkResponse (rp_Status rp) (cors_header (rp_Header rp)) (rp_Content rp) in
  if String.eqb (rq_Method r) "OPTIONS" then return_ (set_headers (write_header 204))
  else let! rp := next r in return_ (set_headers rp).

(** What is registered with the multiplexer; the handler of /metrics is the one of
    the Prometheus library. *)
Record routes (W : Type) : Type := mkRoutes {
  rt_metrics : request → proc W response;
  rt_healthz : request → proc W response;
  rt_workflows : request → proc W response;
  rt_executions : request → proc W response;
  rt_execution : request → proc W response;
  rt_tasks : request → proc W response;
  rt_dead : request → proc W response;
}.
Arguments mkRoutes {W}.
Arguments rt_metrics {W}. Arguments rt_healthz {W}. Arguments rt_workflows {W}. Arguments rt_executions {W}.
Arguments rt_execution {W}. Arguments rt_tasks {W}. Arguments rt_dead {W}.

(** The multiplexer: the pattern that matches, an exact path before a prefix;
    a prefix without its slash is redirected to. *)
Definition ServeHTTP {W} (rt : routes W) (r : request) : proc W response :=
  let path := rq_Path r in
  if String.eqb path "/metrics" then rt_metrics rt r
  else if String.eqb path "/healthz" then rt_healthz rt r
  else if String.eqb path "/api/workflows" then rt_workflows rt r
  else if String.eqb path "/api/executions" then rt_executions rt r
  else if has_prefix "/api/executions/" path then rt_execution rt r
  else if has_prefix "/api/tasks/" path then rt_tasks rt r
  else if String.eqb path "/api/dead-letter-tasks" then rt_dead rt r
  else if String.eqb path "/api/dead-lettered-tasks" then rt_dead rt r
  else if String.eqb path "/api/tasks" then
    return_ (mkResponse 301 {["Location" := "/api/tasks/" +:+
      (if String.eqb (rq_RawQuery r) "" then "" else "?" +:+ rq_RawQuery r)]} NoContent)
  else return_ (http_Error "404 page not found" 404).

Section router.
Context `{Postgres} `{ErrorTexts}.


Definition handleWorkflows (r : request) : proc dbw response :=
  with_method "POST" r
    match decode_createWorkflowRequest (rq_Body r) with
    | None => return_ (writeJSON 400 (PError "invalid JSON body"))
    | Some req =>
        try (service_CreateWorkflowDefinition req) (λ res,
        match res with
        | inl err => return_ (writeJSON 400 (PError (Error err)))
        | inr result => return_ (writeJSON 201 (PDefinition result))
        end)
    end.

Definition handleExecutions (r : request) : proc dbw response :=
  with_method "POST" r
    match decode_triggerExecutionRequest (rq_Body r) with
    | None => return_ (writeJSON 400 (PError "invalid JSON body"))
    | Some req =>
        try (TriggerExecution req) (λ res,
        match res with
        | inl err =>
            if IsNotFound err then return_ (writeJSON 404 (PError "workflow definition not found"))
            else return_ (writeJSON 400 (PError (Error err)))
        | inr result => return_ (writeJSON 202 (PStarted result))
        end)
    end.

Definition handleExecutionSnapshot (r : request) : proc dbw response :=
  with_method "GET" r
    (let executionID := TrimPrefix (rq_Path r) "/api/executions/" in
     if String.eqb executionID "" then return_ (writeJSON 400 (PError "execution id is required"))
     else
       try (service_GetExecutionSnapshot executionID) (λ res,
       match res with
       | inl err =>
           if IsNotFound err then return_ (writeJSON 404 (PError "execution not found"))
           else return_ (writeJSON 500 (PError "failed to load execution"))
       | inr snapshot => return_ (writeJSON 200 (PSnapshot snapshot))
       end)).

Definition handleDeadLetteredTasks (r : request) : proc dbw response :=
  with_method "GET" r
    match parsePositiveIntQuery r "limit" with
    | inl err => return_ (writeJSON 400 (PError (Error err)))
    | inr limit =>
        try (GetDeadLetteredTasks limit) (λ res,
        match res with
        | inl err => return_ (writeJSON 500 (PError "failed to load dead lettered tasks"))
        | inr tasks => return_ (writeJSON 200 (PTasks tasks))
        end)
    end.

Definition handleTaskActions (r : request) : proc dbw response :=
  with_method "POST" r
    match parseTaskActionPath (rq_Path r) with
    | None => return_ (writeJSON 404 (PError "task action not found"))
    | Some (taskID, action) =>
        if String.eqb action "replay" then
          try (service_ReplayDeadLetteredTask taskID) (λ res,
          match res with
          | inl err =>
              if IsNotFound err then return_ (writeJSON 404 (PError "task not found"))
              else if IsTaskNotReplayable err
              then return_ (writeJSON 400 (PError "only dead-lettered tasks can be replayed"))
              else return_ (writeJSON 500 (PError "failed to replay task"))
          | inr task => return_ (writeJSON 202 (PTask task))
          end)
        else return_ (writeJSON 404 (PError "task action not found"))
    end.

(** [/healthz]. *)
Definition handle_health (service : string) (healthFn : proc dbw unit) (r : request) : proc dbw response :=
  if negb (String.eqb (rq_Method r) "GET") then return_ method_not_allowed
  else
    try healthFn (λ res,
    match res with
    | inl err => return_ (writeJSON 503 (PHealth service "unhealthy" (Some (Error err))))
    | inr _ => return_ (writeJSON 200 (PHealth service "ok" None))
    end).

Definition mux (healthFn : proc dbw unit) (metrics : request → proc dbw response) : request → proc dbw response :=
  ServeHTTP (mkRoutes metrics (handle_health "api" healthFn) handleWorkflows handleExecutions
               handleExecutionSnapshot handleTaskActions handleDeadLetteredTasks).

Definition NewRouter (healthFn : proc dbw unit) (metrics : request → proc dbw response) (r : request)
    : proc dbw response :=
  cors (mux healthFn metrics) r.

End router.
