(* ===== verification/Worker.v ===== *)
(** The worker (internal/orchestrator/worker.go): what it does with one task
    message, against the interface [workerStore] and the handlers' registry
    (internal/handlers/registry.go). *)

From S2P Require Import Prelude GoString GoJson GoError Proc Domain Db Pg Store Workflow.

Open Scope string_scope.

(** A message of the stream (queue.TaskMessage). *)
Record TaskMessage : Type := mkTaskMessage {
  tm_TaskID : string;
  tm_ExecutionID : string;
  tm_HandlerKey : string;
}.

(** * Interfaces *)

(** The methods of the store the worker calls, over a shared state [W]. *)
Class workerStore (W : Type) := {
  ws_GetTaskInstance : string → proc W TaskInstance;
  ws_GetWorkflowExecution : string → proc W WorkflowExecution;
  ws_GetWorkflowDefinition : string → proc W WorkflowDefinition;
  ws_StartTaskAttempt : string → proc W (TaskInstance * TaskAttempt * bool);
  ws_ScheduleTaskRetry : string → string → string → Z → proc W unit;
  ws_FailTaskAttempt : string → string → string → proc W unit;
  ws_CompleteTaskAttempt : string → string → string → proc W unit;
  ws_CompleteTaskAttemptAndEnqueueNextTask : string → string → string → string → string → proc W unit;
}.

(** [time.Now()], in nanoseconds. *)
Class Clock (W : Type) := { time_Now : proc W Z }.

(** A handler and the registry; a later handler with the same key replaces an
    earlier one. *)
Record Handler (W : Type) : Type := mkHandler {
  h_Key : string;
  h_Handle : TaskInstance → proc W string;
}.
Arguments mkHandler {W} _ _.
Arguments h_Key {W} _.
Arguments h_Handle {W} _ _.

Definition Registry (W : Type) : Type := gmap string (Handler W).

Definition NewRegistry {W} (items : list (Handler W)) : Registry W :=
  foldl (λ m item, <[h_Key item := item]> m) ∅ items.

Lemma NewRegistry_in {W} (items : list (Handler W)) key h : NewRegistry items !! key = Some h → h ∈ items.
Proof.
  unfold NewRegistry, Registry. assert (Hg : ∀ m : gmap string (Handler W),
    foldl (λ m item, <[h_Key item := item]> m) m items !! key = Some h → m !! key = Some h ∨ h ∈ items).
  { induction items as [| i items IH]; intros m; cbn; [auto |]. intros [Hm | Hm]%IH; [| set_solver].
    apply lookup_insert_Some in Hm as [[_ <-] | [_ Hm]]; set_solver. }
  intros [Hm | Hm]%Hg; [| done]. by rewrite lookup_empty in Hm.
Qed.

Definition registry_Get {W} (r : Registry W) (key : string) : option (Handler W) := r !! key.

(** * The worker *)

Section worker.
Context {W : Type} `{ErrorTexts} `{!workerStore W} `{!Clock W}.

Definition GetWorkflowSpecAndTaskSpecByTaskID (taskID : string)
    : proc W (WorkflowDefinitionSpec * WorkflowTaskSpec) :=
  let! task := wrap_err "error fetching task from store" (ws_GetTaskInstance taskID) in
  let! execution := wrap_err "error fetching execution from store"
                      (ws_GetWorkflowExecution (ti_WorkflowExecutionID task)) in
  let! workflowDef := wrap_err "error fetching workflow definition from store"
                        (ws_GetWorkflowDefinition (we_WorkflowDefinitionID execution)) in
  let! workflowSpec := wrap_err "error parsing workflow definition JSON"
                         (lift_res (ParseAndValidateWorkflowDefinition (wd_DefinitionJSON workflowDef))) in
  let! taskSpec := wrap_err "error finding task spec by name"
                     (lift_res (FindTaskSpecByName workflowSpec (ti_TaskName task))) in
  return_ (workflowSpec, taskSpec).

(** [time.Duration(backoffSeconds) * time.Second]: 64-bit arithmetic. *)
Definition backoff_duration (backoffSeconds : Z) : Z := wrap64 (backoffSeconds * 1000000000).

(** What HandleDispatchedTask did: the label its metrics are recorded under,
    and the error it returns. *)
Definition outcome_of (label : string) (err : option error) : proc W (string * option error) :=
  return_ (label, err).

(** [if err := p; err != nil { label persist_error, return wrapped }; label ok, return nil]. *)
Definition persist (prefix : option string) (p : proc W unit) (ok : string) : proc W (string * option error) :=
  try p (λ r, match r with
              | inl err => outcome_of "persist_error"
                             (Some (match prefix with Some s => ErrWrap s err | None => err end))
              | inr _ => outcome_of ok None
              end).

(** After the handler failed. *)
Definition on_handler_error (taskSpec : WorkflowTaskSpec) (task : TaskInstance) (attempt : TaskAttempt)
    (err : error) : proc W (string * option error) :=
  if Z.gtb (ts_MaxAttempts taskSpec) (ta_AttemptNumber attempt) then
    let! now := time_Now in
    let nextRunAt := (now + backoff_duration (ts_BackoffSeconds taskSpec))%Z in
    persist (Some "schedule task retry")
      (ws_ScheduleTaskRetry (ti_ID task) (ta_ID attempt) (Error err) nextRunAt) "scheduled_retry"
  else
    persist (Some "persist terminal task failure")
      (ws_FailTaskAttempt (ti_ID task) (ta_ID attempt) (Error err)) "failed".

(** After the handler succeeded. *)
Definition on_handler_success (workflowSpec : WorkflowDefinitionSpec) (task : TaskInstance)
    (attempt : TaskAttempt) (output : string) : proc W (string * option error) :=
  match FindNextTaskSpec workflowSpec (ti_TaskName task) with
  | inl err => outcome_of "task_spec_error"
                 (Some (ErrWrap ("error resolving next task for " +:+ ti_TaskName task) err))
  | inr (Some nextTaskSpec) =>
      persist (Some "error completing task attempt and enqueuing next task")
        (ws_CompleteTaskAttemptAndEnqueueNextTask (ti_ID task) (ta_ID attempt)
           (ts_Name nextTaskSpec) (ts_HandlerKey nextTaskSpec) output) "advanced"
  | inr None =>
      persist None (ws_CompleteTaskAttempt (ti_ID task) (ta_ID attempt) output) "succeeded"
  end.

(** [if taskSpec.MaxAttempts == 0 { taskSpec.MaxAttempts = 1 }]. *)
Definition default_attempts (t : WorkflowTaskSpec) : WorkflowTaskSpec :=
  if Z.eqb (ts_MaxAttempts t) 0 then
    mkWorkflowTaskSpec (ts_Name t) (ts_HandlerKey t) 1 (ts_BackoffSeconds t) (ts_NextTask t)
  else t.

(** HandleDispatchedTask with its label. *)
Definition handle_labelled (registry : Registry W) (message : TaskMessage)
    : proc W (string * option error) :=
  try (GetWorkflowSpecAndTaskSpecByTaskID (tm_TaskID message)) (λ r,
  match r with
  | inl err => outcome_of "task_spec_error"
      (Some (ErrWrap ("error getting task spec for task ID " +:+ tm_TaskID message) err))
  | inr (workflowSpec, taskSpec) =>
      let taskSpec := default_attempts taskSpec in
      try (ws_StartTaskAttempt (tm_TaskID message)) (λ r,
      match r with
      | inl err => outcome_of "db_error" (Some err)
      | inr (task, attempt, true) => outcome_of "duplicate" None
      | inr (task, attempt, false) =>
          match registry_Get registry (ti_HandlerKey task) with
          | None =>
              persist (Some "persist missing-handler failure")
                (ws_FailTaskAttempt (ti_ID task) (ta_ID attempt)
                   ("no handler registered for " +:+ quoted (ti_HandlerKey task))) "missing_handler"
          | Some handler =>
              try (h_Handle handler task) (λ r,
              match r with
              | inl err => on_handler_error taskSpec task attempt err
              | inr output => on_handler_success workflowSpec task attempt output
              end)
          end
      end)
  end).

Definition HandleDispatchedTask (registry : Registry W) (message : TaskMessage) : proc W unit :=
  let! r := handle_labelled registry message in
  match snd r with Some err => fail err | None => return_ tt end.

End worker.

(** * The store as the worker sees it *)

Section store_instance.
Context `{Postgres}.

#[export] Instance store_workerStore : workerStore dbw := {|
  ws_GetTaskInstance := GetTaskInstance;
  ws_GetWorkflowExecution := GetWorkflowExecution;
  ws_GetWorkflowDefinition := GetWorkflowDefinition;
  ws_StartTaskAttempt := StartTaskAttempt;
  ws_ScheduleTaskRetry := ScheduleTaskRetry;
  ws_FailTaskAttempt := FailTaskAttempt;
  ws_CompleteTaskAttempt := CompleteTaskAttempt;
  ws_CompleteTaskAttemptAndEnqueueNextTask := CompleteTaskAttemptAndEnqueueNextTask;
|}.
End store_instance.

#[export] Instance dbw_Clock : Clock dbw := {|
  time_Now := atomic (λ e w, (inr (e_time e (w_tick w)), w));
|}.
