(* ===== verification/HttpSpec.v ===== *)
(** What the HTTP API promises: a response that reports success has had the
    effect of its request, exactly once and as a whole; any other response
    changed nothing, unless the answer of the database was lost; the status says
    what happened; and bodies are read as their clients write them. *)

From S2P Require Import Prelude GoString GoJson GoStrconv GoUrl GoDecoder GoError Proc Domain Db Pg Store.
From S2P Require Import Idempotency History Wf WfStore StoreSpec StoreSpec2 Snapshot IdemSpec Progress Workflow.
From S2P Require Import Service HttpApi.

Open Scope string_scope.

(** * Calls to the database *)

Section does.
Context `{PostgresLaws}.

(** From the contents [d] the process either has the effect [P], or fails: then
    nothing has changed, or the effect took place and its answer was lost. *)
Definition does_at {A} (d : db) (P : A → db → Prop) (p : proc dbw A) : Prop :=
  ∀ e w r w', env_ok e → w_db w = d → run p e w = (r, w') →
  match r with
  | inr a => P a (w_db w')
  | inl _ => (w_db w' = d ∨ ∃ a, P a (w_db w')) ∧ (reliable e → w_db w' = d)
  end.

Lemma does_fail {A} d (P : A → db → Prop) err : does_at d P (fail err).
Proof. intros e w r w' _ Hw [= <- <-]. auto. Qed.

Lemma does_return {A} d (P : A → db → Prop) a : P a d → does_at d P (return_ a).
Proof. intros Ha e w r w' _ <- [= <- <-]. done. Qed.

Lemma does_in_tx {A} d (P : A → db → Prop) (body : tx A) :
  (∀ e now n a d' n', env_ok e → body e now n d = (inr (a, d'), n') → P a d') → does_at d P (atomic (in_tx body)).
Proof.
  intros Hb e w r w' He Hw Hr. rewrite run_atomic in Hr. subst d.
  assert (Hwr : writes (eq e) (λ d0 a d', d0 = w_db w → P a d') (in_tx body)).
  { apply in_tx_writes. intros e0 now n d0 a d' n' <- Hbody ->. by eapply Hb. }
  specialize (Hwr e w r w' eq_refl Hr). destruct r as [err | a]; [| by apply Hwr]. split.
  - destruct Hwr as [? | [a Ha]]; [by left | right; eauto].
  - intros Hrel. rewrite run_in_tx in Hr by done. repeat case_match; by simplify_eq.
Qed.

Lemma does_autocommit {A} d (P : A → db → Prop) (s : stmt A) :
  (∀ e n now a d', env_ok e → s e n now d = inr (a, d') → P a d') → does_at d P (atomic (autocommit s)).
Proof.
  intros Hs e w r w' He Hw Hr. rewrite run_atomic in Hr. subst d.
  assert (Hwr : writes (eq e) (λ d0 a d', d0 = w_db w → P a d') (autocommit s)).
  { apply autocommit_writes. intros e0 n now d0 a d' <- Hst ->. by eapply Hs. }
  specialize (Hwr e w r w' eq_refl Hr). destruct r as [err | a]; [| by apply Hwr]. split.
  - destruct Hwr as [? | [a Ha]]; [by left | right; eauto].
  - intros Hrel. rewrite run_autocommit in Hr by done. repeat case_match; by simplify_eq.
Qed.

(** The errors may be replaced by others. *)
Lemma does_try {A B} d (P : A → db → Prop) (p : proc dbw A) (f : error → error) (g : A → B) (Q : B → db → Prop) :
  does_at d P p → (∀ a d', P a d' → Q (g a) d') →
  does_at d Q (try p (λ r, match r with inl err => fail (f err) | inr a => return_ (g a) end)).
Proof.
  intros Hp HPQ e w r w' He Hw Hr. rewrite run_try in Hr. destruct (run p e w) as [r1 w1] eqn:E.
  specialize (Hp e w r1 w1 He Hw E). destruct r1 as [err | a]; injection Hr as <- <-; [| by apply HPQ].
  destruct Hp as [[? | [a Ha]] ?]; split; eauto.
Qed.

(** A query comes first. *)
Lemma does_query {A B} d (P : B → db → Prop) (s : stmt A) (k : error + A → proc dbw B) :
  stmt_rel eq s → (∀ r, (∀ a, r = inr a → ∃ e n now, s e n now d = inr (a, d)) → does_at d P (k r)) →
  does_at d P (try (atomic (autocommit s)) k).
Proof.
  intros Hs Hk e w r w' He Hw Hr. rewrite run_try in Hr.
  destruct (run (atomic (autocommit s)) e w) as [r1 w1] eqn:E.
  assert (Hq : does_at d (λ a d', d' = d ∧ ∃ e n now, s e n now d = inr (a, d)) (atomic (autocommit s))).
  { apply does_autocommit. intros e0 n now a d' _ Hst. pose proof (Hs _ _ _ _ _ _ Hst) as <-. eauto. }
  specialize (Hq e w r1 w1 He Hw E).
  assert (Hw1 : w_db w1 = d).
  { destruct r1 as [err | a]; [| by destruct Hq]. destruct Hq as [[? | (a & ? & _)] _]; done. }
  apply (Hk r1) in Hr; [done | | done | done]. intros a ->. by destruct Hq as [_ ?].
Qed.

(** * The effects of requests *)

(** What a request to create a definition does. *)
Definition definition_created (req : CreateWorkflowDefinitionRequest) (d : db) (res : WorkflowDefinition) (d' : db)
    : Prop :=
  let name := TrimSpace (cr_Name req) in
  let text := if Nat.eqb (String.length (cr_Definition req)) 0 then default_definition else cr_Definition req in
  ∃ spec u js now, name ≠ "" ∧ ParseAndValidateWorkflowDefinition text = inr spec ∧ jsonb_in text = inr js ∧
    workflow_definitions d !! u = None ∧ map_Forall (λ _ r, dr_name r ≠ name) (workflow_definitions d) ∧
    let row := mk_def_row name (cr_Description req) 1 WorkflowDefinitionStatusActive js now now in
    res = scanWorkflowDefinition u row ∧ d' = set_workflow_definitions (<[u := row]> (workflow_definitions d)) d.

Inductive api_effect (r : request) (d : db) : payload → db → Prop :=
| effect_create req res d' :
    rq_Method r = "POST" → rq_Path r = "/api/workflows" → decode_createWorkflowRequest (rq_Body r) = Some req →
    definition_created req d res d' → api_effect r d (PDefinition res) d'
| effect_trigger req did row spec task res d' :
    rq_Method r = "POST" → rq_Path r = "/api/executions" → decode_triggerExecutionRequest (rq_Body r) = Some req →
    uuid_in (tq_WorkflowDefinitionID req) = inr did → workflow_definitions d !! did = Some row →
    ParseAndValidateWorkflowDefinition (dr_definition_json row) = inr spec → FindEntryTask spec = inr task →
    execution_created (tq_WorkflowDefinitionID req) (tq_Input req) (ts_Name task) (ts_HandlerKey task) d res d' →
    api_effect r d (PStarted res) d'
| effect_replay id res d' :
    rq_Method r = "POST" → has_prefix "/api/tasks/" (rq_Path r) = true →
    parseTaskActionPath (rq_Path r) = Some (id, "replay") →
    task_replayed (TrimSpace id) d res d' → api_effect r d (PTask res) d'.

(** The statuses of a success that changes something. *)
Definition accepted (status : Z) : Prop := status = 201%Z ∨ status = 202%Z.

#[global] Instance accepted_dec status : Decision (accepted status).
Proof. unfold accepted. apply _. Defined.

(** What a response says about the change from [d] to [d']. *)
Definition answered (e : env) (r : request) (d : db) (rp : response) (d' : db) : Prop :=
  if decide (accepted (rp_Status rp)) then ∃ p, rp_Content rp = Json p ∧ api_effect r d p d'
  else (d' = d ∨ ∃ p, api_effect r d p d') ∧ (reliable e → d' = d).

Definition answers_as (r : request) (d : db) (p : proc dbw response) : Prop :=
  ∀ e w, env_ok e → w_db w = d → ∃ rp w', run p e w = (inr rp, w') ∧ answered e r d rp (w_db w').

Lemma answers_return r d rp : ¬ accepted (rp_Status rp) → answers_as r d (return_ rp).
Proof. intros Hno e w _ <-. exists rp, w. split; [done |]. unfold answered. rewrite decide_False by done. auto. Qed.

(** A call whose success is answered with [status] and [f], and whose errors
    are answered otherwise. *)
Lemma answers_call {A} r d (P : A → db → Prop) (p : proc dbw A) (k : error + A → proc dbw response) status
    (f : A → payload) :
  does_at d P p → (∀ err, ∃ rp, k (inl err) = return_ rp ∧ ¬ accepted (rp_Status rp)) →
  (∀ a, k (inr a) = return_ (writeJSON status (f a))) →
  (if decide (accepted status) then ∀ a d', P a d' → api_effect r d (f a) d' else ∀ a d', P a d' → d' = d) →
  answers_as r d (try p k).
Proof.
  intros Hp Hbad Hgood Hf e w He Hw. rewrite run_try. destruct (run p e w) as [[err | a] w'] eqn:E;
    specialize (Hp e w _ w' He Hw E); cbn in Hp; [destruct (Hbad err) as (rp & -> & Hno) | rewrite Hgood];
    (eexists _, w'; split; [done |]); unfold answered.
  - rewrite decide_False by done. destruct Hp as [[? | [a Ha]] Hrel]; (split; [| done]); [by left |].
    case_decide; [right; eauto | left; eauto].
  - cbn [rp_Status rp_Content writeJSON]. case_decide; [eauto |]. split; [left; eauto | eauto].
Qed.

(** ** The handlers *)

Lemma not_accepted_writeJSON status p : status ≠ 201%Z → status ≠ 202%Z → ¬ accepted (rp_Status (writeJSON status p)).
Proof. by intros ? ? []. Qed.

Lemma answers_method method r d p :
  (rq_Method r = method → answers_as r d p) → answers_as r d (with_method method r p).
Proof.
  intros Hp. unfold with_method. destruct (String.eqb _ "OPTIONS"); [apply answers_return; by intros [] |].
  destruct (String.eqb_spec (rq_Method r) method); cbn [negb]; [by apply Hp | apply answers_return; by intros []].
Qed.

Context `{ErrorTexts}.

Lemma create_does req d :
  does_at d (definition_created req d) (service_CreateWorkflowDefinition req).
Proof.
  unfold service_CreateWorkflowDefinition. cbv zeta.
  destruct (String.eqb_spec (TrimSpace (cr_Name req)) "") as [| Hname]; [apply does_fail |].
  set (text := if Nat.eqb _ 0 then _ else _).
  destruct (ParseAndValidateWorkflowDefinition text) as [err | spec] eqn:Hspec; [apply does_fail |].
  cbn [lift_res bind try].
  assert (Hc : does_at d (definition_created req d)
    (CreateWorkflowDefinition (TrimSpace (cr_Name req)) (cr_Description req) text)).
  { apply does_autocommit. intros e n now a d' _ Hs. unfold insert_definition in Hs. inv_res.
    repeat match goal with Ht : text_in _ = inr _ |- _ => apply text_in_same in Ht; subst end.
    case_bool_decide as Hu; [done |]. destruct (existsb _ _) eqn:Hex; [done |]. inv_res.
    assert (Hne : text ≠ "").
    { unfold text. destruct (Nat.eqb_spec (String.length (cr_Definition req)) 0) as [| Hl]; [done |].
      intros Heq. by rewrite Heq in Hl. }
    match goal with Hj : jsonb_in (normalizeJSON _) = inr ?j |- _ =>
      exists spec, (e_uuid e n), j, now; unfold normalizeJSON in Hj end.
    rewrite (proj2 (Nat.eqb_neq _ _)) in * by (by destruct text).
    split_and!; [done | done | done | by apply eq_None_not_Some | | by split].
    intros u r Hr Heq. rewrite <-not_true_iff_false, existsb_exists in Hex. apply Hex. exists (u, r).
    split; [by apply list_elem_of_In, elem_of_map_to_list | by apply String.eqb_eq]. }
  intros e w r w' He Hw Hr. rewrite run_try in Hr.
  destruct (run (CreateWorkflowDefinition _ _ _) e w) as [[err | a] w1] eqn:E; specialize (Hc e w _ w1 He Hw E);
    [destruct (IsUniqueViolation err) |]; by injection Hr as <- <-.
Qed.

Definition triggered (req : TriggerExecutionRequest) (d : db) (res : ExecutionStartResult) (d' : db) : Prop :=
  ∃ did row spec task, uuid_in (tq_WorkflowDefinitionID req) = inr did ∧ workflow_definitions d !! did = Some row ∧
    ParseAndValidateWorkflowDefinition (dr_definition_json row) = inr spec ∧ FindEntryTask spec = inr task ∧
    execution_created (tq_WorkflowDefinitionID req) (tq_Input req) (ts_Name task) (ts_HandlerKey task) d res d'.

Lemma trigger_does req d : does_at d (triggered req d) (TriggerExecution req).
Proof.
  unfold TriggerExecution. destruct (blank _); [apply does_fail |].
  apply does_query; [apply select_row_same |]. intros r Hr. destruct r as [err | def].
  { destruct (IsNotFound err); apply does_fail. }
  destruct (Hr def eq_refl) as (e & n & now & Hs). unfold select_row in Hs.
  apply rbind_inr in Hs as (did & Hdid & Hs). destruct (workflow_definitions d !! did) as [row |] eqn:Hrow; [| done].
  injection Hs as <-. cbn [wd_DefinitionJSON scanWorkflowDefinition].
  destruct (ParseAndValidateWorkflowDefinition (dr_definition_json row)) as [err | spec] eqn:Hspec; [apply does_fail |].
  cbn [lift_res bind try]. destruct (FindEntryTask spec) as [err | task] eqn:Htask; [apply does_fail |].
  cbn [lift_res bind try].
  eapply (does_try d _ _ (ErrWrap "create execution") id).
  - apply does_in_tx. intros e1 n1 now1 a d' n' He Hb. apply create_execution_inv in Hb; [exact Hb | exact He].
  - intros a d' Ha. exists did, row, spec, task. by split_and!.
Qed.

Lemma replay_does id d : db_wf d → does_at d (task_replayed (TrimSpace id) d) (service_ReplayDeadLetteredTask id).
Proof.
  intros Hwf. unfold service_ReplayDeadLetteredTask. cbv zeta. destruct (String.eqb _ ""); [apply does_fail |].
  assert (Hp : does_at d (task_replayed (TrimSpace id) d) (ReplayDeadLetteredTask (TrimSpace id))).
  { apply does_in_tx. intros e n now a d' n' He. by apply replay_inv. }
  intros e w r w' He Hw Hr. rewrite run_try in Hr.
  destruct (run (ReplayDeadLetteredTask _) e w) as [[err | a] w1] eqn:E; specialize (Hp e w _ w1 He Hw E);
    [destruct (_ || _)%bool |]; by injection Hr as <- <-.
Qed.

Definition only_reads {A} (d : db) (p : proc dbw A) : Prop := does_at d (λ _ d', d' = d) p.

Lemma read_query {A} d (s : stmt A) : stmt_rel eq s → only_reads d (atomic (autocommit s)).
Proof. intros Hs. apply does_autocommit. by intros e n now a d' _ <-%Hs. Qed.

Lemma snapshot_reads x d : only_reads d (service_GetExecutionSnapshot x).
Proof.
  unfold service_GetExecutionSnapshot, GetExecutionSnapshot, GetWorkflowExecution, bind.
  repeat (apply does_query; [by auto with rel |]; intros [err | ?] _; [apply does_fail |]). by apply does_return.
Qed.

Lemma dead_lettered_reads limit d : only_reads d (GetDeadLetteredTasks limit).
Proof. apply read_query. auto with rel. Qed.

(** The responses to errors. *)
Ltac refusals := intros err; repeat case_match; (eexists; split; [reflexivity |]); by intros [].

Lemma handleWorkflows_answers r d :
  rq_Path r = "/api/workflows" → answers_as r d (handleWorkflows r).
Proof.
  intros Hpath. apply answers_method. intros Hm.
  destruct (decode_createWorkflowRequest _) as [req |] eqn:Hreq; [| by apply answers_return, not_accepted_writeJSON].
  eapply (answers_call r d _ _ _ 201 PDefinition (create_does req d)); [refusals | done |].
  cbn. intros a d' Ha. by eapply effect_create.
Qed.

Lemma handleExecutions_answers r d :
  rq_Path r = "/api/executions" → answers_as r d (handleExecutions r).
Proof.
  intros Hpath. apply answers_method. intros Hm.
  destruct (decode_triggerExecutionRequest _) as [req |] eqn:Hreq; [| by apply answers_return, not_accepted_writeJSON].
  eapply (answers_call r d _ _ _ 202 PStarted (trigger_does req d)); [refusals | done |].
  cbn. intros a d' (did & row & spec & task & ? & ? & ? & ? & ?). by eapply effect_trigger.
Qed.

Lemma handleExecutionSnapshot_answers r d : answers_as r d (handleExecutionSnapshot r).
Proof.
  apply answers_method. intros _. cbv zeta. destruct (String.eqb _ ""); [by apply answers_return, not_accepted_writeJSON |].
  eapply (answers_call r d _ _ _ 200 PSnapshot (snapshot_reads _ d)); [refusals | done |]. cbn. intros a d' Hd. exact Hd.
Qed.

Lemma handleDeadLetteredTasks_answers r d : answers_as r d (handleDeadLetteredTasks r).
Proof.
  apply answers_method. intros _. destruct (parsePositiveIntQuery r "limit") as [err | limit];
    [by apply answers_return, not_accepted_writeJSON |].
  eapply (answers_call r d _ _ _ 200 PTasks (dead_lettered_reads limit d)); [refusals | done |]. cbn. intros a d' Hd. exact Hd.
Qed.

Lemma handleTaskActions_answers r d :
  db_wf d → has_prefix "/api/tasks/" (rq_Path r) = true → answers_as r d (handleTaskActions r).
Proof.
  intros Hwf Hpath. apply answers_method. intros Hm.
  destruct (parseTaskActionPath (rq_Path r)) as [[id action] |] eqn:Hp; [| by apply answers_return, not_accepted_writeJSON].
  destruct (String.eqb_spec action "replay") as [-> |]; [| by apply answers_return, not_accepted_writeJSON].
  eapply (answers_call r d _ _ _ 202 PTask (replay_does id d Hwf)); [refusals | done |].
  cbn. intros a d' Ha. by eapply effect_replay.
Qed.

(** The CORS headers change nothing else. *)
Lemma cors_answers r d next : answers_as r d (next r) → answers_as r d (cors next r).
Proof.
  intros Hn. unfold cors. cbv zeta. destruct (String.eqb _ "OPTIONS"); [apply answers_return; by intros [] |].
  intros e w He Hw. destruct (Hn e w He Hw) as (rp & w' & Hrun & Hans). rewrite run_bind, Hrun.
  eexists _, w'. by split.
Qed.

Lemma mux_answers healthFn metrics r d :
  db_wf d → only_reads d healthFn → rq_Path r ≠ "/metrics" → answers_as r d (mux healthFn metrics r).
Proof.
  intros Hwf Hh Hmet. unfold mux, ServeHTTP. cbv zeta.
  cbn [rt_metrics rt_healthz rt_workflows rt_executions rt_execution rt_tasks rt_dead].
  destruct (String.eqb_spec (rq_Path r) "/metrics"); [done |].
  destruct (String.eqb _ "/healthz").
  { unfold handle_health. destruct (negb _); [apply answers_return; by intros [] |].
    eapply (answers_call r d _ _ _ 200 (λ _, PHealth "api" "ok" None) Hh); [refusals | done |]. cbn. intros a d' Hd. exact Hd. }
  destruct (String.eqb_spec (rq_Path r) "/api/workflows"); [by apply handleWorkflows_answers |].
  destruct (String.eqb_spec (rq_Path r) "/api/executions"); [by apply handleExecutions_answers |].
  destruct (has_prefix "/api/executions/" _); [apply handleExecutionSnapshot_answers |].
  destruct (has_prefix "/api/tasks/" _) eqn:Ht; [by apply handleTaskActions_answers |].
  repeat (destruct (String.eqb _ _); [first [apply handleDeadLetteredTasks_answers | apply answers_return; by intros []] |]).
  apply answers_return; by intros [].
Qed.

(** C6: the API always answers, and its answers are true.  A status 201 or 202
    is sent only after the effect of this very request: one definition stored, one
    execution started with its first task and event, or one dead-lettered task
    rewound, with the new rows in the body.  Any other response means that nothing
    has changed; only when the answer of the database was lost may the effect have
    taken place, as a whole.  (The handler of /metrics belongs to a library; the
    health check only reads.) *)
Theorem http_api_truthful healthFn metrics r e w :
  env_ok e → db_wf (w_db w) → only_reads (w_db w) healthFn → rq_Path r ≠ "/metrics" →
  ∃ rp w', run (NewRouter healthFn metrics r) e w = (inr rp, w') ∧ answered e r (w_db w) rp (w_db w').
Proof. intros He Hwf Hh Hmet. by apply cors_answers; [apply mux_answers |..]. Qed.

(** * Statuses *)

(** With calls that are answered, what is asked of an execution or a task that
    may not exist. *)
Definition snapshot_status (d : db) (id : string) : Z :=
  match uuid_in id with
  | inl _ => 500
  | inr u => if decide (is_Some (workflow_executions d !! u)) then 200 else 404
  end.

Definition replay_status (d : db) (id : string) : Z :=
  match uuid_in id with
  | inl _ => 500
  | inr u => match task_instances d !! u with
             | Some row => if decide (tr_status row = TaskStatusDeadLettered) then 202 else 400
             | None => 404
             end
  end.

Lemma run_select_row {V A} (table : db → gmap string V) (scan : string → V → A) id e w :
  reliable e →
  run (atomic (autocommit (select_row table scan id))) e w =
  (match uuid_in id with
   | inl err => inl err
   | inr u => match table (w_db w) !! u with Some r => inr (scan u r) | None => inl ErrNoRows end
   end, mk_dbw (w_db w) (S (w_tick w))).
Proof.
  intros He. rewrite run_atomic, run_autocommit by done. unfold select_row.
  destruct (uuid_in id) as [err | u]; cbn [rbind]; [done |]. by destruct (table (w_db w) !! u).
Qed.

Lemma uuid_error_found id err : uuid_in id = inl err → IsNotFound err = false ∧ IsTaskNotReplayable err = false.
Proof. by intros (c & t & -> & _)%uuid_in_error. Qed.

Lemma snapshot_not_found x e w :
  reliable e →
  match uuid_in x with
  | inl err => (run (GetExecutionSnapshot x) e w).1 = inl err
  | inr u => workflow_executions (w_db w) !! u = None → (run (GetExecutionSnapshot x) e w).1 = inl ErrNoRows
  end.
Proof.
  intros He. unfold GetExecutionSnapshot, GetWorkflowExecution. rewrite run_bind, run_select_row by done.
  destruct (uuid_in x) as [err | u]; [done |]. by intros ->.
Qed.

Lemma snapshot_statuses id r e w :
  reliable e → db_wf (w_db w) → fresh_ids e (w_tick w) (w_db w) →
  rq_Method r = "GET" → rq_Path r = "/api/executions/" +:+ id → id ≠ "" →
  ∃ rp w', run (handleExecutionSnapshot r) e w = (inr rp, w') ∧ rp_Status rp = snapshot_status (w_db w) id.
Proof.
  intros He Hwf Hf Hm Hp Hid%String.eqb_neq. unfold handleExecutionSnapshot, with_method. rewrite Hm, Hp.
  change (String.eqb "GET" "OPTIONS") with false. change (negb (String.eqb "GET" "GET")) with false. cbv iota.
  rewrite (proj2 (has_prefix_app _ _)). cbv zeta. rewrite Hid, run_try. unfold service_GetExecutionSnapshot, snapshot_status.
  pose proof (snapshot_not_found id e w He) as Hnf. destruct (uuid_in id) as [err | u] eqn:Hu.
  { destruct (run (GetExecutionSnapshot id) e w) as [res w']. cbn in Hnf. subst res.
    destruct (uuid_error_found _ _ Hu) as [-> _]. by eexists _, _. }
  destruct (workflow_executions (w_db w) !! u) as [x |] eqn:Hx.
  - rewrite decide_True by done. pose proof (snapshot_succeeds e w He Hwf Hf id) as Hs.
    destruct (run (GetExecutionSnapshot id) e w) as [[err | snap] w']; [| by eexists _, _].
    exfalso. discriminate Hs. exists u, x. by split_and!.
  - rewrite decide_False by (by intros []). specialize (Hnf eq_refl).
    destruct (run (GetExecutionSnapshot id) e w) as [res w']. cbn in Hnf. subst res. by eexists _, _.
Qed.

Lemma replay_not_found t e w :
  reliable e →
  match uuid_in t with
  | inl err => (run (ReplayDeadLetteredTask t) e w).1 = inl err
  | inr u => task_instances (w_db w) !! u = None → (run (ReplayDeadLetteredTask t) e w).1 = inl ErrNoRows
  end.
Proof.
  intros He. unfold ReplayDeadLetteredTask. rewrite run_atomic, run_in_tx by done.
  unfold replay_body, tx_bind. rewrite run_tx_stmt by done. unfold select_row.
  destruct (uuid_in t) as [err | u]; cbn [rbind]; [done |]. by intros ->.
Qed.

Lemma replay_statuses id r e w :
  reliable e → db_wf (w_db w) → fresh_ids e (w_tick w) (w_db w) →
  map_Forall (λ _ row, good_text (tr_handler_key row)) (task_instances (w_db w)) →
  rq_Method r = "POST" → parseTaskActionPath (rq_Path r) = Some (id, "replay") → blank id = false →
  ∃ rp w', run (handleTaskActions r) e w = (inr rp, w') ∧
    rp_Status rp = replay_status (w_db w) (TrimSpace id).
Proof.
  intros He Hwf Hf Hkeys Hm Hp Hb. unfold handleTaskActions, with_method. rewrite Hm, Hp.
  change (String.eqb "POST" "OPTIONS") with false. change (negb (String.eqb "POST" "POST")) with false.
  change (String.eqb "replay" "replay") with true. cbv iota.
  unfold service_ReplayDeadLetteredTask. unfold blank in Hb. cbv zeta. rewrite Hb. rewrite !run_try.
  set (t := TrimSpace id). unfold replay_status.
  pose proof (replay_not_found t e w He) as Hnf. destruct (uuid_in t) as [err | u] eqn:Hu.
  { destruct (run (ReplayDeadLetteredTask t) e w) as [res w']. cbn in Hnf. subst res.
    destruct (uuid_error_found _ _ Hu) as [Hn1 Hn2]. rewrite Hn1, Hn2. cbn. change (IsNotFound (ErrWrap _ err)) with (IsNotFound err).
    change (IsTaskNotReplayable (ErrWrap _ err)) with (IsTaskNotReplayable err). rewrite Hn1, Hn2. by eexists _, _. }
  destruct (task_instances (w_db w) !! u) as [row |] eqn:Hrow.
  2: { specialize (Hnf eq_refl). destruct (run (ReplayDeadLetteredTask t) e w) as [res w']. cbn in Hnf. subst res.
       by eexists _, _. }
  case_decide as Hst.
  - pose proof (replay_succeeds e w He Hwf Hf t) as Hs.
    destruct (run (ReplayDeadLetteredTask t) e w) as [[err | a] w'] eqn:E; [| by eexists _, _].
    exfalso. discriminate Hs. exists u, row. split_and!; [done | done | done |]. by apply (Hkeys u).
  - pose proof (replay_refused t u row e w He Hu Hrow Hst) as Hs.
    destruct (run (ReplayDeadLetteredTask t) e w) as [res w']. cbn in Hs. subst res. by eexists _, _.
Qed.

(** C23: with calls that are answered, the status says what was found: a snapshot
    is 200 when the execution exists and 404 when it does not; a replay is 202 when
    the task is dead-lettered, 400 when it is in another status, and 404 when there is
    none.  An id that is no UUID is reported as a failure of the server, 500. *)
Theorem http_statuses r e w id :
  reliable e → db_wf (w_db w) → fresh_ids e (w_tick w) (w_db w) →
  map_Forall (λ _ row, good_text (tr_handler_key row)) (task_instances (w_db w)) →
  (rq_Method r = "GET" → rq_Path r = "/api/executions/" +:+ id → id ≠ "" →
   ∃ rp w', run (handleExecutionSnapshot r) e w = (inr rp, w') ∧ rp_Status rp = snapshot_status (w_db w) id) ∧
  (rq_Method r = "POST" → parseTaskActionPath (rq_Path r) = Some (id, "replay") →
   ∃ rp w', run (handleTaskActions r) e w = (inr rp, w') ∧
     rp_Status rp = replay_status (w_db w) (TrimSpace id)).
Proof.
  intros He Hwf Hf Hkeys. split; [by apply snapshot_statuses |].
  intros Hm Hp. apply replay_statuses; try done.
  unfold parseTaskActionPath in Hp. cbv zeta in Hp. repeat case_match; simplify_eq.
  match goal with Hb : (_ || _)%bool = false |- _ => by apply orb_false_iff in Hb as [? _] end.
Qed.

End does.
