(* ===== verification/Bench.v ===== *)
(** The benchmark client (cmd/bench/main.go): its scenarios, the requests it
    sends, the reading of snapshots, and the statistics it reports.  Keys of a
    marshalled map are written in the order [json.Marshal] sorts them. *)

From S2P Require Import Prelude GoString GoFloat GoTime GoRfc3339 GoJson GoDecoder GoError Proc Worker.

Open Scope string_scope.

(** * Scenarios *)

Definition scenarioSuccessLinear : string := "success-linear".
Definition scenarioSuccessDeepChain : string := "success-deep-chain".
Definition scenarioRetryInvalidInput : string := "retry-invalid-input".
Definition scenarioDeadLetterMissingHandler : string := "dead-letter-missing-handler".
Definition scenarioReplayMissingHandler : string := "replay-missing-handler".

Record scenarioSpec : Type := mkScenarioSpec {
  sp_Definition : json;
  sp_Description : string;
  sp_Input : option json;   (* None: the field is left nil *)
  sp_ReplayAfterTerminal : bool;
}.

(** The checks of the flags in main; the error is the text it exits with. *)
Definition check_flags (executions concurrency maxAttempts backoff chainLength repeat : Z) : error + unit :=
  let? _ := guard_err (Z.leb executions 0) (ErrNew "executions must be greater than 0") in
  let? _ := guard_err (Z.leb concurrency 0) (ErrNew "concurrency must be greater than 0") in
  let? _ := guard_err (Z.leb maxAttempts 0) (ErrNew "max-attempts must be greater than 0") in
  let? _ := guard_err (Z.ltb backoff 0) (ErrNew "backoff-seconds must be at least 0") in
  let? _ := guard_err (Z.ltb chainLength 2) (ErrNew "chain-length must be at least 2") in
  guard_err (Z.leb repeat 0) (ErrNew "repeat must be greater than 0").

(** A map of one task; [next]: the key next_task is set. *)
Definition task_map (backoffSeconds : Z) (handler_key : string) (maxAttempts : Z) (name : string)
    (next : option string) : json :=
  JObj ([("backoff_seconds", JNum (Itoa backoffSeconds)); ("handler_key", JStr handler_key);
         ("max_attempts", JNum (Itoa maxAttempts)); ("name", JStr name)] ++
        match next with Some n => [("next_task", JStr n)] | None => [] end)%list.

Definition definition_map (entry : string) (tasks : list json) : json :=
  JObj [("entry_task", JStr entry); ("tasks", JArr tasks)].

Definition step_name (i : Z) : string := "step-" +:+ Itoa i.

(** The loop of the deep chain, for the index [i]. *)
Definition chain_task (maxAttempts backoffSeconds chainLength i : Z) : json :=
  task_map backoffSeconds (if Z.eqb (Z.rem i 2) 1 then "notifications.send" else "sample.echo") maxAttempts
    (step_name (i + 1)) (if Z.ltb i (chainLength - 1) then Some (step_name (i + 2)) else None).

Section scenarios.
Context `{ErrorTexts}.

Definition buildScenarioSpec (scenario : string) (maxAttempts backoffSeconds chainLength : Z) : error + scenarioSpec :=
  let task key name next := task_map backoffSeconds key maxAttempts name next in
  if String.eqb scenario scenarioSuccessLinear then
    inr (mkScenarioSpec
      (definition_map "validate-order"
         [task "sample.echo" "validate-order" (Some "send-confirmation");
          task "notifications.send" "send-confirmation" None])
      "Benchmark workflow for steady-state success latency and throughput." None false)
  else if String.eqb scenario scenarioSuccessDeepChain then
    inr (mkScenarioSpec
      (definition_map "step-1" (chain_task maxAttempts backoffSeconds chainLength <$> seqZ 0 chainLength))
      ("Benchmark workflow for " +:+ Itoa chainLength +:+ "-step chained execution latency and throughput.") None false)
  else if String.eqb scenario scenarioRetryInvalidInput then
    inr (mkScenarioSpec (definition_map "retry-step" [task "sample.echo" "retry-step" None])
      "Benchmark workflow for persisted retries and eventual dead-letter after invalid handler input."
      (Some (JNum "123")) false)
  else if String.eqb scenario scenarioDeadLetterMissingHandler then
    inr (mkScenarioSpec (definition_map "broken-step" [task "missing.handler" "broken-step" None])
      "Benchmark workflow for immediate terminal dead-letter behavior caused by a missing handler." None false)
  else if String.eqb scenario scenarioReplayMissingHandler then
    inr (mkScenarioSpec (definition_map "broken-step" [task "missing.handler" "broken-step" None])
      "Benchmark workflow for dead-letter replay overhead through the normal dispatch path." None true)
  else inl (ErrNew ("unsupported scenario " +:+ quoted scenario)).

End scenarios.

(** * Requests *)

(** The body of createWorkflow, and of runExecution's trigger. *)
Definition createWorkflow_body (name description : string) (definition : json) : string :=
  of_bytes (encode (JObj [("name", JStr name); ("description", JStr description); ("definition", definition)])).

Definition trigger_body (workflowID : string) (input : json) : string :=
  of_bytes (encode (JObj [("workflow_definition_id", JStr workflowID); ("input", input)])).

(** The input of the [i]-th execution: the scenario's, or a generated one. *)
Definition execution_input (spec_input : option json) (scenario requested_at : string) (i : Z) : json :=
  match spec_input with
  | Some v => v
  | None => JObj [("benchmark_run", JNum (Itoa (i + 1))); ("requested_at", JStr requested_at);
                  ("scenario", JStr scenario)]
  end.

(** * Answers *)

(** workflowCreateResponse, and the id of executionTriggerResponse. *)
Definition set_created (key : string) (v : json) (raw : string) (id : string) : option string :=
  if is_field "id" key then decode_string id v else Some id.

Definition set_triggered_execution (key : string) (v : json) (id : string) : option string :=
  if is_field "id" key then decode_string id v else Some id.
Definition set_triggered (key : string) (v : json) (raw : string) (id : string) : option string :=
  if is_field "execution" key then decode_struct set_triggered_execution id v else Some id.

Record taskSnapshot : Type := mkTaskView {
  tv_ID : string;
  tv_Status : string;
  tv_AttemptsTotal : Z;
  tv_Attempts : slice string;   (* the statuses *)
}.

Record executionSnapshot : Type := mkExecutionView {
  ev_ID : string;
  ev_Status : string;
  ev_StartedAt : string;
  ev_CompletedAt : string;
  ev_Tasks : slice taskSnapshot;
}.

Definition set_view_execution (key : string) (v : json) (s : executionSnapshot) : option executionSnapshot :=
  let 'mkExecutionView id status started completed tasks := s in
  if is_field "id" key then x ← decode_string id v; Some (mkExecutionView x status started completed tasks)
  else if is_field "status" key then x ← decode_string status v; Some (mkExecutionView id x started completed tasks)
  else if is_field "started_at" key then x ← decode_string started v; Some (mkExecutionView id status x completed tasks)
  else if is_field "completed_at" key then x ← decode_string completed v; Some (mkExecutionView id status started x tasks)
  else Some s.

Definition set_view_task (key : string) (v : json) (t : taskSnapshot) : option taskSnapshot :=
  let 'mkTaskView id status total attempts := t in
  if is_field "id" key then x ← decode_string id v; Some (mkTaskView x status total attempts)
  else if is_field "status" key then x ← decode_string status v; Some (mkTaskView id x total attempts)
  else if is_field "attempts_total" key then x ← decode_int total v; Some (mkTaskView id status x attempts)
  else Some t.

Definition set_view_attempt (key : string) (v : json) (status : string) : option string :=
  if is_field "status" key then decode_string status v else Some status.

Definition set_view_entry (key : string) (v : json) (t : taskSnapshot) : option taskSnapshot :=
  if is_field "task" key then decode_struct set_view_task t v
  else if is_field "attempts" key then
    x ← decode_slice "" (decode_struct set_view_attempt) (tv_Attempts t) v;
    Some (mkTaskView (tv_ID t) (tv_Status t) (tv_AttemptsTotal t) x)
  else Some t.

Definition zero_task_view : taskSnapshot := mkTaskView "" "" 0 nil_slice.
Definition zero_view : executionSnapshot := mkExecutionView "" "" "" "" nil_slice.

Definition set_view (key : string) (v : json) (raw : string) (s : executionSnapshot) : option executionSnapshot :=
  if is_field "execution" key then decode_struct set_view_execution s v
  else if is_field "tasks" key then
    x ← decode_slice zero_task_view (decode_struct set_view_entry) (ev_Tasks s) v;
    Some (mkExecutionView (ev_ID s) (ev_Status s) (ev_StartedAt s) (ev_CompletedAt s) x)
  else Some s.

(** ** What is read from a snapshot *)

Definition isTerminal (status : string) : bool :=
  existsb (String.eqb status) ["succeeded"; "failed"; "dead_lettered"].

Definition totalAttempts (s : executionSnapshot) : Z :=
  foldl (λ total task, (total + Z.of_nat (length (items (tv_Attempts task))))%Z) 0%Z (items (ev_Tasks s)).

Definition countTerminalTasks (s : executionSnapshot) : Z :=
  foldl (λ count task, if isTerminal (tv_Status task) then (count + 1)%Z else count) 0%Z (items (ev_Tasks s)).

Definition firstDeadLetteredTaskID (s : executionSnapshot) : error + string :=
  match find (λ task, String.eqb (tv_Status task) "dead_lettered") (items (ev_Tasks s)) with
  | Some task => inr (tv_ID task)
  | None => inl (ErrNew "no dead-lettered task found for replay")
  end.

(** * The client *)

(** An answer: its status, and the bytes of the body that arrive. *)
Record http_response : Type := mkHttpResponse {
  hr_StatusCode : Z;
  hr_Body : string;
}.

Record executionRun : Type := mkExecutionRun {
  xr_ExecutionID : string;
  xr_FinalStatus : string;
  xr_ObservedLatency : Z;
  xr_ReportedLatency : Z;
  xr_AttemptsObserved : Z;
  xr_TerminalTaskCount : Z;
}.

Definition wrap_res {A} (prefix : string) (r : error + A) : error + A :=
  match r with inl err => inl (ErrWrap prefix err) | inr a => inr a end.

(** [t.Sub(u)]: a difference that a Duration cannot hold saturates. *)
Definition time_Sub (t u : Z) : Z := Z.max int64_min (Z.min int64_max (t - u)).

Section client.
Context {W : Type} `{!Clock W}.

(** [http.NewRequestWithContext] and [client.Do]: the method, the URL and the
    body; an error of either is returned as it is. *)
Context (Do : string → string → option string → proc W http_response).

(** [time.Parse] with the layout RFC3339Nano tries [parseRFC3339] first, and then
    its general interpreter of layouts. *)
Context (parse_layout : string → error + Z).

Context (apiBaseURL : string).

Definition time_Parse (s : string) : error + Z :=
  match parse_RFC3339 s with Some t => inr t | None => parse_layout s end.

(** The error of an answer with another status than the expected one. *)
Definition unexpected_status (doing : string) (resp : http_response) : error :=
  ErrNew ("unexpected status " +:+ Itoa (hr_StatusCode resp) +:+ " " +:+ doing +:+ ": " +:+ TrimSpace (hr_Body resp)).

Definition decode_answer {S} (set : string → json → string → S → option S) (zero : S) (resp : http_response) : error + S :=
  match Decode set zero (hr_Body resp) with Some s => inr s | None => inl (ErrJson (hr_Body resp)) end.

Definition createWorkflow (name description : string) (definition : json) : proc W string :=
  let! resp := Do "POST" (apiBaseURL +:+ "/api/workflows") (Some (createWorkflow_body name description definition)) in
  if negb (Z.eqb (hr_StatusCode resp) 201) then fail (unexpected_status "creating workflow" resp)
  else
    let! id := lift_res (decode_answer set_created "" resp) in
    if blank id then fail (ErrNew "workflow creation response missing id") else return_ id.

Definition getExecutionSnapshot (executionID : string) : proc W executionSnapshot :=
  let! resp := Do "GET" (apiBaseURL +:+ "/api/executions/" +:+ executionID) None in
  if negb (Z.eqb (hr_StatusCode resp) 200) then fail (unexpected_status "fetching snapshot" resp)
  else lift_res (decode_answer set_view zero_view resp).

Definition replayTask (taskID : string) : proc W unit :=
  let! resp := Do "POST" (apiBaseURL +:+ "/api/tasks/" +:+ taskID +:+ "/replay") None in
  if negb (Z.eqb (hr_StatusCode resp) 202) then fail (unexpected_status "replaying task" resp) else return_ tt.

Definition parseReportedLatency (s : executionSnapshot) : error + Z :=
  let? _ := guard_err (String.eqb (ev_StartedAt s) "" || String.eqb (ev_CompletedAt s) "")
              (ErrNew "snapshot missing started_at or completed_at") in
  let? startedAt := wrap_res "parse started_at" (time_Parse (ev_StartedAt s)) in
  let? completedAt := wrap_res "parse completed_at" (time_Parse (ev_CompletedAt s)) in
  inr (time_Sub completedAt startedAt).

Definition finished_run (observedStart : Z) (s : executionSnapshot) : proc W executionRun :=
  let! reported := lift_res (parseReportedLatency s) in
  let! now := time_Now in
  return_ (mkExecutionRun (ev_ID s) (ev_Status s) (now - observedStart) reported (totalAttempts s)
             (countTerminalTasks s)).

(** The loop of runExecution; [ticks] is how often the ticker fires before the
    timeout.  A terminal execution is replayed once where the scenario asks for
    it, and then looked at again without waiting. *)
Fixpoint poll (executionID : string) (observedStart : Z) (replayAfterTerminal : bool) (ticks : nat)
    : proc W executionRun :=
  let wait replay := match ticks with
                     | O => fail (ErrNew ("execution " +:+ executionID +:+ " did not complete before timeout"))
                     | S ticks' => poll executionID observedStart replay ticks'
                     end in
  let! snapshot := getExecutionSnapshot executionID in
  if isTerminal (ev_Status snapshot) then
    if replayAfterTerminal then
      let! taskID := lift_res (firstDeadLetteredTaskID snapshot) in
      let! _ := replayTask taskID in
      let! again := getExecutionSnapshot executionID in
      if isTerminal (ev_Status again) then finished_run observedStart again else wait false
    else finished_run observedStart snapshot
  else wait replayAfterTerminal.

(** The first part of runExecution: the execution is triggered. *)
Definition trigger_execution (workflowID : string) (input : json) : proc W string :=
  let! resp := Do "POST" (apiBaseURL +:+ "/api/executions") (Some (trigger_body workflowID input)) in
  if negb (Z.eqb (hr_StatusCode resp) 202) then fail (unexpected_status "triggering execution" resp)
  else
    let! id := lift_res (decode_answer set_triggered "" resp) in
    if blank id then fail (ErrNew "execution trigger response missing execution id") else return_ id.

Definition runExecution (workflowID : string) (input : json) (replayAfterTerminal : bool) (ticks : nat)
    : proc W executionRun :=
  let! observedStart := time_Now in
  let! id := trigger_execution workflowID input in
  poll id observedStart replayAfterTerminal ticks.

End client.

(** * Statistics *)

(** [percentileIndex], with float64 arithmetic. *)
Definition percentileIndex (length : Z) (quantile : float64) : Z :=
  if Z.eqb length 1 then 0%Z
  else
    let index := (default 0 (f64_ceil (f64_mul quantile (f64_of_Z length))) - 1)%Z in
    if Z.ltb index 0 then 0%Z
    else if Z.leb length index then (length - 1)%Z
    else index.

(** The quantiles 0.50, 0.95 and 0.99 as float64. *)
Definition q50 : float64 := f64_decimal false 50 (-2).
Definition q95 : float64 := f64_decimal false 95 (-2).
Definition q99 : float64 := f64_decimal false 99 (-2).

Record summary (A B : Type) : Type := mkSummary {
  sm_Count : Z;
  sm_Min : A;
  sm_Avg : B;
  sm_P50 : A;
  sm_P95 : A;
  sm_P99 : A;
  sm_Max : A;
}.
Arguments mkSummary {A B} _ _ _ _ _ _ _.
Arguments sm_Count {A B} _.
Arguments sm_Min {A B} _.
Arguments sm_Avg {A B} _.
Arguments sm_P50 {A B} _.
Arguments sm_P95 {A B} _.
Arguments sm_P99 {A B} _.
Arguments sm_Max {A B} _.

(** [sorted[i]]; the index is in range where the program uses it. *)
Definition at_index {A} (zero : A) (sorted : list A) (i : Z) : A := default zero (sorted !! Z.to_nat i).

Definition percentile {A} (zero : A) (sorted : list A) (quantile : float64) : A :=
  at_index zero sorted (percentileIndex (Z.of_nat (length sorted)) quantile).

(** What the three functions share; [avg] of the sorted values. *)
Definition summarize {A B} (zeroA : A) (zeroB : B) (sort : list A → list A) (avg : list A → B) (values : list A)
    : summary A B :=
  match values with
  | [] => mkSummary 0 zeroA zeroB zeroA zeroA zeroA zeroA
  | _ =>
      let sorted := sort values in
      mkSummary (Z.of_nat (length sorted)) (at_index zeroA sorted 0) (avg sorted) (percentile zeroA sorted q50)
        (percentile zeroA sorted q95) (percentile zeroA sorted q99)
        (at_index zeroA sorted (Z.of_nat (length sorted) - 1))
  end.

(** Sums wrap around at 64 bits. *)
Definition total64 (l : list Z) : Z := foldl (λ total v, wrap64 (total + v)) 0%Z l.

Definition summarizeDurations (values : list Z) : summary Z Z :=
  summarize 0%Z 0%Z (sort_by id) (λ l, Z.quot (total64 l) (Z.of_nat (length l))) values.

Definition f64_zero : float64 := f64_of_Z 0.

Definition summarizeInts (values : list Z) : summary Z float64 :=
  summarize 0%Z f64_zero (sort_by id) (λ l, f64_div (f64_of_Z (total64 l)) (f64_of_Z (Z.of_nat (length l)))) values.

(** [sort.Float64s]: NaN comes first. *)
Definition f64_less (x y : float64) : bool :=
  (SpecFloat.SFltb x y || (negb (SpecFloat.SFeqb x x) && SpecFloat.SFeqb y y))%bool.

Definition f64_le (x y : float64) : Prop := f64_less y x = false.

#[global] Instance f64_le_dec x y : Decision (f64_le x y).
Proof. unfold f64_le. apply _. Defined.

Definition summarizeFloats (values : list float64) : summary float64 float64 :=
  summarize f64_zero f64_zero (merge_sort f64_le)
    (λ l, f64_div (foldl f64_add f64_zero l) (f64_of_Z (Z.of_nat (length l)))) values.

(** ** Results *)

Record benchmarkConfig : Type := mkBenchmarkConfig {
  cf_Scenario : string;
  cf_WorkflowDefinitionID : string;
  cf_Executions : Z;
  cf_Concurrency : Z;
  cf_IncludeRuns : bool;
  cf_Input : option json;
  cf_ReplayAfterTerminal : bool;
}.

Record benchmarkResult : Type := mkBenchmarkResult {
  br_Scenario : string;
  br_WorkflowDefinitionID : string;
  br_Executions : Z;
  br_Concurrency : Z;
  br_OverallElapsed : Z;
  br_ThroughputPerSecond : float64;
  br_Succeeded : Z;
  br_Failed : Z;
  br_ObservedLatency : summary Z Z;
  br_ReportedLatency : summary Z Z;
  br_AttemptsPerExecution : summary Z float64;
  br_Runs : list executionRun;
}.

Definition count_status (status : string) (runs : list executionRun) : Z :=
  foldl (λ n run, if String.eqb (xr_FinalStatus run) status then (n + 1)%Z else n) 0%Z runs.

Definition extractDurations (runs : list executionRun) (getter : executionRun → Z) : list Z := getter <$> runs.
Definition extractInts (runs : list executionRun) (getter : executionRun → Z) : list Z := getter <$> runs.

(** The result of a benchmark, once every execution has run. *)
Definition benchmark_result (cfg : benchmarkConfig) (overallElapsed : Z) (results : list executionRun) : benchmarkResult :=
  mkBenchmarkResult (cf_Scenario cfg) (cf_WorkflowDefinitionID cfg) (cf_Executions cfg) (cf_Concurrency cfg)
    overallElapsed (f64_div (f64_of_Z (cf_Executions cfg)) (Seconds overallElapsed))
    (count_status "succeeded" results) (count_status "failed" results)
    (summarizeDurations (extractDurations results xr_ObservedLatency))
    (summarizeDurations (extractDurations results xr_ReportedLatency))
    (summarizeInts (extractInts results xr_AttemptsObserved))
    (if cf_IncludeRuns cfg then results else []).

Record suiteAggregate : Type := mkSuiteAggregate {
  sa_RepeatCount : Z;
  sa_SucceededRuns : Z;
  sa_FailedRuns : Z;
  sa_Throughput : summary float64 float64;
  sa_OverallElapsed : summary Z Z;
  sa_ReportedLatencyP95 : summary Z Z;
  sa_ReportedLatencyAvg : summary Z Z;
  sa_ObservedLatencyP95 : summary Z Z;
}.

(** The aggregate of buildSuiteResult. *)
Definition suite_aggregate (results : list benchmarkResult) : suiteAggregate :=
  mkSuiteAggregate (Z.of_nat (length results))
    (foldl (λ n r, if Z.eqb (br_Failed r) 0 then (n + 1)%Z else n) 0%Z results)
    (foldl (λ n r, if Z.eqb (br_Failed r) 0 then n else (n + 1)%Z) 0%Z results)
    (summarizeFloats (br_ThroughputPerSecond <$> results))
    (summarizeDurations (br_OverallElapsed <$> results))
    (summarizeDurations ((λ r, sm_P95 (br_ReportedLatency r)) <$> results))
    (summarizeDurations ((λ r, sm_Avg (br_ReportedLatency r)) <$> results))
    (summarizeDurations ((λ r, sm_P95 (br_ObservedLatency r)) <$> results)).

Record suiteConfig : Type := mkSuiteConfig {
  sc_Label : string;
  sc_CapturedAt : Z;
  sc_Scenario : string;
  sc_Executions : Z;
  sc_Concurrency : Z;
  sc_Repeat : Z;
  sc_PollInterval : Z;
  sc_Timeout : Z;
  sc_MaxAttempts : Z;
  sc_Backoff : Z;
  sc_ChainLength : Z;
  sc_APIBaseURL : string;
}.

Record benchmarkSuiteResult : Type := mkBenchmarkSuiteResult {
  su_Config : suiteConfig;      (* the twelve fields that are copied from it *)
  su_GoVersion : string;
  su_Hostname : string;
  su_Results : list benchmarkResult;
  su_Aggregate : suiteAggregate;
}.

(** [hostname]: what os.Hostname returns, the empty string when it fails. *)
Definition buildSuiteResult (goVersion hostname : string) (results : list benchmarkResult) (cfg : suiteConfig)
    : benchmarkSuiteResult :=
  mkBenchmarkSuiteResult cfg goVersion hostname results (suite_aggregate results).

Example summarizeDurations_ex :
  summarizeDurations [30; 10; 20; 40]%Z = (mkSummary 4 10 25 20 40 40 40)%Z.
Proof. vm_compute. reflexivity. Qed.

Example summarizeFloats_ex :
  (λ s, (json_float (sm_Avg s), json_float (sm_P50 s), json_float (sm_Max s)))
    (summarizeFloats (f64_of_Z <$> [3; 1; 2; 2]%Z)) = ("2", "2", "3").
Proof. vm_compute. reflexivity. Qed.
