(* ===== verification/BenchSpec.v ===== *)
(** What the benchmark client promises: its scenarios are definitions that the
    service accepts, and linear chains; the service reads its requests as it
    wrote them; and the percentiles it reports are those of the nearest rank. *)

From S2P Require Import Prelude GoString GoFloat GoStrconv GoJson GoFmt GoDecoder GoError Proc Domain Db Pg Store.
From S2P Require Import Workflow Service Worker HttpApi Bench.

Open Scope string_scope.

(** * Numbers and names *)

Lemma span_digits_all ds : all_digits ds → span_digits ds = (ds, []).
Proof. induction 1 as [| c ds Hc _ IH]; cbn; [done |]. unfold is_digit. by rewrite Hc, IH. Qed.

Lemma Z_bytes_cases n : (0 ≤ n)%Z →
  n = 0%Z ∨ ∃ c ds, Z_bytes n = c :: ds ∧ in_range 49 57 c = true ∧ all_digits ds.
Proof.
  intros Hn. destruct (decide (n = 0%Z)); [by left | right].
  destruct (Z_bytes_head n ltac:(lia)) as (c & ds & E & Hc). exists c, ds. split_and!; [done | done |].
  pose proof (Z_bytes_digits n Hn) as Hd. rewrite E in Hd. by apply Forall_cons_1 in Hd as [_ ?].
Qed.

Lemma first_digit c : in_range 49 57 c = true →
  is_char 45 c = false ∧ is_char 48 c = false ∧ is_digit c = true.
Proof. unfold in_range, is_char, is_digit, in_range. lia. Qed.

Lemma digits_value_all acc ds : all_digits ds → digits_value acc ds = Some (dec_value acc ds).
Proof. intros Hds. revert acc. induction Hds as [| c ds Hc _ IH]; intros acc; cbn; [done |]. unfold is_digit. by rewrite Hc, IH. Qed.

Lemma parse_int_Itoa n : (0 ≤ n ≤ int64_max)%Z → parse_int (Itoa n) = Some n.
Proof.
  intros Hn. destruct (Z_bytes_cases n ltac:(lia)) as [-> | (c & ds & E & Hc & Hds)]; [done |].
  pose proof (Z_bytes_digits n ltac:(lia)) as Hd. pose proof (Z_bytes_value n ltac:(lia)) as Hv.
  unfold parse_int, Itoa. rewrite (proj2 (Z.ltb_ge _ _)), to_of_bytes by lia. rewrite E in *.
  destruct (first_digit c Hc) as (-> & _ & _). rewrite digits_value_all, Hv by done.
  unfold int64_min, int64_max in *. by rewrite !(proj2 (Z.leb_le _ _)) by lia.
Qed.

(** Names of visible ASCII characters. *)
Definition visible (s : string) : bool := forallb (in_range 33 126) (to_bytes s).

Lemma visible_utf8 s : visible s = true → utf8_valid (to_bytes s) = true.
Proof.
  intros Hv. apply ascii_utf8_valid. unfold visible in Hv. rewrite forallb_forall in Hv |- *.
  intros c Hc%Hv. unfold in_range in Hc. lia.
Qed.

Lemma drop_space_visible sp2 sp3 b :
  (∀ x y, in_range 33 126 x = true → in_range 33 126 y = true → sp2 x y = false) →
  (∀ x y z, in_range 33 126 x = true → in_range 33 126 y = true → in_range 33 126 z = true → sp3 x y z = false) →
  forallb (in_range 33 126) b = true → drop_space sp2 sp3 b = b.
Proof.
  intros H2 H3 Hb. destruct b as [| c0 b]; [done |]. cbn in *. apply andb_true_iff in Hb as [Hc0 Hb].
  assert (space1 c0 = false) as -> by (unfold space1, in_range in *; lia).
  destruct b as [| c1 b]; [done |]. cbn in Hb. apply andb_true_iff in Hb as [Hc1 Hb]. rewrite H2 by done.
  destruct b as [| c2 b]; [done |]. cbn in Hb. apply andb_true_iff in Hb as [Hc2 _]. by rewrite H3.
Qed.

Lemma space2_visible x y : in_range 33 126 x = true → space2 x y = false.
Proof. unfold in_range, space2. intros. apply andb_false_iff. left. lia. Qed.

Lemma space3_visible x y z : in_range 33 126 x = true → space3 x y z = false.
Proof.
  unfold in_range, space3. intros Hx. destruct (byte x) as [| p | p]; try done.
  repeat (destruct p as [p | p |]; try done; try lia).
Qed.

Lemma TrimSpace_visible s : visible s = true → TrimSpace s = s.
Proof.
  intros Hv. unfold TrimSpace, trim_left, trim_right.
  rewrite (drop_space_visible space2) by eauto using space2_visible, space3_visible.
  rewrite drop_space_visible; [by rewrite reverse_involutive, of_to_bytes | | |].
  - intros x y _ Hy. by apply space2_visible.
  - intros x y z _ _ Hz. by apply space3_visible.
  - unfold visible in Hv. rewrite forallb_forall in Hv |- *. intros c Hc. apply Hv.
    apply list_elem_of_In. apply elem_of_reverse. by apply list_elem_of_In.
Qed.

Lemma visible_app s t : visible s = true → visible t = true → visible (s +:+ t) = true.
Proof. unfold visible. rewrite to_bytes_app, forallb_app. by intros -> ->. Qed.

Lemma visible_Itoa n : (0 ≤ n)%Z → visible (Itoa n) = true.
Proof.
  intros Hn. unfold visible, Itoa. rewrite (proj2 (Z.ltb_ge _ _)), to_of_bytes by done.
  apply forallb_forall. intros c Hc. pose proof (Z_bytes_digits n Hn) as Hd. unfold all_digits in Hd. rewrite Forall_forall in Hd.
  specialize (Hd c Hc). cbn in Hd. unfold in_range in *. lia.
Qed.

Lemma visible_step i : (0 ≤ i)%Z → visible (step_name i) = true.
Proof. intros Hi. apply visible_app; [done | by apply visible_Itoa]. Qed.

Lemma Itoa_inj i j : (0 ≤ i)%Z → (0 ≤ j)%Z → Itoa i = Itoa j → i = j.
Proof.
  intros Hi Hj. unfold Itoa. rewrite !(proj2 (Z.ltb_ge _ _)) by done. intros He%(f_equal to_bytes).
  rewrite !to_of_bytes in He. by rewrite <-(Z_bytes_value i), <-(Z_bytes_value j), He.
Qed.

Lemma step_name_inj i j : (0 ≤ i)%Z → (0 ≤ j)%Z → step_name i = step_name j → i = j.
Proof. intros Hi Hj. unfold step_name. cbn. intros [=]. by apply Itoa_inj. Qed.

Lemma blank_visible s : visible s = true → s ≠ "" → blank s = false.
Proof. intros Hv Hs. unfold blank. rewrite TrimSpace_visible by done. by apply String.eqb_neq. Qed.

(** * Linear definitions *)

(** The tasks of a chain, each with the next one's name. *)
Record chain (l : list WorkflowTaskSpec) : Prop := {
  ch_next i t : l !! i = Some t → ts_NextTask t = default "" (ts_Name <$> l !! S i);
  ch_names : NoDup (ts_Name <$> l);
  ch_task t : t ∈ l → visible (ts_Name t) = true ∧ ts_Name t ≠ "" ∧ blank (ts_HandlerKey t) = false ∧
    (0 ≤ ts_MaxAttempts t)%Z ∧ (0 ≤ ts_BackoffSeconds t)%Z;
}.

Section linear.
Context (l : list WorkflowTaskSpec) (Hl : chain l).

Lemma chain_find entry i t :
  l !! i = Some t → FindTaskSpecByName (mkWorkflowDefinitionSpec entry l) (ts_Name t) = inr t.
Proof.
  intros Ht. assert (Hex : ∃ u, FindTaskSpecByName (mkWorkflowDefinitionSpec entry l) (ts_Name t) = inr u).
  { apply find_by_name_iff. exists t. split; [by eapply list_elem_of_lookup_2 | done]. }
  destruct Hex as [u Hu]. rewrite Hu. apply find_by_name_inr in Hu as [Hin Hname]. cbn in Hin.
  destruct (ch_task _ Hl u Hin) as (Hvu & _). destruct (ch_task _ Hl t) as (Hvt & _); [by eapply list_elem_of_lookup_2 |].
  rewrite !TrimSpace_visible in Hname by done.
  apply list_elem_of_lookup in Hin as [j Hj]. f_equal.
  enough (j = i) by congruence. apply (proj1 (NoDup_alt _) (ch_names _ Hl) j i (ts_Name t));
    rewrite list_lookup_fmap; [by rewrite Hj, <-Hname | by rewrite Ht].
Qed.

Lemma chain_next entry i t :
  l !! i = Some t → FindNextTaskSpec (mkWorkflowDefinitionSpec entry l) (ts_Name t) = inr (l !! S i).
Proof.
  intros Ht. unfold FindNextTaskSpec. rewrite (chain_find _ _ _ Ht), (ch_next _ Hl _ _ Ht).
  destruct (l !! S i) as [u |] eqn:Hu; cbn [default fmap option_fmap option_map]; [| done].
  destruct (ch_task _ Hl u) as (Hv & Hne & _); [by eapply list_elem_of_lookup_2 |].
  change (default "" (Some (ts_Name u))) with (ts_Name u).
  by rewrite blank_visible, (chain_find _ _ _ Hu).
Qed.

Lemma chain_walk entry n i t :
  l !! i = Some t → walk (mkWorkflowDefinitionSpec entry l) n (ts_Name t) = ts_Name <$> l !! (i + n)%nat.
Proof.
  revert i t. induction n as [| n IH]; intros i t Ht; cbn [walk].
  - by rewrite Nat.add_0_r, Ht.
  - rewrite (chain_next _ _ _ Ht). destruct (l !! S i) as [u |] eqn:Hu.
    + rewrite (IH (S i) u Hu). by replace (S i + n)%nat with (i + S n)%nat by lia.
    + symmetry. apply fmap_None, lookup_ge_None. apply lookup_ge_None in Hu. lia.
Qed.

Lemma chain_spec_ok t : head l = Some t → spec_ok (mkWorkflowDefinitionSpec (ts_Name t) l).
Proof.
  intros Ht. assert (H0 : l !! 0%nat = Some t) by by destruct l.
  assert (Hin : t ∈ l) by by eapply list_elem_of_lookup_2. split; cbn.
  - destruct (ch_task _ Hl t Hin) as (Hv & Hne & _). by apply blank_visible.
  - by exists t.
  - intros u Hu. destruct (ch_task _ Hl u Hu) as (Hv & Hne & Hh & Ha & Hb). split; cbn; try done.
    + by apply blank_visible.
    + intros Hnb. apply list_elem_of_lookup in Hu as [i Hi]. rewrite (ch_next _ Hl _ _ Hi) in *.
      destruct (l !! S i) as [v |] eqn:Hsv; [| discriminate Hnb].
      change (default "" (ts_Name <$> Some v)) with (ts_Name v) in *.
      assert (Hvin : v ∈ l) by by eapply list_elem_of_lookup_2. destruct (ch_task _ Hl v Hvin) as (Hvv & _).
      rewrite !TrimSpace_visible by done. split; [| exists v; by rewrite TrimSpace_visible].
      intros Heq. enough (S i = i) by lia. apply (proj1 (NoDup_alt _) (ch_names _ Hl) (S i) i (ts_Name v));
        rewrite list_lookup_fmap; [by rewrite Hsv | by rewrite Hi, Heq].
Qed.

End linear.

(** ** From the marshalled maps to the tasks *)

Definition task_of (t : WorkflowTaskSpec) : json :=
  task_map (ts_BackoffSeconds t) (ts_HandlerKey t) (ts_MaxAttempts t) (ts_Name t)
    (if decide (ts_NextTask t = "") then None else Some (ts_NextTask t)).

(** What a task's texts and numbers must be to survive the marshalling. *)
Definition task_writable (t : WorkflowTaskSpec) : Prop :=
  visible (ts_Name t) = true ∧ visible (ts_HandlerKey t) = true ∧ visible (ts_NextTask t) = true ∧
  (0 ≤ ts_MaxAttempts t ≤ int64_max)%Z ∧ (0 ≤ ts_BackoffSeconds t ≤ int64_max)%Z.

Lemma decode_task t : task_writable t → decode_struct set_task_spec zero_task_spec (task_of t) = Some t.
Proof.
  intros (_ & _ & _ & Ha & Hb). unfold task_of, task_map. destruct t as [name h a b next]. cbn in *.
  case_decide as Hn; cbn [app decode_struct decode_members]; unfold set_task_spec, zero_task_spec; eval_fields; cbn [decode_string decode_int mbind option_bind];
    rewrite !parse_int_Itoa by done; cbn; by subst.
Qed.

Lemma decode_tasks_all l : Forall task_writable l → decode_tasks [] (task_of <$> l) = Some l.
Proof. induction 1 as [| t l Ht _ IH]; cbn [fmap list_fmap decode_tasks head tail]; [done |]. cbn [default]. by rewrite (decode_task t Ht), IH. Qed.

Lemma task_of_encodable t : task_writable t → encodable (task_of t) = true ∧ jdepth (task_of t) = 1%nat.
Proof.
  intros (Hn & Hh & Hx & Ha & Hb). apply visible_utf8 in Hn, Hh, Hx. unfold task_of, task_map.
  case_decide; (split; [| reflexivity]); cbn [app encodable forallb fst snd];
    rewrite !number_ok_Itoa, ?Hn, ?Hh, ?Hx; reflexivity.
Qed.

Lemma unmarshal_definition entry l :
  visible entry = true → l ≠ [] → Forall task_writable l →
  unmarshal_spec (of_bytes (encode (definition_map entry (task_of <$> l)))) = Some (mkWorkflowDefinitionSpec entry l).
Proof.
  intros He Hne Hl. unfold unmarshal_spec. rewrite parse_encode.
  - cbn [mbind option_bind]. unfold definition_map. cbn [decode_struct decode_members].
    unfold set_spec. eval_fields. cbn [decode_string mbind option_bind ss_entry ss_backing ss_len].
    destruct (task_of <$> l) as [| v vs] eqn:Ej; [by destruct l |]. rewrite <-Ej, (decode_tasks_all l Hl).
    cbn [mbind option_bind ss_entry ss_backing ss_len]. by rewrite length_fmap, firstn_all.
  - unfold definition_map. cbn [encodable forallb fst snd]. rewrite (visible_utf8 _ He).
    change (utf8_valid (to_bytes "entry_task")) with true. change (utf8_valid (to_bytes "tasks")) with true.
    cbn [andb]. rewrite andb_true_r. apply forallb_forall. intros v Hv%list_elem_of_In. apply list_elem_of_fmap in Hv as (t & -> & Ht).
    apply task_of_encodable. rewrite Forall_forall in Hl. by apply Hl, list_elem_of_In.
  - assert (Hd : (list_max (jdepth <$> (task_of <$> l)) ≤ 1)%nat).
    { apply list_max_le, Forall_forall. intros k Hk%list_elem_of_In.
      apply list_elem_of_fmap in Hk as (v & -> & Hv). apply list_elem_of_fmap in Hv as (t & -> & Ht).
      rewrite Forall_forall in Hl. by rewrite (proj2 (task_of_encodable t (Hl t (proj1 (list_elem_of_In _ _) Ht)))). }
    change (jdepth (definition_map entry (task_of <$> l))) with
      (S (Nat.max 0 (Nat.max (S (list_max (jdepth <$> (task_of <$> l)))) 0))). unfold max_nesting. lia.
Qed.

(** * The scenarios *)

Definition chain_step (a b n i : Z) : WorkflowTaskSpec :=
  mkWorkflowTaskSpec (step_name (i + 1)) (if Z.eqb (Z.rem i 2) 1 then "notifications.send" else "sample.echo") a b
    (if Z.ltb i (n - 1) then step_name (i + 2) else "").

Lemma chain_task_of a b n i : chain_task a b n i = task_of (chain_step a b n i).
Proof.
  unfold chain_task, task_of, chain_step. cbn. destruct (Z.ltb i (n - 1)); [| done].
  rewrite decide_False; [done |]. unfold step_name. cbn. discriminate.
Qed.

Lemma deep_chain a b n :
  (0 ≤ a)%Z → (0 ≤ b)%Z → chain (chain_step a b n <$> seqZ 0 n).
Proof.
  intros Ha Hb.
  assert (Hlk : ∀ i t, (chain_step a b n <$> seqZ 0 n) !! i = Some t → (Z.of_nat i < n)%Z ∧ t = chain_step a b n (Z.of_nat i)).
  { intros i t Ht. rewrite list_lookup_fmap in Ht. destruct (seqZ 0 n !! i) as [z |] eqn:E; [| done].
    apply lookup_seqZ in E as [-> ?]. injection Ht as <-. split; [lia | done]. }
  split.
  - intros i t Ht. apply Hlk in Ht as [Hi ->]. cbn. rewrite list_lookup_fmap.
    destruct (Z.ltb_spec (Z.of_nat i) (n - 1)).
    + rewrite lookup_seqZ_lt by lia. cbn. f_equal. lia.
    + rewrite lookup_seqZ_ge by lia. done.
  - rewrite <-list_fmap_compose. apply NoDup_fmap_2_strong; [| apply NoDup_seqZ].
    intros i j Hi%elem_of_seqZ Hj%elem_of_seqZ Heq%step_name_inj; lia.
  - intros t Ht. apply list_elem_of_lookup in Ht as [i Hi]. apply Hlk in Hi as [Hi ->]. cbn.
    split_and!; [apply visible_step; lia | unfold step_name; discriminate | by case_match | done | done].
Qed.

Lemma deep_chain_writable a b n :
  (0 ≤ a ≤ int64_max)%Z → (0 ≤ b ≤ int64_max)%Z → Forall task_writable (chain_step a b n <$> seqZ 0 n).
Proof.
  intros Ha Hb. apply Forall_forall. intros t Ht%list_elem_of_In.
  apply list_elem_of_fmap in Ht as (i & -> & Hi%elem_of_seqZ). unfold task_writable. cbn.
  split_and!; [apply visible_step; lia | by case_match | | lia..].
  case_match; [apply visible_step; lia | done].
Qed.

(** Definitions made of a chain of writable tasks are accepted, and run one
    task after the other. *)
Lemma chain_accepted t l :
  chain (t :: l) → Forall task_writable (t :: l) →
  ParseAndValidateWorkflowDefinition (of_bytes (encode (definition_map (ts_Name t) (task_of <$> t :: l))))
    = inr (mkWorkflowDefinitionSpec (ts_Name t) (t :: l)) ∧
  ∀ i, walk (mkWorkflowDefinitionSpec (ts_Name t) (t :: l)) i (ts_Name t) = ts_Name <$> (t :: l) !! i.
Proof.
  intros Hc Hw. split.
  - apply accepted_intro; [| by apply chain_spec_ok]. apply unmarshal_definition; [| done | done].
    by apply (ch_task _ Hc), list_elem_of_here.
  - intros i. by apply (chain_walk _ Hc _ i 0).
Qed.

(** The short scenarios. *)
Lemma single_chain name key a b :
  visible name = true → name ≠ "" → visible key = true → key ≠ "" → (0 ≤ a ≤ int64_max)%Z → (0 ≤ b ≤ int64_max)%Z →
  chain [mkWorkflowTaskSpec name key a b ""] ∧ Forall task_writable [mkWorkflowTaskSpec name key a b ""].
Proof.
  intros Hn Hne Hk Hke Ha Hb. split; [split |].
  - by intros [| i] t; cbn; intros [= <-].
  - apply NoDup_singleton.
  - intros t ->%list_elem_of_singleton. cbn. split_and!; try done; try lia. by apply blank_visible.
  - by apply Forall_singleton.
Qed.

Lemma linear_chain a b (l := [mkWorkflowTaskSpec "validate-order" "sample.echo" a b "send-confirmation";
                              mkWorkflowTaskSpec "send-confirmation" "notifications.send" a b ""]) :
  (0 ≤ a ≤ int64_max)%Z → (0 ≤ b ≤ int64_max)%Z → chain l ∧ Forall task_writable l.
Proof.
  intros Ha Hb. split; [split |].
  - by intros [| [| i]] t; cbn; intros [= <-].
  - apply (bool_decide_unpack (NoDup _)). reflexivity.
  - intros t Ht. unfold l in Ht. rewrite elem_of_cons, list_elem_of_singleton in Ht.
    destruct Ht as [-> | ->]; cbn [ts_Name ts_HandlerKey ts_MaxAttempts ts_BackoffSeconds];
      (split_and!; [reflexivity | discriminate | vm_compute; reflexivity | apply Ha | apply Hb]).
  - unfold l. repeat apply Forall_cons_2; [| | apply Forall_nil_2]; (split_and!; [reflexivity | reflexivity | reflexivity | apply Ha | apply Ha | apply Hb | apply Hb]).
Qed.

(** Every scenario of the benchmark, with flags that pass its checks, is a
    definition that the service accepts, with the limits of the flags on every
    task; and its tasks form one chain from the entry task: the engine's walk
    visits them in their order, each once, and ends (for the deep chain, after as
    many tasks as the flag says). *)
Theorem scenarios_accepted `{ErrorTexts} executions concurrency a b n repeat scenario s :
  check_flags executions concurrency a b n repeat = inr () → (a ≤ int64_max)%Z → (b ≤ int64_max)%Z →
  buildScenarioSpec scenario a b n = inr s →
  ∃ spec, ParseAndValidateWorkflowDefinition (of_bytes (encode (sp_Definition s))) = inr spec ∧
    (∀ t, t ∈ ws_Tasks spec → ts_MaxAttempts t = a ∧ ts_BackoffSeconds t = b) ∧
    (scenario = scenarioSuccessDeepChain → Z.of_nat (length (ws_Tasks spec)) = n) ∧
    ∀ i, walk spec i (ws_EntryTask spec) = ts_Name <$> ws_Tasks spec !! i.
Proof.
  intros Hf Ha Hb Hs. unfold check_flags in Hf.
  repeat (apply rbind_inr in Hf as ([] & ?%guard_err_inr & Hf)). clear Hf.
  assert (Hall : (0 ≤ a ≤ int64_max ∧ 0 ≤ b ≤ int64_max ∧ 2 ≤ n)%Z) by lia. clear -Hall Hs.
  destruct Hall as (Ha & Hb & Hn).
  assert (Hdone : ∀ t l, chain (t :: l) → Forall task_writable (t :: l) →
    (∀ u, u ∈ t :: l → ts_MaxAttempts u = a ∧ ts_BackoffSeconds u = b) →
    (scenario = scenarioSuccessDeepChain → Z.of_nat (length (t :: l)) = n) →
    sp_Definition s = definition_map (ts_Name t) (task_of <$> t :: l) →
    ∃ spec, ParseAndValidateWorkflowDefinition (of_bytes (encode (sp_Definition s))) = inr spec ∧
    (∀ t, t ∈ ws_Tasks spec → ts_MaxAttempts t = a ∧ ts_BackoffSeconds t = b) ∧
    (scenario = scenarioSuccessDeepChain → Z.of_nat (length (ws_Tasks spec)) = n) ∧
    ∀ i, walk spec i (ws_EntryTask spec) = ts_Name <$> ws_Tasks spec !! i).
  { intros t l Hc Hw Hlim Hlen ->. destruct (chain_accepted t l Hc Hw) as [Hacc Hwalk].
    eexists. split; [exact Hacc |]. by split_and!. }
  unfold buildScenarioSpec in Hs.
  destruct (String.eqb_spec scenario scenarioSuccessLinear) as [-> |].
  { injection Hs as <-. destruct (linear_chain a b Ha Hb) as [Hc Hw]. apply (Hdone _ _ Hc Hw); [| done | done].
    intros u Hu. rewrite elem_of_cons, list_elem_of_singleton in Hu. by destruct Hu as [-> | ->]. }
  destruct (String.eqb_spec scenario scenarioSuccessDeepChain) as [-> |].
  { injection Hs as <-. pose proof (deep_chain a b n ltac:(lia) ltac:(lia)) as Hc.
    pose proof (deep_chain_writable a b n Ha Hb) as Hw.
    assert (Heq : chain_task a b n <$> seqZ 0 n = task_of <$> (chain_step a b n <$> seqZ 0 n)).
    { rewrite <-list_fmap_compose. apply list_fmap_ext. intros i z _. apply chain_task_of. }
    assert (Hlen : length (chain_step a b n <$> seqZ 0 n) = Z.to_nat n) by by rewrite length_fmap, length_seqZ.
    assert (Hlim : ∀ u, u ∈ chain_step a b n <$> seqZ 0 n → ts_MaxAttempts u = a ∧ ts_BackoffSeconds u = b).
    { intros u Hu. by apply list_elem_of_fmap in Hu as (i & -> & _). }
    cbn [sp_Definition] in *. rewrite seqZ_cons in * by lia. cbn [fmap list_fmap] in *.
    refine (Hdone _ _ Hc Hw Hlim _ _); [intros _; rewrite Hlen; lia |].
    exact (f_equal (definition_map "step-1") Heq). }
  repeat match type of Hs with (if String.eqb scenario ?x then _ else _) = _ =>
    destruct (String.eqb_spec scenario x) as [-> |] end; [..| done]; injection Hs as <-.
  - destruct (single_chain "retry-step" "sample.echo" a b) as [Hc Hw]; [done.. |]. apply (Hdone _ _ Hc Hw); [| done | done].
    by intros u ->%list_elem_of_singleton.
  - destruct (single_chain "broken-step" "missing.handler" a b) as [Hc Hw]; [done.. |].
    apply (Hdone _ _ Hc Hw); [| done | done]. by intros u ->%list_elem_of_singleton.
  - destruct (single_chain "broken-step" "missing.handler" a b) as [Hc Hw]; [done.. |].
    apply (Hdone _ _ Hc Hw); [| done | done]. by intros u ->%list_elem_of_singleton.
Qed.

(** * Requests *)

(** The service reads the requests of the client as they were written: the
    name and the description are the texts, and the definition and the input are the
    bytes of the marshalled values, whatever follows the body. *)
Theorem requests_read_back name description workflowID v rest :
  utf8_valid (to_bytes name) = true → utf8_valid (to_bytes description) = true →
  utf8_valid (to_bytes workflowID) = true → encodable v = true → (jdepth v < max_nesting)%nat →
  decode_createWorkflowRequest (createWorkflow_body name description v +:+ rest) =
    Some (mkCreateRequest name description (of_bytes (encode v))) ∧
  decode_triggerExecutionRequest (trigger_body workflowID v +:+ rest) =
    Some (mkTriggerRequest workflowID (of_bytes (encode v))).
Proof.
  intros Hn Hd Hw Hv Hdepth.
  assert (Hb : ∀ l, of_bytes (encode (JObj l)) +:+ rest = of_bytes (encode (JObj l) ++ to_bytes rest)%list).
  { intros l. apply to_bytes_inj. by rewrite to_bytes_app, !to_of_bytes. }
  assert (Hmax : (1 ≤ max_nesting)%nat) by (unfold max_nesting; lia).
  unfold createWorkflow_body, trigger_body, decode_createWorkflowRequest, decode_triggerExecutionRequest.
  rewrite !Hb. clear Hb. split; rewrite Decode_encode.
  - cbn [fmap list_fmap fst snd]. unfold set_fields. cbn [foldl mbind option_bind fst snd].
    unfold set_createWorkflowRequest. eval_fields. by cbn.
  - cbn [encodable forallb fst snd]. rewrite Hn, Hd, Hv. done.
  - cbn [jdepth fmap list_fmap snd]. cbn [list_max fold_right]. lia.
  - cbn [fmap list_fmap fst snd]. unfold set_fields. cbn [foldl mbind option_bind fst snd].
    unfold set_triggerExecutionRequest. eval_fields. by cbn.
  - cbn [encodable forallb fst snd]. rewrite Hw, Hv. done.
  - cbn [jdepth fmap list_fmap snd]. cbn [list_max fold_right]. lia.
Qed.

(** * Percentiles *)

(** The index of the nearest rank: the least [i] with [100 * (i + 1) >= p * n]. *)
Definition nearest_rank (n p : Z) : Z := (- (- (p * n) / 100) - 1)%Z.

Definition ranks_agree (n : Z) : bool :=
  (Z.eqb (percentileIndex n q50) (nearest_rank n 50) && Z.eqb (percentileIndex n q95) (nearest_rank n 95) &&
   Z.eqb (percentileIndex n q99) (nearest_rank n 99))%bool.

Definition max_samples : Z := 1000.

(** float64 rounds no product the wrong way, as far as this. *)
Lemma ranks_agree_all : forallb ranks_agree (seqZ 1 max_samples) = true.
Proof. vm_compute. reflexivity. Qed.

Lemma ranks n : (1 ≤ n ≤ max_samples)%Z →
  percentileIndex n q50 = nearest_rank n 50 ∧ percentileIndex n q95 = nearest_rank n 95 ∧
  percentileIndex n q99 = nearest_rank n 99.
Proof.
  intros Hn. pose proof ranks_agree_all as Hall. rewrite forallb_forall in Hall.
  specialize (Hall n). unfold ranks_agree in Hall. rewrite !andb_true_iff, !Z.eqb_eq in Hall.
  destruct Hall as [[? ?] ?]; [| done]. apply list_elem_of_In, elem_of_seqZ. lia.
Qed.

(** The values at most [v], and those below it, in a list. *)
Definition at_most (v : Z) (l : list Z) : Z := Z.of_nat (length (filter (λ x, x ≤ v)%Z l)).
Definition below (v : Z) (l : list Z) : Z := Z.of_nat (length (filter (λ x, x < v)%Z l)).

(** What it means to be the [p]-th percentile of [l]: a value of the list, at
    least [p] percent of the values are at most it, and less than [p] percent are
    below it. *)
Definition is_percentile (p : Z) (l : list Z) (v : Z) : Prop :=
  v ∈ l ∧ (p * Z.of_nat (length l) ≤ 100 * at_most v l)%Z ∧ (100 * below v l < p * Z.of_nat (length l))%Z.

Lemma nearest_rank_bounds n p : (1 ≤ n)%Z → (1 ≤ p ≤ 100)%Z →
  (0 ≤ nearest_rank n p < n ∧ 100 * nearest_rank n p < p * n ≤ 100 * (nearest_rank n p + 1))%Z.
Proof.
  intros Hn Hp. unfold nearest_rank. pose proof (Z.div_mod (- (p * n)) 100 ltac:(lia)).
  pose proof (Z.mod_pos_bound (- (p * n)) 100 ltac:(lia)). nia.
Qed.

(** In a sorted list the values up to an index are at most the one there, and
    only those before it can be below it. *)
Lemma sorted_counts l i v :
  StronglySorted Z.le l → l !! i = Some v → (Z.of_nat (S i) ≤ at_most v l)%Z ∧ (below v l ≤ Z.of_nat i)%Z.
Proof.
  intros Hs Hi. unfold at_most, below. rewrite <-(take_drop_middle _ _ _ Hi) in Hs |- *.
  set (l1 := take i l) in *. set (l2 := drop (S i) l) in *.
  assert (Hlen : length l1 = i) by (unfold l1; rewrite length_take; apply lookup_lt_Some in Hi; lia).
  assert (H1 : ∀ x, x ∈ l1 → (x ≤ v)%Z).
  { intros x Hx. apply (StronglySorted_app_1_elem_of _ _ _ x v Hs); [done | by apply list_elem_of_here]. }
  assert (H2 : ∀ x, x ∈ v :: l2 → (v ≤ x)%Z).
  { intros x Hx. apply StronglySorted_app_1_r in Hs. apply StronglySorted_inv in Hs as [_ Hall].
    apply elem_of_cons in Hx as [-> | Hx]; [done |]. rewrite Forall_forall in Hall. by apply Hall, list_elem_of_In. }
  rewrite !list.filter_app, !length_app. split.
  - rewrite (filter_all (λ x, x ≤ v)%Z l1) by done.
    rewrite filter_cons_True by done. cbn. lia.
  - assert (filter (λ x, x < v)%Z (v :: l2) = []) as ->.
    { apply filter_none. intros x Hx%H2. lia. }
    pose proof (length_filter (λ x, x < v)%Z l1). cbn. lia.
Qed.

Lemma counts_perm v l k : l ≡ₚ k → at_most v l = at_most v k ∧ below v l = below v k.
Proof. intros Hp. unfold at_most, below. by rewrite Hp. Qed.

Lemma percentile_spec values p q :
  (1 ≤ Z.of_nat (length values) ≤ max_samples)%Z → (1 ≤ p ≤ 100)%Z →
  percentileIndex (Z.of_nat (length values)) q = nearest_rank (Z.of_nat (length values)) p →
  is_percentile p values (percentile 0%Z (sort_by id values) q).
Proof.
  intros Hn Hp Hq. unfold percentile. pose proof (sort_by_perm id values) as Hperm.
  pose proof (Permutation_length Hperm) as Hlen. rewrite Hlen, Hq.
  destruct (nearest_rank_bounds (Z.of_nat (length values)) p) as [Hi Hr]; [lia | done |].
  set (i := nearest_rank _ _) in *. unfold at_index.
  destruct (lookup_lt_is_Some_2 (sort_by id values) (Z.to_nat i)) as [v Hv]; [lia |]. rewrite Hv. change (default 0%Z (Some v)) with v.
  destruct (sorted_counts (sort_by id values) (Z.to_nat i) v) as [Hat Hbel]; [apply sort_by_sorted | done |].
  unfold is_percentile.
  split; [by eapply (elem_of_sort_by id), list_elem_of_lookup_2 |].
  destruct (counts_perm v _ _ Hperm) as [Ha Hb]. lia.
Qed.


(** * Concrete inputs *)

Lemma scenarios_accepted_witness :
  ∃ spec, ParseAndValidateWorkflowDefinition (of_bytes (encode (definition_map "step-1" (chain_task 3 1 12 <$> seqZ 0 12))))
    = inr spec ∧ length (ws_Tasks spec) = 12%nat.
Proof.
  pose (texts := Build_ErrorTexts "" "" id id id id).
  destruct (@scenarios_accepted texts 25 5 3 1 12 1 scenarioSuccessDeepChain
    (mkScenarioSpec (definition_map "step-1" (chain_task 3 1 12 <$> seqZ 0 12))
       "Benchmark workflow for 12-step chained execution latency and throughput." None false)) as (spec & Hp & _ & Hl & _).
  - reflexivity.
  - unfold int64_max. lia.
  - unfold int64_max. lia.
  - vm_compute. reflexivity.
  - exists spec. split; [exact Hp |]. specialize (Hl eq_refl). lia.
Defined.

Lemma requests_read_back_witness :
  decode_triggerExecutionRequest (trigger_body "00000000-0000-4000-8000-000000000000" (JNum "123") +:+ " x") =
  Some (mkTriggerRequest "00000000-0000-4000-8000-000000000000" "123").
Proof.
  apply (requests_read_back "bench" "a description" "00000000-0000-4000-8000-000000000000" (JNum "123") " x");
    [reflexivity | reflexivity | reflexivity | reflexivity | unfold max_nesting; cbn [jdepth]; lia].
Defined.

