(* ===== verification/BenchHttp.v ===== *)
(** The benchmark client and the API together: what the client decodes from the
    bytes of the server's answers is what the server put into them, down to the
    latency it computes from two times of the database. *)

From S2P Require Import Prelude GoString GoFloat GoStrconv GoTime GoRfc3339 GoJson GoUrl GoDecoder GoEncoder GoError Proc.
From S2P Require Import Domain DomainJson Db Pg Store Idempotency History Wf StoreSpec Snapshot Workflow Service HttpApi Bench.
From S2P Require Import Progress HttpSpec BenchSpec.

Open Scope string_scope.

(** * Decoding along the fields of a struct *)

Fixpoint decode_fields {S} (set : string → json → S → option S) (l : list (string * option marshalled)) (s : S)
    : option S :=
  match l with
  | [] => Some s
  | (k, o) :: l' => m ← o; s' ← set k (m_value m) s; decode_fields set l' s'
  end.

Lemma decode_object {S} (set : string → json → S → option S) l m s :
  m_object l = Some m → decode_struct set s (m_value m) = decode_fields set l s ∧ Forall (λ p, is_Some p.2) l.
Proof.
  intros (r & Hf & ->)%m_object_inv. cbn [m_value decode_struct]. revert s.
  induction Hf as [| [k o] [k' x] l r [Hk Ho] _ IH]; intros s; [split; [done | by apply Forall_nil_2] |].
  cbn in *. subst k' o. split; [| apply Forall_cons_2; [by eexists | by apply (IH s)]]. cbn.
  destruct (set k (m_value x) s) as [s' |]; cbn; [by apply IH | done].
Qed.

Section fields.
Context {S : Type} (set : string → json → S → option S).

Definition ignores (k : string) : Prop := ∀ v s, set k v s = Some s.

(** Decoding fields that could be marshalled takes [s] to [s']. *)
Definition decodes (l : list (string * option marshalled)) (s s' : S) : Prop :=
  Forall (λ p, is_Some p.2) l → decode_fields set l s = Some s'.

Lemma decodes_nil s : decodes [] s s.
Proof. done. Qed.

Lemma decodes_known k o l s s1 s' :
  (∀ m, o = Some m → set k (m_value m) s = Some s1) → decodes l s1 s' → decodes ((k, o) :: l) s s'.
Proof. intros Hk Hl [[m Hm] Hf]%Forall_cons_1. cbn in *. rewrite Hm. cbn. rewrite (Hk m Hm). cbn. auto. Qed.

Lemma decodes_ignored k o l s s' : ignores k → decodes l s s' → decodes ((k, o) :: l) s s'.
Proof. intros Hk. by apply decodes_known. Qed.

Lemma decodes_unless_empty key t m l s s' : ignores key → decodes l s s' → decodes (unless_empty key t m ++ l)%list s s'.
Proof. unfold unless_empty. destruct (String.eqb t ""); [done |]. apply decodes_ignored. Qed.

Lemma decodes_unless_nil {A} key (o : option A) f l s s' : ignores key → decodes l s s' →
  decodes (unless_nil key o f ++ l)%list s s'.
Proof. destruct o; [| done]. apply decodes_ignored. Qed.

Lemma decodes_unless_nil_known {A} key (o : option A) f l s s1 s' :
  (∀ a m, o = Some a → f a = Some m → set key (m_value m) s = Some s1) → (o = None → s = s1) → decodes l s1 s' →
  decodes (unless_nil key o f ++ l)%list s s'.
Proof. destruct o; intros Ha Hn; [apply decodes_known; eauto | by rewrite Hn]. Qed.

End fields.

(** A key that is no field, and the fields of a given struct, one by one. *)
Ltac no_field := intros ? []; try unfold set_view_execution; try unfold set_view_task; try unfold set_view_attempt;
  try unfold set_triggered_execution; eval_fields; reflexivity.
Ltac one_field :=
  first [ apply decodes_ignored; [no_field |]
        | apply decodes_unless_empty; [no_field |]
        | apply decodes_unless_nil; [no_field |] ].

(** * Views *)

Section views.
Context (local : Z → Z).

(** The text of a nullable time; an absent field leaves the empty string. *)
Definition time_text (o : option Z) : string :=
  match o with Some t => default "" (marshal_time (local t) (t * 1000)) | None => "" end.

Definition view_entry (t : TaskSnapshot) : taskSnapshot :=
  mkTaskView (ti_ID (tsn_Task t)) (ti_Status (tsn_Task t)) (ti_AttemptsTotal (tsn_Task t))
    (slice_of (ta_Status <$> tsn_Attempts t)).

Definition view_of (s : ExecutionSnapshot) : executionSnapshot :=
  mkExecutionView (we_ID (es_Execution s)) (we_Status (es_Execution s)) (time_text (we_StartedAt (es_Execution s)))
    (time_text (we_CompletedAt (es_Execution s))) (slice_of (view_entry <$> es_Tasks s)).

Lemma m_time_text t m : m_time local t = Some m → m_value m = JStr (time_text (Some t)).
Proof. unfold m_time. cbn. destruct (marshal_time _ _); [| done]. by intros [= <-]. Qed.

Lemma decode_execution x m tasks :
  WorkflowExecution_json local x = Some m →
  decode_struct set_view_execution (mkExecutionView "" "" "" "" tasks) (m_value m) =
  Some (mkExecutionView (we_ID x) (we_Status x) (time_text (we_StartedAt x)) (time_text (we_CompletedAt x)) tasks).
Proof.
  intros Hm. destruct (decode_object set_view_execution _ _ (mkExecutionView "" "" "" "" tasks) Hm) as [-> Hf].
  revert Hf. match goal with |- _ → _ = Some ?s' => change (decodes set_view_execution (WorkflowExecution_fields local x)
    (mkExecutionView "" "" "" "" tasks) s') end.
  unfold WorkflowExecution_fields. cbn [app].
  eapply decodes_known; [intros ? [= <-]; unfold set_view_execution; eval_fields; reflexivity |]. one_field.
  eapply decodes_known; [intros ? [= <-]; unfold set_view_execution; eval_fields; reflexivity |]. do 5 one_field.
  eapply decodes_unless_nil_known with (s1 := mkExecutionView (we_ID x) (we_Status x) (time_text (we_StartedAt x)) "" tasks).
  { intros t mt -> Ht. rewrite (m_time_text _ _ Ht). unfold set_view_execution. eval_fields. reflexivity. }
  { by intros ->. }
  rewrite <-(app_nil_r (unless_nil _ _ _)). eapply decodes_unless_nil_known; [| | apply decodes_nil].
  { intros t mt -> Ht. rewrite (m_time_text _ _ Ht). unfold set_view_execution. eval_fields. reflexivity. }
  { by intros ->. }
Qed.

Lemma decode_view_task t m attempts :
  (0 ≤ ti_AttemptsTotal t ≤ int64_max)%Z → TaskInstance_json local t = Some m →
  decode_struct set_view_task (mkTaskView "" "" 0 attempts) (m_value m) =
  Some (mkTaskView (ti_ID t) (ti_Status t) (ti_AttemptsTotal t) attempts).
Proof.
  intros Ht Hm. destruct (decode_object set_view_task _ _ (mkTaskView "" "" 0 attempts) Hm) as [-> Hf].
  revert Hf. match goal with |- _ → _ = Some ?s' => change (decodes set_view_task (TaskInstance_fields local t)
    (mkTaskView "" "" 0 attempts) s') end.
  unfold TaskInstance_fields. cbn [app].
  eapply decodes_known; [intros ? [= <-]; unfold set_view_task; eval_fields; reflexivity |]. do 3 one_field.
  eapply decodes_known; [intros ? [= <-]; unfold set_view_task; eval_fields; reflexivity |]. do 4 one_field.
  eapply decodes_known; [intros ? [= <-]; unfold set_view_task; eval_fields; cbn [m_value decode_int];
    by rewrite parse_int_Itoa |].
  do 5 one_field. apply decodes_nil.
Qed.

Lemma decode_attempt a m : TaskAttempt_json local a = Some m →
  decode_struct set_view_attempt "" (m_value m) = Some (ta_Status a).
Proof.
  intros Hm. destruct (decode_object set_view_attempt _ _ "" Hm) as [-> Hf].
  revert Hf. change (decodes set_view_attempt (TaskAttempt_fields local a) "" (ta_Status a)).
  unfold TaskAttempt_fields. cbn [app]. do 3 one_field.
  eapply decodes_known; [intros ? [= <-]; unfold set_view_attempt; eval_fields; reflexivity |].
  do 5 one_field. apply decodes_nil.
Qed.

(** ** Snapshots *)

(** Snapshots whose texts are UTF-8, whose raw values are not nested to the
    decoder's limit, and whose counters are int64. *)
Definition raw_depth : nat := max_nesting - 10.

Definition printable_entry (t : TaskSnapshot) : bool :=
  (printable_task raw_depth (tsn_Task t) && forallb (printable_attempt raw_depth) (tsn_Attempts t) &&
   Z.leb 0 (ti_AttemptsTotal (tsn_Task t)) && Z.leb (ti_AttemptsTotal (tsn_Task t)) int64_max)%bool.

Definition printable_snapshot (s : ExecutionSnapshot) : bool :=
  (printable_execution raw_depth (es_Execution s) && forallb printable_entry (es_Tasks s))%bool.

Lemma forallb_elem {A} (f : A → bool) l x : forallb f l = true → x ∈ l → f x = true.
Proof. intros Hf Hx. rewrite forallb_forall in Hf. by apply Hf, list_elem_of_In. Qed.

Lemma good_attempts n d l m : forallb (printable_attempt n) l = true → (n ≤ d)%nat →
  m_array (TaskAttempt_json local <$> l) = Some m → good (S (S d)) m.
Proof.
  intros Hl Hd Hm. eapply good_array in Hm; [exact Hm |].
  intros o x (a & -> & Ha)%list_elem_of_fmap Hx. eapply good_attempt; [by eapply forallb_elem | exact Hd | exact Hx].
Qed.

Lemma good_entry d t m : printable_entry t = true → (raw_depth ≤ d)%nat → TaskSnapshot_json local t = Some m → good (S (S (S d))) m.
Proof.
  unfold printable_entry. rewrite !andb_true_iff. intros [[[Ht Ha] _] _] Hd Hm.
  eapply good_object in Hm; [exact Hm |]. intros k o. rewrite !elem_of_cons, elem_of_nil.
  intros [[= -> ->] | [[= -> ->] | []]]; (split; [reflexivity |]); intros x Hx.
  - eapply good_task; [exact Ht | | exact Hx]. lia.
  - by eapply good_attempts.
Qed.

Lemma decode_entry t m : printable_entry t = true → TaskSnapshot_json local t = Some m →
  decode_struct set_view_entry zero_task_view (m_value m) = Some (view_entry t).
Proof.
  unfold printable_entry. rewrite !andb_true_iff, !Z.leb_le. intros [[[_ _] H1] H2] Hm.
  destruct (decode_object set_view_entry _ _ zero_task_view Hm) as [-> Hf].
  revert Hf. change (decodes set_view_entry
    [("task", TaskInstance_json local (tsn_Task t)); ("attempts", m_array (TaskAttempt_json local <$> tsn_Attempts t))]
    zero_task_view (view_entry t)).
  eapply decodes_known; [| eapply decodes_known; [| apply decodes_nil]].
  - intros x Hx. unfold set_view_entry, zero_task_view. eval_fields. by apply decode_view_task.
  - intros x Hx. unfold set_view_entry. eval_fields. cbn [tv_Attempts].
    apply m_array_inv in Hx as (r & Hr & ->). cbn [m_value].
    rewrite decode_nil_slice with (r := ta_Status <$> tsn_Attempts t); [done |].
    apply Forall2_fmap. apply Forall2_flip. apply Forall2_fmap_l in Hr. refine (Forall2_impl _ _ Hr).
    intros a y Hy. by apply decode_attempt.
Qed.

Lemma nesting_left : ∃ d, pred max_nesting = S (S (S (S d))) ∧ (raw_depth ≤ d)%nat.
Proof. exists (max_nesting - 5)%nat. unfold raw_depth, max_nesting. split; lia. Qed.

(** What the client reads is what the server holds: the bytes of a snapshot are
    decoded to the ids, the states, the times and the attempts of the snapshot,
    in their order, whatever the time zone of the server. *)
Lemma snapshot_read_back s m rest :
  printable_snapshot s = true → ExecutionSnapshot_json local s = Some m →
  Decode set_view zero_view (of_bytes (m_bytes m ++ rest)%list) = Some (view_of s).
Proof.
  unfold printable_snapshot. rewrite andb_true_iff. intros [Hx Hts] (r & Hf & ->)%m_object_inv. cbn [m_bytes].
  apply Forall2_cons_inv_l in Hf as ([k mx] & r' & [Hk Hmx] & Hf & ->). cbn in Hk, Hmx. subst k.
  apply Forall2_cons_inv_l in Hf as ([k mt] & r'' & [Hk Hmt] & Hf & ->). cbn in Hk, Hmt. subst k.
  apply Forall2_nil_inv_l in Hf as ->.
  destruct nesting_left as (d & Hd & Hle).
  etransitivity;
    [apply (Decode_object set_view zero_view [("execution", (m_value mx, m_bytes mx)); ("tasks", (m_value mt, m_bytes mt))] rest) |].
  { rewrite Hd. apply Forall_cons_2; [| apply Forall_cons_2; [| apply Forall_nil_2]]; (split; [reflexivity |]).
       - eapply good_execution; [exact Hx | | exact Hmx]. lia.
       - eapply good_array; [| exact Hmt]. intros o x (t & -> & Ht)%list_elem_of_fmap Hx'.
         eapply good_entry; [by eapply forallb_elem | exact Hle | exact Hx']. }
  unfold set_fields. cbn [foldl mbind option_bind fst snd]. unfold set_view at 2. eval_fields. unfold zero_view.
  rewrite (decode_execution _ _ _ Hmx). cbn [mbind option_bind]. unfold set_view. eval_fields.
  apply m_array_inv in Hmt as (l & Hl & ->). cbn [m_value ev_Tasks].
  rewrite decode_nil_slice with (r := view_entry <$> es_Tasks s); [done |].
  apply Forall2_fmap_l in Hl. apply Forall2_fmap. apply Forall2_flip. revert Hts.
  induction Hl as [| t y ts l Hy Hl IH]; [constructor |]. cbn [forallb]. intros [Ht Hts]%andb_true_iff.
  constructor; [by apply decode_entry | by apply IH].
Qed.

(** Times that were marshalled are texts, and not empty. *)
Lemma time_text_ne off t s : marshal_time off t = Some s → String.eqb s "" = false.
Proof. intros Ht. destruct (String.eqb_spec s "") as [-> |]; [| done]. by apply RFC3339_roundtrip in Ht. Qed.

Lemma execution_times snap m : ExecutionSnapshot_json local snap = Some m →
  (∀ t, we_StartedAt (es_Execution snap) = Some t → is_Some (marshal_time (local t) (t * 1000))) ∧
  (∀ t, we_CompletedAt (es_Execution snap) = Some t → is_Some (marshal_time (local t) (t * 1000))).
Proof.
  intros (r & Hf & ->)%m_object_inv. apply Forall2_cons_inv_l in Hf as ([k mx] & r' & [_ Hmx] & _ & _). cbn [fst snd] in Hmx.
  destruct (decode_object set_view_execution _ _ zero_view Hmx) as [_ Hall]. unfold WorkflowExecution_fields in Hall.
  assert (Htime : ∀ t, is_Some (m_time local t) → is_Some (marshal_time (local t) (t * 1000))).
  { intros t [y Hy]. unfold m_time in Hy. destruct (marshal_time _ _); [by eexists | done]. }
  rewrite !list.Forall_app in Hall. destruct Hall as (_ & _ & _ & _ & H0 & H1).
  split; intros t Ht; [rewrite Ht in H0 | rewrite Ht in H1]; apply Htime; [by apply Forall_cons_1 in H0 as [? _] | by apply Forall_cons_1 in H1 as [? _]].
Qed.


End views.

(** * The client against the server *)

Section together.
Context `{PostgresLaws} `{ErrorTexts}.
Context (local : Z → Z) (serve : request → proc dbw response) (base : string).

(** The transport: the path is what follows the base URL, and the body of the
    response arrives whole. *)
Definition server_Do (method url : string) (body : option string) : proc dbw http_response :=
  let! rp := serve (mkRequest method (TrimPrefix url base) "" (default "" body)) in
  return_ (mkHttpResponse (rp_Status rp) (body_text local (rp_Content rp))).

Lemma run_server_Do method path body e w rp w' :
  run (serve (mkRequest method path "" (default "" body))) e w = (inr rp, w') →
  run (server_Do method (base +:+ path) body) e w = (inr (mkHttpResponse (rp_Status rp) (body_text local (rp_Content rp))), w').
Proof. intros Hr. unfold server_Do. by rewrite (proj2 (has_prefix_app base path)), run_bind, Hr. Qed.

End together.

Section client_server.
Context `{PostgresLaws} `{ErrorTexts}.
Context (local : Z → Z) (healthFn : proc dbw unit) (metrics : request → proc dbw response) (base : string).
Context (parse_layout : string → error + Z).

Abbreviation Do := (server_Do local (NewRouter healthFn metrics) base).

(** The router's answer to the request for a snapshot. *)
Lemma route_snapshot x e w snap w' : x ≠ "" →
  run (GetExecutionSnapshot x) e w = (inr snap, w') →
  ∃ rp, run (NewRouter healthFn metrics (mkRequest "GET" ("/api/executions/" +:+ x) "" "")) e w = (inr rp, w') ∧
    rp_Status rp = 200%Z ∧ rp_Content rp = Json (PSnapshot snap).
Proof.
  intros Hx%String.eqb_neq Hrun. unfold NewRouter, cors. cbn [rq_Method]. change (String.eqb "GET" "OPTIONS") with false. cbv iota.
  rewrite run_bind. unfold mux, ServeHTTP. cbn [rq_Path rt_execution].
  repeat match goal with |- context [String.eqb ("/api/executions/" +:+ x) ?s] =>
    change (String.eqb ("/api/executions/" +:+ x) s) with false end. cbv iota.
  rewrite (proj1 (has_prefix_app _ _)). unfold handleExecutionSnapshot, with_method. cbn [rq_Method rq_Path].
  change (String.eqb "GET" "OPTIONS") with false. change (negb (String.eqb "GET" "GET")) with false. cbv iota.
  rewrite (proj2 (has_prefix_app _ _)). cbv zeta. rewrite Hx, run_try. unfold service_GetExecutionSnapshot.
  rewrite Hrun. by eexists.
Qed.

(** C27: the whole way of a measurement.  When the execution exists and calls are
    answered, the snapshot that the client decodes from the server's bytes is the
    one the store read, without a change of the database; and the latency it
    reports is the difference of the two times in the database, in nanoseconds. *)
Theorem client_sees_database x u e w :
  reliable e → db_wf (w_db w) → fresh_ids e (w_tick w) (w_db w) → x ≠ "" → uuid_in x = inr u →
  is_Some (workflow_executions (w_db w) !! u) →
  ∃ snap w', run (GetExecutionSnapshot x) e w = (inr snap, w') ∧ w_db w' = w_db w ∧ snapshot_shows (w_db w) x snap ∧
    (printable_snapshot snap = true → is_Some (ExecutionSnapshot_json local snap) →
     run (getExecutionSnapshot Do base x) e w = (inr (view_of local snap), w') ∧
     ∀ t0 t1, we_StartedAt (es_Execution snap) = Some t0 → we_CompletedAt (es_Execution snap) = Some t1 →
       parseReportedLatency parse_layout (view_of local snap) = inr (time_Sub (t1 * 1000) (t0 * 1000))).
Proof.
  intros He Hwf Hf Hx Hu [row Hrow].
  destruct (run (GetExecutionSnapshot x) e w) as [[err | snap] w'] eqn:Hrun.
  { pose proof (snapshot_succeeds e w He Hwf Hf x) as Hs. rewrite Hrun in Hs. exfalso. discriminate Hs. exists u, row. by split_and!. }
  exists snap, w'. split; [done |]. destruct (snapshot_contents x e w snap w' Hwf Hrun) as [Hd Hshow].
  split; [done |]. split; [done |]. intros Hp [m Hm]. split.
  - destruct (route_snapshot x e w snap w' Hx Hrun) as (rp & Hr & Hst & Hc). unfold getExecutionSnapshot.
    rewrite run_bind, (run_server_Do local _ base "GET" _ None _ _ _ _ Hr). cbn [hr_StatusCode hr_Body]. rewrite Hst, Hc.
    change (negb (Z.eqb 200 200)) with false. cbv iota. unfold decode_answer. cbn [hr_Body body_text payload_marshalled].
    by rewrite Hm, (snapshot_read_back _ _ _ _ Hp Hm).
  - intros t0 t1 Hs0 Hs1. unfold parseReportedLatency, view_of. cbn [ev_StartedAt ev_CompletedAt]. rewrite Hs0, Hs1.
    destruct (execution_times _ _ _ Hm) as [Ht0 Ht1].
    destruct (Ht0 t0 Hs0) as [s0 E0]. destruct (Ht1 t1 Hs1) as [s1 E1].
    unfold time_text. rewrite E0, E1. change (default "" (Some s0)) with s0. change (default "" (Some s1)) with s1.
    rewrite (time_text_ne _ _ _ E0), (time_text_ne _ _ _ E1). cbn [orb guard_err rbind]. unfold time_Parse.
    by rewrite (RFC3339_roundtrip _ _ _ E0), (RFC3339_roundtrip _ _ _ E1).
Qed.

End client_server.
