(* ===== verification/BenchCommands.v ===== *)
(** The commands of the benchmark client against the API: a workflow that it
    created, an execution that it triggered and a task that it replayed are there. *)

From S2P Require Import Prelude GoString GoFloat GoStrconv GoJson GoUrl GoDecoder GoEncoder GoError Proc Domain DomainJson.
From S2P Require Import Db Pg Store Wf StoreSpec StoreSpec2 Progress Workflow Service HttpApi HttpSpec Bench BenchSpec BenchHttp.

Open Scope string_scope.

(** * Reading the answers *)

Definition printable_definition (d : WorkflowDefinition) : bool :=
  (forallb text_ok [wd_ID d; wd_Name d; wd_Description d; wd_Status d] && raw_ok raw_depth (wd_DefinitionJSON d))%bool.

Definition printable_start (r : ExecutionStartResult) : bool :=
  (printable_execution raw_depth (sr_Execution r) && printable_task raw_depth (sr_Task r))%bool.

Section answers.
Context (local : Z → Z).

(** A member with its value and its bytes. *)
Definition member_of (q : string * marshalled) : string * (json * bytes) := (q.1, (m_value q.2, m_bytes q.2)).

(** Reading the members of an object that the server wrote takes [s] to [s']. *)
Definition sets {S} (set : string → json → string → S → option S) (l : list (string * option marshalled)) (s s' : S)
    : Prop := ∀ r, fields l r → set_fields set (member_of <$> r) s = Some s'.

Lemma sets_nil {S} (set : string → json → string → S → option S) s : sets set [] s s.
Proof. by intros r ->%Forall2_nil_inv_l. Qed.

Lemma sets_cons {S} (set : string → json → string → S → option S) k o l s s1 s' :
  (∀ m, o = Some m → set k (m_value m) (of_bytes (m_bytes m)) s = Some s1) → sets set l s1 s' →
  sets set ((k, o) :: l) s s'.
Proof.
  intros Hk Hl r ([k' m] & r' & [Hk' Hm] & Hf & ->)%Forall2_cons_inv_l. cbn in Hk', Hm. subst k'.
  unfold set_fields. cbn [fmap list_fmap foldl mbind option_bind member_of fst snd]. rewrite (Hk m Hm). by apply Hl.
Qed.

Lemma Decode_answer {S} (set : string → json → string → S → option S) zero l m rest s' :
  m_object l = Some m →
  (∀ k o, (k, o) ∈ l → utf8_valid (to_bytes k) = true ∧ ∀ x, o = Some x → good (pred max_nesting) x) →
  sets set l zero s' → Decode set zero (of_bytes (m_bytes m ++ rest)%list) = Some s'.
Proof.
  intros (r & Hf & ->)%m_object_inv Hg Hs. rewrite <-(Hs r Hf). cbn [m_bytes].
  etransitivity; [| apply (Decode_object set zero (member_of <$> r) rest)].
  { rewrite <-list_fmap_compose. reflexivity. }
  apply Forall_fmap. clear Hs. induction Hf as [| [k o] [k' x] l r [Hk Ho] _ IH]; [by apply Forall_nil_2 |]. cbn in *. subst k' o.
  destruct (Hg k (Some x)) as [Hu Hx]; [by left |]. apply Forall_cons_2; [split; cbn; [done | by apply Hx] |].
  apply IH. intros k' o' Hin. apply Hg. by right.
Qed.

Lemma raw_room : (raw_depth ≤ pred max_nesting)%nat.
Proof. unfold raw_depth, max_nesting. lia. Qed.

Lemma created_read_back d m rest :
  printable_definition d = true → WorkflowDefinition_json local d = Some m →
  Decode set_created "" (of_bytes (m_bytes m ++ rest)%list) = Some (wd_ID d).
Proof.
  unfold printable_definition. cbn [forallb]. unfold text_ok. rewrite !andb_true_iff. intros [(? & ? & ? & ? & _) ?] Hm.
  pose proof raw_room. eapply Decode_answer; [exact Hm | each_field |].
  eapply sets_cons; [intros ? [= <-]; unfold set_created; eval_fields; reflexivity |]. cbn [m_value decode_string].
  do 7 (eapply sets_cons; [intros ? ?; unfold set_created; eval_fields; reflexivity |]). apply sets_nil.
Qed.

Lemma triggered_read_back r m rest :
  printable_start r = true → ExecutionStartResult_json local r = Some m →
  Decode set_triggered "" (of_bytes (m_bytes m ++ rest)%list) = Some (we_ID (sr_Execution r)).
Proof.
  unfold printable_start. intros [Hx Ht]%andb_true_iff Hm. eapply Decode_answer; [exact Hm | |].
  - destruct nesting_left as (d & -> & Hle). intros k o. rewrite !elem_of_cons, elem_of_nil.
    intros [[= -> ->] | [[= -> ->] | []]]; (split; [reflexivity |]); intros x Hj.
    + eapply (good_execution local raw_depth); [exact Hx | lia | exact Hj].
    + eapply (good_task local raw_depth); [exact Ht | lia | exact Hj].
  - apply (sets_cons _ _ _ _ _ (we_ID (sr_Execution r))).
    { intros mx Hmx. unfold set_triggered. eval_fields. cbv iota.
      destruct (decode_object set_triggered_execution _ _ "" Hmx) as [-> Hf]. revert Hf.
      change (decodes set_triggered_execution (WorkflowExecution_fields local (sr_Execution r)) "" (we_ID (sr_Execution r))).
      unfold WorkflowExecution_fields. cbn [app].
      eapply decodes_known; [intros ? [= <-]; unfold set_triggered_execution; eval_fields; reflexivity |].
      repeat one_field. rewrite <-(app_nil_r (unless_nil "completed_at" _ _)). one_field. apply decodes_nil. }
    eapply sets_cons; [intros ? ?; unfold set_triggered; eval_fields; reflexivity |]. apply sets_nil.
Qed.

End answers.

(** * The commands *)

Section commands.
Context `{PostgresLaws} `{ErrorTexts}.
Context (local : Z → Z) (healthFn : proc dbw unit) (metrics : request → proc dbw response) (base : string).

Abbreviation Do := (server_Do local (NewRouter healthFn metrics) base).

(** The effect of a command that returned [r]: it took place, and [says] of the
    result; after an error it may have taken place as a whole. *)
Definition took_effect {A B} (effect : A → db → Prop) (says : A → B → Prop) (d d' : db) (r : error + B) : Prop :=
  match r with
  | inr b => ∃ a, effect a d' ∧ says a b
  | inl _ => d' = d ∨ ∃ a, effect a d'
  end.

Section run.
Context (e : env) (w : dbw) (He : env_ok e) (Hwf : db_wf (w_db w)) (Hh : only_reads (w_db w) healthFn).

Lemma Do_answered method path body :
  path ≠ "/metrics" →
  ∃ rp w', run (Do method (base +:+ path) body) e w =
      (inr (mkHttpResponse (rp_Status rp) (body_text local (rp_Content rp))), w') ∧
    answered e (mkRequest method path "" (default "" body)) (w_db w) rp (w_db w').
Proof.
  intros Hp. set (r := mkRequest method path "" (default "" body)).
  destruct (cors_answers r (w_db w) (mux healthFn metrics) (mux_answers healthFn metrics r (w_db w) Hwf Hh Hp) e w He eq_refl)
    as (rp & w' & Hrun & Hans).
  exists rp, w'. split; [| exact Hans]. by apply run_server_Do.
Qed.

(** The effects that a request to a path can have. *)
Lemma effect_at_workflows r d p d' req : rq_Path r = "/api/workflows" →
  decode_createWorkflowRequest (rq_Body r) = Some req → api_effect r d p d' →
  ∃ res, p = PDefinition res ∧ definition_created req d res d'.
Proof. intros Hp Hreq He'. destruct He' as [req' res d' _ _ Hreq' Hc | | ]; [| congruence | by rewrite Hp in *]. exists res. split; congruence. Qed.

Lemma effect_at_executions r d p d' req : rq_Path r = "/api/executions" →
  decode_triggerExecutionRequest (rq_Body r) = Some req → api_effect r d p d' →
  ∃ res, p = PStarted res ∧ HttpSpec.triggered req d res d'.
Proof.
  intros Hp Hreq He'. destruct He' as [| req' did row spec task res d' _ _ Hreq' ? ? ? ? ? |]; [congruence | | by rewrite Hp in *].
  rewrite Hreq in Hreq'. injection Hreq' as <-. exists res. split; [done |]. by exists did, row, spec, task.
Qed.

Lemma effect_at_tasks r d p d' t : has_prefix "/api/tasks/" (rq_Path r) = true →
  parseTaskActionPath (rq_Path r) = Some (t, "replay") → api_effect r d p d' →
  ∃ res, p = PTask res ∧ task_replayed (TrimSpace t) d res d'.
Proof.
  intros Hp Ht He'. destruct He' as [req res d' _ Hpath | req did row spec task res d' _ Hpath | t' res d' _ _ Ht' Hr].
  - by rewrite Hpath in Hp.
  - by rewrite Hpath in Hp.
  - rewrite Ht in Ht'. injection Ht' as <-. by exists res.
Qed.

(** A request with one expected status, and then a reading of the answer, without
    calls, that [says] of the result. *)
Lemma command_effect {A B} method path body status (wrapper : A → payload) (effect : A → db → Prop) (says : A → B → Prop)
    f (k : http_response → proc dbw B) r w' :
  accepted status → path ≠ "/metrics" →
  (∀ p d', api_effect (mkRequest method path "" (default "" body)) (w_db w) p d' → ∃ a, p = wrapper a ∧ effect a d') →
  (∀ resp w0, ∃ r, run (k resp) e w0 = (r, w0)) →
  (∀ a b w0, run (k (mkHttpResponse status (body_text local (Json (wrapper a))))) e w0 = (inr b, w0) → says a b) →
  run (let! resp := Do method (base +:+ path) body in
       if negb (Z.eqb (hr_StatusCode resp) status) then fail (f resp) else k resp) e w = (r, w') →
  took_effect effect says (w_db w) (w_db w') r.
Proof.
  intros Hst Hpath Heff Hk Hsays. rewrite run_bind. destruct (Do_answered method path body Hpath) as (rp & w1 & Hrun & Hans).
  rewrite Hrun. cbn [hr_StatusCode]. unfold answered in Hans. destruct (Z.eqb_spec (rp_Status rp) status) as [Heq | Hne]; cbn [negb].
  - rewrite Heq, decide_True in * by done. destruct Hans as (p & Hc & (a & -> & Ha)%Heff). rewrite Hc.
    set (resp := mkHttpResponse status _). destruct (Hk resp w1) as [r1 Hr1]. rewrite Hr1. intros [= <- <-].
    destruct r1 as [err | b]; [right; by exists a |]. exists a. split; [done |]. by apply (Hsays a b w1).
  - intros [= <- <-]. case_decide; [right | destruct Hans as [[-> | (p & (a & _ & Ha)%Heff)] _]; [by left | right; by exists a]].
    destruct Hans as (p & _ & (a & _ & Ha)%Heff). by exists a.
Qed.

(** Reading an id from an answer. *)
Lemma read_id set zero missing resp (w0 : dbw) :
  ∃ r, run (let! id := lift_res (decode_answer set zero resp) in
            if blank id then fail missing else return_ id : proc dbw string) e w0 = (r, w0).
Proof.
  rewrite run_bind. cbn [run lift_res]. destruct (decode_answer set zero resp) as [err | id]; [by eexists |].
  destruct (blank id); by eexists.
Qed.

Lemma id_read {A} (json_of : A → option marshalled) (printable : A → bool) (id_of : A → string) set missing a b status (w0 : dbw) text :
  (∀ m rest, printable a = true → json_of a = Some m → Decode set "" (of_bytes (m_bytes m ++ rest)%list) = Some (id_of a)) →
  Decode set "" "" = None →
  text = match json_of a with Some m => of_bytes (m_bytes m ++ [chr 10])%list | None => "" end →
  run (let! id := lift_res (decode_answer set "" (mkHttpResponse status text)) in
       if blank id then fail missing else return_ id) e w0 = (inr b, w0) →
  printable a = true → b = id_of a.
Proof.
  intros Hread Hnone Ht Hrun Hp. rewrite run_bind in Hrun. cbn [run lift_res] in Hrun. unfold decode_answer in Hrun.
  cbn [hr_Body] in Hrun. destruct (json_of a) as [m |] eqn:Hm; subst text; [| by rewrite Hnone in Hrun].
  rewrite (Hread m _ Hp eq_refl) in Hrun. destruct (blank (id_of a)); [done |]. by injection Hrun.
Qed.

Lemma create_effect name description v r w' :
  utf8_valid (to_bytes name) = true → utf8_valid (to_bytes description) = true → encodable v = true →
  (jdepth v < max_nesting)%nat →
  run (createWorkflow Do base name description v) e w = (r, w') →
  took_effect (definition_created (mkCreateRequest name description (of_bytes (encode v))) (w_db w))
    (λ res id, printable_definition res = true → id = wd_ID res) (w_db w) (w_db w') r.
Proof.
  intros Hn Hd Hv Hdepth. apply (command_effect "POST" "/api/workflows" (Some _) 201 PDefinition); [by left | done | | |].
  - intros p d'. apply effect_at_workflows; [done |].
    destruct (requests_read_back name description "" v "" Hn Hd eq_refl Hv Hdepth) as [Hreq _]. by rewrite append_nil in Hreq.
  - intros resp w0. apply read_id.
  - intros res id w0. eapply (id_read (WorkflowDefinition_json local)); [| done | reflexivity].
    intros m rest. apply created_read_back.
Qed.

Lemma trigger_effect workflowID v r w' :
  utf8_valid (to_bytes workflowID) = true → encodable v = true → (jdepth v < max_nesting)%nat →
  run (trigger_execution Do base workflowID v) e w = (r, w') →
  took_effect (HttpSpec.triggered (mkTriggerRequest workflowID (of_bytes (encode v))) (w_db w))
    (λ res id, printable_start res = true → id = we_ID (sr_Execution res)) (w_db w) (w_db w') r.
Proof.
  intros Hw Hv Hdepth. apply (command_effect "POST" "/api/executions" (Some _) 202 PStarted); [by right | done | | |].
  - intros p d'. apply effect_at_executions; [done |].
    destruct (requests_read_back "" "" workflowID v "" eq_refl eq_refl Hw Hv Hdepth) as [_ Hreq]. by rewrite append_nil in Hreq.
  - intros resp w0. apply read_id.
  - intros res id w0. eapply (id_read (ExecutionStartResult_json local) printable_start (λ res, we_ID (sr_Execution res))); [| done | reflexivity].
    intros m rest. apply triggered_read_back.
Qed.

Lemma replay_effect t r w' :
  parseTaskActionPath ("/api/tasks/" +:+ t +:+ "/replay") = Some (t, "replay") →
  run (replayTask Do base t) e w = (r, w') →
  took_effect (task_replayed (TrimSpace t) (w_db w)) (λ _ _, True) (w_db w) (w_db w') r.
Proof.
  intros Ht. apply (command_effect "POST" ("/api/tasks/" +:+ t +:+ "/replay") None 202 PTask); [by right | done | | |].
  - intros p d'. apply effect_at_tasks; [apply (has_prefix_app "/api/tasks/") | done].
  - intros resp w0. by eexists.
  - done.
Qed.


End run.
End commands.
