(* ===== verification/BenchRun.v ===== *)
(** runBenchmark of cmd/bench/main.go: the goroutine that starts the executions and
    the goroutines that run them, as a machine of their steps.

    The machine is run by a sequence of actions, one for each step of a goroutine,
    in any order the scheduler may choose.  What runExecution returns to a
    goroutine is part of the action: it depends on the server, and on the requests
    of the other goroutines. *)

From S2P Require Import Prelude GoString GoFloat GoJson GoError Proc Bench.

(** * The machine *)

(** Where a goroutine is: in runExecution, before its deferred receive from [sem],
    before its deferred [wg.Done], or gone. *)
Inductive phase : Type := Executing | Releasing | Leaving | Gone.

(** Where runBenchmark is: before [wg.Add], before the send to [sem], before the
    go statement of the [i]-th round, in [wg.Wait], or past its return. *)
Inductive main_pc : Type :=
| Adding (i : nat)
| Sending (i : nat)
| Starting (i : nat)
| Waiting
| Returned (result : error + list executionRun).

Record bench_state : Type := mkBenchState {
  bs_main : main_pc;
  bs_wg : nat;                       (* the counter of the WaitGroup *)
  bs_sem : nat;                      (* the elements in the channel *)
  bs_runErr : option error;          (* runErr; errOnce has been used when it is set *)
  bs_results : list executionRun;
  bs_goroutines : list phase;        (* in the order they were started *)
}.

Inductive action : Type :=
| MainStep
| Return (index : nat) (result : error + executionRun)
| Release (index : nat)
| Leave (index : nat).

Definition zero_run : executionRun := mkExecutionRun "" "" 0 0 0 0.

Section machine.
Context (executions concurrency : nat).

(** [for i := range inputs]. *)
Definition next_round (i : nat) : main_pc := if decide (i < executions)%nat then Adding i else Waiting.

Definition bench_start : bench_state :=
  mkBenchState (next_round 0) 0 0 None (replicate executions zero_run) [].

Definition main_step (s : bench_state) : option bench_state :=
  let 'mkBenchState main wg sem runErr results gs := s in
  match main with
  | Adding i => Some (mkBenchState (Sending i) (S wg) sem runErr results gs)
  | Sending i =>
      if decide (sem < concurrency)%nat then Some (mkBenchState (Starting i) wg (S sem) runErr results gs) else None
  | Starting i => Some (mkBenchState (next_round (S i)) wg sem runErr results (gs ++ [Executing])%list)
  | Waiting =>
      match wg with
      | O => Some (mkBenchState (Returned (match runErr with Some err => inl err | None => inr results end))
                     wg sem runErr results gs)
      | S _ => None
      end
  | Returned _ => None
  end.

(** What a goroutine does with the result: [errOnce.Do] keeps the first error. *)
Definition store_result (index : nat) (r : error + executionRun) (runErr : option error) (results : list executionRun)
    : option error * list executionRun :=
  match r with
  | inl err => (Some (default err runErr), results)
  | inr run => (runErr, <[index := run]> results)
  end.

Definition bench_step (s : bench_state) (a : action) : option bench_state :=
  let 'mkBenchState main wg sem runErr results gs := s in
  match a with
  | MainStep => main_step s
  | Return i r =>
      match gs !! i with
      | Some Executing =>
          let '(runErr', results') := store_result i r runErr results in
          Some (mkBenchState main wg sem runErr' results' (<[i := Releasing]> gs))
      | _ => None
      end
  | Release i =>
      match gs !! i, sem with
      | Some Releasing, S sem' => Some (mkBenchState main wg sem' runErr results (<[i := Leaving]> gs))
      | _, _ => None
      end
  | Leave i =>
      match gs !! i, wg with
      | Some Leaving, S wg' => Some (mkBenchState main wg' sem runErr results (<[i := Gone]> gs))
      | _, _ => None
      end
  end.

Fixpoint bench_run (s : bench_state) (l : list action) : option bench_state :=
  match l with
  | [] => Some s
  | a :: l' => s' ← bench_step s a; bench_run s' l'
  end.

End machine.

(** What runExecution returned, in the order of the returns. *)
Definition outcome (a : action) : option (nat * (error + executionRun)) :=
  match a with Return i r => Some (i, r) | _ => None end.
Definition outcomes (l : list action) : list (nat * (error + executionRun)) := omap outcome l.

(** The error that was returned first. *)
Definition first_error (l : list (nat * (error + executionRun))) : option error :=
  head (omap (λ p, match p.2 with inl err => Some err | inr _ => None end) l).

(** What runBenchmark returns, from the result of the machine. *)
Definition runBenchmark_result (cfg : benchmarkConfig) (overallElapsed : Z) (res : error + list executionRun)
    : error + benchmarkResult :=
  let? results := res in
  inr (benchmark_result cfg overallElapsed results).

(** The inputs, made before the goroutines are started; [requested_at i] is the
    time of the [i]-th. *)
Definition inputs (cfg : benchmarkConfig) (requested_at : nat → string) : list json :=
  (λ i, execution_input (cf_Input cfg) (cf_Scenario cfg) (requested_at i) (Z.of_nat i)) <$>
    seq 0 (Z.to_nat (cf_Executions cfg)).

(** How many goroutines are inside runExecution. *)
Definition is_executing (p : phase) : bool := match p with Executing => true | _ => false end.
Definition executing (s : bench_state) : nat := sum_list (Nat.b2n ∘ is_executing <$> bs_goroutines s).

(** * Lemmas: sums over the goroutines *)

Definition total (f : phase → nat) (gs : list phase) : nat := sum_list (f <$> gs).

#[local] Arguments total : simpl never.

Lemma total_cons f p gs : total f (p :: gs) = (f p + total f gs)%nat.
Proof. done. Qed.

Lemma total_snoc f gs p : total f (gs ++ [p]) = (total f gs + f p)%nat.
Proof.
  induction gs as [| x gs IH]; [unfold total; cbn; lia |]. cbn [app]. rewrite !total_cons, IH. lia.
Qed.

Lemma total_insert f gs i p q : gs !! i = Some p → (total f (<[i := q]> gs) + f p = total f gs + f q)%nat.
Proof.
  revert i. induction gs as [| x gs IH]; intros i Hi; [done |]. destruct i as [| i].
  - injection Hi as ->. change (<[0%nat := q]> (p :: gs)) with (q :: gs). rewrite !total_cons. lia.
  - change (<[S i := q]> (x :: gs)) with (x :: <[i := q]> gs). rewrite !total_cons. specialize (IH i Hi). lia.
Qed.

Lemma total_pos f gs : total f gs ≠ 0%nat → ∃ i p, gs !! i = Some p ∧ f p ≠ 0%nat.
Proof.
  induction gs as [| x gs IH]; [done |]. rewrite total_cons. intros Ht.
  destruct (decide (f x = 0%nat)) as [Hx |]; [| by exists 0%nat, x].
  destruct IH as (i & p & ? & ?); [lia |]. by exists (S i), p.
Qed.

Lemma total_le f g gs : (∀ p, (f p ≤ g p)%nat) → (total f gs ≤ total g gs)%nat.
Proof. intros Hfg. induction gs as [| p gs IH]; [done |]. rewrite !total_cons. specialize (Hfg p). lia. Qed.

Lemma total_lookup f gs i p : gs !! i = Some p → (f p ≤ total f gs)%nat.
Proof.
  revert i. induction gs as [| x gs IH]; intros [| i] Hi; [done | done | |]; rewrite total_cons.
  - injection Hi as ->. lia.
  - specialize (IH i Hi). lia.
Qed.

(** The goroutines that hold an element of the channel, and those the WaitGroup
    counts. *)
Definition in_sem (p : phase) : nat := match p with Executing | Releasing => 1 | _ => 0 end.
Definition in_wg (p : phase) : nat := match p with Gone => 0 | _ => 1 end.

(** The steps that have been made. *)
Definition phase_steps (p : phase) : nat := match p with Executing => 0 | Releasing => 1 | Leaving => 2 | Gone => 3 end.
Definition main_steps (executions : nat) (m : main_pc) : nat :=
  match m with
  | Adding i => 3 * i
  | Sending i => 3 * i + 1
  | Starting i => 3 * i + 2
  | Waiting => 3 * executions
  | Returned _ => 3 * executions + 1
  end.

Lemma steps_left gs : (total phase_steps gs ≤ 3 * length gs)%nat ∧
  (total in_wg gs = 0%nat → total phase_steps gs = (3 * length gs)%nat).
Proof.
  induction gs as [| p gs [IH1 IH2]]; [done |]. rewrite !total_cons. cbn [length].
  destruct p; cbn; split; lia || (intros; rewrite IH2; lia).
Qed.

(** * The invariant *)

Section invariant.
Context (executions concurrency : nat).

Definition main_inv (s : bench_state) : Prop :=
  let n := length (bs_goroutines s) in
  match bs_main s with
  | Adding i | Sending i | Starting i => n = i ∧ (i < executions)%nat
  | Waiting => n = executions
  | Returned r => n = executions ∧ bs_wg s = 0%nat ∧
      r = match bs_runErr s with Some err => inl err | None => inr (bs_results s) end
  end.

Definition sent (m : main_pc) : nat := match m with Starting _ => 1 | _ => 0 end.
Definition added (m : main_pc) : nat := match m with Sending _ | Starting _ => 1 | _ => 0 end.

Record bench_inv (l : list action) (s : bench_state) : Prop := {
  bi_main : main_inv s;
  bi_sem : bs_sem s = (total in_sem (bs_goroutines s) + sent (bs_main s))%nat;
  bi_capacity : (bs_sem s ≤ concurrency)%nat;
  bi_wg : bs_wg s = (total in_wg (bs_goroutines s) + added (bs_main s))%nat;
  bi_once : NoDup (outcomes l).*1;
  bi_answered : ∀ i, i ∈ (outcomes l).*1 ↔ ∃ p, bs_goroutines s !! i = Some p ∧ p ≠ Executing;
  bi_runErr : bs_runErr s = first_error (outcomes l);
  bi_length : length (bs_results s) = executions;
  bi_results : ∀ i run, (i, inr run) ∈ outcomes l → bs_results s !! i = Some run;
  bi_steps : length l = (main_steps executions (bs_main s) + total phase_steps (bs_goroutines s))%nat;
}.

Lemma outcomes_snoc l a : outcomes (l ++ [a]) = (outcomes l ++ outcomes [a])%list.
Proof. apply omap_app. Qed.

Lemma first_error_snoc l p : first_error (l ++ [p]) =
  match p.2 with inl err => Some (default err (first_error l)) | inr _ => first_error l end.
Proof.
  unfold first_error. rewrite omap_app. destruct p as [i [err | run]]; cbn.
  - by destruct (omap _ l).
  - by rewrite app_nil_r.
Qed.

Lemma bench_inv_start : bench_inv [] (bench_start executions).
Proof.
  split; cbn; try done.
  - unfold main_inv. cbn. unfold next_round. case_decide; [by split |]. cbn. lia.
  - unfold next_round. by case_decide.
  - lia.
  - unfold next_round. by case_decide.
  - constructor.
  - intros i. rewrite elem_of_nil. split; [done | by intros (p & ? & _)].
  - apply length_replicate.
  - intros i run. by rewrite elem_of_nil.
  - unfold next_round. case_decide; unfold total; cbn; lia.
Qed.

Lemma main_step_inv l s s' :
  bench_inv l s → bench_step executions concurrency s MainStep = Some s' → bench_inv (l ++ [MainStep]) s'.
Proof.
  destruct s as [main wg sem runErr results gs].
  intros [Hmain Hsem Hcap Hwg Honce Hans Herr Hlen Hres Hsteps]. cbn in *. unfold main_inv in Hmain. cbn in Hmain.
  intros Hs. assert (Ho : outcomes (l ++ [MainStep]) = outcomes l) by (rewrite outcomes_snoc; apply app_nil_r).
  assert (Hl : length (l ++ [MainStep]) = S (length l)) by (rewrite length_app; cbn; lia).
  destruct main as [i | i | i | | r]; cbn in *.
  - injection Hs as <-. split; rewrite ?Ho, ?Hl; cbn in *; try done; lia.
  - case_decide; [| done]. injection Hs as <-. split; rewrite ?Ho, ?Hl; cbn in *; try done; lia.
  - injection Hs as <-. destruct Hmain as [Hgs Hi].
    assert (Hnext : main_steps executions (next_round executions (S i)) = (3 * S i)%nat ∧
      sent (next_round executions (S i)) = 0%nat ∧ added (next_round executions (S i)) = 0%nat).
    { unfold next_round. case_decide; cbn; lia. }
    destruct Hnext as (Hn1 & Hn2 & Hn3).
    split; rewrite ?Ho, ?Hl; cbn in *; rewrite ?total_snoc, ?Hn1, ?Hn2, ?Hn3; cbn; try done; try lia.
    + unfold main_inv, next_round. cbn. rewrite length_app. cbn. case_decide; cbn; lia.
    + intros j. rewrite Hans. split; intros (p & Hp & Hne); exists p; (split; [| done]).
      * by apply lookup_app_l_Some.
      * apply lookup_app_Some in Hp as [? | [_ Hp]]; [done |]. by apply list_lookup_singleton_Some in Hp as [_ <-].
  - destruct wg as [| wg]; [| done]. injection Hs as <-.
    split; rewrite ?Ho, ?Hl; cbn in *; try done; lia.
  - done.
Qed.

(** A goroutine that goes on from [p] to [q]. *)
Lemma phase_moves gs i p q : gs !! i = Some p → phase_steps q = S (phase_steps p) →
  total phase_steps (<[i := q]> gs) = S (total phase_steps gs) ∧ length (<[i := q]> gs) = length gs ∧
  ∀ j, (∃ p', <[i := q]> gs !! j = Some p' ∧ p' ≠ Executing) ↔ j = i ∨ ∃ p', gs !! j = Some p' ∧ p' ≠ Executing.
Proof.
  intros Hi Hq. pose proof (total_insert phase_steps _ _ _ q Hi) as Ht. split; [lia |]. split; [apply length_insert |].
  assert (Hne : q ≠ Executing) by (by intros ->).
  intros j. destruct (decide (j = i)) as [-> | Hj].
  - rewrite list_lookup_insert_eq by (by eapply lookup_lt_Some). split; [by left |]. intros _. by exists q.
  - rewrite list_lookup_insert_ne by done. naive_solver.
Qed.

Lemma first_error_stored i r l results :
  (store_result i r (first_error l) results).1 = first_error (l ++ [(i, r)]).
Proof. rewrite first_error_snoc. by destruct r. Qed.

Lemma results_stored i r runErr l results : ((i, r).1 < length results)%nat → i ∉ l.*1 →
  (∀ j run, (j, inr run) ∈ l → results !! j = Some run) →
  length (store_result i r runErr results).2 = length results ∧
  ∀ j run, (j, inr run) ∈ (l ++ [(i, r)])%list → (store_result i r runErr results).2 !! j = Some run.
Proof.
  cbn. intros Hi Hnew Hres. split; [destruct r; cbn; by rewrite ?length_insert |].
  intros j run. rewrite elem_of_app, list_elem_of_singleton. intros [Hj | [= -> <-]].
  - specialize (Hres _ _ Hj) as Hr. destruct r as [err | run']; cbn; [done |].
    rewrite list_lookup_insert_ne; [done |]. intros <-. apply Hnew, list_elem_of_fmap. by exists (i, inr run).
  - cbn. by apply list_lookup_insert_eq.
Qed.

Lemma main_inv_started m wg sem e rs gs gs' wg' sem' e' rs' : length gs' = length gs → wg ≠ 0%nat →
  main_inv (mkBenchState m wg sem e rs gs) → main_inv (mkBenchState m wg' sem' e' rs' gs').
Proof. unfold main_inv. cbn. intros -> Hwg. destruct m; try done. by intros (_ & ? & _). Qed.

Lemma goroutine_started m wg sem e rs gs i p : main_inv (mkBenchState m wg sem e rs gs) → gs !! i = Some p →
  (i < executions)%nat.
Proof.
  unfold main_inv. cbn. intros Hm Hi%lookup_lt_Some. destruct m; lia.
Qed.

Lemma return_inv l s i r s' :
  bench_inv l s → bench_step executions concurrency s (Return i r) = Some s' → bench_inv (l ++ [Return i r]) s'.
Proof.
  destruct s as [main wg sem runErr results gs].
  intros [Hmain Hsem Hcap Hwg Honce Hans Herr Hlen Hres Hsteps]. cbn in *.
  destruct (gs !! i) as [[] |] eqn:Hi; try done. destruct (store_result _ _ _ _) as [runErr' results'] eqn:Hst.
  intros [= <-]. destruct (phase_moves gs i Executing Releasing Hi eq_refl) as (Hn & Hlg & Hph).
  pose proof (total_insert in_sem _ _ _ Releasing Hi). pose proof (total_insert in_wg _ _ _ Releasing Hi).
  assert (Hwg0 : wg ≠ 0%nat) by (pose proof (total_lookup in_wg _ _ _ Hi); cbn in *; lia).
  assert (Hnew : i ∉ (outcomes l).*1) by (rewrite Hans, Hi; naive_solver).
  destruct (results_stored i r runErr (outcomes l) results) as [Hl' Hr']; [cbn; rewrite Hlen; by eapply goroutine_started | done | done |].
  rewrite Hst in Hl', Hr'. cbn in *.
  split; cbn; rewrite ?outcomes_snoc; cbn.
  - by eapply main_inv_started.
  - lia.
  - done.
  - lia.
  - rewrite fmap_app. apply list.NoDup_app. split; [done |]. split; [| apply NoDup_singleton]. cbn. set_solver.
  - intros j. rewrite fmap_app, elem_of_app, Hph, Hans. cbn. rewrite list_elem_of_singleton. tauto.
  - rewrite <-first_error_stored with (results := results), <-Herr, Hst. done.
  - by rewrite Hl'.
  - exact Hr'.
  - rewrite length_app, Hn. cbn. lia.
Qed.

(** The deferred calls. *)
Lemma deferred_inv l s a s' : (∃ i, a = Release i ∨ a = Leave i) →
  bench_inv l s → bench_step executions concurrency s a = Some s' → bench_inv (l ++ [a]) s'.
Proof.
  destruct s as [main wg sem runErr results gs].
  intros (i & Ha) [Hmain Hsem Hcap Hwg Honce Hans Herr Hlen Hres Hsteps] Hs. cbn in *.
  assert (∃ p q wg' sem', s' = mkBenchState main wg' sem' runErr results (<[i := q]> gs) ∧ gs !! i = Some p ∧
    p ≠ Executing ∧ phase_steps q = S (phase_steps p) ∧ (sem' + in_sem p = sem + in_sem q)%nat ∧ (wg' + in_wg p = wg + in_wg q)%nat)
    as (p & q & wg' & sem' & -> & Hi & Hp & Hq & Hsem' & Hwg').
  { destruct Ha as [-> | ->]; cbn in Hs; destruct (gs !! i) as [[] |] eqn:Hi; try done.
    - destruct sem; [done |]. injection Hs as <-. exists Releasing, Leaving, wg, sem. cbn. split_and!; done || lia.
    - destruct wg; [done |]. injection Hs as <-. exists Leaving, Gone, wg, sem. cbn. split_and!; done || lia. }
  destruct (phase_moves gs i p q Hi Hq) as (Hn & Hlg & Hph).
  pose proof (total_insert in_sem _ _ _ q Hi). pose proof (total_insert in_wg _ _ _ q Hi).
  assert (Hwg0 : wg ≠ 0%nat) by (pose proof (total_lookup in_wg _ _ _ Hi); destruct p, q; cbn in *; lia).
  assert (Hsemq : (in_sem q ≤ in_sem p)%nat) by (destruct p, q; cbn in *; lia).
  assert (Ho : outcomes (l ++ [a]) = outcomes l) by (rewrite outcomes_snoc; destruct Ha as [-> | ->]; apply app_nil_r).
  split; cbn; rewrite ?Ho; try done; try lia.
  - by eapply main_inv_started.
  - intros j. rewrite Hph, Hans. split; [by right | intros [-> |]; [by exists p | done]].
  - rewrite length_app, Hn. cbn. lia.
Qed.

Lemma bench_step_inv l s a s' :
  bench_inv l s → bench_step executions concurrency s a = Some s' → bench_inv (l ++ [a]) s'.
Proof. destruct a; [apply main_step_inv | apply return_inv | apply deferred_inv | apply deferred_inv]; eauto. Qed.

Lemma bench_run_inv l s k s' :
  bench_inv l s → bench_run executions concurrency s k = Some s' → bench_inv (l ++ k) s'.
Proof.
  revert l s. induction k as [| a k IH]; intros l s Hinv; cbn; [intros [= <-]; by rewrite app_nil_r |].
  destruct (bench_step _ _ s a) as [s1 |] eqn:Hs; [| done]. cbn. intros Hk.
  rewrite (app_assoc l [a] k : (l ++ a :: k)%list = _). eapply IH; [| exact Hk]. by eapply bench_step_inv.
Qed.

Lemma bench_reach_inv l s : bench_run executions concurrency (bench_start executions) l = Some s → bench_inv l s.
Proof. intros Hr. apply (bench_run_inv [] _ _ _ bench_inv_start Hr). Qed.

End invariant.

(** * Theorems *)

Section theorems.
Context (executions concurrency : nat).

Abbreviation step := (bench_step executions concurrency).
Abbreviation run := (bench_run executions concurrency).
Abbreviation start := (bench_start executions).

Lemma run_app s l k : run s (l ++ k) = s' ← run s l; run s' k.
Proof. revert s. induction l as [| a l IH]; intros s; cbn; [done |]. destruct (step s a); cbn; [apply IH | done]. Qed.

Lemma all_gone s l res : bench_inv executions concurrency l s → bs_main s = Returned res →
  (∀ i, i < executions → bs_goroutines s !! i = Some Gone)%nat ∧ length l = (6 * executions + 1)%nat.
Proof.
  intros Hinv Hres. pose proof (bi_main _ _ _ _ Hinv) as Hm. pose proof (bi_wg _ _ _ _ Hinv) as Hwg.
  pose proof (bi_steps _ _ _ _ Hinv) as Hst. unfold main_inv in Hm. rewrite Hres in *. cbn in *.
  destruct Hm as (Hn & Hw & _). split.
  - intros i Hi. rewrite <-Hn in Hi. apply lookup_lt_is_Some_2 in Hi as [p Hp].
    pose proof (total_lookup in_wg _ _ _ Hp). destruct p; cbn in *; done || lia.
  - destruct (steps_left (bs_goroutines s)) as [_ Hs]. rewrite Hst, Hs; lia.
Qed.

(** Some goroutine can make a step, until the function has returned. *)
Lemma bench_progress answers s l : (0 < concurrency)%nat → bench_inv executions concurrency l s →
  (∃ res, bs_main s = Returned res) ∨ ∃ a s', step s a = Some s' ∧ ∀ i r, a = Return i r → r = answers i.
Proof.
  destruct s as [main wg sem runErr results gs]. intros Hc [Hmain Hsem Hcap Hwg _ _ _ _ _ _]. cbn in *.
  destruct (decide (total in_wg gs = 0%nat)) as [H0 | H0].
  - assert (total in_sem gs ≤ total in_wg gs)%nat by (apply total_le; intros []; cbn; lia).
    assert (∀ m s', main = m → step (mkBenchState m wg sem runErr results gs) MainStep = Some s' →
      (∃ res, main = Returned res) ∨ ∃ a s', step (mkBenchState main wg sem runErr results gs) a = Some s' ∧
        ∀ i r, a = Return i r → r = answers i) as Hgo by (intros m s' -> ?; right; by exists MainStep, s').
    destruct main as [i | i | i | | res]; cbn in Hsem, Hwg.
    + by eapply Hgo.
    + eapply Hgo; [done |]. cbn. by rewrite decide_True by lia.
    + by eapply Hgo.
    + eapply Hgo; [done |]. cbn. by replace wg with 0%nat by lia.
    + left. by exists res.
  - right. apply total_pos in H0 as (i & p & Hi & Hp).
    pose proof (total_lookup in_sem _ _ _ Hi). pose proof (total_lookup in_wg _ _ _ Hi).
    destruct p; cbn in *; [| | | done].
    + exists (Return i (answers i)). cbn. rewrite Hi. destruct (store_result _ _ _ _). eexists. split; [done |].
      by intros ? ? [= <- <-].
    + exists (Release i). cbn. rewrite Hi. destruct sem; [lia |]. by eexists.
    + exists (Leave i). cbn. rewrite Hi. destruct wg; [lia |]. by eexists.
Qed.

Lemma bench_finishes answers n s l : (0 < concurrency)%nat → bench_inv executions concurrency l s →
  (6 * executions + 1 ≤ length l + n)%nat →
  ∃ k s' res, run s k = Some s' ∧ bs_main s' = Returned res ∧ ∀ i r, Return i r ∈ k → r = answers i.
Proof.
  intros Hc. revert s l. induction n as [| n IH]; intros s l Hinv Hn;
    destruct (bench_progress answers s l Hc Hinv) as [[res Hres] | (a & s1 & Hs & Ha)].
  - exists [], s, res. split_and!; [done | done |]. intros i r. by rewrite elem_of_nil.
  - exfalso. pose proof (bench_step_inv _ _ _ _ _ _ Hinv Hs) as Hinv1.
    pose proof (bi_steps _ _ _ _ Hinv1) as Hst. pose proof (proj1 (steps_left (bs_goroutines s1))).
    pose proof (bi_main _ _ _ _ Hinv1) as Hm. unfold main_inv in Hm. rewrite length_app in Hst. cbn in Hst.
    destruct (bs_main s1); cbn in *; lia.
  - exists [], s, res. split_and!; [done | done |]. intros i r. by rewrite elem_of_nil.
  - destruct (IH s1 (l ++ [a])%list) as (k & s' & res & Hk & Hres & Hans).
    { by eapply bench_step_inv. } { rewrite length_app. cbn. lia. }
    exists (a :: k), s', res. cbn. rewrite Hs. split_and!; [done | done |].
    intros i r. rewrite elem_of_cons. intros [He | ?]; [by eapply Ha | by apply Hans].
Qed.

Lemma executing_le l s : bench_inv executions concurrency l s → (executing s ≤ concurrency)%nat.
Proof.
  intros Hinv. pose proof (bi_sem _ _ _ _ Hinv). pose proof (bi_capacity _ _ _ _ Hinv).
  etrans; [apply (total_le (Nat.b2n ∘ is_executing) in_sem); intros []; cbn; lia | lia].
Qed.

(** Whatever the scheduler does, at most [concurrency] executions run at the
    same time and [6 * executions + 1] steps are made; and while runBenchmark has
    not returned, the goroutines can go on until it has, whatever the executions
    return. *)
Theorem benchmark_terminates answers l s :
  (0 < concurrency)%nat → run start l = Some s →
  (executing s ≤ concurrency)%nat ∧ (length l ≤ 6 * executions + 1)%nat ∧
  ∃ k s' res, run s k = Some s' ∧ bs_main s' = Returned res ∧ length (l ++ k) = (6 * executions + 1)%nat ∧
    ∀ i r, Return i r ∈ k → r = answers i.
Proof.
  intros Hc Hr. pose proof (bench_reach_inv _ _ _ _ Hr) as Hinv.
  destruct (bench_finishes answers (6 * executions + 1) s l Hc Hinv) as (k & s' & res & Hk & Hres & Hans); [lia |].
  assert (Hl : length (l ++ k) = (6 * executions + 1)%nat) by (eapply all_gone; [by eapply bench_run_inv | done]).
  split; [by eapply executing_le | split; [rewrite length_app in Hl; lia | by exists k, s', res]].
Qed.

(** C30: when runBenchmark returns, every execution has run exactly once, and the
    result is that of the executions alone: the error that came first, or the
    list of the runs, each at its index. *)
Theorem benchmark_collects l s res :
  run start l = Some s → bs_main s = Returned res →
  (outcomes l).*1 ≡ₚ seq 0 executions ∧
  match first_error (outcomes l) with
  | Some err => res = inl err
  | None => ∃ runs, res = inr runs ∧ length runs = executions ∧
      ∀ i run, runs !! i = Some run ↔ (i, inr run) ∈ outcomes l
  end.
Proof.
  intros Hr Hres. pose proof (bench_reach_inv _ _ _ _ Hr) as Hinv. destruct (all_gone _ _ _ Hinv Hres) as [Hgone _].
  pose proof (bi_main _ _ _ _ Hinv) as Hm. unfold main_inv in Hm. rewrite Hres in Hm. destruct Hm as (Hn & _ & Hm).
  assert (Hall : ∀ i, i ∈ (outcomes l).*1 ↔ (i < executions)%nat).
  { intros i. rewrite (bi_answered _ _ _ _ Hinv). split.
    - intros (p & Hp%lookup_lt_Some & _). lia.
    - intros Hi. exists Gone. auto. }
  split.
  { apply NoDup_Permutation; [apply (bi_once _ _ _ _ Hinv) | apply NoDup_seq |]. intros i. rewrite Hall, elem_of_seq. lia. }
  rewrite (bi_runErr _ _ _ _ Hinv) in Hm. destruct (first_error (outcomes l)) as [err |] eqn:He; [done |].
  exists (bs_results s). split; [done |]. split; [apply (bi_length _ _ _ _ Hinv) |]. intros i r. split.
  - intros Hi. assert (Hin : i ∈ (outcomes l).*1).
    { apply Hall. rewrite <-(bi_length _ _ _ _ Hinv). by eapply lookup_lt_Some. }
    apply list_elem_of_fmap in Hin as ([j [err | r']] & -> & Hj); cbn in *.
    + exfalso. revert He. unfold first_error. apply list_elem_of_lookup in Hj as [k Hk].
      destruct (omap _ _) as [| e es] eqn:Eo; [| done]. intros _.
      assert (Hin : err ∈ ([] : list error)); [| by apply elem_of_nil in Hin].
      rewrite <-Eo. apply list_elem_of_omap. exists (j, inl err). split; [by eapply list_elem_of_lookup_2 | done].
    + rewrite (bi_results _ _ _ _ Hinv j r' Hj) in Hi. by injection Hi as ->.
  - apply (bi_results _ _ _ _ Hinv).
Qed.

End theorems.

(** * Examples: three executions, two at a time; the last to start fails *)

Definition demo_run (i : nat) : executionRun := mkExecutionRun "x" "succeeded" (Z.of_nat i) 1 1 1.
Definition demo_answers (i : nat) : error + executionRun :=
  if decide (i = 2) then inl (ErrNew "timeout") else inr (demo_run i).

Definition demo_actions : list action :=
  [MainStep; MainStep; MainStep; MainStep; MainStep; MainStep; MainStep;
   Return 1 (demo_answers 1); Release 1; MainStep; MainStep; Return 2 (demo_answers 2); Return 0 (demo_answers 0);
   Release 0; Release 2; Leave 2; Leave 1; Leave 0; MainStep].

(** The third send waits until the second execution has released its element. *)
Example third_send_waits :
  option_map bs_main (bench_run 3 2 (bench_start 3) (take 7 demo_actions)) = Some (Sending 2) ∧
  bench_run 3 2 (bench_start 3) (take 7 demo_actions ++ [MainStep]) = None.
Proof. by vm_compute. Qed.

Lemma benchmark_terminates_witness :
  ∃ s k s' res, bench_run 3 2 (bench_start 3) (take 9 demo_actions) = Some s ∧ bench_run 3 2 s k = Some s' ∧
    bs_main s' = Returned res ∧ length (take 9 demo_actions ++ k) = 19%nat.
Proof.
  destruct (bench_run 3 2 (bench_start 3) (take 9 demo_actions)) as [s |] eqn:Hs; [| discriminate Hs].
  destruct (benchmark_terminates 3 2 demo_answers (take 9 demo_actions) s ltac:(lia) Hs)
    as (_ & _ & k & s' & res & Hk & Hres & Hl & _).
  exists s, k, s', res. split_and!; [reflexivity | exact Hk | exact Hres | exact Hl].
Defined.

Lemma benchmark_collects_witness :
  ∃ s, bench_run 3 2 (bench_start 3) demo_actions = Some s ∧ bs_main s = Returned (inl (ErrNew "timeout")) ∧
    (outcomes demo_actions).*1 ≡ₚ seq 0 3.
Proof.
  destruct (bench_run 3 2 (bench_start 3) demo_actions) as [s |] eqn:Hs; [| discriminate Hs].
  assert (Hres : bs_main s = Returned (inl (ErrNew "timeout"))) by (vm_compute in Hs; injection Hs as <-; reflexivity).
  exists s. split; [reflexivity |]. split; [exact Hres |].
  exact (proj1 (benchmark_collects 3 2 demo_actions s _ Hs Hres)).
Defined.
