(* ===== verification/BenchReport.v ===== *)
(** The report of the benchmark client (cmd/bench/main.go): the JSON of a suite
    result (its struct tags), as the encoder writes it to the output file and to
    the standard output, and the summary printed when JSON is not asked for. *)

From Stdlib Require Import SpecFloat.
From S2P Require Import Prelude GoString GoFloat GoStrconv GoTime GoRfc3339 GoJson GoIndent GoFmt GoError DomainJson Bench.

Open Scope string_scope.

(** * JSON *)

(** A float: the encoder refuses the values that JSON has no literal for. *)
Definition float_json (x : float64) : error + json :=
  match x with
  | S754_nan => inl (ErrNew "json: unsupported value: NaN")
  | S754_infinity s => inl (ErrNew ("json: unsupported value: " +:+ if s then "-Inf" else "+Inf"))
  | _ => inr (JNum (json_float x))
  end.

Definition int_json (z : Z) : json := JNum (Itoa z).

(** A time in UTC, in nanoseconds. *)
Definition time_json (t : Z) : error + json :=
  match marshal_time 0 t with
  | Some s => inr (JStr s)
  | None => inl (ErrNew "json: error calling MarshalJSON for type time.Time: Time.MarshalJSON: year outside of range [0,9999]")
  end.

Fixpoint all_inr {A} (l : list (error + A)) : error + list A :=
  match l with
  | [] => inr []
  | r :: l' => let? x := r in let? xs := all_inr l' in inr (x :: xs)
  end.

(** The fields of a struct, in order; the first error is the encoder's. *)
Definition object_json (fields : list (string * (error + json))) : error + json :=
  let? l := all_inr ((λ f, let? v := f.2 in inr (f.1, v)) <$> fields) in inr (JObj l).

Definition array_json {A} (f : A → error + json) (l : list A) : error + json :=
  let? vs := all_inr (f <$> l) in inr (JArr vs).

(** The three summary structs have the same fields. *)
Definition summary_json {A B} (fa : A → error + json) (fb : B → error + json) (s : summary A B) : error + json :=
  object_json
    [("count", inr (int_json (sm_Count s))); ("min", fa (sm_Min s)); ("avg", fb (sm_Avg s)); ("p50", fa (sm_P50 s));
     ("p95", fa (sm_P95 s)); ("p99", fa (sm_P99 s)); ("max", fa (sm_Max s))].

Definition m_inr (z : Z) : error + json := inr (int_json z).
Definition latencySummary_json : summary Z Z → error + json := summary_json m_inr m_inr.
Definition numberSummary_json : summary Z float64 → error + json := summary_json m_inr float_json.
Definition floatSummary_json : summary float64 float64 → error + json := summary_json float_json float_json.

(** executionRun has no tags. *)
Definition executionRun_json (x : executionRun) : error + json :=
  object_json
    [("ExecutionID", inr (JStr (xr_ExecutionID x))); ("FinalStatus", inr (JStr (xr_FinalStatus x)));
     ("ObservedLatency", inr (int_json (xr_ObservedLatency x))); ("ReportedLatency", inr (int_json (xr_ReportedLatency x)));
     ("AttemptsObserved", inr (int_json (xr_AttemptsObserved x))); ("TerminalTaskCount", inr (int_json (xr_TerminalTaskCount x)))].

Definition benchmarkResult_json (r : benchmarkResult) : error + json :=
  object_json
    ([("scenario", inr (JStr (br_Scenario r))); ("workflow_definition_id", inr (JStr (br_WorkflowDefinitionID r)));
      ("executions", inr (int_json (br_Executions r))); ("concurrency", inr (int_json (br_Concurrency r)));
      ("overall_elapsed", inr (int_json (br_OverallElapsed r)));
      ("throughput_per_second", float_json (br_ThroughputPerSecond r));
      ("succeeded", inr (int_json (br_Succeeded r))); ("failed", inr (int_json (br_Failed r)));
      ("observed_latency", latencySummary_json (br_ObservedLatency r));
      ("reported_latency", latencySummary_json (br_ReportedLatency r));
      ("attempts_per_execution", numberSummary_json (br_AttemptsPerExecution r))] ++
     match br_Runs r with [] => [] | runs => [("runs", array_json executionRun_json runs)] end)%list.

Definition suiteAggregate_json (a : suiteAggregate) : error + json :=
  object_json
    [("repeat_count", inr (int_json (sa_RepeatCount a))); ("succeeded_runs", inr (int_json (sa_SucceededRuns a)));
     ("failed_runs", inr (int_json (sa_FailedRuns a))); ("throughput_per_second", floatSummary_json (sa_Throughput a));
     ("overall_elapsed", latencySummary_json (sa_OverallElapsed a));
     ("reported_latency_p95", latencySummary_json (sa_ReportedLatencyP95 a));
     ("reported_latency_avg", latencySummary_json (sa_ReportedLatencyAvg a));
     ("observed_latency_p95", latencySummary_json (sa_ObservedLatencyP95 a))].

Definition omit_empty (key s : string) : list (string * (error + json)) :=
  if String.eqb s "" then [] else [(key, inr (JStr s))].

Definition benchmarkSuiteResult_json (su : benchmarkSuiteResult) : error + json :=
  let c := su_Config su in
  object_json
    (omit_empty "label" (sc_Label c) ++
     [("captured_at", time_json (sc_CapturedAt c)); ("scenario", inr (JStr (sc_Scenario c)));
      ("executions", inr (int_json (sc_Executions c))); ("concurrency", inr (int_json (sc_Concurrency c)));
      ("repeat", inr (int_json (sc_Repeat c))); ("poll_interval", inr (int_json (sc_PollInterval c)));
      ("timeout", inr (int_json (sc_Timeout c))); ("max_attempts", inr (int_json (sc_MaxAttempts c)));
      ("backoff_seconds", inr (int_json (sc_Backoff c))); ("chain_length", inr (int_json (sc_ChainLength c)));
      ("api_base_url", inr (JStr (sc_APIBaseURL c))); ("go_version", inr (JStr (su_GoVersion su)))] ++
     omit_empty "hostname" (su_Hostname su) ++
     [("results", array_json benchmarkResult_json (su_Results su)); ("aggregate", suiteAggregate_json (su_Aggregate su))])%list.

(** [encoder.Encode(suite)], with the indentation of both encoders: the text
    that it hands to its writer, or its error. *)
Definition Encode (su : benchmarkSuiteResult) : error + string :=
  let? v := benchmarkSuiteResult_json su in inr (indented v).

(** ** The output file *)

(** What the file system answers. *)
Record file_answers : Type := mkFileAnswers {
  an_MkdirAll : error + unit;
  an_Create : error + unit;
  an_Write : error + unit;
}.

(** [writeJSONFile]: what it returns, and the text in the file when the write
    succeeded. *)
Definition writeJSONFile (su : benchmarkSuiteResult) (a : file_answers) : error + string :=
  let? _ := an_MkdirAll a in
  let? _ := an_Create a in
  let? text := Encode su in
  let? _ := an_Write a in
  inr text.

(** * The summary *)

(** [fmt.Println(l)], or [fmt.Printf] of a line. *)
Definition println (l : string) : string := l +:+ of_bytes [chr 10].
Definition lines (l : list string) : string := foldr (λ x r, println x +:+ r) "" l.

Definition result_lines (i : nat) (r : benchmarkResult) : list string :=
  ["Run " +:+ Itoa (Z.of_nat i + 1);
   "  Workflow definition: " +:+ br_WorkflowDefinitionID r;
   "  Succeeded: " +:+ Itoa (br_Succeeded r);
   "  Failed: " +:+ Itoa (br_Failed r);
   "  Overall elapsed: " +:+ Duration_String (br_OverallElapsed r);
   "  Throughput: " +:+ format_2f (br_ThroughputPerSecond r) +:+ " executions/sec";
   "  Reported latency p95: " +:+ Duration_String (sm_P95 (br_ReportedLatency r));
   "  Attempts/execution avg: " +:+ format_2f (sm_Avg (br_AttemptsPerExecution r));
   ""].

Definition printSuiteSummary (su : benchmarkSuiteResult) : string :=
  let c := su_Config su in
  let a := su_Aggregate su in
  lines
    (["Scenario: " +:+ sc_Scenario c;
      "Executions per run: " +:+ Itoa (sc_Executions c);
      "Concurrency: " +:+ Itoa (sc_Concurrency c);
      "Repeat: " +:+ Itoa (sc_Repeat c)] ++
     (if String.eqb (sc_Label c) "" then [] else ["Label: " +:+ sc_Label c]) ++
     [""] ++
     concat (imap result_lines (su_Results su)) ++
     ["Aggregate";
      "  Successful runs: " +:+ Itoa (sa_SucceededRuns a);
      "  Failed runs: " +:+ Itoa (sa_FailedRuns a);
      "  Throughput avg: " +:+ format_2f (sm_Avg (sa_Throughput a)) +:+ " exec/s (min " +:+ format_2f (sm_Min (sa_Throughput a)) +:+
        ", p95 " +:+ format_2f (sm_P95 (sa_Throughput a)) +:+ ", max " +:+ format_2f (sm_Max (sa_Throughput a)) +:+ ")";
      "  Reported latency p95 avg: " +:+ Duration_String (sm_Avg (sa_ReportedLatencyP95 a)) +:+ " (min " +:+
        Duration_String (sm_Min (sa_ReportedLatencyP95 a)) +:+ ", max " +:+ Duration_String (sm_Max (sa_ReportedLatencyP95 a)) +:+ ")";
      "  Overall elapsed avg: " +:+ Duration_String (sm_Avg (sa_OverallElapsed a))])%list.

(** The two functions that nothing calls. *)
Definition printLatencySummary (s : summary Z Z) : string :=
  lines
    ["  count: " +:+ Itoa (sm_Count s); "  min:   " +:+ Duration_String (sm_Min s); "  avg:   " +:+ Duration_String (sm_Avg s);
     "  p50:   " +:+ Duration_String (sm_P50 s); "  p95:   " +:+ Duration_String (sm_P95 s);
     "  p99:   " +:+ Duration_String (sm_P99 s); "  max:   " +:+ Duration_String (sm_Max s)].

Definition printNumberSummary (s : summary Z float64) : string :=
  lines
    ["  count: " +:+ Itoa (sm_Count s); "  min:   " +:+ Itoa (sm_Min s); "  avg:   " +:+ format_2f (sm_Avg s);
     "  p50:   " +:+ Itoa (sm_P50 s); "  p95:   " +:+ Itoa (sm_P95 s);
     "  p99:   " +:+ Itoa (sm_P99 s); "  max:   " +:+ Itoa (sm_Max s)].

(** * The report is read back *)

Definition run_ok (x : executionRun) : bool := (text_ok (xr_ExecutionID x) && text_ok (xr_FinalStatus x))%bool.

Definition result_ok (r : benchmarkResult) : bool :=
  (text_ok (br_Scenario r) && text_ok (br_WorkflowDefinitionID r) && forallb run_ok (br_Runs r))%bool.

(** Every text of the report is valid UTF-8. *)
Definition report_ok (su : benchmarkSuiteResult) : bool :=
  let c := su_Config su in
  (text_ok (sc_Label c) && text_ok (sc_Scenario c) && text_ok (sc_APIBaseURL c) && text_ok (su_GoVersion su) &&
   text_ok (su_Hostname su) && forallb result_ok (su_Results su))%bool.

(** A value that the encoder writes faithfully, of depth [n] at most; and an
    answer that is one, or an error. *)
Definition fine (n : nat) (v : json) : Prop := encodable v = true ∧ (jdepth v ≤ n)%nat.
Definition fine_answer (n : nat) (r : error + json) : Prop := ∀ v, r = inr v → fine n v.

Lemma all_inr_inv {A} (l : list (error + A)) xs : all_inr l = inr xs → Forall2 (λ r x, r = inr x) l xs.
Proof.
  revert xs. induction l as [| r l IH]; intros xs H; cbn in H; [injection H as <-; constructor |].
  apply rbind_inr in H as (x & -> & H). apply rbind_inr in H as (ys & Hys & [= <-]). constructor; auto.
Qed.

Lemma fine_deeper n m r : (n ≤ m)%nat → fine_answer n r → fine_answer m r.
Proof. intros Hn Hr v Hv. destruct (Hr v Hv). split; [done | lia]. Qed.

Lemma fine_str n s : text_ok s = true → fine_answer n (inr (JStr s)).
Proof. intros Hs v [= <-]. split; [done | cbn; lia]. Qed.

Lemma fine_int n z : fine_answer n (inr (int_json z)).
Proof. intros v [= <-]. split; [apply number_ok_Itoa | cbn; lia]. Qed.

Lemma float_json_inr x v : float_json x = inr v → finite_f64 x = true ∧ v = JNum (json_float x).
Proof. unfold float_json. generalize (json_float x) as t. destruct x; intros t [= <-]; done. Qed.

Lemma fine_float n x : fine_answer n (float_json x).
Proof. intros v [Hx ->]%float_json_inr. split; [by apply number_ok_json_float | cbn; lia]. Qed.

Lemma fine_time n t : fine_answer n (time_json t).
Proof.
  intros v. unfold time_json. destruct (marshal_time 0 t) as [s |] eqn:E; [| done]. intros [= <-].
  split; [| cbn; lia]. cbn. by apply plain_utf8, (marshal_time_plain 0 t).
Qed.

Definition fine_field (n : nat) (f : string * (error + json)) : Prop := text_ok f.1 = true ∧ fine_answer n f.2.

Lemma list_max_map {A} (f : A → nat) l n : Forall (λ x, f x ≤ n)%nat l → (list_max (f <$> l) ≤ n)%nat.
Proof. intros Hl. apply list_max_le, Forall_fmap. done. Qed.

Lemma fine_object n fields : Forall (fine_field n) fields → fine_answer (S n) (object_json fields).
Proof.
  intros Hf v. unfold object_json. intros (l & Hl & [= <-])%rbind_inr. apply all_inr_inv in Hl.
  assert (Hg : Forall (λ p, text_ok p.1 = true ∧ fine n p.2) l).
  { revert l Hl. induction Hf as [| [k r] fields [Hk Hr] _ IH]; intros l Hl; inversion Hl as [| ? p ? ? Hp]; [by apply Forall_nil_2 |].
    subst. apply rbind_inr in Hp as (v & Hv & [= <-]). apply Forall_cons_2; [| auto]. split; [done | by apply Hr]. }
  split.
  - cbn. rewrite forallb_forall. intros [k x] Hin%list_elem_of_In. rewrite list.Forall_forall in Hg.
    destruct (Hg _ Hin) as [Hk [Hx _]]. unfold text_ok in Hk. cbn in *. by rewrite Hk, Hx.
  - cbn. apply le_n_S, (list_max_map (λ p, jdepth p.2)). eapply list.Forall_impl; [exact Hg |]. intros p [_ [_ Hd]]. exact Hd.
Qed.

Lemma fine_array {A} n (f : A → error + json) l : Forall (λ x, fine_answer n (f x)) l → fine_answer (S n) (array_json f l).
Proof.
  intros Hf v. unfold array_json. intros (vs & Hvs & [= <-])%rbind_inr. apply all_inr_inv in Hvs.
  assert (Hg : Forall (fine n) vs).
  { revert vs Hvs. induction Hf as [| x l Hx _ IH]; intros vs Hvs; inversion Hvs; [by apply Forall_nil_2 |].
    subst. apply Forall_cons_2; [by apply Hx | auto]. }
  split.
  - cbn. rewrite forallb_forall. intros x Hin%list_elem_of_In. rewrite list.Forall_forall in Hg. by destruct (Hg _ Hin).
  - cbn. apply le_n_S, list_max_map. eapply list.Forall_impl; [exact Hg |]. by intros x [_ Hd].
Qed.

(** The fields of a struct, one after the other. *)
Ltac fields_fine :=
  repeat first [apply Forall_app_2 | apply Forall_cons_2 | apply Forall_nil_2];
  try (split; cbn [fst snd]; [reflexivity | first [by apply fine_str | apply fine_int | apply fine_float | apply fine_time | idtac]]).

Lemma fine_summary {A B} n (fa : A → error + json) (fb : B → error + json) s :
  (∀ a, fine_answer n (fa a)) → (∀ b, fine_answer n (fb b)) → fine_answer (S n) (summary_json fa fb s).
Proof. intros Ha Hb. apply fine_object. fields_fine; auto. Qed.

Lemma fine_m_inr n z : fine_answer n (m_inr z).
Proof. apply fine_int. Qed.
#[local] Hint Resolve fine_m_inr fine_float fine_int fine_time fine_str : core.

Lemma fine_omit n key s : text_ok key = true → text_ok s = true → Forall (fine_field n) (omit_empty key s).
Proof.
  intros Hk Hs. unfold omit_empty. case_match; [by apply Forall_nil_2 |]. apply Forall_cons_2; [| by apply Forall_nil_2]. split; [done | by apply fine_str].
Qed.

Lemma fine_run n x : run_ok x = true → fine_answer (S n) (executionRun_json x).
Proof. unfold run_ok. rewrite andb_true_iff. intros [? ?]. apply fine_object. fields_fine. Qed.

Lemma fine_result n r : result_ok r = true → fine_answer (S (S (S n))) (benchmarkResult_json r).
Proof.
  unfold result_ok. rewrite !andb_true_iff, forallb_forall. intros [[? ?] Hruns]. apply fine_object. fields_fine;
    try (apply fine_summary; auto).
  destruct (br_Runs r) as [| x l]; [by apply Forall_nil_2 |]. fields_fine. apply fine_array, list.Forall_forall.
  intros y Hy%list_elem_of_In. by apply fine_run, Hruns.
Qed.

Lemma fine_aggregate n a : fine_answer (S (S n)) (suiteAggregate_json a).
Proof. apply fine_object. fields_fine; apply fine_summary; auto. Qed.

Lemma fine_suite su : report_ok su = true → fine_answer 5 (benchmarkSuiteResult_json su).
Proof.
  unfold report_ok. rewrite !andb_true_iff, forallb_forall. intros [[[[[? ?] ?] ?] ?] Hres]. apply fine_object.
  fields_fine; try (by apply fine_omit).
  - apply fine_array, list.Forall_forall. intros r Hr%list_elem_of_In. by apply fine_result, Hres.
  - apply fine_aggregate.
Qed.

(** What both encoders write is read back as the JSON of the suite. *)
Lemma Encode_reads su text : report_ok su = true → Encode su = inr text →
  ∃ v, benchmarkSuiteResult_json su = inr v ∧ parse text = Some v.
Proof.
  intros Hok (v & Hv & [= <-])%rbind_inr. exists v. split; [done |]. destruct (fine_suite su Hok v Hv) as [He Hd].
  apply parse_indented; [done |]. etrans; [exact Hd |]. apply Nat.leb_le. by vm_compute.
Qed.

(** ** The members of the report *)

Lemma object_json_members fields v : object_json fields = inr v →
  ∃ l, v = JObj l ∧ ∀ k r, (k, r) ∈ fields → ∃ x, r = inr x ∧ (k, x) ∈ l.
Proof.
  unfold object_json. intros (l & Hl & [= <-])%rbind_inr. exists l. split; [done |]. apply all_inr_inv in Hl.
  intros k r Hin. apply list_elem_of_lookup in Hin as [i Hi]. rewrite Forall2_fmap_l in Hl.
  destruct (Forall2_lookup_l _ _ _ _ _ Hl Hi) as (p & Hp & Hx). cbn in Hx. apply rbind_inr in Hx as (x & -> & [= <-]).
  exists x. split; [done |]. by eapply list_elem_of_lookup_2.
Qed.

Lemma array_json_length {A} (f : A → error + json) l v : array_json f l = inr v → ∃ vs, v = JArr vs ∧ length vs = length l.
Proof.
  unfold array_json. intros (vs & Hvs & [= <-])%rbind_inr. exists vs. split; [done |].
  apply all_inr_inv, Forall2_length in Hvs. by rewrite length_fmap in Hvs.
Qed.

Definition config_members (c : suiteConfig) : list (string * json) :=
  [("scenario", JStr (sc_Scenario c)); ("executions", int_json (sc_Executions c)); ("concurrency", int_json (sc_Concurrency c));
   ("repeat", int_json (sc_Repeat c)); ("poll_interval", int_json (sc_PollInterval c)); ("timeout", int_json (sc_Timeout c));
   ("max_attempts", int_json (sc_MaxAttempts c)); ("backoff_seconds", int_json (sc_Backoff c));
   ("chain_length", int_json (sc_ChainLength c)); ("api_base_url", JStr (sc_APIBaseURL c))].

(** The report is an object with the settings of the suite and all its results. *)
Lemma report_members su v : benchmarkSuiteResult_json su = inr v →
  ∃ members, v = JObj members ∧ config_members (su_Config su) ⊆ members ∧
    ∃ results, ("results", JArr results) ∈ members ∧ length results = length (su_Results su).
Proof.
  intros (members & -> & Hin)%object_json_members. exists members. split; [done |]. split.
  - intros [k x] Hk. destruct (Hin k (inr x)) as (y & [= <-] & Hy); [| done]. revert Hk. unfold config_members.
    rewrite !elem_of_app, !elem_of_cons, elem_of_nil. naive_solver.
  - destruct (Hin "results" (array_json benchmarkResult_json (su_Results su))) as (r & Hr & Hm).
    { rewrite !elem_of_app, !elem_of_cons. naive_solver. }
    destruct (array_json_length _ _ _ Hr) as (results & -> & Hl). by exists results.
Qed.

(** * A report of the repository

    The results of the two runs in benchmarks/results/2026-06-05/smoke-suite.json;
    the aggregate and the text are computed, and the text is that file, byte for
    byte. *)

Definition smoke_result (id : string) (elapsed : Z) (observed reported : summary Z Z) : benchmarkResult :=
  mkBenchmarkResult scenarioSuccessLinear id 10 2 elapsed (f64_div (f64_of_Z 10) (Seconds elapsed)) 10 0 observed reported
    (mkSummary 10 2 (f64_of_Z 2) 2 2 2 2)%Z [].

Definition smoke_suite : benchmarkSuiteResult :=
  buildSuiteResult "go1.26.3" "srees-MacBook-Pro.local"
    [smoke_result "97421762-2895-4f13-acf6-468c97f2e34c" 19233820834
       (mkSummary 10 3210592166 3846643241 4003782083 4006235709 4006235709 4006235709)%Z
       (mkSummary 10 3181637000 3817657400 3974444000 3980444000 3980444000 3980444000)%Z;
     smoke_result "36efa382-2c61-463a-ab67-9313361a49f7" 20042514208
       (mkSummary 10 4006697958 4008472774 4007899916 4010413000 4010413000 4010413000)%Z
       (mkSummary 10 3925980000 3944993500 3943156000 3964037000 3964037000 3964037000)%Z]
    (mkSuiteConfig "smoke-suite" 1780637603815244000 scenarioSuccessLinear 10 2 2 200000000 30000000000 3 1 5 "http://localhost:8080")%Z.

Definition smoke_text : string := with_quotes "{
  'label': 'smoke-suite',
  'captured_at': '2026-06-05T05:33:23.815244Z',
  'scenario': 'success-linear',
  'executions': 10,
  'concurrency': 2,
  'repeat': 2,
  'poll_interval': 200000000,
  'timeout': 30000000000,
  'max_attempts': 3,
  'backoff_seconds': 1,
  'chain_length': 5,
  'api_base_url': 'http://localhost:8080',
  'go_version': 'go1.26.3',
  'hostname': 'srees-MacBook-Pro.local',
  'results': [
    {
      'scenario': 'success-linear',
      'workflow_definition_id': '97421762-2895-4f13-acf6-468c97f2e34c',
      'executions': 10,
      'concurrency': 2,
      'overall_elapsed': 19233820834,
      'throughput_per_second': 0.5199174977403764,
      'succeeded': 10,
      'failed': 0,
      'observed_latency': {
        'count': 10,
        'min': 3210592166,
        'avg': 3846643241,
        'p50': 4003782083,
        'p95': 4006235709,
        'p99': 4006235709,
        'max': 4006235709
      },
      'reported_latency': {
        'count': 10,
        'min': 3181637000,
        'avg': 3817657400,
        'p50': 3974444000,
        'p95': 3980444000,
        'p99': 3980444000,
        'max': 3980444000
      },
      'attempts_per_execution': {
        'count': 10,
        'min': 2,
        'avg': 2,
        'p50': 2,
        'p95': 2,
        'p99': 2,
        'max': 2
      }
    },
    {
      'scenario': 'success-linear',
      'workflow_definition_id': '36efa382-2c61-463a-ab67-9313361a49f7',
      'executions': 10,
      'concurrency': 2,
      'overall_elapsed': 20042514208,
      'throughput_per_second': 0.49893939932987474,
      'succeeded': 10,
      'failed': 0,
      'observed_latency': {
        'count': 10,
        'min': 4006697958,
        'avg': 4008472774,
        'p50': 4007899916,
        'p95': 4010413000,
        'p99': 4010413000,
        'max': 4010413000
      },
      'reported_latency': {
        'count': 10,
        'min': 3925980000,
        'avg': 3944993500,
        'p50': 3943156000,
        'p95': 3964037000,
        'p99': 3964037000,
        'max': 3964037000
      },
      'attempts_per_execution': {
        'count': 10,
        'min': 2,
        'avg': 2,
        'p50': 2,
        'p95': 2,
        'p99': 2,
        'max': 2
      }
    }
  ],
  'aggregate': {
    'repeat_count': 2,
    'succeeded_runs': 2,
    'failed_runs': 0,
    'throughput_per_second': {
      'count': 2,
      'min': 0.49893939932987474,
      'avg': 0.5094284485351256,
      'p50': 0.49893939932987474,
      'p95': 0.5199174977403764,
      'p99': 0.5199174977403764,
      'max': 0.5199174977403764
    },
    'overall_elapsed': {
      'count': 2,
      'min': 19233820834,
      'avg': 19638167521,
      'p50': 19233820834,
      'p95': 20042514208,
      'p99': 20042514208,
      'max': 20042514208
    },
    'reported_latency_p95': {
      'count': 2,
      'min': 3964037000,
      'avg': 3972240500,
      'p50': 3964037000,
      'p95': 3980444000,
      'p99': 3980444000,
      'max': 3980444000
    },
    'reported_latency_avg': {
      'count': 2,
      'min': 3817657400,
      'avg': 3881325450,
      'p50': 3817657400,
      'p95': 3944993500,
      'p99': 3944993500,
      'max': 3944993500
    },
    'observed_latency_p95': {
      'count': 2,
      'min': 4006235709,
      'avg': 4008324354,
      'p50': 4006235709,
      'p95': 4010413000,
      'p99': 4010413000,
      'max': 4010413000
    }
  }
}
".

Example smoke_report : Encode smoke_suite = inr smoke_text.
Proof. vm_compute. reflexivity. Qed.

Example smoke_summary : printSuiteSummary smoke_suite =
"Scenario: success-linear
Executions per run: 10
Concurrency: 2
Repeat: 2
Label: smoke-suite

Run 1
  Workflow definition: 97421762-2895-4f13-acf6-468c97f2e34c
  Succeeded: 10
  Failed: 0
  Overall elapsed: 19.233820834s
  Throughput: 0.52 executions/sec
  Reported latency p95: 3.980444s
  Attempts/execution avg: 2.00

Run 2
  Workflow definition: 36efa382-2c61-463a-ab67-9313361a49f7
  Succeeded: 10
  Failed: 0
  Overall elapsed: 20.042514208s
  Throughput: 0.50 executions/sec
  Reported latency p95: 3.964037s
  Attempts/execution avg: 2.00

Aggregate
  Successful runs: 2
  Failed runs: 0
  Throughput avg: 0.51 exec/s (min 0.50, p95 0.52, max 0.52)
  Reported latency p95 avg: 3.9722405s (min 3.964037s, max 3.980444s)
  Overall elapsed avg: 19.638167521s
".
Proof. vm_compute. reflexivity. Qed.

(** A run that takes no time has no report in JSON: its throughput is infinite. *)
Example no_time_no_report :
  Encode (buildSuiteResult "go1.26.3" "" [smoke_result "w" 0 (summarizeDurations []) (summarizeDurations [])]
    (su_Config smoke_suite)) = inl (ErrNew "json: unsupported value: +Inf").
Proof. vm_compute. reflexivity. Qed.
