(* ===== verification/BenchFlags.v ===== *)
(** The flags of the benchmark client (the start of main in cmd/bench/main.go): their
    names, kinds and defaults, what [flag.Parse] makes of the arguments, and that
    every setting of the flags can be written as arguments. *)

From S2P Require Import Prelude GoString GoFloat GoStrconv GoTime GoJson GoUrl GoFlag Bench.

Open Scope string_scope.

Record flags : Type := mkFlags {
  fl_apiBaseURL : string;
  fl_scenario : string;
  fl_executions : Z;
  fl_concurrency : Z;
  fl_pollInterval : Z;
  fl_timeout : Z;
  fl_maxAttempts : Z;
  fl_backoff : Z;
  fl_chainLength : Z;
  fl_repeat : Z;
  fl_includeRuns : bool;
  fl_jsonOutput : bool;
  fl_outputFile : string;
  fl_label : string;
}.

(** The values of the flags, by name. *)
Definition flag_list (fl : flags) : list (string * flag_value) :=
  [("api-base-url", VString (fl_apiBaseURL fl));
   ("scenario", VString (fl_scenario fl));
   ("executions", VInt (fl_executions fl));
   ("concurrency", VInt (fl_concurrency fl));
   ("poll-interval", VDuration (fl_pollInterval fl));
   ("timeout", VDuration (fl_timeout fl));
   ("max-attempts", VInt (fl_maxAttempts fl));
   ("backoff-seconds", VInt (fl_backoff fl));
   ("chain-length", VInt (fl_chainLength fl));
   ("repeat", VInt (fl_repeat fl));
   ("include-runs", VBool (fl_includeRuns fl));
   ("json", VBool (fl_jsonOutput fl));
   ("output-file", VString (fl_outputFile fl));
   ("label", VString (fl_label fl))].

Definition default_flags : flags :=
  mkFlags "http://localhost:8080" scenarioSuccessLinear 25 5 (200 * 1000000) (30 * Second) 3 1 5 1 false false "" "".

(** The flags as they are defined, before the arguments are read. *)
Definition formal : flag_set := list_to_map (flag_list default_flags).

(** What the pointers of the flags hold. *)
Definition string_flag (f : flag_set) (name : string) : string := match f !! name with Some (VString s) => s | _ => "" end.
Definition int_flag (f : flag_set) (name : string) : Z := match f !! name with Some (VInt z) => z | _ => 0%Z end.
Definition duration_flag (f : flag_set) (name : string) : Z := match f !! name with Some (VDuration d) => d | _ => 0%Z end.
Definition bool_flag (f : flag_set) (name : string) : bool := match f !! name with Some (VBool b) => b | _ => false end.

Definition flags_of (f : flag_set) : flags :=
  mkFlags (string_flag f "api-base-url") (string_flag f "scenario") (int_flag f "executions") (int_flag f "concurrency")
    (duration_flag f "poll-interval") (duration_flag f "timeout") (int_flag f "max-attempts") (int_flag f "backoff-seconds")
    (int_flag f "chain-length") (int_flag f "repeat") (bool_flag f "include-runs") (bool_flag f "json")
    (string_flag f "output-file") (string_flag f "label").

(** [flag.Parse()] on the arguments of the command; the arguments that are left are
    not looked at. *)
Definition parse_flags (args : list string) : flag_error + flags :=
  let? r := Parse formal args in inr (flags_of r.1).

(** The process exits when the flags are refused: with status 0 when it is asked for
    help, else with status 2. *)
Definition exit_status (e : flag_error) : Z := match e with Help => 0 | _ => 2 end.

Example parse_flags_ex :
  parse_flags ["-scenario"; "replay-missing-handler"; "-executions=10"; "--timeout=1m30s"; "-json"; "-label"; "smoke"; "x"; "-repeat=9"] =
    inr (mkFlags "http://localhost:8080" scenarioReplayMissingHandler 10 5 200000000 90000000000 3 1 5 1 false true "" "smoke") ∧
  parse_flags [] = inr default_flags ∧ parse_flags ["-executions=ten"] = inl (InvalidValue "ten" "executions").
Proof. vm_compute. auto. Qed.

(** * Writing the flags as arguments *)

Definition flag_text (v : flag_value) : string :=
  match v with
  | VString s => s
  | VInt z => Itoa z
  | VDuration d => Itoa d +:+ "ns"
  | VBool b => if b then "true" else "false"
  end.

Definition argument_of (p : string * flag_value) : string := "-" +:+ p.1 +:+ "=" +:+ flag_text p.2.
Definition arguments (fl : flags) : list string := argument_of <$> flag_list fl.

(** ** The texts are read back *)

Lemma ParseInt0_Itoa z : (int64_min ≤ z ≤ int64_max)%Z → ParseInt0 (to_bytes (Itoa z)) = Some z.
Proof.
  intros Hz. assert (Hpos : ∀ n, (0 < n)%Z → split_base (Z_bytes n) = (10%Z, Z_bytes n) ∧
    base_value true 10 0 (Z_bytes n) = Some n ∧ existsb (λ c, Z.eqb (byte c) 95) (Z_bytes n) = false).
  { intros n Hn. pose proof (Z_bytes_digits n ltac:(lia)) as Hd. split.
    - destruct (Z_bytes_head n Hn) as (c & ds & -> & Hc). unfold split_base, in_range in *. by rewrite (proj2 (Z.eqb_neq _ _)) by lia.
    - split; [| by apply no_underscores]. rewrite base_value_digits by done. f_equal. apply Z_bytes_value. lia. }
  unfold Itoa. destruct (Z.ltb_spec z 0) as [Hneg | Hge]; rewrite to_of_bytes.
  - destruct (Hpos (- z)%Z ltac:(lia)) as (Hs & Hv & Hu). unfold ParseInt0. cbn [split_sign].
    change (Z.eqb (byte (chr 45)) 45) with true. cbv iota. pose proof (Z_bytes_ne (- z)). destruct (Z_bytes (- z)) as [| c ds]; [done |].
    rewrite Hs, Hv. cbn [mbind option_bind]. rewrite Hu. unfold signed64. cbn [andb].
    rewrite (proj2 (Z.leb_le _ _)), (proj2 (Z.leb_le _ _)) by lia. cbn [andb]. f_equal. lia.
  - destruct (decide (z = 0%Z)) as [-> | Hne]; [done |]. destruct (Hpos z ltac:(lia)) as (Hs & Hv & Hu).
    unfold ParseInt0. destruct (Z_bytes_head z ltac:(lia)) as (c & ds & E & Hc). rewrite E in *. cbn [split_sign]. unfold in_range in Hc.
    rewrite (proj2 (Z.eqb_neq (byte c) 45)), (proj2 (Z.eqb_neq (byte c) 43)) by lia. cbv iota.
    rewrite Hs, Hv. cbn [mbind option_bind]. rewrite Hu. unfold signed64. cbn [andb].
    by rewrite (proj2 (Z.leb_le _ _)), (proj2 (Z.leb_le _ _)) by lia.
Qed.

Definition valid_flags (fl : flags) : Prop := Forall (λ p, in_int64 p.2) (flag_list fl).

Lemma set_value_text v0 v : kind v0 = kind v → in_int64 v → set_value v0 (flag_text v) = Some v.
Proof.
  destruct v0, v; try done; cbn; intros _ Hv.
  - by rewrite ParseInt0_Itoa.
  - by rewrite ParseDuration_nanoseconds.
  - by case_match.
Qed.

(** A name that the package can tell from its dashes and its value. *)
Definition name_ok (name : string) : bool :=
  match to_bytes name with
  | c :: b => negb (is_char 45 c || is_char 61 c || existsb (is_char 61) b)
  | [] => false
  end.

Lemma cut_at z a sep b : existsb (is_char z) a = false → is_char z sep = true → cut z (a ++ sep :: b)%list = (a, b).
Proof.
  intros Ha Hs. induction a as [| c a IH]; cbn [app cut existsb] in *; [by rewrite Hs |].
  apply orb_false_iff in Ha as [-> Ha]. by rewrite IH.
Qed.

Lemma classify_argument name v : name_ok name = true → classify (argument_of (name, v)) = Flag name (Some (flag_text v)).
Proof.
  unfold name_ok, argument_of, classify. cbn [fst snd]. rewrite !to_bytes_app. change (to_bytes "-") with [chr 45]. change (to_bytes "=") with [chr 61].
  destruct (to_bytes name) as [| c b] eqn:En; [done |]. rewrite negb_true_iff, !orb_false_iff. intros [[H1 H2] H3].
  cbn [app]. change (is_char 45 (chr 45)) with true. cbn [negb]. rewrite H1, H2. cbn [orb].
  unfold name_value. rewrite existsb_app. cbn [existsb]. change (is_char 61 (chr 61)) with true. rewrite orb_true_l, orb_true_r.
  rewrite cut_at by done. rewrite <-En, of_to_bytes. cbn. by rewrite H1, of_to_bytes.
Qed.

Lemma Parse_argument (f : flag_set) name v0 v rest :
  name_ok name = true → f !! name = Some v0 → kind v0 = kind v → in_int64 v →
  Parse f (argument_of (name, v) :: rest) = Parse (<[name := v]> f) rest.
Proof.
  intros Hn Hf Hk Hv. cbn [Parse]. rewrite classify_argument by done. rewrite Hf. cbn [from_option id default].
  rewrite (set_value_text v0 v Hk Hv). by case_match.
Qed.

Definition set_all (l : list (string * flag_value)) (f : flag_set) : flag_set := foldl (λ f p, <[p.1 := p.2]> f) f l.

Lemma Parse_arguments (l : list (string * flag_value)) f :
  Forall (λ p, name_ok p.1 = true ∧ kind <$> f !! p.1 = Some (kind p.2) ∧ in_int64 p.2) l →
  Parse f (argument_of <$> l) = inr (set_all l f, []).
Proof.
  revert f. induction l as [| [name v] l IH]; intros f Hl; [done |]. apply Forall_cons_1 in Hl as [(Hn & Hf & Hv) Hl].
  cbn [fst snd] in *. apply fmap_Some in Hf as (v0 & Hf & Hk). change (argument_of <$> (name, v) :: l) with (argument_of (name, v) :: (argument_of <$> l)).
  rewrite (Parse_argument f name v0) by done. cbn [set_all foldl fst snd]. apply IH.
  eapply list.Forall_impl; [exact Hl |]. intros p (Hp1 & Hp2 & Hp3). split_and!; [done | | done].
  by rewrite (insert_kind f name v0 v Hf Hk).
Qed.

Lemma flags_of_list fl : flags_of (set_all (flag_list fl) formal) = fl.
Proof.
  unfold flags_of, set_all, flag_list. cbn [foldl fst snd]. unfold string_flag, int_flag, duration_flag, bool_flag.
  repeat first [rewrite lookup_insert_eq | rewrite lookup_insert_ne by (vm_compute; congruence)]. by destruct fl.
Qed.

(** Every setting of the flags, as 64-bit values, can be written as arguments and
    is read back from them. *)
Lemma flags_roundtrip fl : valid_flags fl → parse_flags (arguments fl) = inr fl.
Proof.
  intros Hfl. unfold parse_flags, arguments. rewrite Parse_arguments; [cbn [rbind fst]; by rewrite flags_of_list |].
  unfold valid_flags, flag_list in *. repeat (apply Forall_cons_1 in Hfl as [? Hfl]).
  repeat (apply Forall_cons_2; [split_and!; [reflexivity | vm_compute; reflexivity | assumption] |]). by apply Forall_nil_2.
Qed.
