(* ===== verification/BenchMain.v ===== *)
(** The command cmd/bench/main.go as a whole: the checks of its flags, the rounds of
    creating a workflow and running the benchmark on it, and the report.

    A round holds the machine of BenchRun.v, whose actions are steps of the command;
    what createWorkflow, the file system and the standard output answer is part of
    the step.  The texts of the report are those of BenchReport.v. *)

From S2P Require Import Prelude GoString GoFloat GoUrl GoJson GoError Proc GoFlag Bench BenchRun BenchReport BenchFlags.

Open Scope string_scope.

(** [fmt.Sprintf("bench-%s-%d-%d", ...)], at a time in nanoseconds. *)
Definition workflowName (scenario : string) (now : Z) (i : nat) : string :=
  "bench-" +:+ scenario +:+ "-" +:+ Itoa now +:+ "-" +:+ Itoa (Z.of_nat i + 1).

(** * The machine *)

(** What the command leaves: the suite, the text in the output file, and what was
    written to the standard output. *)
Record report : Type := mkReport {
  rp_suite : benchmarkSuiteResult;
  rp_file : option string;
  rp_stdout : string;
}.

Inductive bench_stage : Type :=
| Creating (i : nat) (results : list benchmarkResult)
| Benchmarking (i : nat) (results : list benchmarkResult) (workflowID : string) (b : bench_state)
| Building (results : list benchmarkResult)
| WritingFile (suite : benchmarkSuiteResult)
| Encoding (suite : benchmarkSuiteResult) (file : option string)
| Exited (status : Z) (stderr : option string) (reported : option report).

Inductive bench_event : Type :=
| Created (r : error + string)               (* createWorkflow returned *)
| Scheduled (a : action)                     (* a goroutine of runBenchmark made a step *)
| Measured (elapsed : Z)                     (* runBenchmark returned *)
| Built (capturedAt : Z) (goVersion hostname : string)
| FileWritten (a : file_answers)             (* writeJSONFile returned *)
| Encoded (r : error + unit).                (* the standard output took the text, or did not *)

Section command.
Context `{ErrorTexts} (fl : flags).

Definition exitf (text : string) : bench_stage := Exited 1 (Some (text +:+ of_bytes [chr 10])) None.

Definition benchmark_config (spec : scenarioSpec) (workflowID : string) : benchmarkConfig :=
  mkBenchmarkConfig (fl_scenario fl) workflowID (fl_executions fl) (fl_concurrency fl) (fl_includeRuns fl)
    (sp_Input spec) (sp_ReplayAfterTerminal spec).

Definition suite_config (capturedAt : Z) : suiteConfig :=
  mkSuiteConfig (TrimSpace (fl_label fl)) capturedAt (fl_scenario fl) (fl_executions fl) (fl_concurrency fl)
    (fl_repeat fl) (fl_pollInterval fl) (fl_timeout fl) (fl_maxAttempts fl) (fl_backoff fl) (fl_chainLength fl)
    (TrimRight (fl_apiBaseURL fl) 47).

(** [for i := 0; i < *repeat; i++]. *)
Definition next_repeat (i : nat) (results : list benchmarkResult) : bench_stage :=
  if Z.ltb (Z.of_nat i) (fl_repeat fl) then Creating i results else Building results.

(** The checks, before the loop. *)
Definition bench_checks : error + scenarioSpec :=
  let? _ := check_flags (fl_executions fl) (fl_concurrency fl) (fl_maxAttempts fl) (fl_backoff fl) (fl_chainLength fl)
              (fl_repeat fl) in
  buildScenarioSpec (fl_scenario fl) (fl_maxAttempts fl) (fl_backoff fl) (fl_chainLength fl).

Definition bench_command_start : bench_stage :=
  match bench_checks with inl err => exitf (Error err) | inr _ => next_repeat 0 [] end.

(** After the file: standard output, as JSON or as text. *)
Definition show_suite (suite : benchmarkSuiteResult) (file : option string) : bench_stage :=
  if fl_jsonOutput fl then Encoding suite file
  else Exited 0 None (Some (mkReport suite file (printSuiteSummary suite))).

Definition bench_command_step (spec : scenarioSpec) (s : bench_stage) (ev : bench_event) : option bench_stage :=
  match s, ev with
  | Creating i results, Created (inl err) => Some (exitf ("create benchmark workflow: " +:+ Error err))
  | Creating i results, Created (inr workflowID) =>
      Some (Benchmarking i results workflowID (bench_start (Z.to_nat (fl_executions fl))))
  | Benchmarking i results workflowID b, Scheduled a =>
      b' ← bench_step (Z.to_nat (fl_executions fl)) (Z.to_nat (fl_concurrency fl)) b a;
      Some (Benchmarking i results workflowID b')
  | Benchmarking i results workflowID b, Measured elapsed =>
      match bs_main b with
      | Returned res =>
          match runBenchmark_result (benchmark_config spec workflowID) elapsed res with
          | inl err => Some (exitf ("run benchmark: " +:+ Error err))
          | inr result => Some (next_repeat (S i) (results ++ [result])%list)
          end
      | _ => None
      end
  | Building results, Built capturedAt goVersion hostname =>
      let suite := buildSuiteResult goVersion hostname results (suite_config capturedAt) in
      Some (if String.eqb (fl_outputFile fl) "" then show_suite suite None else WritingFile suite)
  | WritingFile suite, FileWritten a =>
      match writeJSONFile suite a with
      | inl err => Some (exitf ("write output file: " +:+ Error err))
      | inr text => Some (show_suite suite (Some text))
      end
  | Encoding suite file, Encoded r =>
      match (let? text := Encode suite in let? _ := r in inr text) with
      | inl err => Some (exitf ("encode result: " +:+ Error err))
      | inr text => Some (Exited 0 None (Some (mkReport suite file text)))
      end
  | _, _ => None
  end.

Fixpoint bench_command (spec : scenarioSpec) (s : bench_stage) (l : list bench_event) : option bench_stage :=
  match l with
  | [] => Some s
  | ev :: l' => s' ← bench_command_step spec s ev; bench_command spec s' l'
  end.

End command.

(** [main], from the arguments of the process: the flags, and the command. *)
Definition bench_main `{ErrorTexts} (args : list string) : flag_error + (flags * bench_stage) :=
  let? fl := parse_flags args in inr (fl, bench_command_start fl).

(** * What is around the command *)

(** The events that are failures. *)
Definition failed (ev : bench_event) : bool :=
  match ev with
  | Created r => negb (is_ok r)
  | Scheduled (Return _ r) => negb (is_ok r)
  | FileWritten a => negb (is_ok (an_MkdirAll a) && is_ok (an_Create a) && is_ok (an_Write a))
  | Encoded r => negb (is_ok r)
  | _ => false
  end.

(** What the command would be answered at a moment, by the server, the clock, the
    machine it runs on, the file system and the standard output. *)
Record surroundings : Type := mkSurroundings {
  sr_created : error + string;
  sr_executed : nat → error + executionRun;
  sr_elapsed : Z;
  sr_capturedAt : Z;
  sr_goVersion : string;
  sr_hostname : string;
  sr_written : file_answers;
  sr_encoded : error + unit;
}.

Definition heeds (w : surroundings) (ev : bench_event) : Prop :=
  match ev with
  | Created r => r = sr_created w
  | Scheduled (Return i r) => r = sr_executed w i
  | Scheduled _ => True
  | Measured elapsed => elapsed = sr_elapsed w
  | Built capturedAt goVersion hostname => (capturedAt, goVersion, hostname) = (sr_capturedAt w, sr_goVersion w, sr_hostname w)
  | FileWritten a => a = sr_written w
  | Encoded r => r = sr_encoded w
  end.

(** * The invariant *)

Section invariant.
Context `{ErrorTexts} (fl : flags) (spec : scenarioSpec) (Hchecks : bench_checks fl = inr spec).

Let executions : nat := Z.to_nat (fl_executions fl).
Let concurrency : nat := Z.to_nat (fl_concurrency fl).
Let repeat : nat := Z.to_nat (fl_repeat fl).

(** The events of one round. *)
Let round : nat := (6 * executions + 3)%nat.

Lemma checked : (0 < fl_executions fl ∧ 0 < fl_concurrency fl ∧ 0 < fl_repeat fl)%Z.
Proof.
  unfold bench_checks, check_flags in Hchecks. apply rbind_inr in Hchecks as (u & Hc & _).
  do 5 (apply rbind_inr in Hc as (? & ?Hg%guard_err_inr & Hc)). apply guard_err_inr in Hc. lia.
Qed.

(** A result of runBenchmark on a workflow: every execution has returned a run. *)
Definition measured (result : benchmarkResult) : Prop :=
  ∃ workflowID elapsed l b runs,
    bench_run executions concurrency (bench_start executions) l = Some b ∧ bs_main b = Returned (inr runs) ∧
    result = benchmark_result (benchmark_config fl spec workflowID) elapsed runs.

(** The report of a command that has made all its rounds. *)
Definition complete (suite : benchmarkSuiteResult) : Prop :=
  length (su_Results suite) = repeat ∧ Forall measured (su_Results suite) ∧
  su_Aggregate suite = suite_aggregate (su_Results suite) ∧
  ∃ capturedAt, su_Config suite = suite_config fl capturedAt.

(** The text of the output file, when one was asked for. *)
Definition file_of (suite : benchmarkSuiteResult) (file : option string) : Prop :=
  match file with
  | None => fl_outputFile fl = ""
  | Some text => fl_outputFile fl ≠ "" ∧ Encode suite = inr text
  end.

(** What is left by a command that has succeeded. *)
Definition delivered (rp : report) : Prop :=
  complete (rp_suite rp) ∧ file_of (rp_suite rp) (rp_file rp) ∧
  if fl_jsonOutput fl then Encode (rp_suite rp) = inr (rp_stdout rp) else rp_stdout rp = printSuiteSummary (rp_suite rp).

(** A report whose JSON was asked for and cannot be written: a float of it is not
    a number. *)
Definition no_report : Prop :=
  ∃ suite err, complete suite ∧ Encode suite = inl err ∧ (fl_jsonOutput fl = true ∨ fl_outputFile fl ≠ "").

Definition stage_inv (n : nat) (s : bench_stage) : Prop :=
  match s with
  | Creating i results => n = (i * round)%nat ∧ (i < repeat)%nat ∧ length results = i ∧ Forall measured results
  | Benchmarking i results workflowID b =>
      ∃ l, bench_run executions concurrency (bench_start executions) l = Some b ∧ n = (i * round + 1 + length l)%nat ∧
        (i < repeat)%nat ∧ length results = i ∧ Forall measured results
  | Building results => n = (repeat * round)%nat ∧ length results = repeat ∧ Forall measured results
  | WritingFile suite => n = (repeat * round + 1)%nat ∧ complete suite ∧ fl_outputFile fl ≠ ""
  | Encoding suite file => (n ≤ repeat * round + 2)%nat ∧ complete suite ∧ file_of suite file ∧ fl_jsonOutput fl = true
  | Exited status stderr reported => (n ≤ repeat * round + 3)%nat ∧
      match reported with
      | Some rp => status = 0%Z ∧ stderr = None ∧ delivered rp
      | None => status = 1%Z ∧ is_Some stderr
      end
  end.

Lemma next_repeat_inv i results :
  (i ≤ repeat)%nat → length results = i → Forall measured results → stage_inv (i * round) (next_repeat fl i results).
Proof.
  intros Hi Hl Hm. unfold next_repeat. destruct (Z.ltb_spec (Z.of_nat i) (fl_repeat fl)); cbn.
  - split_and!; [done | lia | done | done].
  - assert (i = repeat) as -> by lia. by split_and!.
Qed.

Lemma exitf_inv n text : (n ≤ repeat * round + 3)%nat → stage_inv n (exitf text).
Proof. intros Hn. cbn. split_and!; [lia | done | by eexists]. Qed.

Lemma show_suite_inv n suite file :
  (n ≤ repeat * round + 2)%nat → complete suite → file_of suite file → stage_inv n (show_suite fl suite file).
Proof.
  intros Hn Hs Hf. unfold show_suite. destruct (fl_jsonOutput fl) eqn:Hj; cbn; [done |].
  split_and!; [lia | done | done |]. split_and!; [done | done |]. by rewrite Hj.
Qed.

Lemma start_inv : stage_inv 0 (bench_command_start fl).
Proof. unfold bench_command_start. rewrite Hchecks. apply (next_repeat_inv 0); [lia | done | by apply Forall_nil_2]. Qed.

Lemma returned_length l b res :
  bench_run executions concurrency (bench_start executions) l = Some b → bs_main b = Returned res →
  length l = (6 * executions + 1)%nat.
Proof. intros Hr Hres. eapply all_gone; [by eapply bench_reach_inv | done]. Qed.

Lemma running_length l b :
  bench_run executions concurrency (bench_start executions) l = Some b → (length l ≤ 6 * executions + 1)%nat.
Proof.
  intros Hr. pose proof (bench_reach_inv _ _ _ _ Hr) as Hinv. rewrite (bi_steps _ _ _ _ Hinv).
  pose proof (proj1 (steps_left (bs_goroutines b))). pose proof (bi_main _ _ _ _ Hinv) as Hm. unfold main_inv in Hm.
  destruct (bs_main b); cbn in *; lia.
Qed.

Lemma round_room i : (i < repeat)%nat → (i * round + round ≤ repeat * round)%nat.
Proof. nia. Qed.

Lemma written_text suite a text : writeJSONFile suite a = inr text → Encode suite = inr text.
Proof. unfold writeJSONFile. intros Hw. by inv_res. Qed.

Lemma command_step_inv n s ev s' :
  stage_inv n s → bench_command_step fl spec s ev = Some s' → stage_inv (S n) s'.
Proof.
  intros Hinv Hs. destruct s as [i results | i results id b | results | suite | suite file | st err rep];
    destruct ev as [[err' | id'] | a | elapsed | at_ gv hn | a | r]; try done; cbn in Hs; cbn [stage_inv] in Hinv.
  - injection Hs as <-. destruct Hinv as (-> & Hi & _). apply exitf_inv. pose proof (round_room i Hi). lia.
  - injection Hs as <-. destruct Hinv as (-> & Hi & Hl & Hm). exists []. cbn. split_and!; done || lia.
  - destruct (bench_step _ _ b a) as [b' |] eqn:Hb; [| done]. injection Hs as <-.
    destruct Hinv as (l & Hr & -> & Hi & Hl & Hm). exists (l ++ [a])%list. rewrite length_app. cbn [length].
    split_and!; [| lia | done | done | done]. rewrite run_app, Hr. cbn. unfold executions, concurrency in *. by rewrite Hb.
  - destruct (bs_main b) as [| | | | res] eqn:Hres; try done. destruct Hinv as (l & Hr & -> & Hi & Hl & Hm).
    pose proof (returned_length l b res Hr Hres) as Hlen. pose proof (round_room i Hi).
    unfold runBenchmark_result in Hs. destruct res as [err | runs]; cbn [rbind] in Hs; injection Hs as <-.
    + apply exitf_inv. unfold round in *. lia.
    + assert (S (i * round + 1 + length l) = (S i * round)%nat) as -> by (unfold round in *; lia).
      apply (next_repeat_inv (S i)); [lia | rewrite length_app; cbn; lia |]. apply list.Forall_app. split; [done |].
      apply Forall_cons_2; [| by apply Forall_nil_2]. by exists id, elapsed, l, b, runs.
  - destruct Hinv as (-> & Hl & Hm). injection Hs as <-.
    assert (Hc : complete (buildSuiteResult gv hn results (suite_config fl at_))) by (split_and!; [done | done | done | by eexists]).
    destruct (String.eqb_spec (fl_outputFile fl) ""); [by apply show_suite_inv; [lia | done |] |]. cbn. split_and!; done || lia.
  - destruct Hinv as (-> & Hc & Ho). destruct (writeJSONFile suite a) as [err | text] eqn:Hw; injection Hs as <-; [apply exitf_inv; lia |].
    apply show_suite_inv; [lia | done |]. split; [done | by eapply written_text].
  - destruct Hinv as (Hn & Hc & Hf & Hj). destruct (Encode suite) as [err | text] eqn:He; [injection Hs as <-; apply exitf_inv; lia |].
    destruct r as [err | []]; injection Hs as <-; [apply exitf_inv; lia |]. cbn. split_and!; [lia | done | done |].
    split_and!; [done | done |]. by rewrite Hj.
Qed.

Lemma command_run_inv n s l s' :
  stage_inv n s → bench_command fl spec s l = Some s' → stage_inv (n + length l) s'.
Proof.
  revert n s. induction l as [| ev l IH]; intros n s Hinv; cbn; [intros [= <-]; by rewrite Nat.add_0_r |].
  destruct (bench_command_step fl spec s ev) as [s1 |] eqn:Hs; [| done]. cbn. intros Hl.
  rewrite Nat.add_succ_r. eapply (IH (S n)); [| done]. by eapply command_step_inv.
Qed.

Lemma command_reach_inv l s :
  bench_command fl spec (bench_command_start fl) l = Some s → stage_inv (length l) s.
Proof. apply (command_run_inv 0), start_inv. Qed.

(** A stage remembers whether something has failed. *)
Definition broken (s : bench_stage) : bool :=
  match s with
  | Benchmarking _ _ _ b => match bs_runErr b with Some _ => true | None => false end
  | Exited _ _ None => true
  | _ => false
  end.

Lemma broken_bench_step b a b' : bench_step executions concurrency b a = Some b' →
  broken (Benchmarking 0 [] "" b') = broken (Benchmarking 0 [] "" b) || failed (Scheduled a).
Proof.
  destruct b as [main wg sem runErr results gs]. destruct a as [| i [err | run] | i | i]; cbn; intros Hb.
  - by destruct main, wg; cbn in Hb; try case_decide; simplify_eq/=; destruct runErr.
  - destruct (gs !! i) as [[] |]; simplify_eq/=. by destruct runErr.
  - destruct (gs !! i) as [[] |]; simplify_eq/=. by destruct runErr.
  - destruct (gs !! i) as [[] |], sem; simplify_eq/=. by destruct runErr.
  - destruct (gs !! i) as [[] |], wg; simplify_eq/=. by destruct runErr.
Qed.

Lemma broken_next_repeat i results : broken (next_repeat fl i results) = false.
Proof. unfold next_repeat. by case_match. Qed.

Lemma broken_show_suite suite file : broken (show_suite fl suite file) = false.
Proof. unfold show_suite. by case_match. Qed.

Lemma written_ok suite a text : writeJSONFile suite a = inr text → failed (FileWritten a) = false.
Proof. destruct a as [[] [] []]; try done; cbn; by destruct (Encode suite). Qed.

Lemma not_written suite a err : writeJSONFile suite a = inl err → failed (FileWritten a) = true ∨ ∃ err, Encode suite = inl err.
Proof. destruct a as [[] [] []]; auto; cbn; destruct (Encode suite); eauto. Qed.

(** A step that breaks the command is a failure, or its report has no JSON. *)
Definition breaks (s s' : bench_stage) (fails : bool) : Prop :=
  if (broken s || fails)%bool then broken s' = true else broken s' = true → no_report.

Lemma breaks_eq s s' fails : broken s' = (broken s || fails)%bool → breaks s s' fails.
Proof. unfold breaks. intros ->. by destruct (_ || _)%bool. Qed.

Lemma broken_step n s ev s' : stage_inv n s → bench_command_step fl spec s ev = Some s' → breaks s s' (failed ev).
Proof.
  intros Hinv Hs. destruct s as [i results | i results id b | results | suite | suite file | st err rep];
    destruct ev as [[err' | id'] | a | elapsed | at_ gv hn | a | r]; try done; cbn in Hs; cbn [stage_inv] in Hinv;
    try (injection Hs as <-; by apply breaks_eq).
  - destruct (bench_step _ _ b a) as [b' |] eqn:Hb; [| done]. injection Hs as <-. apply breaks_eq, (broken_bench_step _ _ _ Hb).
  - destruct Hinv as (l & Hr & _). pose proof (bi_main _ _ _ _ (bench_reach_inv _ _ _ _ Hr)) as Hm. unfold main_inv in Hm.
    destruct (bs_main b) as [| | | | res]; try done. destruct Hm as (_ & _ & ->). apply breaks_eq. cbn. rewrite orb_false_r.
    destruct (bs_runErr b); injection Hs as <-; [done | apply broken_next_repeat].
  - injection Hs as <-. apply breaks_eq. case_match; [apply broken_show_suite | done].
  - destruct Hinv as (_ & Hc & Ho). destruct (writeJSONFile suite a) as [err | text] eqn:Hw; injection Hs as <-.
    + unfold breaks. cbn [broken orb]. destruct (not_written _ _ _ Hw) as [-> | [err' He]]; [done |].
      case_match; [done |]. intros _. exists suite, err'. auto.
    + apply breaks_eq. rewrite (written_ok _ _ _ Hw). apply broken_show_suite.
  - destruct Hinv as (_ & Hc & _ & Hj). destruct (Encode suite) as [err | text] eqn:He; cbn in Hs.
    + injection Hs as <-. unfold breaks. case_match; [done |]. intros _. exists suite, err. auto.
    + apply breaks_eq. by destruct r; injection Hs as <-.
Qed.

Lemma broken_run n s l s' : stage_inv n s → bench_command fl spec s l = Some s' → breaks s s' (existsb failed l).
Proof.
  revert n s. induction l as [| ev l IH]; intros n s Hinv; cbn [bench_command existsb].
  { intros [= <-]. apply breaks_eq. by rewrite orb_false_r. }
  destruct (bench_command_step fl spec s ev) as [s1 |] eqn:Hs; [| done]. cbn. intros Hl.
  pose proof (broken_step _ _ _ _ Hinv Hs) as H1. pose proof (IH (S n) s1 (command_step_inv _ _ _ _ Hinv Hs) Hl) as H2.
  unfold breaks in *. destruct (broken s), (failed ev), (broken s1), (existsb failed l); cbn in *; try discriminate; auto.
Qed.

Lemma start_whole : broken (bench_command_start fl) = false.
Proof. unfold bench_command_start. rewrite Hchecks. apply broken_next_repeat. Qed.

(** Until it has exited, the command can go on, whatever it is answered. *)
Lemma command_progress w n s : stage_inv n s →
  match s with
  | Exited _ _ _ => True
  | _ => ∃ ev s', bench_command_step fl spec s ev = Some s' ∧ heeds w ev
  end.
Proof.
  intros Hinv. destruct checked as (_ & Hc & _). destruct w as [cr ex el ca gv hn fw en].
  destruct s as [i results | i results id b | results | suite | suite file | st err rep]; [| | | | | done].
  - exists (Created cr). destruct cr; by eexists.
  - destruct Hinv as (l & Hr & _).
    destruct (bench_progress executions concurrency ex b l ltac:(lia) (bench_reach_inv _ _ _ _ Hr)) as [[res Hres] | (a & b' & Hb & Ha)].
    + exists (Measured el). cbn. rewrite Hres. destruct res; by eexists.
    + exists (Scheduled a). cbn. unfold executions, concurrency in Hb. rewrite Hb. eexists. split; [done |]. destruct a; naive_solver.
  - exists (Built ca gv hn). by eexists.
  - exists (FileWritten fw). cbn. destruct (writeJSONFile suite fw); by eexists.
  - exists (Encoded en). cbn. destruct (let? text := Encode suite in let? _ := en in inr text); by eexists.
Qed.

Lemma executing_bounded i results id b n : stage_inv n (Benchmarking i results id b) → (executing b ≤ concurrency)%nat.
Proof. intros (l & Hr & _). eapply executing_le, bench_reach_inv, Hr. Qed.

Lemma stage_length n s : stage_inv n s → (n ≤ repeat * (6 * executions + 3) + 3)%nat.
Proof.
  fold round. destruct s as [i results | i results id b | results | suite | suite file | st err rep].
  - intros (-> & Hi & _). pose proof (round_room i Hi). lia.
  - intros (l & Hr%running_length & -> & Hi & _). pose proof (round_room i Hi). unfold round in *. lia.
  - intros (-> & _). lia.
  - intros (-> & _). lia.
  - intros (? & _). lia.
  - by intros (? & _).
Qed.



End invariant.

(** * Examples: two rounds of one execution, and one whose report cannot be written *)

Definition demo_texts : ErrorTexts := Build_ErrorTexts "" "" id id id id.

Definition demo_flags : flags :=
  mkFlags "http://localhost:8080/" scenarioSuccessLinear 1 5 200000000 30000000000 3 1 5 2 false true "report.json" " nightly ".

Definition demo_spec : scenarioSpec :=
  match @bench_checks demo_texts demo_flags with inr spec => spec | inl _ => mkScenarioSpec JNull "" None false end.

Definition demo_round (id : string) (r : error + executionRun) : list bench_event :=
  Created (inr id) :: (Scheduled <$> [MainStep; MainStep; MainStep; Return 0 r; Release 0; Leave 0; MainStep]) ++
  [Measured 1000000000].

Definition demo_events (written : error + unit) : list bench_event :=
  (demo_round "w1" (inr (demo_run 0)) ++ demo_round "w2" (inr (demo_run 0)) ++
   [Built 1700000000000000000 "go1.22" "host"; FileWritten (mkFileAnswers (inr ()) (inr ()) written); Encoded (inr ())])%list.

Definition demo_command (l : list bench_event) : option bench_stage :=
  @bench_command demo_texts demo_flags demo_spec (@bench_command_start demo_texts demo_flags) l.

(** The report has two results, the trimmed label and the trimmed URL; the file and
    the standard output have its text. *)
Example demo_reports :
  match demo_command (demo_events (inr ())) with
  | Some (Exited status None (Some (mkReport suite (Some file) stdout))) =>
      (status, length (su_Results suite), sc_Label (su_Config suite), sc_APIBaseURL (su_Config suite), String.eqb file stdout) =
      (0%Z, 2, "nightly", "http://localhost:8080", true)
  | _ => False
  end.
Proof. by vm_compute. Qed.

Example demo_write_fails :
  demo_command (take 20 (demo_events (inl (ErrNew "no space left on device")))) =
  Some (Exited 1 (Some ("write output file: no space left on device" +:+ of_bytes [chr 10])) None).
Proof. by vm_compute. Qed.

(** Rounds that take no time: the file is created, and has no report. *)
Example demo_no_time :
  demo_command ((λ ev, match ev with Measured _ => Measured 0 | _ => ev end) <$> take 20 (demo_events (inr ()))) =
  Some (Exited 1 (Some ("write output file: json: unsupported value: +Inf" +:+ of_bytes [chr 10])) None).
Proof. by vm_compute. Qed.

(** With no executions the command exits before it creates a workflow. *)
Example demo_refused :
  @bench_command_start demo_texts (mkFlags "" scenarioSuccessLinear 0 5 0 0 3 1 5 1 false false "" "") =
  Exited 1 (Some ("executions must be greater than 0" +:+ of_bytes [chr 10])) None.
Proof. by vm_compute. Qed.

Example demo_workflowName : workflowName scenarioSuccessLinear 1700000000000000000 0 = "bench-success-linear-1700000000000000000-1".
Proof. by vm_compute. Qed.


