(* ===== verification/Handlers.v ===== *)
(** The handlers (internal/handlers/sample_handler.go, notification_handler.go)
    against the interface [idempotencyStore], and the registry the worker program
    builds of them (apps/worker/main.go). *)

From S2P Require Import Prelude GoString GoFloat GoTime GoJson GoError Proc Domain Db Pg Store.
From S2P Require Import Idempotency Worker.

Open Scope string_scope.

(** * Values of type any *)

(** The order of map keys. *)
Definition member_le (p q : string * json) : Prop := String.le p.1 q.1.

#[global] Instance member_le_dec p q : Decision (member_le p q).
Proof. unfold member_le. apply _. Defined.

(** The members of a map, as Marshal writes them: by key, the last of the
    members with one key. *)
Definition sort_members (l : list (string * json)) : list (string * json) :=
  merge_sort member_le (map_to_list (list_to_map (rev l) : gmap string json)).

(** A JSON text decoded into [any] and marshalled again: numbers become
    float64 (out of range is an error), objects become maps. *)
Fixpoint any_value (v : json) : option json :=
  match v with
  | JNum lit => x ← parse_f64 lit; Some (JNum (json_float x))
  | JArr l =>
      l' ← (fix go l := match l with
                        | [] => Some []
                        | x :: l => y ← any_value x; ys ← go l; Some (y :: ys)
                        end) l;
      Some (JArr l')
  | JObj l =>
      l' ← (fix go l := match l with
                        | [] => Some []
                        | (k, x) :: l => y ← any_value x; ys ← go l; Some ((k, y) :: ys)
                        end) l;
      Some (JObj (sort_members l'))
  | _ => Some v
  end.

(** [var input map[string]any; json.Unmarshal(raw, &input)], marshalled again:
    null leaves the map nil, and anything but an object is an error. *)
Definition decode_input (raw : string) : option json :=
  v ← parse raw;
  match v with
  | JNull => Some JNull
  | JObj _ => any_value v
  | _ => None
  end.

(** * The interface *)

Record idempotencyStore (W : Type) : Type := mkIdempotencyStore {
  is_Begin : string → string → string → proc W (string * bool);
  is_Complete : string → string → string → string → proc W unit;
  is_Release : string → string → string → proc W unit;
}.
Arguments mkIdempotencyStore {W} _ _ _.
Arguments is_Begin {W} _.
Arguments is_Complete {W} _.
Arguments is_Release {W} _.

Section handlers.
Context {W : Type} `{!Clock W}.

(** What both handlers do after the nil check: reserve the key, or hand out
    the stored response; then decode the input, build the response [fields] of
    the time and the input, and store it.  The reservation is released, its error
    dropped, when the input or the storing fails. *)
Definition run_once (st : idempotencyStore W) (key : string) (task : TaskInstance)
    (fields : Z → json → list (string * json)) : proc W string :=
  let release err := try (is_Release st key (ti_IdempotencyKey task) (ti_ID task)) (λ _, fail err) in
  let! r := is_Begin st key (ti_IdempotencyKey task) (ti_ID task) in
  let '(existingResponse, replayed) := r in
  if (replayed : bool) then return_ existingResponse
  else
    match (if Nat.eqb (String.length (ti_InputJSON task)) 0 then Some JNull
           else decode_input (ti_InputJSON task)) with
    | None => release (ErrJson (ti_InputJSON task))
    | Some input =>
        let! now := time_Now in
        let response := of_bytes (encode (JObj (sort_members (fields now input)))) in
        try (is_Complete st key (ti_IdempotencyKey task) (ti_ID task) response) (λ r,
        match r with
        | inl err => release err
        | inr _ => return_ response
        end)
    end.

(** SampleEchoHandler *)

Definition SampleEcho_Key : string := "sample.echo".

Definition SampleEcho_fields (task : TaskInstance) (now : Z) (input : json) : list (string * json) :=
  [("handler", JStr SampleEcho_Key);
   ("task_id", JStr (ti_ID task));
   ("processed_at", JStr (format_RFC3339 now));
   ("echo", input)].

Definition SampleEcho_Handle (st : option (idempotencyStore W)) (task : TaskInstance) : proc W string :=
  match st with
  | None => fail (ErrNew "sample handler idempotency store is required")
  | Some st => run_once st SampleEcho_Key task (SampleEcho_fields task)
  end.

Definition SampleEchoHandler (st : option (idempotencyStore W)) : Handler W :=
  mkHandler SampleEcho_Key (SampleEcho_Handle st).

(** NotificationSendHandler *)

Definition NotificationSend_Key : string := "notifications.send".

Definition NotificationSend_fields (task : TaskInstance) (now : Z) (input : json) : list (string * json) :=
  [("handler", JStr NotificationSend_Key);
   ("task_id", JStr (ti_ID task));
   ("notification_id", JStr (ti_IdempotencyKey task));
   ("sent_at", JStr (format_RFC3339 now));
   ("payload", input)].

Definition NotificationSend_Handle (st : option (idempotencyStore W)) (task : TaskInstance) : proc W string :=
  match st with
  | None => fail (ErrNew "notification handler idempotency store is required")
  | Some st => run_once st NotificationSend_Key task (NotificationSend_fields task)
  end.

Definition NotificationSendHandler (st : option (idempotencyStore W)) : Handler W :=
  mkHandler NotificationSend_Key (NotificationSend_Handle st).

(** The registry of the worker program. *)
Definition worker_registry (st : idempotencyStore W) : Registry W :=
  NewRegistry [SampleEchoHandler (Some st); NotificationSendHandler (Some st)].

End handlers.

(** The store as the handlers see it. *)
Definition store_idempotency `{Postgres} : idempotencyStore dbw :=
  mkIdempotencyStore BeginIdempotentTask CompleteIdempotentTask ReleaseIdempotentTask.

Example decode_input_ex :
  (λ v, of_bytes (encode v)) <$> decode_input (of_bytes (encode (JObj
    [("b", JArr [JNum "1.50"; JNull]); ("a", JNum "1"); ("b", JObj [("z", JBool true); ("y", JNum "1e2")])]))) =
  Some (of_bytes (encode (JObj [("a", JNum "1"); ("b", JObj [("y", JNum "100"); ("z", JBool true)])]))).
Proof. vm_compute. reflexivity. Qed.

Example decode_input_number : decode_input "123" = None ∧ decode_input "null" = Some JNull.
Proof. vm_compute. auto. Qed.

(** * Every step of a handler is a step of its store *)

Section steps.
Context {W : Type} `{!Clock W} (E : env → Prop) (R : W → W → Prop).
Context (st : idempotencyStore W).
Context (Hbegin : ∀ k i o, all_steps E R (is_Begin st k i o)).
Context (Hcomplete : ∀ k i o r, all_steps E R (is_Complete st k i o r)).
Context (Hrelease : ∀ k i o, all_steps E R (is_Release st k i o)).
Context (Hnow : all_steps E R time_Now).

Lemma run_once_steps key task fields : all_steps E R (run_once st key task fields).
Proof using All.
  unfold run_once. apply all_steps_bind; [done |]. intros [existing []]; [done |].
  destruct (if Nat.eqb _ 0 then _ else _) as [input |].
  - apply all_steps_bind; [done |]. intros now. apply all_steps_try; [done |].
    intros [err | []]; [| done]. by apply all_steps_try.
  - by apply all_steps_try.
Qed.

Lemma worker_registry_steps key h task :
  worker_registry st !! key = Some h → all_steps E R (h_Handle h task).
Proof using All.
  intros Hh%NewRegistry_in. rewrite !elem_of_cons in Hh.
  destruct Hh as [-> | [-> | []%elem_of_nil]]; apply run_once_steps.
Qed.
End steps.
