(* ===== verification/WorkerSpec.v ===== *)
(** What the worker does with a message: its decisions as a relation, and the
    proof that HandleDispatchedTask follows it. *)

From S2P Require Import Prelude GoString GoJson GoError Proc Domain Db Pg Store Idempotency History Wf.
From S2P Require Import WfStore StoreSpec StoreSpec2 Snapshot Workflow Worker.

Open Scope string_scope.

Section spec.
Context `{ErrorTexts} `{PostgresLaws}.

(** Handlers keep the database well-formed and its history (they may use the
    idempotency records and nothing else of it). *)
Definition wf_evolves (w w' : dbw) : Prop :=
  db_wf (w_db w) → db_wf (w_db w') ∧ evolves (w_db w) (w_db w').

#[global] Instance wf_evolves_po : PreOrder wf_evolves.
Proof.
  split; [by intros w Hw |]. intros x y z Hxy Hyz Hx. destruct (Hxy Hx) as [Hy ?].
  destruct (Hyz Hy) as [? ?]. split; [done | by etrans].
Qed.

Definition handlers_ok (registry : Registry dbw) : Prop :=
  ∀ key h task, registry !! key = Some h → all_steps env_ok wf_evolves (h_Handle h task).

(** The definition an execution runs, as the worker reads it from [d]. *)
Definition task_spec_of (d : db) (t : string) (spec : WorkflowDefinitionSpec) (ts : WorkflowTaskSpec) : Prop :=
  ∃ tid r x dr, uuid_in t = inr tid ∧ task_instances d !! tid = Some r ∧
    workflow_executions d !! tr_workflow_execution_id r = Some x ∧
    workflow_definitions d !! er_workflow_definition_id x = Some dr ∧
    ParseAndValidateWorkflowDefinition (dr_definition_json dr) = inr spec ∧
    FindTaskSpecByName spec (tr_task_name r) = inr ts.

(** The limit of attempts: one when the definition does not say. *)
Definition max_attempts (ts : WorkflowTaskSpec) : Z :=
  if decide (ts_MaxAttempts ts = 0%Z) then 1%Z else ts_MaxAttempts ts.

(** What happened after the attempt [k] was started: from the contents [d] that
    the handler left to the contents [d'] at the end. *)
Inductive finished (spec : WorkflowDefinitionSpec) (ts : WorkflowTaskSpec) (task : TaskInstance)
    (attempt : TaskAttempt) (hr : error + string) (d : db) : string → db → Prop :=
| fin_retry err now d' :
    hr = inl err → (ta_AttemptNumber attempt < max_attempts ts)%Z →
    retry_scheduled (ti_ID task) (ta_ID attempt) (Error err)
      (now + backoff_duration (ts_BackoffSeconds ts)) d d' →
    finished spec ts task attempt hr d "scheduled_retry" d'
| fin_dead err d' :
    hr = inl err → (max_attempts ts ≤ ta_AttemptNumber attempt)%Z →
    attempt_dead (ti_ID task) (ta_ID attempt) (Error err) d d' →
    finished spec ts task attempt hr d "failed" d'
| fin_advance out nt d' :
    hr = inr out → FindNextTaskSpec spec (ti_TaskName task) = inr (Some nt) →
    task_advanced (ti_ID task) (ta_ID attempt) (ts_Name nt) (ts_HandlerKey nt) out d d' →
    finished spec ts task attempt hr d "advanced" d'
| fin_success out d' :
    hr = inr out → FindNextTaskSpec spec (ti_TaskName task) = inr None →
    execution_finished (ti_ID task) (ta_ID attempt) out d d' →
    finished spec ts task attempt hr d "succeeded" d'.

(** What the worker did with a message when it returned nil, from the contents
    [d] to [d']. *)
Inductive handled (registry : Registry dbw) (msg : TaskMessage) (d : db) : string → db → Prop :=
| handled_duplicate task :
    attempt_started (tm_TaskID msg) d (task, zero_attempt, true) d →
    handled registry msg d "duplicate" d
| handled_missing task attempt d1 d' :
    attempt_started (tm_TaskID msg) d (task, attempt, false) d1 →
    registry !! ti_HandlerKey task = None →
    attempt_dead (ti_ID task) (ta_ID attempt)
      ("no handler registered for " +:+ quoted (ti_HandlerKey task)) d1 d' →
    handled registry msg d "missing_handler" d'
| handled_run spec ts task attempt h e w1 hr w2 label d' :
    task_spec_of d (tm_TaskID msg) spec ts →
    attempt_started (tm_TaskID msg) d (task, attempt, false) (w_db w1) →
    registry !! ti_HandlerKey task = Some h →
    run (h_Handle h task) e w1 = (hr, w2) → evolves (w_db w1) (w_db w2) →
    finished spec ts task attempt hr (w_db w2) label d' →
    handled registry msg d label d'.

(** ** Reading the definition *)

Lemma run_get {V A} (table : db → gmap string V) (scan : string → V → A) id e w a w' :
  run (atomic (autocommit (select_row table scan id))) e w = (inr a, w') →
  w_db w' = w_db w ∧ ∃ u r, uuid_in id = inr u ∧ table (w_db w) !! u = Some r ∧ a = scan u r.
Proof.
  intros Hr. apply run_query in Hr as (Hd & n & now & Hs); [| apply select_row_same]. split; [done |].
  unfold select_row in Hs. apply rbind_inr in Hs as (u & Hu & Hs). destruct (table (w_db w) !! u) as [r |] eqn:E; [| done].
  injection Hs as <-. eauto.
Qed.

Lemma run_resolve id e w spec ts w' :
  db_wf (w_db w) → run (GetWorkflowSpecAndTaskSpecByTaskID id) e w = (inr (spec, ts), w') →
  w_db w' = w_db w ∧ task_spec_of (w_db w) id spec ts.
Proof.
  intros Hwf Hr. unfold GetWorkflowSpecAndTaskSpecByTaskID in Hr.
  rewrite run_bind, run_wrap_err in Hr.
  destruct (run (ws_GetTaskInstance id) e w) as [[|task] w1] eqn:E1; [done |].
  apply run_get in E1 as (Hd1 & u & r & Hu & Hur & ->).
  rewrite run_bind, run_wrap_err in Hr.
  destruct (run (ws_GetWorkflowExecution _) e w1) as [[|ex] w2] eqn:E2; [done |].
  apply run_get in E2 as (Hd2 & xid & x & Hx & Hxr & ->). rewrite Hd1 in *.
  rewrite run_bind, run_wrap_err in Hr.
  destruct (run (ws_GetWorkflowDefinition _) e w2) as [[|def] w3] eqn:E3; [done |].
  apply run_get in E3 as (Hd3 & did & dr & Hdid & Hdr & ->). rewrite Hd2 in *.
  cbn [ti_WorkflowExecutionID scanTaskInstance] in Hx.
  destruct (wf_tasks _ Hwf _ _ Hur) as [_ [Hc _ _ _ _ _ _ _ _ _]]. same_res.
  destruct (wf_executions _ Hwf _ _ Hxr) as [_ [Hc' _ _ _ _ _]].
  cbn [we_WorkflowDefinitionID scanWorkflowExecution] in Hdid. same_res.
  cbn [wd_DefinitionJSON scanWorkflowDefinition ti_TaskName scanTaskInstance] in Hr.
  rewrite run_bind, run_wrap_err, run_lift_res in Hr.
  destruct (ParseAndValidateWorkflowDefinition (dr_definition_json dr)) as [|s] eqn:Ep; [done |].
  rewrite run_bind, run_wrap_err, run_lift_res in Hr.
  destruct (FindTaskSpecByName s (tr_task_name r)) as [|t] eqn:Ef; [done |].
  injection Hr as <- <- <-. split; [congruence |]. exists u, r, x, dr. split_and!; done.
Qed.

(** ** The branches *)

Lemma run_persist prefix (p : proc dbw unit) ok e w label err w' :
  run (persist prefix p ok) e w = (inr (label, err), w') →
  (label = "persist_error" ∧ err ≠ None) ∨
  (label = ok ∧ err = None ∧ run p e w = (inr tt, w')).
Proof.
  unfold persist. rewrite run_try. destruct (run p e w) as [[er | []] w1]; cbn; intros [= <- <- <-]; auto.
Qed.

Lemma max_attempts_default ts : ts_MaxAttempts (default_attempts ts) = max_attempts ts.
Proof.
  unfold default_attempts, max_attempts. destruct (Z.eqb_spec (ts_MaxAttempts ts) 0);
    [by rewrite decide_True | by rewrite decide_False].
Qed.

Lemma backoff_default ts : ts_BackoffSeconds (default_attempts ts) = ts_BackoffSeconds ts.
Proof. unfold default_attempts. by destruct (Z.eqb _ _). Qed.

Lemma run_on_error spec ts task attempt herr e w label err w' :
  env_ok e → db_wf (w_db w) →
  run (on_handler_error (default_attempts ts) task attempt herr) e w = (inr (label, err), w') →
  (err = None ∧ finished spec ts task attempt (inl herr) (w_db w) label (w_db w')) ∨ err ≠ None.
Proof.
  intros He Hwf Hr. unfold on_handler_error in Hr. rewrite max_attempts_default, backoff_default in Hr.
  destruct (Z.gtb_spec (max_attempts ts) (ta_AttemptNumber attempt)) as [Hgt | Hle].
  - rewrite run_bind in Hr. cbn [run time_Now dbw_Clock atomic] in Hr.
    apply run_persist in Hr as [[_ ?] | (-> & -> & Hp)]; [by right | left]. split; [done |].
    apply run_tx_ok in Hp as (now & n & n' & Hp%schedule_retry_inv). by eapply fin_retry.
  - apply run_persist in Hr as [[_ ?] | (-> & -> & Hp)]; [by right | left]. split; [done |].
    apply run_tx_ok in Hp as (now & n & n' & Hp%fail_inv); [| done]. by eapply fin_dead.
Qed.

Lemma run_on_success spec ts task attempt out e w label err w' :
  env_ok e → db_wf (w_db w) →
  run (on_handler_success spec task attempt out) e w = (inr (label, err), w') →
  (err = None ∧ finished spec ts task attempt (inr out) (w_db w) label (w_db w')) ∨ err ≠ None.
Proof.
  intros He Hwf Hr. unfold on_handler_success in Hr.
  destruct (FindNextTaskSpec spec (ti_TaskName task)) as [? | [nt |]] eqn:En.
  - right. cbn in Hr. by injection Hr as _ <- _.
  - apply run_persist in Hr as [[_ ?] | (-> & -> & Hp)]; [by right | left]. split; [done |].
    apply run_tx_ok in Hp as (now & n & n' & Hp%complete_and_enqueue_inv); [| done..]. by eapply fin_advance.
  - apply run_persist in Hr as [[_ ?] | (-> & -> & Hp)]; [by right | left]. split; [done |].
    apply run_tx_ok in Hp as (now & n & n' & Hp%complete_inv); [| done]. by eapply fin_success.
Qed.

Lemma run_handle registry msg e w label err w' :
  env_ok e → handlers_ok registry → db_wf (w_db w) →
  run (handle_labelled registry msg) e w = (inr (label, err), w') →
  (err = None ∧ handled registry msg (w_db w) label (w_db w')) ∨ err ≠ None.
Proof.
  intros He Hh Hwf Hr. unfold handle_labelled in Hr. rewrite run_try in Hr.
  destruct (run (GetWorkflowSpecAndTaskSpecByTaskID _) e w) as [[|[spec ts]] w1] eqn:E1.
  { right. cbn in Hr. by injection Hr as _ <- _. }
  apply run_resolve in E1 as [Hd1 Hspec]; [| done]. rewrite run_try in Hr.
  destruct (run (ws_StartTaskAttempt _) e w1) as [[|[[task attempt] dup]] w2] eqn:E2.
  { right. cbn in Hr. by injection Hr as _ <- _. }
  assert (Hwf1 : db_wf (w_db w1)) by congruence.
  assert (Hwf2 : db_wf (w_db w2))
    by (eapply (all_steps_run env_ok (λ w, db_wf (w_db w))); [| exact He | exact E2 | exact Hwf1];
        eapply in_tx_invariant; [apply start_attempt_wf | done]).
  apply run_tx_ok in E2 as (now & n & n' & E2%start_attempt_spec_inv); [| done]. rewrite Hd1 in E2.
  destruct dup.
  { left. cbn in Hr. injection Hr as <- <- <-. split; [done |].
    assert (Hsame : w_db w2 = w_db w ∧ attempt = zero_attempt).
    { destruct E2 as (tid & r & _ & _ & Hc). case_decide; [naive_solver |]. by destruct Hc as (? & ? & _ & [=] & _). }
    destruct Hsame as [Hs ->]. rewrite Hs in *. by eapply handled_duplicate. }
  destruct (registry_Get registry (ti_HandlerKey task)) as [h |] eqn:Eh.
  - rewrite run_try in Hr. destruct (run (h_Handle h task) e w2) as [hr w3] eqn:E3.
    destruct (all_steps_run_rel env_ok wf_evolves _ e w2 hr w3 (Hh _ h task Eh) He E3 Hwf2) as [Hwf3 Hev].
    assert (Hfin : (err = None ∧ finished spec ts task attempt hr (w_db w3) label (w_db w')) ∨ err ≠ None)
      by (destruct hr; [eapply run_on_error | eapply run_on_success]; eauto).
    destruct Hfin as [[-> Hfin] | ?]; [left | by right]. split; [done |]. by eapply handled_run.
  - apply run_persist in Hr as [[_ ?] | (-> & -> & Hp)]; [by right | left]. split; [done |].
    apply run_tx_ok in Hp as (? & ? & ? & Hp%fail_inv); [| done]. by eapply handled_missing.
Qed.

(** C5: whenever HandleDispatchedTask returns nil, and so lets its message be
    acknowledged, one of its decisions took full effect in the database: the
    task was already terminal and nothing changed; there is no handler for it and
    it was dead-lettered; its handler failed on attempt k and it was scheduled
    for a retry when k is below the limit of the definition (1 if none is given)
    and dead-lettered otherwise; or its handler succeeded and the next task of
    the definition was enqueued with its output, or the execution finished when
    there is none. *)
Theorem worker_decides registry msg e w w' :
  env_ok e → handlers_ok registry → db_wf (w_db w) →
  run (HandleDispatchedTask registry msg) e w = (inr tt, w') →
  ∃ label, handled registry msg (w_db w) label (w_db w').
Proof.
  intros He Hh Hwf Hr. unfold HandleDispatchedTask in Hr. rewrite run_bind in Hr.
  destruct (run (handle_labelled registry msg) e w) as [[|[label err]] w1] eqn:E; [done |].
  destruct (run_handle _ _ _ _ _ _ _ He Hh Hwf E) as [[-> Hd] | Hn]; cbn in Hr.
  - injection Hr as <-. eauto.
  - destruct err as [err |]; [done | congruence].
Qed.

End spec.
