(* ===== verification/Limits.v ===== *)
(** Limits of the engine: where error texts, retry times and chains of tasks
    leave the range the rest of the code expects. *)

From S2P Require Import Prelude GoString GoJson GoError Proc Domain Db Pg Store Idempotency History Wf.
From S2P Require Import WfStore StoreSpec StoreSpec2 Snapshot Workflow Worker WorkerSpec.

Open Scope string_scope.

(** * Truncation of error texts *)

Lemma substring_length n s : (n ≤ String.length s)%nat → String.length (String.substring 0 n s) = n.
Proof.
  revert s. induction n as [| n IH]; intros [| c s]; cbn; intros Hn; try lia. by rewrite IH by lia.
Qed.

Lemma substring_prefix n s : ∃ rest, s = String.substring 0 n s +:+ rest.
Proof.
  revert s. induction n as [| n IH]; intros [| c s]; cbn; [by exists "" | by exists (String c s) | by exists "" |].
  destruct (IH s) as [rest Hr]. exists rest. by rewrite Hr at 1.
Qed.

(** truncate returns a prefix of at most [limit] bytes, and the text itself
    when it is short enough. *)
Theorem truncate_spec s limit :
  (String.length (truncate s limit) ≤ limit)%nat ∧ (∃ rest, s = truncate s limit +:+ rest) ∧
  ((String.length s ≤ limit)%nat → truncate s limit = s).
Proof.
  unfold truncate. destruct (Nat.leb_spec (String.length s) limit).
  - split_and!; [done | | done]. exists "". by rewrite append_nil.
  - split_and!; [rewrite substring_length; lia | apply substring_prefix | lia].
Qed.

Section truncation.
Context `{PostgresLaws}.

(** A valid text of 1001 bytes whose last rune is two bytes wide. *)
Definition long_text : string := of_bytes (replicate 999 "x"%char ++ encode_rune 233)%list.

Lemma long_text_split :
  utf8_valid (to_bytes long_text) = true ∧ utf8_valid (to_bytes (truncate long_text 1000)) = false.
Proof. vm_compute. auto. Qed.

(** C39: truncation cuts bytes, not runes: there is a valid error text whose
    truncation is not valid UTF-8, and with such a text neither ScheduleTaskRetry
    nor FailTaskAttempt can ever succeed or change anything, so the outcome of
    the attempt is never recorded. *)
Theorem truncated_rune_never_persists :
  utf8_valid (to_bytes long_text) = true ∧
  utf8_valid (to_bytes (truncate long_text 1000)) = false ∧
  ∀ t a text at_ e w r w', env_ok e → db_wf (w_db w) →
    utf8_valid (to_bytes (truncate text 1000)) = false →
    run (ScheduleTaskRetry t a text at_) e w = (r, w') ∨ run (FailTaskAttempt t a text) e w = (r, w') →
    w_db w' = w_db w ∧ is_ok r = false.
Proof.
  split; [apply long_text_split |]. split; [apply long_text_split |].
  intros t a text at_ e w r w' He Hwf Hinv Hrun.
  assert (Hno : ∀ P : unit → Prop, (∀ x, P x → utf8_valid (to_bytes (truncate text 1000)) = true) →
    match r with inr x => P x | inl _ => w_db w' = w_db w ∨ ∃ x, P x end → w_db w' = w_db w ∧ is_ok r = false).
  { intros P HP Hr. destruct r as [err | x]; [| by apply HP in Hr; congruence].
    destruct Hr as [? | [x Hx]]; [done | by apply HP in Hx; congruence]. }
  destruct Hrun as [Hrun | Hrun].
  - assert (Hs : transacts env_ok (λ d _ d', retry_scheduled t a text at_ d d') (ScheduleTaskRetry t a text at_))
      by (apply in_tx_transacts; eauto using schedule_retry_inv).
    apply (Hno (λ _, retry_scheduled t a text at_ (w_db w) (w_db w'))); [| by apply Hs in Hrun].
    by intros _ (? & ? & ? & _ & _ & ? & _).
  - assert (Hs : transacts env_ok (λ d _ d', db_wf d → attempt_dead t a text d d') (FailTaskAttempt t a text))
      by (apply in_tx_transacts; eauto using fail_inv).
    apply (Hno (λ _, db_wf (w_db w) → attempt_dead t a text (w_db w) (w_db w'))); [| by apply Hs in Hrun].
    intros _ Hd. by destruct (Hd Hwf) as (? & ? & ? & ? & _ & _ & _ & ? & _).
Qed.
End truncation.

(** * Retry times *)

(** The backoff of an accepted definition becomes a duration of that many
    seconds, exactly, up to 9223372036 seconds (292 years). *)
Theorem backoff_exact spec t :
  spec_ok spec → t ∈ ws_Tasks spec → (ts_BackoffSeconds t ≤ 9223372036)%Z →
  backoff_duration (ts_BackoffSeconds t) = (ts_BackoffSeconds t * 1000000000)%Z ∧
  (0 ≤ backoff_duration (ts_BackoffSeconds t))%Z.
Proof.
  intros [_ _ Hall] Ht Hb. destruct (Hall t Ht) as [_ _ _ Hb0 _]. unfold backoff_duration.
  rewrite wrap64_id by (unfold int64_min, int64_max; lia). lia.
Qed.

Definition overflow_definition : string :=
  of_bytes (encode (JObj [("entry_task", JStr "a");
    ("tasks", JArr [JObj [("name", JStr "a"); ("handler_key", JStr "sample.echo");
                          ("max_attempts", JNum "2"); ("backoff_seconds", JNum "9223372037")]])])).


(** * Cyclic definitions *)

Section cycle.
Context `{ErrorTexts} `{PostgresLaws}.

(** Keys that are used stay used. *)
Lemma key_used_evolves d d' k : evolves d d' → key_used d k → key_used d' k.
Proof.
  intros He (u & r & Hu & <-). destruct (ev_tasks _ _ He u r Hu) as (r' & Hr' & []). by exists u, r'.
Qed.

Lemma attempt_started_evolves t d res d' : attempt_started t d res d' → evolves d d'.
Proof.
  intros (tid & r & _ & Hr & Hc). case_decide; [by destruct Hc as [_ ->] |].
  destruct Hc as (a & now & Ha & _ & ->). split; cbn; [done | done | | | done];
    (apply table_kept_insert; [apply _ |]); intros v; [rewrite Hr; intros [= <-]; by split | by rewrite Ha].
Qed.

(** The definition of a task is determined. *)
Lemma task_spec_of_fun d t spec ts spec' ts' :
  task_spec_of d t spec ts → task_spec_of d t spec' ts' → spec' = spec ∧ ts' = ts.
Proof.
  intros (? & ? & ? & ? & ? & ? & ? & ? & ? & ?) (? & ? & ? & ? & ? & ? & ? & ? & ? & ?).
  same_res. simplify_eq. same_res. by simplify_eq.
Qed.

(** The next task of the definition is one that the execution already has; the
    task itself is still to be done and has a handler. *)
Definition comes_back (registry : Registry dbw) (d : db) (t : string) (spec : WorkflowDefinitionSpec) : Prop :=
  ∃ tid r nt, uuid_in t = inr tid ∧ task_instances d !! tid = Some r ∧ ¬ terminal (tr_status r) ∧
    is_Some (registry !! tr_handler_key r) ∧ FindNextTaskSpec spec (tr_task_name r) = inr (Some nt) ∧
    key_used d (makeTaskIdempotencyKey (tr_workflow_execution_id r) (ts_Name nt)).

(** Starting an attempt of a task that is not terminal returns that task. *)
Lemma started_live t d res d1 tid r :
  uuid_in t = inr tid → task_instances d !! tid = Some r → ¬ terminal (tr_status r) →
  attempt_started t d res d1 →
  res.2 = false ∧ ti_ID res.1.1 = tid ∧ ti_TaskName res.1.1 = tr_task_name r ∧
  ti_HandlerKey res.1.1 = tr_handler_key r.
Proof.
  intros Ht Hr Hn (tid' & r' & Ht' & Hr' & Hc). same_res. simplify_eq. rewrite decide_False in Hc by done.
  by destruct Hc as (a & now & _ & -> & _).
Qed.

End cycle.
