(* ===== verification/Examples.v ===== *)
(** The specifications of the store and the worker at concrete inputs: the
    server of Pg.v, and histories that reach the states they speak of. *)

From S2P Require Import Prelude GoString GoJson GoError Proc Domain Db Pg Store Idempotency History Wf.
From S2P Require Import WfStore StoreSpec StoreSpec2 Snapshot IdemSpec Progress Workflow Worker WorkerSpec.
From S2P Require Import Limits.

Open Scope string_scope.

Import Demo.

(** * Histories *)

Definition after (ops : list store_op) : dbw := run_all (op_proc <$> ops) calm (mk_dbw empty_db 0).

Lemma after_wf ops : db_wf (w_db (after ops)).
Proof.
  apply (pool_invariant env_ok is_store_op (λ w, db_wf (w_db w)) (mk_dbw empty_db 0) [] (after ops) []).
  - intros p [op ->]. apply op_keeps_wf.
  - constructor.
  - apply pool_run_all; [apply calm_ok |]. apply Forall_fmap, Forall_forall. intros op _. by exists op.
  - apply empty_wf.
Qed.

(** The first [n] operations of the history of WfStore.v. *)
Definition demo_at (n : nat) : dbw := after (take n demo_history).

(** The first task has failed once and is to be retried. *)
Definition demo_retry : dbw :=
  after (take 3 demo_history ++ [OpScheduleTaskRetry (uuid 3) (uuid 8) "timeout" 0])%list.

(** What a method did, where it returned no error. *)
Lemma transacts_ok {A} (P : db → A → db → Prop) (p : proc dbw A) w :
  transacts env_ok P p → is_ok (run p calm w).1 = true → ∃ a, P (w_db w) a (w_db (run p calm w).2).
Proof.
  intros Hp Hok. destruct (run p calm w) as [[err | a] w'] eqn:Hr; [done |]. exists a.
  exact (Hp calm w (inr a) w' calm_ok Hr).
Qed.

(** * The store *)

Lemma create_execution_spec_witness :
  ∃ res, execution_created (uuid 0) "{}" "reserve" "sample.echo" (w_db (demo_at 1)) res
    (w_db (run (CreateExecutionAndTask (uuid 0) "{}" "reserve" "sample.echo") calm (demo_at 1)).2).
Proof. apply transacts_ok; [apply create_execution_spec | vm_compute; reflexivity]. Defined.

Lemma advance_spec_witness :
  task_advanced (uuid 3) (uuid 8) "ship" "sample.echo" "{}" (w_db (demo_at 3))
    (w_db (run (CompleteTaskAttemptAndEnqueueNextTask (uuid 3) (uuid 8) "ship" "sample.echo" "{}") calm (demo_at 3)).2).
Proof.
  destruct (transacts_ok _ _ (demo_at 3) (advance_spec (uuid 3) (uuid 8) "ship" "sample.echo" "{}")) as [_ Hw];
    [vm_compute; reflexivity | apply Hw, after_wf].
Defined.

Lemma complete_spec_witness :
  execution_finished (uuid 3) (uuid 8) "{}" (w_db (demo_at 3))
    (w_db (run (CompleteTaskAttempt (uuid 3) (uuid 8) "{}") calm (demo_at 3)).2).
Proof.
  destruct (transacts_ok _ _ (demo_at 3) (complete_spec (uuid 3) (uuid 8) "{}")) as [_ Hw];
    [vm_compute; reflexivity | apply Hw, after_wf].
Defined.

(** "ship" is enqueued a second time. *)
Lemma advance_conflict_witness :
  w_db (run (CompleteTaskAttemptAndEnqueueNextTask (uuid 3) (uuid 8) "ship" "sample.echo" "{}") calm (demo_at 4)).2
    = w_db (demo_at 4).
Proof.
  assert (Hx : (tr_workflow_execution_id <$> (task_instances (w_db (demo_at 4)) !! uuid 3)) = Some (uuid 2))
    by (vm_compute; reflexivity).
  destruct (task_instances (w_db (demo_at 4)) !! uuid 3) as [r |] eqn:Hr; [injection Hx as Hx | discriminate Hx].
  assert (Hk : key_used (w_db (demo_at 4)) (makeTaskIdempotencyKey (tr_workflow_execution_id r) "ship"))
    by (rewrite Hx; exists (uuid 15); eexists; split; vm_compute; reflexivity).
  destruct (run (CompleteTaskAttemptAndEnqueueNextTask (uuid 3) (uuid 8) "ship" "sample.echo" "{}") calm (demo_at 4))
    as [res w'] eqn:Hrun.
  assert (Hu : uuid_in (uuid 3) = inr (uuid 3)) by (vm_compute; reflexivity).
  exact (proj1 (advance_conflict (uuid 3) (uuid 3) r (uuid 8) "ship" "sample.echo" "{}" calm (demo_at 4) res w'
    calm_ok (after_wf _) Hu Hr Hk Hrun)).
Defined.

Lemma start_attempt_spec_witness :
  ∃ res, attempt_started (uuid 3) (w_db (demo_at 2)) res (w_db (run (StartTaskAttempt (uuid 3)) calm (demo_at 2)).2).
Proof.
  destruct (transacts_ok _ _ (demo_at 2) (start_attempt_spec (uuid 3))) as [res Hw];
    [vm_compute; reflexivity | exists res; apply Hw, after_wf].
Defined.

Lemma schedule_retry_spec_witness :
  retry_scheduled (uuid 3) (uuid 8) "timeout" 5 (w_db (demo_at 3))
    (w_db (run (ScheduleTaskRetry (uuid 3) (uuid 8) "timeout" 5) calm (demo_at 3)).2).
Proof.
  destruct (transacts_ok _ _ (demo_at 3) (schedule_retry_spec (uuid 3) (uuid 8) "timeout" 5)) as [_ Hw];
    [vm_compute; reflexivity | exact Hw].
Defined.

Lemma fail_spec_witness :
  attempt_dead (uuid 3) (uuid 8) "timeout" (w_db (demo_at 3))
    (w_db (run (FailTaskAttempt (uuid 3) (uuid 8) "timeout") calm (demo_at 3)).2).
Proof.
  destruct (transacts_ok _ _ (demo_at 3) (fail_spec (uuid 3) (uuid 8) "timeout")) as [_ Hw];
    [vm_compute; reflexivity | apply Hw, after_wf].
Defined.

Lemma replay_spec_witness :
  ∃ res, task_replayed (uuid 15) (w_db (demo_at 6)) res
    (w_db (run (ReplayDeadLetteredTask (uuid 15)) calm (demo_at 6)).2).
Proof.
  destruct (transacts_ok _ _ (demo_at 6) (proj1 (replay_spec (uuid 15)))) as [res Hw];
    [vm_compute; reflexivity | exists res; apply Hw, after_wf].
Defined.


(** One retry was due. *)
Example enqueue_due_demo : (run (EnqueueDueTaskRetries 20) calm demo_retry).1 = inr 1%Z.
Proof. vm_compute. reflexivity. Qed.

Lemma list_pending_spec_witness :
  w_db (run (ListPendingOutbox 20) calm (demo_at 2)).2 = w_db (demo_at 2).
Proof.
  destruct (transacts_ok _ _ (demo_at 2) (list_pending_spec 20)) as [events [Hw _]];
    [vm_compute; reflexivity | exact Hw].
Defined.

Lemma list_dead_lettered_spec_witness :
  w_db (run (ListDeadLetteredTasks 50) calm (demo_at 6)).2 = w_db (demo_at 6).
Proof.
  destruct (transacts_ok _ _ (demo_at 6) (list_dead_lettered_spec 50)) as [tasks [Hw _]];
    [vm_compute; reflexivity | exact Hw].
Defined.


(** * Idempotency records *)


(** A completed key, and a release of it by its owner. *)
Definition key_completed : dbw :=
  after (demo_history ++ [OpBeginIdempotentTask "notification" "k1" (uuid 3);
                          OpCompleteIdempotentTask "notification" "k1" (uuid 3) "{}"])%list.

Lemma completed_forever_witness :
  completed_kept (w_db key_completed)
    (w_db (run_all [op_proc (OpReleaseIdempotentTask "notification" "k1" (uuid 3))] calm key_completed)).
Proof.
  apply (completed_forever env_ok key_completed _ []). apply pool_run_all; [apply calm_ok |].
  apply Forall_cons_2; [by eexists | apply Forall_nil_2].
Defined.

Example key_is_completed :
  ir_status <$> (idempotency_records (w_db key_completed) !! ("notification", "k1")) = Some IdempotencyStatusCompleted.
Proof. vm_compute. reflexivity. Qed.

(** * Progress *)

(** [fresh_ids] is decided by looking at the identifiers of the window. *)
Definition fresh_ids_b (e : env) (n : nat) (d : db) : bool :=
  let ids := e_uuid e <$> seq n (6 + 2 * size (task_instances d)) in
  (bool_decide (NoDup ids) && forallb (λ u,
     bool_decide (workflow_definitions d !! u = None) && bool_decide (workflow_executions d !! u = None) &&
     bool_decide (task_instances d !! u = None) && bool_decide (task_attempts d !! u = None) &&
     bool_decide (outbox_events d !! u = None)) ids)%bool.

Lemma fresh_ids_spec e n d : fresh_ids_b e n d = true → fresh_ids e n d.
Proof.
  unfold fresh_ids_b. intros [Hnd%bool_decide_eq_true Hall]%andb_true_iff. rewrite forallb_forall in Hall.
  assert (Hin : ∀ k, calls_from n d k → In (e_uuid e k) (e_uuid e <$> seq n (6 + 2 * size (task_instances d)))).
  { intros k Hk. apply list_elem_of_In, list_elem_of_fmap_2, elem_of_seq. unfold calls_from in Hk. lia. }
  assert (Hno : ∀ k, calls_from n d k → workflow_definitions d !! e_uuid e k = None ∧
    workflow_executions d !! e_uuid e k = None ∧ task_instances d !! e_uuid e k = None ∧
    task_attempts d !! e_uuid e k = None ∧ outbox_events d !! e_uuid e k = None).
  { intros k Hk%Hin%Hall. rewrite !andb_true_iff, !bool_decide_eq_true in Hk. tauto. }
  split; [by intros k Hk%Hno; apply Hk..|]. intros i j Hi Hj Heq. unfold calls_from in *.
  rewrite NoDup_alt in Hnd. enough (i - n = j - n)%nat by lia.
  apply (Hnd _ _ (e_uuid e i)); rewrite list_lookup_fmap, lookup_seq_lt by lia; cbn; [| rewrite Heq];
    do 2 f_equal; lia.
Qed.

Lemma store_op_succeeds_witness : op_ok (OpReplayDeadLetteredTask (uuid 15)) calm (demo_at 6) = true.
Proof.
  apply store_op_succeeds; [apply calm_reliable | apply calm_ok | apply after_wf | |].
  - apply fresh_ids_spec. vm_compute. reflexivity.
  - assert (Hr : (λ r, (tr_status r, tr_handler_key r)) <$> (task_instances (w_db (demo_at 6)) !! uuid 15)
      = Some (TaskStatusDeadLettered, "sample.echo")) by (vm_compute; reflexivity).
    destruct (task_instances (w_db (demo_at 6)) !! uuid 15) as [r |] eqn:E; [| discriminate Hr].
    injection Hr as Hs Hh. exists (uuid 15), r. split; [vm_compute; reflexivity |]. split; [exact E |].
    rewrite Hs, Hh. split; [reflexivity |]. split; [reflexivity |]. split; [reflexivity |]. vm_compute. reflexivity.
Defined.

(** * The worker *)

Definition echo : Registry dbw := NewRegistry [mkHandler "sample.echo" (λ _, return_ "{}")].

Lemma echo_returns key h : echo !! key = Some h → h_Handle h = λ _, return_ "{}".
Proof. intros Hh%NewRegistry_in. apply list_elem_of_singleton in Hh as ->. done. Qed.

Lemma echo_ok : handlers_ok echo.
Proof. intros key h task Hh%echo_returns. by rewrite Hh. Qed.

(** An execution of the cyclic definition, whose first task completes into the
    second one. *)
Definition cyclic_history : list store_op :=
  [OpCreateWorkflowDefinition "orders" "" cyclic_definition;
   OpCreateExecutionAndTask (uuid 0) "{}" "a" "sample.echo";
   OpStartTaskAttempt (uuid 3);
   OpCompleteTaskAttemptAndEnqueueNextTask (uuid 3) (uuid 8) "b" "sample.echo" "{}"].

Definition message_a : TaskMessage := mkTaskMessage (uuid 3) (uuid 2) "sample.echo".
Definition message_b : TaskMessage := mkTaskMessage (uuid 15) (uuid 2) "sample.echo".

(** The worker completes task a into task b. *)
Lemma worker_decides_witness :
  let w := after (take 2 cyclic_history) in
  ∃ label, handled echo message_a (w_db w) label (w_db (run (HandleDispatchedTask echo message_a) calm w).2).
Proof.
  set (w := after (take 2 cyclic_history)). cbv zeta.
  assert (Hok : is_ok (run (HandleDispatchedTask echo message_a) calm w).1 = true) by (vm_compute; reflexivity).
  destruct (run (HandleDispatchedTask echo message_a) calm w) as [[err | []] w'] eqn:Hr; [discriminate Hok |].
  exact (worker_decides echo message_a calm w w' calm_ok echo_ok (after_wf _) Hr).
Defined.

Example worker_enqueued_b :
  (λ r, (tr_task_name r, tr_status r)) <$>
    (task_instances (w_db (run (HandleDispatchedTask echo message_a) calm (after (take 2 cyclic_history))).2) !! uuid 18)
  = Some ("b", TaskStatusPending).
Proof. vm_compute. reflexivity. Qed.


(** * Limits *)

(** The error text of 1001 bytes is not recorded. *)
Lemma truncated_rune_never_persists_witness :
  w_db (run (ScheduleTaskRetry (uuid 3) (uuid 8) long_text 5) calm (demo_at 3)).2 = w_db (demo_at 3).
Proof.
  destruct (run (ScheduleTaskRetry (uuid 3) (uuid 8) long_text 5) calm (demo_at 3)) as [r w'] eqn:Hr.
  destruct truncated_rune_never_persists as (_ & Hcut & Hno).
  apply (Hno (uuid 3) (uuid 8) long_text 5%Z calm (demo_at 3) r w' calm_ok (after_wf _) Hcut). by left.
Defined.

Lemma backoff_exact_witness : backoff_duration 5 = 5000000000%Z.
Proof.
  set (t := mkWorkflowTaskSpec "a" "sample.echo" 2 5 "").
  assert (Hok : spec_ok (mkWorkflowDefinitionSpec "a" [t])).
  { apply (accepted_inv (of_bytes (encode (JObj [("entry_task", JStr "a");
      ("tasks", JArr [JObj [("name", JStr "a"); ("handler_key", JStr "sample.echo");
                            ("max_attempts", JNum "2"); ("backoff_seconds", JNum "5")]])])))).
    vm_compute. reflexivity. }
  apply (backoff_exact (mkWorkflowDefinitionSpec "a" [t]) t Hok); [by apply list_elem_of_singleton | done].
Defined.
