(* ===== verification/HttpExamples.v ===== *)
(** The HTTP API at concrete requests, on the histories of Examples.v. *)

From S2P Require Import Prelude GoString GoJson GoError Proc Domain Db Pg Store Idempotency History Wf WfStore.
From S2P Require Import StoreSpec StoreSpec2 Snapshot IdemSpec Progress Workflow Service HttpApi HttpSpec Examples.

Open Scope string_scope.

Import Demo.

Definition serve (r : request) (w : dbw) : (error + response) * dbw :=
  run (NewRouter (return_ tt) (λ _, return_ (write_header 200)) r) calm w.

Definition status_of (res : (error + response) * dbw) : Z :=
  match res.1 with inr rp => rp_Status rp | inl _ => 0 end.

Definition replay_request (id : string) : request :=
  mkRequest "POST" ("/api/tasks/" +:+ id +:+ "/replay") "" "".
Definition snapshot_request (id : string) : request :=
  mkRequest "GET" ("/api/executions/" +:+ id) "" "".
Definition trigger_request (body : string) : request :=
  mkRequest "POST" "/api/executions" "" (json_text body).
Definition create_request (body : string) : request :=
  mkRequest "POST" "/api/workflows" "" (json_text body).

(** Statuses: the dead-lettered task is replayed, a succeeded one is not, and
    neither an unknown id nor a malformed one is found. *)
Example replay_statuses_ex :
  status_of <$> [serve (replay_request (uuid 15)) (demo_at 6); serve (replay_request (uuid 3)) (demo_at 6);
                 serve (replay_request (uuid 77)) (demo_at 6); serve (replay_request "x") (demo_at 6)] =
  [202; 400; 404; 500]%Z.
Proof. vm_compute. reflexivity. Qed.

Example other_statuses_ex :
  status_of <$> [serve (snapshot_request (uuid 2)) (demo_at 6); serve (snapshot_request (uuid 77)) (demo_at 6);
                 serve (snapshot_request "") (demo_at 6);
                 serve (create_request "{'name':' orders ','definition':null}") (demo_at 6);
                 serve (create_request "{'NAME':'two'} trailing") (demo_at 6);
                 serve (create_request "{'name':'orders'}") (demo_at 6);
                 serve (create_request "[]") (demo_at 6);
                 serve (mkRequest "GET" "/api/dead-letter-tasks" "limit=0" "") (demo_at 6);
                 serve (mkRequest "GET" "/api/dead-letter-tasks" "limit=%35" "") (demo_at 6);
                 serve (mkRequest "OPTIONS" "/nowhere" "" "") (demo_at 6);
                 serve (mkRequest "GET" "/nowhere" "" "") (demo_at 6);
                 serve (mkRequest "PUT" "/api/workflows" "" "") (demo_at 6)] =
  [200; 404; 400; 400; 201; 400; 400; 400; 200; 204; 404; 405]%Z.
Proof. vm_compute. reflexivity. Qed.

(** When the database cannot be reached, a snapshot is a failure of the server
    (500), but triggering an execution is blamed on the client (400). *)
Definition unreachable : env :=
  Env (e_now calm) (e_uuid calm) (λ _, LostBefore false "connection refused") (e_locked calm) (e_time calm).

Example unreachable_statuses :
  let w := demo_at 6 in
  status_of (run (handleExecutionSnapshot (snapshot_request (uuid 2))) unreachable w) = 500%Z ∧
  status_of (run (handleExecutions (trigger_request ("{'workflow_definition_id':'" +:+ uuid 0 +:+ "'}"))) unreachable w)
    = 400%Z.
Proof. vm_compute. auto. Qed.

(** A replay that is accepted has rewound the task. *)
Lemma http_api_truthful_witness :
  ∃ p, api_effect (replay_request (uuid 15)) (w_db (demo_at 6)) p (w_db (serve (replay_request (uuid 15)) (demo_at 6)).2).
Proof.
  assert (Hst : status_of (serve (replay_request (uuid 15)) (demo_at 6)) = 202%Z) by (vm_compute; reflexivity).
  assert (Hwf : db_wf (w_db (demo_at 6))) by apply after_wf.
  revert Hst Hwf. generalize (demo_at 6). intros w Hst Hwf.
  destruct (http_api_truthful (return_ tt) (λ _, return_ (write_header 200)) (replay_request (uuid 15)) calm w
    calm_ok Hwf (does_return _ _ tt eq_refl) ltac:(discriminate)) as (rp & w' & Hrun & Hans).
  unfold serve in *. rewrite Hrun in *. cbn in Hst. unfold answered in Hans. rewrite Hst in Hans.
  destruct Hans as (p & _ & Hp). exists p. exact Hp.
Defined.

Lemma http_statuses_witness :
  status_of (run (handleTaskActions (replay_request (uuid 15))) calm (demo_at 6)) =
  replay_status (w_db (demo_at 6)) (uuid 15).
Proof.
  assert (Hf : fresh_ids calm (w_tick (demo_at 6)) (w_db (demo_at 6))) by (apply fresh_ids_spec; vm_compute; reflexivity).
  assert (Hk : forallb (λ p, (utf8_valid (to_bytes (tr_handler_key p.2)) && no_nul (tr_handler_key p.2) &&
    Z.ltb (Z.of_nat (String.length (tr_handler_key p.2))) (2 ^ 19))%bool)
    (map_to_list (task_instances (w_db (demo_at 6)))) = true) by (vm_compute; reflexivity).
  assert (Hkeys : map_Forall (λ _ row, good_text (tr_handler_key row)) (task_instances (w_db (demo_at 6)))).
  { intros u row Hrow%elem_of_map_to_list%list_elem_of_In. rewrite forallb_forall in Hk. specialize (Hk _ Hrow).
    cbn in Hk. rewrite !andb_true_iff, Z.ltb_lt in Hk. destruct Hk as [[H1 H2] H3]. by split_and!. }
  clear Hk. assert (Hwf : db_wf (w_db (demo_at 6))) by apply after_wf.
  assert (Hpath : parseTaskActionPath (rq_Path (replay_request (uuid 15))) = Some (uuid 15, "replay"))
    by (vm_compute; reflexivity).
  assert (Htrim : TrimSpace (uuid 15) = uuid 15) by (vm_compute; reflexivity).
  revert Hf Hkeys Hwf. generalize (demo_at 6). intros w Hf Hkeys Hwf.
  destruct (proj2 (http_statuses (replay_request (uuid 15)) calm w (uuid 15) calm_reliable Hwf Hf Hkeys)
    eq_refl Hpath) as (rp & w' & Hrun & Hst).
  rewrite Hrun. rewrite Htrim in Hst. exact Hst.
Defined.
