(* ===== verification/BenchExamples.v ===== *)
(** The benchmark client against the API, on the histories of Examples.v. *)

From S2P Require Import Prelude GoString GoTime GoRfc3339 GoJson GoDecoder GoEncoder GoError Proc Domain DomainJson Db Pg Store.
From S2P Require Import Idempotency History Wf WfStore StoreSpec Snapshot Progress Service HttpApi HttpSpec Bench BenchHttp BenchCommands.
From S2P Require Import Examples HttpExamples.

Open Scope string_scope.

Import Demo.

(** A server two hours east of Greenwich. *)
Definition east : Z → Z := λ _, 120%Z.

Definition demo_Do := server_Do east (NewRouter (return_ tt) (λ _, return_ (write_header 200))) "http://api".

Definition demo_snapshot : error + ExecutionSnapshot := (run (GetExecutionSnapshot (uuid 2)) calm (demo_at 6)).1.

(** What the client reports of the execution that failed, from the bytes: its
    status, and the latency of 22 seconds. *)
Example client_reports :
  match (run (getExecutionSnapshot demo_Do "http://api" (uuid 2)) calm (demo_at 6)).1 with
  | inr v => (ev_Status v, ev_StartedAt v, parseReportedLatency (λ _, inl (ErrNew "layout")) v)
  | inl err => ("", "", inl err)
  end = ("failed", "1970-01-01T02:00:01+02:00", inr 22000000000%Z).
Proof. vm_compute. reflexivity. Qed.

Lemma client_sees_database_witness :
  ∃ snap, (run (GetExecutionSnapshot (uuid 2)) calm (demo_at 6)).1 = inr snap ∧
    (run (getExecutionSnapshot demo_Do "http://api" (uuid 2)) calm (demo_at 6)).1 = inr (view_of east snap) ∧
    snapshot_shows (w_db (demo_at 6)) (uuid 2) snap.
Proof.
  assert (Hf : fresh_ids calm (w_tick (demo_at 6)) (w_db (demo_at 6))) by (apply fresh_ids_spec; vm_compute; reflexivity).
  assert (Hu : uuid_in (uuid 2) = inr (uuid 2)) by (vm_compute; reflexivity).
  assert (Hx : is_Some (workflow_executions (w_db (demo_at 6)) !! uuid 2))
    by (apply (bool_decide_unpack _); vm_compute; exact I).
  assert (Hp : match (run (GetExecutionSnapshot (uuid 2)) calm (demo_at 6)).1 with
               | inr s => (printable_snapshot s && bool_decide (is_Some (ExecutionSnapshot_json east s)))%bool
               | inl _ => false end = true) by (vm_compute; reflexivity).
  revert Hf Hx Hp. generalize (after_wf (take 6 demo_history) : db_wf (w_db (demo_at 6))).
  generalize (demo_at 6). intros w Hwf Hf Hx Hp.
  destruct (client_sees_database east (return_ tt) (λ _, return_ (write_header 200)) "http://api"
    (λ _, inl (ErrNew "layout")) (uuid 2) (uuid 2) calm w calm_reliable Hwf Hf ltac:(discriminate) Hu Hx)
    as (snap & w' & Hrun & _ & Hshow & Hview).
  rewrite Hrun in Hp. apply andb_true_iff in Hp as [Hp Hm]. apply bool_decide_eq_true_1 in Hm.
  destruct (Hview Hp Hm) as [Hget _]. exists snap. rewrite Hrun. split; [reflexivity |]. split; [| exact Hshow].
  unfold demo_Do. by rewrite Hget.
Defined.

(** * A workflow created over HTTP *)

Definition bench_definition : json :=
  JObj [("entry_task", JStr "a"); ("tasks", JArr [JObj [("handler_key", JStr "sample.echo"); ("name", JStr "a")]])].

Definition create_bench (w : dbw) : (error + string) * dbw :=
  run (createWorkflow demo_Do "http://api" "bench" "a benchmark" bench_definition) calm w.

