(* ===== verification/Tokens.v ===== *)
(** What keeps a task alive.  A task that is not terminal must be reachable by
    the engine: it has a retry time, or an event in the outbox that is not marked
    dispatched, or a message in the stream that is not acknowledged.  This file is
    about the first two, which are in the database. *)

From S2P Require Import Prelude GoString GoJson GoError Proc Domain Db Pg Store Idempotency History Wf.
From S2P Require Import WfStore StoreSpec StoreSpec2 Service.

Open Scope string_scope.

Definition scheduled (r : task_row) : Prop :=
  tr_status r = TaskStatusPending ∧ is_Some (tr_next_run_at r).

(** An event that asks for the dispatch of [t] and is not marked dispatched. *)
Definition waiting (t : string) (row : outbox_row) : Prop :=
  or_aggregate_id row = t ∧ or_dispatched_at row = None.

(** [carries except d d']: the change from [d] to [d'] takes no task's
    liveness away, [except] apart. *)
Record carries (except : string → Prop) (d d' : db) : Prop := {
  ca_waiting o row t : outbox_events d !! o = Some row → waiting t row →
    ∃ row', outbox_events d' !! o = Some row' ∧ waiting t row';
  ca_events o : is_Some (outbox_events d !! o) → is_Some (outbox_events d' !! o);
  ca_tasks t r' : task_instances d' !! t = Some r' → ¬ terminal (tr_status r') → ¬ except t →
    scheduled r' ∨
    (∃ o row, outbox_events d !! o = None ∧ outbox_events d' !! o = Some row ∧ waiting t row) ∨
    ∃ r, task_instances d !! t = Some r ∧ ¬ terminal (tr_status r) ∧ ¬ scheduled r;
}.

Definition nobody (t : string) : Prop := False.

#[export] Instance scheduled_dec r : Decision (scheduled r).
Proof. unfold scheduled. apply _. Defined.

Lemma carries_refl except d : carries except d d.
Proof.
  split; [eauto | done |]. intros t r Hr Hn _. destruct (decide (scheduled r)); [by left | right; right; eauto].
Qed.

#[export] Instance carries_po : PreOrder (carries nobody).
Proof.
  split; [intros d; apply carries_refl |]. intros d1 d2 d3 [W12 E12 T12] [W23 E23 T23]. split.
  - intros o row t Ho Hw. destruct (W12 _ _ _ Ho Hw) as (row2 & Ho2 & Hw2). eauto.
  - auto.
  - intros t r3 Hr3 Hn3 Hx. destruct (T23 t r3 Hr3 Hn3 Hx) as [? | [(o & row & Ho2 & Ho3 & Hw) | (r2 & Hr2 & Hn2 & Hs2)]];
      [by left | |].
    + right; left. exists o, row. split; [| done]. apply eq_None_not_Some. intros Hs%E12.
      rewrite Ho2 in Hs. by destruct Hs.
    + destruct (T12 t r2 Hr2 Hn2 Hx) as [? | [(o & row & Ho1 & Ho2 & Hw) | ?]]; [done | | eauto].
      right; left. destruct (W23 _ _ _ Ho2 Hw) as (row' & ? & ?). eauto 10.
Qed.

(** ** Changes that carry *)

(** The outbox and the tasks are as they were. *)
Lemma carries_same except d d' :
  outbox_events d' = outbox_events d → task_instances d' = task_instances d → carries except d d'.
Proof.
  intros Ho Ht. destruct (carries_refl except d) as [H1 H2 H3]. split; rewrite ?Ho, ?Ht; done.
Qed.

(** A task is written: terminal, scheduled, or no more scheduled than before. *)
Lemma carries_put_task except d u r d' :
  outbox_events d' = outbox_events d → task_instances d' = <[u := r]> (task_instances d) →
  except u ∨ terminal (tr_status r) ∨ scheduled r → carries except d d'.
Proof.
  intros Ho Ht Hr. split; rewrite ?Ho; [eauto | done |]. rewrite Ht.
  intros t r' [[<- <-] | [_ Hr']]%lookup_insert_Some Hn Hx; [naive_solver |].
  destruct (decide (scheduled r')); [by left | right; right; eauto].
Qed.

(** A new event of [u] makes up for what is written to [u]. *)
Lemma carries_put_event except d u r o row d' :
  outbox_events d !! o = None → waiting u row →
  outbox_events d' = <[o := row]> (outbox_events d) → task_instances d' = <[u := r]> (task_instances d) →
  carries except d d'.
Proof.
  intros Ho Hw Hout Ht. split; rewrite ?Hout, ?Ht.
  - intros o' row' t Ho' Hw'. rewrite lookup_insert_ne by congruence. eauto.
  - intros o' [row' Ho']. rewrite lookup_insert_ne by congruence. eauto.
  - intros t r' [[<- <-] | [_ Hr']]%lookup_insert_Some Hn Hx.
    + right; left. exists o, row. by rewrite lookup_insert_eq.
    + destruct (decide (scheduled r')); [by left | right; right; eauto].
Qed.

Section store.
Context `{PostgresLaws}.

Definition tx_carries (except : string → Prop) {A} (body : tx A) : Prop :=
  ∀ e now n d a d' n', env_ok e → db_wf d → body e now n d = (inr (a, d'), n') → carries except d d'.

(** The chain of two changes to different tasks. *)
Lemma carries_trans d1 d2 d3 : carries nobody d1 d2 → carries nobody d2 d3 → carries nobody d1 d3.
Proof. intros. by etrans. Qed.

Lemma advance_carries t a nt nh out : tx_carries nobody (complete_and_enqueue_body t a nt nh out).
Proof.
  intros e now n d b d' n' He Hwf Hs. apply complete_and_enqueue_inv in Hs; [| done..].
  destruct Hs as (tid & aid & r & js & u & o & pj & nw & _ & _ & _ & Hr & Hu & Ho & _ & _ & ->).
  eapply (carries_trans _ (set_task_instances (<[tid := task_succeeded nw js r]> (task_instances d)) d)).
  - eapply carries_put_task; [done | done | right; left; by left].
  - eapply carries_put_event; [exact Ho | | reflexivity | reflexivity]; by split.
Qed.

Lemma complete_carries t a out : tx_carries nobody (complete_body t a out).
Proof.
  intros e now n d b d' n' He Hwf Hs. apply complete_inv in Hs; [| done].
  destruct Hs as (tid & aid & r & js & nw & _ & _ & _ & Hr & ->).
  eapply carries_put_task; [done | done | right; left; by left].
Qed.

Lemma fail_carries t a text : tx_carries nobody (fail_body t a text).
Proof.
  intros e now n d b d' n' He Hwf Hs. apply fail_inv in Hs; [| done].
  destruct Hs as (tid & aid & r & nw & _ & _ & Hr & _ & ->).
  eapply carries_put_task; [done | done | right; left; by right].
Qed.

Lemma schedule_carries t a text at_ : tx_carries nobody (schedule_retry_body t a text at_).
Proof.
  intros e now n d b d' n' He Hwf Hs. apply schedule_retry_inv in Hs.
  destruct Hs as (tid & aid & nw & _ & _ & _ & ->).
  destruct (task_instances d !! tid) as [r |] eqn:Hr.
  - eapply carries_put_task; [done | cbn; symmetry; by apply insert_alter |]. right; right. by split.
  - apply carries_same; [done |]. cbn. apply alter_id. by rewrite Hr.
Qed.

Lemma create_carries def input name h : tx_carries nobody (create_execution_body def input name h).
Proof.
  intros e now n d b d' n' He Hwf Hs.
  apply create_execution_inv in Hs; [| done].
  destruct Hs as (did & js & x & t & o & pj & nw & _ & _ & _ & _ & _ & Ho & _ & _ & _ & ->).
  eapply carries_put_event; [exact Ho | | reflexivity | reflexivity]; by split.
Qed.

Lemma replay_carries t : tx_carries nobody (replay_body t).
Proof.
  intros e now n d b d' n' He Hwf Hs. apply replay_inv in Hs; [| done].
  destruct Hs as (tid & r & o & pj & nw & _ & _ & _ & Ho & _ & _ & ->).
  eapply carries_put_event; [exact Ho | | reflexivity | reflexivity]; by split.
Qed.

(** Starting an attempt takes away only what its own task had. *)
Lemma start_carries t tid : uuid_in t = inr tid → tx_carries (eq tid) (start_attempt_body t).
Proof.
  intros Ht e now n d b d' n' He Hwf Hs. apply start_attempt_spec_inv in Hs; [| done].
  destruct Hs as (tid' & r & Ht' & Hr & Hc). same_res. case_decide.
  - destruct Hc as [_ ->]. apply carries_refl.
  - destruct Hc as (a & nw & _ & _ & ->). eapply carries_put_task; [done | done | by left].
Qed.

Lemma enqueue_due_carries limit : tx_carries nobody (enqueue_due_body limit).
Proof.
  intros e now n d b d' n' He Hwf Hs. apply enqueue_due_inv in Hs; [| done..].
  destruct Hs as (nw & locked & items & _ & [Ht _ (os & Hlen & Hnd & Hnew & Hold & Hev)] & _).
  assert (Hsame : ∀ o, is_Some (outbox_events d !! o) → outbox_events d' !! o = outbox_events d !! o).
  { intros o Ho. apply Hold. intros Hin%Hnew. rewrite Hin in Ho. by destruct Ho. }
  split.
  - intros o row t Ho Hw. exists row. by rewrite Hsame by eauto.
  - intros o Ho. by rewrite Hsame.
  - intros t r' Hr' Hn _. rewrite Ht in Hr'. case_decide as Hin.
    + right; left. apply list_elem_of_fmap in Hin as ([u r] & -> & Hi).
      apply list_elem_of_lookup in Hi as [i Hi].
      destruct (lookup_lt_is_Some_2 os i) as [o Ho]; [rewrite Hlen; by eapply lookup_lt_Some |].
      destruct (Hev i o u r Ho Hi) as (pj & Ho' & _). exists o. eexists. split; [| split; [exact Ho' | by split]].
      apply Hnew. by eapply list_elem_of_lookup_2.
    + destruct (decide (scheduled r')); [by left | right; right; eauto].
Qed.

(** Everything a process outside the worker and the publisher's marking does. *)
Definition sound (d d' : db) : Prop :=
  db_wf d → db_wf d' ∧ evolves d d' ∧ carries nobody d d'.

#[global] Instance sound_po : PreOrder sound.
Proof.
  split; [by intros d Hd |]. intros x y z Hxy Hyz Hx. destruct (Hxy Hx) as (Hy & ? & ?).
  destruct (Hyz Hy) as (? & ? & ?). split_and!; [done | by etrans | by etrans].
Qed.

Definition soundly {A} (p : proc dbw A) : Prop :=
  all_steps env_ok (λ w w', sound (w_db w) (w_db w')) p.

Lemma tx_sound {A} (body : tx A) :
  tx_keeps body → tx_rel evolves body → tx_carries nobody body → soundly (atomic (in_tx body)).
Proof.
  intros Hk He Hc. apply all_steps_single. intros e w r w' Hok Hr.
  assert (Hw : writes env_ok (λ d _ d', sound d d') (in_tx body)).
  { apply in_tx_writes. intros ??????? Hen Hb Hd. split_and!; eauto. }
  specialize (Hw e w r w' Hok Hr). destruct r; [| done]. destruct Hw as [-> | [? ?]]; done.
Qed.

Lemma stmt_sound {A} (s : stmt A) :
  (∀ e n now d a d', env_ok e → s e n now d = inr (a, d') → sound d d') → soundly (atomic (autocommit s)).
Proof.
  intros Hs. apply all_steps_single. intros e w r w' Hok Hr.
  assert (Hw : writes env_ok (λ d _ d', sound d d') (autocommit s)) by (apply autocommit_writes; eauto).
  specialize (Hw e w r w' Hok Hr). destruct r; [| done]. destruct Hw as [-> | [? ?]]; done.
Qed.

Lemma query_sound {A} (s : stmt A) : stmt_rel eq s → soundly (atomic (autocommit s)).
Proof. intros Hs. apply stmt_sound. by intros e n now d a d' _ ->%Hs. Qed.


Ltac body_evolves :=
  cbv beta zeta delta [create_execution_body replay_body complete_body complete_and_enqueue_body
    enqueue_due_body schedule_retry_body fail_body enqueue_dispatch select_execution_of enqueue_retry];
  auto 30 with rel.

Lemma CreateExecutionAndTask_sound def input name h : soundly (CreateExecutionAndTask def input name h).
Proof. apply tx_sound; [apply create_execution_wf | body_evolves | apply create_carries]. Qed.
Lemma ReplayDeadLetteredTask_sound t : soundly (ReplayDeadLetteredTask t).
Proof. apply tx_sound; [apply replay_wf | body_evolves | apply replay_carries]. Qed.
Lemma EnqueueDueTaskRetries_sound l : soundly (EnqueueDueTaskRetries l).
Proof. apply tx_sound; [apply enqueue_due_wf | body_evolves | apply enqueue_due_carries]. Qed.
Lemma ScheduleTaskRetry_sound t a x at_ : soundly (ScheduleTaskRetry t a x at_).
Proof. apply tx_sound; [apply schedule_retry_wf | body_evolves | apply schedule_carries]. Qed.
Lemma FailTaskAttempt_sound t a x : soundly (FailTaskAttempt t a x).
Proof. apply tx_sound; [apply fail_wf | body_evolves | apply fail_carries]. Qed.
Lemma CompleteTaskAttempt_sound t a o : soundly (CompleteTaskAttempt t a o).
Proof. apply tx_sound; [apply complete_wf | body_evolves | apply complete_carries]. Qed.
Lemma Advance_sound t a nt nh o : soundly (CompleteTaskAttemptAndEnqueueNextTask t a nt nh o).
Proof. apply tx_sound; [apply complete_and_enqueue_wf | body_evolves | apply advance_carries]. Qed.

Lemma CreateWorkflowDefinition_sound n x d : soundly (CreateWorkflowDefinition n x d).
Proof.
  apply stmt_sound. intros e k now d0 a d' He Hs Hwf. split_and!.
  - by eapply insert_definition_wf.
  - by eapply insert_definition_evolves.
  - unfold insert_definition in Hs. inv_res. repeat case_match; inv_res; try done. by apply carries_same.
Qed.

Lemma RecordOutboxFailure_sound i x : soundly (RecordOutboxFailure i x).
Proof.
  apply stmt_sound. intros e k now d0 a d' He Hs Hwf. split_and!.
  - eapply update_outbox_wf; [| exact Hs | done]. intros ? f Hf r j Hj. cbn beta in Hf. inv_res. by split.
  - by eapply record_failure_evolves.
  - unfold update_outbox in Hs. inv_res. destruct (outbox_events d0 !! _) as [row |] eqn:Ho; inv_res;
      [| apply carries_refl]. split; cbn.
    + intros o row' t Ho' [Ha Hd]. destruct (decide (o = x0)) as [-> | Hne].
      * simplify_eq. eexists. rewrite lookup_insert_eq. split; [done |]. by split.
      * exists row'. by rewrite lookup_insert_ne.
    + intros o Hs. destruct (decide (o = x0)) as [-> | Hne];
        [rewrite lookup_insert_eq; eauto | by rewrite lookup_insert_ne].
    + intros t r' Hr' Hn _. destruct (decide (scheduled r')); [by left | right; right; eauto].
Qed.

Hint Resolve CreateExecutionAndTask_sound ReplayDeadLetteredTask_sound EnqueueDueTaskRetries_sound
  ScheduleTaskRetry_sound FailTaskAttempt_sound CompleteTaskAttempt_sound Advance_sound
  CreateWorkflowDefinition_sound RecordOutboxFailure_sound query_sound : rel.
Hint Extern 1 (all_steps env_ok (λ w w', sound (w_db w) (w_db w')) _) =>
  first [apply CreateExecutionAndTask_sound | apply ReplayDeadLetteredTask_sound
        | apply CreateWorkflowDefinition_sound | apply query_sound; solve [auto with rel]] : rel.

(** ** The requests of the API *)

Inductive api_request : Type :=
| ReqCreateDefinition (req : CreateWorkflowDefinitionRequest)
| ReqTrigger (req : TriggerExecutionRequest)
| ReqSnapshot (executionID : string)
| ReqDeadLettered (limit : Z)
| ReqReplay (taskID : string).

Definition api_proc (req : api_request) : proc dbw unit :=
  match req with
  | ReqCreateDefinition r => discard (service_CreateWorkflowDefinition r)
  | ReqTrigger r => discard (TriggerExecution r)
  | ReqSnapshot x => discard (service_GetExecutionSnapshot x)
  | ReqDeadLettered l => discard (GetDeadLetteredTasks l)
  | ReqReplay t => discard (service_ReplayDeadLetteredTask t)
  end.

Lemma api_sound req : soundly (api_proc req).
Proof.
  unfold soundly. destruct req; apply all_steps_discard; cbv beta zeta delta [
    service_CreateWorkflowDefinition TriggerExecution service_GetExecutionSnapshot GetExecutionSnapshot
    GetDeadLetteredTasks service_ReplayDeadLetteredTask ListDeadLetteredTasks GetWorkflowDefinition
    GetWorkflowExecution wrap_err]; auto 20 with rel.
Qed.

End store.
