(* ===== verification/World.v ===== *)
(** The two servers the processes share: Postgres (Db.v) and Redis.  Redis is a
    parameter: its stream commands, and what the program relies on of them. *)

From S2P Require Import Prelude GoString GoError Proc Db.

Open Scope string_scope.

(** * Redis *)

(** A value of a stream entry as the client library hands it out: a string, or
    something else with the text [fmt.Sprint] gives it. *)
Inductive redis_value : Type :=
| RString (s : string)
| ROther (printed : string).

(** redis.XMessage. *)
Record XMessage : Type := mkXMessage {
  xm_ID : string;
  xm_Values : gmap string redis_value;
}.

(** The commands on streams, as the client library offers them: an error, or
    the answer and the new state of the server.  XREADGROUP is the read of one
    stream from the id ">" (group, consumer, stream, count, block), XAUTOCLAIM the
    claim from "0-0" (group, consumer, stream, idle time, count); durations are
    nanoseconds. *)
Class Redis := {
  redis_state : Type;
  XGroupCreateMkStream : string → string → string → redis_state → error + (unit * redis_state);
  XAdd : string → gmap string redis_value → redis_state → error + (string * redis_state);
  XReadGroup : string → string → string → Z → Z → redis_state → error + (list XMessage * redis_state);
  XAutoClaim : string → string → string → Z → Z → redis_state → error + (list XMessage * redis_state);
  XAck : string → string → string → redis_state → error + (Z * redis_state);
}.

(** What the program relies on.  [unacked s stream group] are the entries of
    the stream that the group has not acknowledged: those not delivered yet and
    those delivered to a consumer that has not acknowledged them. *)
Class RedisLaws `{Redis} := {
  unacked : redis_state → string → string → gmap string (gmap string redis_value);
  (** A group created at entry 0 sees all entries of the stream. *)
  xgroup_unacked stream group s u s' st g :
    XGroupCreateMkStream stream group "0" s = inr (u, s') → unacked s' st g = unacked s st g;
  (** XADD appends an entry under a new id, for every group of the stream. *)
  xadd_unacked stream values s i s' g :
    XAdd stream values s = inr (i, s') →
    unacked s stream g !! i = None ∧ unacked s' stream g = <[i := values]> (unacked s stream g);
  xadd_other stream values s i s' st g :
    XAdd stream values s = inr (i, s') → st ≠ stream → unacked s' st g = unacked s st g;
  (** Reading and claiming deliver entries that are not acknowledged, and
      acknowledge none. *)
  xread_unacked group consumer stream count block s l s' :
    XReadGroup group consumer stream count block s = inr (l, s') →
    (∀ m, m ∈ l → unacked s stream group !! xm_ID m = Some (xm_Values m)) ∧
    ∀ st g, unacked s' st g = unacked s st g;
  xclaim_unacked group consumer stream min count s l s' :
    XAutoClaim group consumer stream min count s = inr (l, s') →
    (∀ m, m ∈ l → unacked s stream group !! xm_ID m = Some (xm_Values m)) ∧
    ∀ st g, unacked s' st g = unacked s st g;
  (** XACK removes the entry from what is unacknowledged, for its group. *)
  xack_unacked stream group i s k s' :
    XAck stream group i s = inr (k, s') → unacked s' stream group = delete i (unacked s stream group);
  xack_other stream group i s k s' st g :
    XAck stream group i s = inr (k, s') → (st, g) ≠ (stream, group) → unacked s' st g = unacked s st g;
}.

(** * The shared state *)

Section world.
Context `{Redis}.

Record world : Type := mk_world {
  wd_db : dbw;
  wd_redis : redis_state;
}.

(** A process of the store, in the world. *)
Fixpoint on_db {A} (p : proc dbw A) : proc world A :=
  match p with
  | Ret r => Ret r
  | Atomic m k => Atomic (λ e w, let '(r, d) := m e (wd_db w) in (r, mk_world d (wd_redis w)))
                    (λ r, on_db (k r))
  end.

(** One command sent to Redis; the numbers of calls are shared with the store. *)
Definition redis_call {A} (c : redis_state → error + (A * redis_state)) (e : env) (w : world)
    : (error + A) * world :=
  let n := w_tick (wd_db w) in
  let d := mk_dbw (w_db (wd_db w)) (S n) in
  match e_outcome e n with
  | Delivered =>
      match c (wd_redis w) with
      | inl err => (inl err, mk_world d (wd_redis w))
      | inr (a, s) => (inr a, mk_world d s)
      end
  | LostBefore k t => (inl (ErrTransport k t), mk_world d (wd_redis w))
  | LostAfter k t =>
      match c (wd_redis w) with
      | inl _ => (inl (ErrTransport k t), mk_world d (wd_redis w))
      | inr (_, s) => (inl (ErrTransport k t), mk_world d s)
      end
  end.

Definition on_redis {A} (c : redis_state → error + (A * redis_state)) : proc world A := atomic (redis_call c).

(** ** Lemmas *)

Lemma run_on_db {A} (p : proc dbw A) e w :
  run (on_db p) e w = let '(r, d) := run p e (wd_db w) in (r, mk_world d (wd_redis w)).
Proof.
  revert w. induction p as [r | T m k IH]; intros w; simpl; [by destruct w |].
  destruct (m e (wd_db w)) as [r d] eqn:Em. by rewrite IH.
Qed.

Lemma on_db_bind {A B} (p : proc dbw A) (k : A → proc dbw B) e w :
  run (on_db (bind p k)) e w = run (bind (on_db p) (λ a, on_db (k a))) e w.
Proof.
  rewrite run_bind, !run_on_db, run_bind. destruct (run p e (wd_db w)) as [[err | a] d]; [done |].
  by rewrite run_on_db.
Qed.
End world.
