(* ===== verification/Queue.v ===== *)
(** The queue (internal/queue/redis_streams.go): dispatching a task to the
    stream, and consuming it as a member of the consumer group. *)

From S2P Require Import Prelude GoString GoJson GoError Proc Domain Db Worker World.

Open Scope string_scope.

(** * Messages *)

Definition payload_of_message (m : TaskMessage) : DispatchTaskPayload :=
  mkDispatchTaskPayload (tm_TaskID m) (tm_ExecutionID m) (tm_HandlerKey m).
Definition message_of_payload (p : DispatchTaskPayload) : TaskMessage :=
  mkTaskMessage (dp_TaskID p) (dp_ExecutionID p) (dp_HandlerKey p).

(** [json.Marshal(message)]: the struct has the fields and tags of the dispatch
    payload. *)
Definition marshal_message (m : TaskMessage) : string := marshal_payload (payload_of_message m).
Definition unmarshal_message (raw : string) : option TaskMessage :=
  message_of_payload <$> unmarshal_payload raw.

Definition decodeTaskMessage (message : XMessage) : error + TaskMessage :=
  match xm_Values message !! "payload" with
  | None => inl (ErrNew ("stream message " +:+ xm_ID message +:+ " missing payload"))
  | Some payloadValue =>
      let payloadText := match payloadValue with RString s => s | ROther printed => printed end in
      match unmarshal_message payloadText with
      | None => inl (ErrWrap ("decode stream message " +:+ xm_ID message) (ErrJson payloadText))
      | Some task => inr task
      end
  end.

(** A dispatched message that the stream hands out unchanged is decoded to the
    message it was. *)
Lemma decode_dispatched i m :
  payload_valid (payload_of_message m) = true →
  decodeTaskMessage (mkXMessage i {["payload" := RString (marshal_message m)]}) = inr m.
Proof.
  intros Hv. unfold decodeTaskMessage. cbn [xm_Values]. rewrite lookup_singleton_eq.
  unfold unmarshal_message, marshal_message, unmarshal_payload. rewrite parse_marshal_payload by done.
  cbn [mbind option_bind payload_json decode_struct].
  rewrite (decode_payload_members (payload_of_message m)) by reflexivity. by destruct m.
Qed.

(** * Options *)

Record ConsumeOptions : Type := mkConsumeOptions {
  co_Consumer : string;
  co_ReclaimMinIdle : Z;     (* nanoseconds *)
  co_ReclaimCount : Z;
  co_ReadCount : Z;
  co_Block : Z;              (* nanoseconds *)
}.

Definition normalizeConsumeOptions (opts : ConsumeOptions) : ConsumeOptions :=
  mkConsumeOptions (co_Consumer opts)
    (if Z.leb (co_ReclaimMinIdle opts) 0 then 30000000000 else co_ReclaimMinIdle opts)
    (if Z.leb (co_ReclaimCount opts) 0 then 10 else co_ReclaimCount opts)
    (if Z.leb (co_ReadCount opts) 0 then 1 else co_ReadCount opts)
    (if Z.leb (co_Block opts) 0 then 5000000000 else co_Block opts).

(** * The client *)

Record RedisStreams : Type := mkRedisStreams {
  rs_stream : string;
  rs_group : string;
}.

Section queue.
Context `{Redis} `{ErrorTexts}.

(** [strings.Contains(err.Error(), "BUSYGROUP")]. *)
Fixpoint contains (sub s : string) : bool :=
  (String.prefix sub s || match s with EmptyString => false | String _ s' => contains sub s' end)%bool.

Definition EnsureGroup (r : RedisStreams) : proc world unit :=
  try (on_redis (XGroupCreateMkStream (rs_stream r) (rs_group r) "0")) (λ res,
  match res with
  | inl err => if contains "BUSYGROUP" (Error err) then return_ tt else fail err
  | inr _ => return_ tt
  end).

Definition DispatchTask (r : RedisStreams) (message : TaskMessage) : proc world unit :=
  let payload := marshal_message message in
  let! _ := on_redis (XAdd (rs_stream r) {["payload" := RString payload]}) in
  return_ tt.

(** [errors.Is(err, redis.Nil)]. *)
Definition IsRedisNil (err : error) : bool := match cause err with ErrRedisNil => true | _ => false end.

Definition claimPending (r : RedisStreams) (opts : ConsumeOptions) : proc world (list XMessage) :=
  try (on_redis (XAutoClaim (rs_group r) (co_Consumer opts) (rs_stream r)
                   (co_ReclaimMinIdle opts) (co_ReclaimCount opts))) (λ res,
  match res with
  | inl err => if IsRedisNil err then return_ [] else fail err
  | inr messages => return_ messages
  end).

(** One message: if it cannot be decoded, or cannot be acknowledged, the error
    ends the batch; one whose handling failed is left unacknowledged. *)
Definition process_message (r : RedisStreams) (handle : TaskMessage → proc world unit)
    (message : XMessage) : proc world unit :=
  let! task := lift_res (decodeTaskMessage message) in
  try (handle task) (λ res,
  match res with
  | inl _ => return_ tt
  | inr _ => let! _ := on_redis (XAck (rs_stream r) (rs_group r) (xm_ID message)) in return_ tt
  end).

Fixpoint processMessages (r : RedisStreams) (messages : list XMessage)
    (handle : TaskMessage → proc world unit) : proc world unit :=
  match messages with
  | [] => return_ tt
  | message :: rest => let! _ := process_message r handle message in processMessages r rest handle
  end.

(** One round of the loop of Consume: reclaimed messages first, new ones when
    there are none. *)
Definition consume_round (r : RedisStreams) (opts : ConsumeOptions)
    (handle : TaskMessage → proc world unit) : proc world unit :=
  let! reclaimed := claimPending r opts in
  match reclaimed with
  | _ :: _ => processMessages r reclaimed handle
  | [] =>
      try (on_redis (XReadGroup (rs_group r) (co_Consumer opts) (rs_stream r) (co_ReadCount opts)
                       (co_Block opts))) (λ res,
      match res with
      | inl err => if IsRedisNil err then return_ tt else fail err
      | inr messages => processMessages r messages handle
      end)
  end.

Fixpoint rounds (n : nat) (round : proc world unit) : proc world unit :=
  match n with
  | O => return_ tt
  | S n' => let! _ := round in rounds n' round
  end.

(** Consume, for [n] rounds of its endless loop; the process may be stopped at
    any point, as the cancellation of its context does at the top of a round. *)
Definition Consume (r : RedisStreams) (opts : ConsumeOptions) (handle : TaskMessage → proc world unit)
    (n : nat) : proc world unit :=
  let opts := normalizeConsumeOptions opts in
  let! _ := EnsureGroup r in
  rounds n (consume_round r opts handle).

End queue.
