(* ===== verification/Programs.v ===== *)
(** The life of the two processes (apps/api/main.go, apps/worker/main.go): the
    steps of main, of the goroutine that shuts the HTTP server down, and of the
    goroutine that publishes or consumes, in any order.

    What a call that waits for a server does is in Wait.v and Migrate.v; here only
    whether it succeeds.  The end of main, by return or by os.Exit, ends the whole
    process, whatever the other goroutines are doing. *)

From S2P Require Import Prelude GoString GoError Config Pg ConfigSpec.

(** * The machine *)

Inductive command : Type := Api | WorkerProgram.

(** The deferred calls. *)
Inductive deferred : Type := StreamsClose | PoolClose | ShutdownTelemetry | Stop.

(** Where main is. *)
Inductive main_stage : Type :=
| LoadingConfig | SettingUpTelemetry | OpeningPool | ApplyingMigrations | WaitingForRedis
| LaunchingFirst | LaunchingSecond     (* the two go statements *)
| Listening                            (* ListenAndServe, before it listens *)
| Serving
| Returning                            (* the deferred calls *)
| Exited (status : Z).

(** The goroutine that waits for the end of the context and calls Shutdown, which
    returns when no request is left, or after five seconds. *)
Inductive watcher : Type := WatcherOff | Watching | Draining | WatcherDone.

(** The outbox publisher of the API, the consumer of the worker. *)
Inductive background : Type := BackgroundOff | BackgroundRuns | BackgroundOver.

Record process : Type := mkProcess {
  ps_main : main_stage;
  ps_config : option Config;
  ps_deferred : list deferred;      (* to be called when main returns, in this order *)
  ps_cancelled : bool;              (* the context of signal.NotifyContext *)
  ps_watcher : watcher;
  ps_background : background;
  ps_serverClosed : bool;           (* Shutdown has been called *)
  ps_requests : nat;                (* requests that are being served *)
}.

Inductive event : Type :=
| MainStep (ok : bool)              (* main goes on; whether its call succeeded *)
| Signal                            (* SIGINT or SIGTERM *)
| WatcherStep
| DrainTimeout
| BackgroundEnds (canceled : bool)  (* whether its error is context.Canceled *)
| RequestArrives
| RequestEnds.

Section machine.
Context `{ErrorTexts} (getenv : string → string) (now : Z) (prog : command).

Definition load : error + Config :=
  match prog with Api => LoadAPIConfig getenv | WorkerProgram => LoadWorkerConfig getenv now end.

Definition process_start : process := mkProcess LoadingConfig None [Stop] false WatcherOff BackgroundOff false 0.

(** [logger.Error] and [os.Exit(1)]: no deferred call is made. *)
Definition exit_failure (p : process) : process :=
  mkProcess (Exited 1) (ps_config p) (ps_deferred p) (ps_cancelled p) (ps_watcher p) (ps_background p)
    (ps_serverClosed p) (ps_requests p).

Definition at_stage (m : main_stage) (push : list deferred) (p : process) : process :=
  mkProcess m (ps_config p) (push ++ ps_deferred p)%list (ps_cancelled p) (ps_watcher p) (ps_background p)
    (ps_serverClosed p) (ps_requests p).

Definition launch_watcher (p : process) : process :=
  mkProcess (ps_main p) (ps_config p) (ps_deferred p) (ps_cancelled p) Watching (ps_background p)
    (ps_serverClosed p) (ps_requests p).
Definition launch_background (p : process) : process :=
  mkProcess (ps_main p) (ps_config p) (ps_deferred p) (ps_cancelled p) (ps_watcher p) BackgroundRuns
    (ps_serverClosed p) (ps_requests p).

(** main. *)
Definition main_event (ok : bool) (p : process) : option process :=
  let call next push := Some (if ok then at_stage next push p else exit_failure p) in
  match ps_main p with
  | LoadingConfig =>
      match load, ok with
      | inl _, false => Some (exit_failure p)
      | inr cfg, true =>
          Some (mkProcess SettingUpTelemetry (Some cfg) (ps_deferred p) (ps_cancelled p) (ps_watcher p)
                  (ps_background p) (ps_serverClosed p) (ps_requests p))
      | _, _ => None
      end
  | SettingUpTelemetry => call OpeningPool [ShutdownTelemetry]
  | OpeningPool => call ApplyingMigrations [PoolClose]
  | ApplyingMigrations => call WaitingForRedis [StreamsClose]
  | WaitingForRedis => call LaunchingFirst []
  | LaunchingFirst =>
      if ok then Some (at_stage LaunchingSecond [] (match prog with Api => launch_background p | WorkerProgram => launch_watcher p end))
      else None
  | LaunchingSecond =>
      if ok then Some (at_stage Listening [] (match prog with Api => launch_watcher p | WorkerProgram => launch_background p end))
      else None
  | Listening =>
      (* http.ErrServerClosed when Shutdown came first *)
      if ps_serverClosed p then if ok then Some (at_stage Returning [] p) else None
      else call Serving []
  | Serving =>
      (* it returns when Shutdown is called, or with an error of its own *)
      if ps_serverClosed p then if ok then Some (at_stage Returning [] p) else None
      else if ok then None else Some (exit_failure p)
  | Returning =>
      if ok then
        match ps_deferred p with
        | [] => Some (at_stage (Exited 0) [] p)
        | _ :: rest =>
            Some (mkProcess Returning (ps_config p) rest (ps_cancelled p) (ps_watcher p) (ps_background p)
                    (ps_serverClosed p) (ps_requests p))
        end
      else None
  | Exited _ => None
  end.

Definition process_step (p : process) (ev : event) : option process :=
  let 'mkProcess m cfg d cancelled w b closed requests := p in
  match m with
  | Exited _ => None
  | _ =>
      match ev with
      | MainStep ok => main_event ok p
      | Signal => Some (mkProcess m cfg d true w b closed requests)
      | WatcherStep =>
          match w with
          | Watching => if cancelled then Some (mkProcess m cfg d cancelled Draining b true requests) else None
          | Draining => match requests with O => Some (mkProcess m cfg d cancelled WatcherDone b closed requests) | S _ => None end
          | _ => None
          end
      | DrainTimeout => match w with Draining => Some (mkProcess m cfg d cancelled WatcherDone b closed requests) | _ => None end
      | BackgroundEnds canceled =>
          match b with
          | BackgroundRuns =>
              match prog, canceled with
              (* Run of the publisher returns only the error of the context *)
              | Api, false => None
              | _, true => if cancelled then Some (mkProcess m cfg d cancelled w BackgroundOver closed requests) else None
              (* logger.Error and stop() *)
              | WorkerProgram, false => Some (mkProcess m cfg d true w BackgroundOver closed requests)
              end
          | _ => None
          end
      | RequestArrives =>
          match m with
          | Serving => if closed then None else Some (mkProcess m cfg d cancelled w b closed (S requests))
          | _ => None
          end
      | RequestEnds => match requests with S r => Some (mkProcess m cfg d cancelled w b closed r) | O => None end
      end
  end.

Fixpoint process_run (p : process) (l : list event) : option process :=
  match l with
  | [] => Some p
  | ev :: l' => p' ← process_step p ev; process_run p' l'
  end.

End machine.

(** * The invariant *)

Definition is_step_ok (ev : event) : bool := match ev with MainStep true => true | _ => false end.

(** How many steps of main have succeeded. *)
Definition steps_ok (l : list event) : nat := length (List.filter is_step_ok l).

(** The resources that are open at a stage of start-up, before main returns. *)
Definition opened_at (m : main_stage) : option (nat * list deferred) :=
  match m with
  | LoadingConfig => Some (0, [Stop])
  | SettingUpTelemetry => Some (1, [Stop])
  | OpeningPool => Some (2, [ShutdownTelemetry; Stop])
  | ApplyingMigrations => Some (3, [PoolClose; ShutdownTelemetry; Stop])
  | WaitingForRedis => Some (4, [StreamsClose; PoolClose; ShutdownTelemetry; Stop])
  | LaunchingFirst => Some (5, [StreamsClose; PoolClose; ShutdownTelemetry; Stop])
  | LaunchingSecond => Some (6, [StreamsClose; PoolClose; ShutdownTelemetry; Stop])
  | Listening => Some (7, [StreamsClose; PoolClose; ShutdownTelemetry; Stop])
  | Serving => Some (8, [StreamsClose; PoolClose; ShutdownTelemetry; Stop])
  | Returning | Exited _ => None
  end%nat.

Section theorems.
Context `{ErrorTexts} (getenv : string → string) (now : Z) (prog : command).

Abbreviation loads := (load getenv now prog).
Abbreviation step := (process_step getenv now prog).
Abbreviation run := (process_run getenv now prog).

(** Why the context ended. *)
Definition told_to_stop (l : list event) : Prop :=
  Signal ∈ l ∨ (prog = WorkerProgram ∧ BackgroundEnds false ∈ l).

(** Where the goroutine that calls Shutdown has been launched. *)
Definition watched (m : main_stage) (w : watcher) : Prop :=
  match m with
  | LaunchingSecond => prog = WorkerProgram → w ≠ WatcherOff
  | Listening | Serving => w ≠ WatcherOff
  | _ => True
  end.

Record process_inv (l : list event) (p : process) : Prop := {
  pi_config : ps_main p ≠ LoadingConfig → ps_main p ≠ Exited 1 → ∃ cfg, loads = inr cfg ∧ ps_config p = Some cfg;
  pi_running : (ps_watcher p ≠ WatcherOff ∨ ps_background p ≠ BackgroundOff ∨ ps_requests p ≠ 0%nat) →
    (5 ≤ steps_ok l)%nat ∧ ∃ cfg, loads = inr cfg ∧ ps_config p = Some cfg;
  pi_opened : ∀ k d, opened_at (ps_main p) = Some (k, d) → steps_ok l = k ∧ ps_deferred p = d;
  pi_failed : ps_main p = Exited 1 ↔ MainStep false ∈ l;
  pi_closed : ps_serverClosed p = true → ps_cancelled p = true;
  pi_cancelled : ps_cancelled p = true → told_to_stop l;
  pi_ended : ps_main p = Returning ∨ ps_main p = Exited 0 → ps_serverClosed p = true;
  pi_exited : ps_main p = Exited 0 → ps_deferred p = [];
  pi_watched : watched (ps_main p) (ps_watcher p);
  pi_draining : ps_watcher p = Draining ∨ ps_watcher p = WatcherDone → ps_serverClosed p = true;
  pi_status : ∀ n, ps_main p = Exited n → n = 0%Z ∨ n = 1%Z;
}.

Lemma process_inv_start : process_inv [] process_start.
Proof.
  split; cbn; try done.
  - intros [? | [? | ?]]; done.
  - by intros k d [= <- <-].
  - split; [done |]. by rewrite elem_of_nil.
  - by intros [? | ?].
  - by intros [? | ?].
Qed.

Lemma steps_ok_snoc l ev : steps_ok (l ++ [ev]) = (steps_ok l + (if is_step_ok ev then 1 else 0))%nat.
Proof. unfold steps_ok. rewrite List.filter_app, length_app. cbn. by destruct (is_step_ok ev). Qed.

Lemma told_snoc l ev : told_to_stop l → told_to_stop (l ++ [ev]).
Proof. intros [? | [? ?]]; [left | right; split; [done |]]; apply elem_of_app; by left. Qed.

Lemma in_snoc_other l ev : (∀ ok, ev ≠ MainStep ok) → steps_ok (l ++ [ev]) = steps_ok l ∧ (MainStep false ∈ (l ++ [ev])%list ↔ MainStep false ∈ l).
Proof.
  intros Hev. rewrite steps_ok_snoc. split.
  - destruct ev as [ok | | | | | |]; cbn; try lia. by destruct (Hev ok).
  - rewrite elem_of_app, list_elem_of_singleton. split; [| by left]. intros [? | E]; [done | by destruct (Hev false)].
Qed.

(** Everything but main. *)
Lemma goroutine_inv l ev m cfg d c w b cl r c' w' b' cl' r' :
  (∀ ok, ev ≠ MainStep ok) → process_inv l (mkProcess m cfg d c w b cl r) →
  (w' ≠ WatcherOff → w ≠ WatcherOff) → (b' ≠ BackgroundOff → b ≠ BackgroundOff) →
  (r' ≠ 0%nat → r ≠ 0%nat ∨ m = Serving) → (c = true → c' = true) → (cl = true → cl' = true) →
  (w ≠ WatcherOff → w' ≠ WatcherOff) → (w' = Draining ∨ w' = WatcherDone → w' = w ∨ cl' = true ∨ w = Draining) →
  (cl' = true → cl = true ∨ c = true) → (c' = true → c = true ∨ told_to_stop (l ++ [ev])) →
  process_inv (l ++ [ev]) (mkProcess m cfg d c' w' b' cl' r').
Proof.
  intros Hev [Hcfg Hrun Hop Hfail Hcl Hcan Hend Hex Hwat Hdr Hst] Hw Hb Hr Hc Hcl1 Hw2 Hw3 Hcl2 Hc2. cbn in *.
  destruct (in_snoc_other l ev Hev) as [Hs Hin]. split; cbn; rewrite ?Hs, ?Hin; try done.
  - intros Hor. assert ((w ≠ WatcherOff ∨ b ≠ BackgroundOff ∨ r ≠ 0%nat) ∨ m = Serving) as [? | ->]
      by (destruct Hor as [? | [? | [? | ?]%Hr]]; auto).
    + by apply Hrun.
    + destruct (Hop _ _ eq_refl) as [-> _]. split; [lia |]. by apply Hcfg.
  - intros [? | ?]%Hcl2; auto.
  - intros [?%Hcan%(told_snoc _ ev) | ?]%Hc2; done.
  - auto.
  - destruct m; cbn in *; auto.
  - intros Hd. destruct (Hw3 Hd) as [-> | [? | ->]]; auto.
Qed.

(** The next stage of main, from a state in which it has not ended. *)
Lemma stage_inv l (ok : bool) m m' cfg cfg' d d' c w w' b b' cl r :
  process_inv l (mkProcess m cfg d c w b cl r) → (∀ n, m ≠ Exited n) →
  (if ok then (∀ n, m' = Exited n → n = 0%Z) else m' = Exited 1) →
  (∀ k e, opened_at m' = Some (k, e) → (steps_ok l + (if ok then 1 else 0))%nat = k ∧ d' = e) →
  m' ≠ LoadingConfig → (m' ≠ Exited 1 → ∃ x, loads = inr x ∧ cfg' = Some x) → ((5 ≤ steps_ok l)%nat → cfg' = cfg) →
  (w' = w ∧ b' = b ∨ (5 ≤ steps_ok l)%nat ∧ m' ≠ Exited 1) →
  (m' = Returning ∨ m' = Exited 0 → cl = true) → (m' = Exited 0 → d' = []) →
  (w' = w ∨ w' = Watching) → watched m' w' →
  process_inv (l ++ [MainStep ok]) (mkProcess m' cfg' d' c w' b' cl r).
Proof.
  intros [Hcfg Hrun Hop Hfail Hcl Hcan Hend Hex Hwat Hdr Hst] Hm Hm' Hop' Hl' Hcfg' Hkeep Hgo Hret Hd Hw Hwat'. cbn in *.
  assert (Hn : MainStep false ∉ l) by (intros Hx%Hfail; by eapply Hm).
  split; cbn; rewrite ?steps_ok_snoc; try done.
  - intros Hor. destruct Hgo as [[-> ->] | [? ?]]; [| split; [lia | by apply Hcfg']].
    destruct (Hrun Hor) as (? & x & ? & ->). split; [lia |]. exists x. by rewrite Hkeep.
  - intros k e He. destruct (Hop' k e He) as [? ?]. by destruct ok.
  - rewrite elem_of_app, list_elem_of_singleton. destruct ok.
    + split; [intros ->; by specialize (Hm' 1%Z eq_refl) | by intros [? | ?]].
    + split; [by right | done].
  - intros Hc. by apply told_snoc, Hcan.
  - destruct Hw as [-> | ->]; [done | by intros [? | ?]].
  - intros n ->. destruct ok; [left; by apply Hm' | right; by injection Hm'].
Qed.

(** One step of main, from a stage that [Hinv] speaks of. *)
Ltac to_stage ok Hinv :=
  apply (stage_inv _ ok _ _ _ _ _ _ _ _ _ _ _ _ _ Hinv); cbn;
  [ by intros ?
  | first [reflexivity | by intros ? | by intros ? [= <-]]
  | first [intros ? ? [= <- <-]; split; [lia | done] | done]
  | done
  | first [done | by eexists]
  | intros ?; first [done | lia]
  | first [by left | right; split; [lia | done]]
  | first [done | by intros [? | ?] | by auto]
  | first [done | by intros ?]
  | first [by left | by right]
  | first [done | by intros ?; congruence | by auto] ].

Lemma main_inv l ok p p' : process_inv l p → step p (MainStep ok) = Some p' → process_inv (l ++ [MainStep ok]) p'.
Proof.
  destruct p as [m cfg d c w b cl r]. intros Hinv Hs.
  pose proof (pi_config _ _ Hinv) as Hcfg. pose proof (pi_opened _ _ Hinv) as Hop. pose proof (pi_ended _ _ Hinv) as Hend.
  pose proof (pi_watched _ _ Hinv) as Hwat. cbn in Hcfg, Hop, Hend, Hwat.
  destruct m; cbn in Hs; try done; unfold main_event in Hs; cbn in Hs;
    try (destruct (Hop _ _ eq_refl) as [Hk ->]; cbn in Hk);
    try (destruct (Hcfg ltac:(done) ltac:(done)) as (x & Hx1 & Hx2)).
  - destruct loads as [err | x] eqn:Hl, ok; simplify_eq; [to_stage false Hinv | to_stage true Hinv].
  - destruct ok; injection Hs as <-; [to_stage true Hinv | to_stage false Hinv].
  - destruct ok; injection Hs as <-; [to_stage true Hinv | to_stage false Hinv].
  - destruct ok; injection Hs as <-; [to_stage true Hinv | to_stage false Hinv].
  - destruct ok; injection Hs as <-; [to_stage true Hinv | to_stage false Hinv].
  - destruct ok; [| done]. injection Hs as <-. destruct (ex_intro (λ q, q = prog) prog eq_refl) as [q Hq]. rewrite <-Hq.
    destruct q; to_stage true Hinv.
  - destruct ok; [| done]. injection Hs as <-. destruct (ex_intro (λ q, q = prog) prog eq_refl) as [q Hq]. rewrite <-Hq.
    destruct q; to_stage true Hinv.
  - destruct cl, ok; simplify_eq; first [to_stage true Hinv | to_stage false Hinv].
  - destruct cl, ok; simplify_eq; first [to_stage true Hinv | to_stage false Hinv].
  - destruct ok; [| done]. specialize (Hend (or_introl eq_refl)). subst cl.
    destruct d as [| x' d]; injection Hs as <-; to_stage true Hinv.
Qed.

Lemma process_step_inv l ev p p' : process_inv l p → step p ev = Some p' → process_inv (l ++ [ev]) p'.
Proof.
  destruct ev as [ok | | | | canceled | |]; [apply main_inv | | | | | |];
    destruct p as [m cfg d c w b cl r]; intros Hinv Hs; cbn in Hs.
  - assert (p' = mkProcess m cfg d true w b cl r) as -> by (destruct m; by simplify_eq/=).
    eapply goroutine_inv; [by intros ? | exact Hinv | ..]; auto.
    intros _. right. left. apply elem_of_app. right. by apply list_elem_of_singleton.
  - assert ((w = Watching ∧ c = true ∧ p' = mkProcess m cfg d c Draining b true r) ∨
      w = Draining ∧ p' = mkProcess m cfg d c WatcherDone b cl r) as [(-> & -> & ->) | (-> & ->)]
      by (destruct m, w, c, r; simplify_eq/=; naive_solver).
    + eapply goroutine_inv; [by intros ? | exact Hinv | ..]; auto.
    + eapply goroutine_inv; [by intros ? | exact Hinv | ..]; auto.
  - assert (w = Draining ∧ p' = mkProcess m cfg d c WatcherDone b cl r) as [-> ->] by (destruct m, w; simplify_eq/=; naive_solver).
    eapply goroutine_inv; [by intros ? | exact Hinv | ..]; auto.
  - assert (b ≠ BackgroundOff ∧ ∃ c', p' = mkProcess m cfg d c' w BackgroundOver cl r ∧
      (c' = c ∨ c' = true ∧ prog = WorkerProgram ∧ canceled = false)) as (Hb & c' & -> & Hc).
    { destruct b; [by destruct m | | by destruct m]. split; [done |].
      destruct prog, canceled, c, m; simplify_eq/=; eexists; (split; [reflexivity |]); auto. }
    eapply goroutine_inv; [by intros ? | exact Hinv | ..]; auto.
    + destruct Hc as [-> | [-> _]]; done.
    + destruct Hc as [-> | (-> & Hp & ->)]; [by left |]. intros _. right. right. split; [done |].
      apply elem_of_app. right. by apply list_elem_of_singleton.
  - assert (m = Serving ∧ p' = mkProcess m cfg d c w b cl (S r)) as [-> ->] by (destruct m, cl; simplify_eq/=; naive_solver).
    eapply goroutine_inv; [by intros ? | exact Hinv | ..]; auto.
  - assert (∃ r', r = S r' ∧ p' = mkProcess m cfg d c w b cl r') as (r' & -> & ->)
      by (destruct r as [| r']; [by destruct m |]; exists r'; destruct m; by simplify_eq/=).
    eapply goroutine_inv; [by intros ? | exact Hinv | ..]; auto.
Qed.

Lemma process_run_inv l p k p' : process_inv l p → run p k = Some p' → process_inv (l ++ k) p'.
Proof.
  revert l p. induction k as [| ev k IH]; intros l p Hinv; cbn; [intros [= <-]; by rewrite app_nil_r |].
  destruct (step p ev) as [p1 |] eqn:Hs; [| done]. cbn. intros Hk.
  rewrite (app_assoc l [ev] k : (l ++ ev :: k)%list = _). eapply IH; [| exact Hk]. by eapply process_step_inv.
Qed.

(** * Theorems *)

(** C31: how the processes live.  Requests are served, and the publisher or the
    consumer runs, only after the configuration was accepted and all five calls of
    start-up have succeeded, and until main returns the pool and the streams are
    open; the status is 1 exactly when a call of main failed; and with status 0
    every deferred call was made, after a signal or, in the worker, after the
    consumer failed. *)
Theorem process_life l p :
  process_run getenv now prog process_start l = Some p →
  (ps_background p ≠ BackgroundOff ∨ ps_requests p ≠ 0%nat →
     (5 ≤ steps_ok l)%nat ∧ ∃ cfg, loads = inr cfg ∧ ps_config p = Some cfg) ∧
  (ps_main p = Listening ∨ ps_main p = Serving → ps_deferred p = [StreamsClose; PoolClose; ShutdownTelemetry; Stop]) ∧
  (ps_main p = Exited 1 ↔ MainStep false ∈ l) ∧
  (∀ n, ps_main p = Exited n → n ≠ 1%Z →
     n = 0%Z ∧ ps_deferred p = [] ∧ (Signal ∈ l ∨ (prog = WorkerProgram ∧ BackgroundEnds false ∈ l))).
Proof.
  intros Hr. pose proof (process_run_inv [] _ _ _ process_inv_start Hr) as Hinv. cbn [app] in Hinv. split_and!.
  - intros Hor. apply (pi_running _ _ Hinv). tauto.
  - intros [Hm | Hm]; pose proof (pi_opened _ _ Hinv) as Hop; rewrite Hm in Hop; by destruct (Hop _ _ eq_refl).
  - apply (pi_failed _ _ Hinv).
  - intros n Hn Hne. destruct (pi_status _ _ Hinv n Hn) as [-> | ->]; [| done]. split; [done |].
    split; [by apply (pi_exited _ _ Hinv) |]. apply (pi_cancelled _ _ Hinv), (pi_closed _ _ Hinv), (pi_ended _ _ Hinv).
    by right.
Qed.

(** Main on its own, once Shutdown has been called. *)
Lemma returns d cfg c w b r : c = true →
  ∀ m, m = Returning ∨ m = Listening ∨ m = Serving →
  ∃ k p, run (mkProcess m cfg d c w b true r) k = Some p ∧ ps_main p = Exited 0 ∧ (length k ≤ length d + 2)%nat ∧
    ∀ ev, ev ∈ k → ev = MainStep true.
Proof.
  intros ->. assert (Hret : ∃ k p, run (mkProcess Returning cfg d true w b true r) k = Some p ∧ ps_main p = Exited 0 ∧
    (length k ≤ length d + 1)%nat ∧ ∀ ev, ev ∈ k → ev = MainStep true).
  { induction d as [| x d (k & p & Hk & Hp & Hl & Hall)].
    - exists [MainStep true]. eexists. split; [reflexivity |]. split_and!; [done | cbn; lia |].
      intros ev. by rewrite list_elem_of_singleton.
    - exists (MainStep true :: k), p. split; [exact Hk |]. split_and!; [done | cbn; lia |].
      intros ev [-> |]%elem_of_cons; auto. }
  destruct Hret as (k & p & Hk & Hp & Hl & Hall). intros m [-> | Hm].
  - exists k, p. split_and!; [done | done | lia | done].
  - exists (MainStep true :: k), p. split; [by destruct Hm as [-> | ->] |]. split_and!; [done | cbn; lia |].
    intros ev [-> |]%elem_of_cons; auto.
Qed.


Lemma run_loaded cfg k : loads = inr cfg →
  run process_start (MainStep true :: k) = run (mkProcess SettingUpTelemetry (Some cfg) [Stop] false WatcherOff BackgroundOff false 0) k.
Proof.
  intros Hl. assert (Hs : step process_start (MainStep true) =
    Some (mkProcess SettingUpTelemetry (Some cfg) [Stop] false WatcherOff BackgroundOff false 0))
    by (cbn; unfold main_event; cbn; by rewrite Hl).
  cbn [process_run]. by rewrite Hs.
Qed.

(** But it does not wait.  main returns as soon as ListenAndServe does, which is
    when Shutdown is called and not when it returns: there is a run in which a
    process that was told to stop ends with status 0 while a request that arrived
    before is still being served and the publisher or consumer is still running,
    although the five seconds granted to them have not passed. *)
Theorem exit_drops_requests cfg :
  load getenv now prog = inr cfg →
  ∃ l p, process_run getenv now prog process_start l = Some p ∧ ps_main p = Exited 0 ∧ ps_requests p = 1%nat ∧ ps_background p = BackgroundRuns ∧
    ps_watcher p = Draining ∧ DrainTimeout ∉ l.
Proof.
  intros Hl. set (k := (replicate 7 (MainStep true) ++ [RequestArrives; Signal; WatcherStep] ++ replicate 6 (MainStep true))%list).
  exists (MainStep true :: k).
  assert (Hrun : ∀ q, ∃ p, process_run getenv now q (mkProcess SettingUpTelemetry (Some cfg) [Stop] false WatcherOff BackgroundOff false 0) k = Some p ∧
    ps_main p = Exited 0 ∧ ps_requests p = 1%nat ∧ ps_background p = BackgroundRuns ∧ ps_watcher p = Draining)
    by (intros q; destruct (process_run getenv now q _ k) as [p |] eqn:E; destruct q; vm_compute in E;
        [injection E as <- | injection E as <- | discriminate E | discriminate E]; by eexists).
  destruct (Hrun prog) as (p & Hr & ? & ? & ? & ?). exists p. split_and!; try done.
  - by rewrite (run_loaded cfg).
  - unfold k. rewrite elem_of_cons, !elem_of_app, !elem_of_replicate. set_solver.
Qed.

End theorems.

(** * Examples *)

(** A worker whose consumer fails, say because Redis restarts, ends with status 0. *)
Definition consumer_fails : list event :=
  replicate 8 (MainStep true) ++ [BackgroundEnds false; WatcherStep; WatcherStep] ++ replicate 6 (MainStep true).

Definition example_worker (l : list event) : option process :=
  @process_run Demo.demo_texts example_env 1700000000 WorkerProgram process_start l.

Lemma process_life_witness :
  ∃ p, example_worker consumer_fails = Some p ∧ ps_main p = Exited 0 ∧ ps_deferred p = [] ∧ MainStep false ∉ consumer_fails.
Proof.
  assert (Hm : option_map ps_main (example_worker consumer_fails) = Some (Exited 0)) by (vm_compute; reflexivity).
  destruct (example_worker consumer_fails) as [p |] eqn:Hp; [| discriminate Hm]. injection Hm as Hm.
  destruct (@process_life Demo.demo_texts example_env 1700000000 WorkerProgram consumer_fails p Hp) as (_ & _ & Hf & He).
  exists p. split; [reflexivity |]. split; [exact Hm |]. destruct (He _ Hm ltac:(discriminate)) as (_ & Hd & _).
  split; [exact Hd |]. intros Hin%Hf. by rewrite Hm in Hin.
Defined.


Lemma exit_drops_requests_witness :
  ∃ l p, example_worker l = Some p ∧ ps_main p = Exited 0 ∧ ps_requests p = 1%nat.
Proof.
  assert (Hl : @load Demo.demo_texts example_env 1700000000 WorkerProgram = inr example_config) by (vm_compute; reflexivity).
  destruct (@exit_drops_requests Demo.demo_texts example_env 1700000000 WorkerProgram _ Hl) as (l & p & Hr & Hm & Hq & _).
  exists l, p. split; [exact Hr |]. split; [exact Hm | exact Hq].
Defined.
