(* ===== verification/Publisher.v ===== *)
(** The outbox publisher (internal/outbox/publisher.go): it moves due retries
    into the outbox and the events of the outbox into the stream. *)

From S2P Require Import Prelude GoString GoJson GoError Proc Domain Db Pg Store Worker World Queue.

Open Scope string_scope.

(** NewPublisher: the poll interval, in nanoseconds. *)
Definition publisher_interval (pollInterval : Z) : Z :=
  if Z.leb pollInterval 0 then 2000000000 else pollInterval.

Section publisher.
Context `{Postgres} `{Redis} `{ErrorTexts}.

(** The body of the loop over the events: [inl err] ends the batch with [err],
    and every other failure is recorded and skipped. *)
Definition publish_event (streams : RedisStreams) (event : OutboxEvent) : proc world unit :=
  match unmarshal_payload (oe_PayloadJSON event) with
  | None =>
      try (on_db (RecordOutboxFailure (oe_ID event) (Error (ErrJson (oe_PayloadJSON event)))))
        (λ _, return_ tt)
  | Some payload =>
      try (DispatchTask streams (message_of_payload payload)) (λ res,
      match res with
      | inl err => try (on_db (RecordOutboxFailure (oe_ID event) (Error err))) (λ _, return_ tt)
      | inr _ => on_db (MarkOutboxDispatched (oe_ID event))
      end)
  end.

Fixpoint publish_events (streams : RedisStreams) (events : list OutboxEvent) : proc world unit :=
  match events with
  | [] => return_ tt
  | event :: rest => let! _ := publish_event streams event in publish_events streams rest
  end.

Definition publishOnce (streams : RedisStreams) : proc world unit :=
  let! _ := on_db (EnqueueDueTaskRetries 20) in
  let! events := on_db (ListPendingOutbox 20) in
  publish_events streams events.

(** Run, for [n] ticks: the error of a batch is logged, and the next tick
    starts over. *)
Fixpoint publisher_Run (streams : RedisStreams) (n : nat) : proc world unit :=
  match n with
  | O => return_ tt
  | S n' => try (publishOnce streams) (λ _, publisher_Run streams n')
  end.

End publisher.
