(* ===== verification/Live.v ===== *)
(** No task is lost: the invariant that ties the database to the stream, and a
    small program logic in which every process of the engine is shown to keep it.

    A task that is not terminal is alive through its retry time, through an
    event of the outbox, or through a message of the stream.  A process that is
    about to give one of these up (an event it has sent and will mark, a message
    it has handled and will acknowledge) is not allowed to count on it any more:
    its event is [sent], its message [spent]. *)

From S2P Require Import Prelude GoString GoJson GoError Proc Domain Db Pg Store Idempotency History Wf.
From S2P Require Import WfStore StoreSpec StoreSpec2 Service Worker Tokens World Queue Publisher.

Open Scope string_scope.

Section live.
Context `{ErrorTexts} `{PostgresLaws} `{RedisLaws}.
Context (rs : RedisStreams).

(** * The invariant *)

Definition contents (w : world) : db := w_db (wd_db w).
Definition messages (w : world) : gmap string (gmap string redis_value) :=
  unacked (wd_redis w) (rs_stream rs) (rs_group rs).

(** The message is one for the task [t]. *)
Definition message_for (i : string) (v : gmap string redis_value) (t : string) : Prop :=
  ∃ m, decodeTaskMessage (mkXMessage i v) = inr m ∧ uuid_in (tm_TaskID m) = inr t.

Definition alive (w : world) (spent sent : list string) (t : string) (r : task_row) : Prop :=
  scheduled r ∨
  (∃ o row, outbox_events (contents w) !! o = Some row ∧ waiting t row ∧ o ∉ sent) ∨
  (∃ i v, messages w !! i = Some v ∧ message_for i v t ∧ i ∉ spent).

(** [held]: the messages that live workers have been delivered. *)
Record inv (w : world) (held : list XMessage) (spent sent : list string) : Prop := {
  iv_wf : db_wf (contents w);
  iv_held m : m ∈ held → messages w !! xm_ID m = Some (xm_Values m);
  iv_nodup : NoDup (xm_ID <$> held);
  iv_spent i : i ∈ spent → i ∈ xm_ID <$> held;
  iv_sent o : o ∈ sent → is_Some (outbox_events (contents w) !! o);
  iv_alive t r : task_instances (contents w) !! t = Some r → ¬ terminal (tr_status r) →
    alive w spent sent t r;
}.

#[global] Instance inv_proper w : Proper ((≡ₚ) ==> (≡ₚ) ==> (≡ₚ) ==> iff) (inv w).
Proof.
  assert (Himp : ∀ h h' s s' o o', h ≡ₚ h' → s ≡ₚ s' → o ≡ₚ o' → inv w h s o → inv w h' s' o').
  { intros h h' s s' o o' Hh Hs Ho [Hwf Hheld Hnd Hspent Hsent Hal]. split; [done | | | | |].
    - intros m Hm. apply Hheld. by rewrite Hh.
    - by rewrite <-Hh.
    - intros i Hi. rewrite <-Hh. apply Hspent. by rewrite Hs.
    - intros x Hx. apply Hsent. by rewrite Ho.
    - intros t r Hr Hn. destruct (Hal t r Hr Hn) as [? | [(x & row & ? & ? & Hx) | (i & v & ? & ? & Hi)]].
      + by left.
      + right; left. exists x, row. by rewrite <-Ho.
      + right; right. exists i, v. by rewrite <-Hs. }
  intros h h' Hh s s' Hs o o' Ho. split; by apply Himp.
Qed.

Lemma message_for_fun i v t t' : message_for i v t → message_for i v t' → t = t'.
Proof. intros (m & Hm & Ht) (m' & Hm' & Ht'). same_res. done. Qed.

(** Giving up what a process held weakens the invariant. *)
Lemma inv_drop w h1 h2 s1 s2 o1 o2 :
  inv w (h1 ++ h2)%list (s1 ++ s2)%list (o1 ++ o2)%list → (∀ i, i ∈ s2 → i ∈ xm_ID <$> h2) → inv w h2 s2 o2.
Proof.
  intros [Hwf Hheld Hnd Hspent Hsent Hal] Hown. split; [done | | | done | |].
  - intros m Hm. apply Hheld. set_solver.
  - rewrite fmap_app in Hnd. by apply list.NoDup_app in Hnd as (_ & _ & ?).
  - intros o Ho. apply Hsent. set_solver.
  - intros t r Hr Hn. destruct (Hal t r Hr Hn) as [? | [(x & row & ? & ? & Hx) | (i & v & ? & ? & Hi)]].
    + by left.
    + right; left. exists x, row. set_solver.
    + right; right. exists i, v. set_solver.
Qed.

(** ** Changes of the database *)

Definition same_redis (w w' : world) : Prop := wd_redis w' = wd_redis w.

(** A change that carries; the tasks of [except] are alive for another reason,
    and the messages that are spent by it are theirs. *)
Lemma inv_carries w w' held spent sent spent' except `{!∀ t, Decision (except t)} :
  inv w held spent sent → same_redis w w' → db_wf (contents w') →
  carries except (contents w) (contents w') →
  (∀ i, i ∈ spent' → i ∈ xm_ID <$> held) →
  (∀ t r, task_instances (contents w') !! t = Some r → ¬ terminal (tr_status r) → except t →
     alive w' spent' sent t r) →
  (∀ i v t, i ∈ spent' → i ∉ spent → messages w !! i = Some v → message_for i v t → except t) →
  inv w' held spent' sent.
Proof.
  intros [Hwf Hheld Hnd Hspent Hsent Hal] Hred Hwf' [Hcw Hce Hct] Hown Hexc Hnew.
  assert (Hm : messages w' = messages w) by (unfold messages; by rewrite Hred).
  split; [done | by rewrite Hm | done | done | eauto |].
  intros t r' Hr' Hn. destruct (decide (except t)) as [Hx | Hx]; [eauto |].
  destruct (Hct t r' Hr' Hn Hx) as [? | [(o & row & Ho & Ho' & Hw) | (r & Hr & Hnr & Hns)]].
  - by left.
  - right; left. exists o, row. split; [done |]. split; [done |]. intros [? Hin]%Hsent. congruence.
  - destruct (Hal t r Hr Hnr) as [? | [(o & row & Ho & Hw & Hns') | (i & v & Hi & Hfor & Hns')]]; [done | |].
    + right; left. destruct (Hcw _ _ _ Ho Hw) as (row' & ? & ?). eauto 10.
    + right; right. exists i, v. rewrite Hm. split_and!; [done | done |]. intros Hin. eauto.
Qed.

Lemma inv_sound w w' held spent sent :
  inv w held spent sent → same_redis w w' → sound (contents w) (contents w') →
  inv w' held spent sent ∧ evolves (contents w) (contents w').
Proof.
  intros Hinv Hred Hs. destruct (Hs (iv_wf _ _ _ _ Hinv)) as (Hwf' & Hev & Hc). split; [| done].
  apply (inv_carries w w' held spent sent spent nobody); try done. apply Hinv.
Qed.

(** * The program logic *)

(** What a process holds: delivered messages, the ones it has handled, the
    events it has sent, and contents it has seen. *)
Record ghost : Type := mk_ghost {
  g_held : list XMessage;
  g_spent : list string;
  g_sent : list string;
  g_seen : db;
}.

Definition owns (held : list XMessage) (spent : list string) : Prop :=
  ∀ i, i ∈ spent → i ∈ xm_ID <$> held.

(** The invariant with what this process and the others hold. *)
Definition ginv (w : world) (g : ghost) (H : list XMessage) (S O : list string) : Prop :=
  inv w (g_held g ++ H)%list (g_spent g ++ S)%list (g_sent g ++ O)%list ∧
  owns (g_held g) (g_spent g) ∧ owns H S ∧ evolves (g_seen g) (contents w).

(** One step: the history is kept, and no message is taken from elsewhere. *)
Definition moved (w w' : world) (g g' : ghost) : Prop :=
  evolves (contents w) (contents w') ∧ g_held g' ⊆ g_held g.

(** [wp p Q g]: from a state where the process holds [g], each step of [p]
    keeps the invariant and the history, whatever others do in between, and at the
    end its result and what it then holds satisfy [Q]. *)
Fixpoint wp {A} (p : proc world A) (Q : error + A → ghost → Prop) (g : ghost) : Prop :=
  match p with
  | Ret r => Q r g
  | Atomic m k =>
      ∀ e w r w' H S O, env_ok e → ginv w g H S O → m e w = (r, w') →
      ∃ g', ginv w' g' H S O ∧ moved w w' g g' ∧ wp (k r) Q g'
  end.

Lemma moved_eq w w' g g' : contents w' = contents w → g_held g' ⊆ g_held g → moved w w' g g'.
Proof. intros Hc Hg. split; [by rewrite Hc | done]. Qed.

Lemma wp_mono {A} (p : proc world A) (Q Q' : error + A → ghost → Prop) g :
  (∀ r g', Q r g' → Q' r g') → wp p Q g → wp p Q' g.
Proof.
  intros HQ. revert g. induction p as [r | T m k IH]; intros g; cbn; [auto |].
  intros Hp e w r w' Fh Fs Fo He Hi Hm. destruct (Hp e w r w' Fh Fs Fo He Hi Hm) as (g' & ? & ? & ?). eauto.
Qed.

Lemma wp_try {A B} (p : proc world A) (k : error + A → proc world B) Q g :
  wp p (λ r g', wp (k r) Q g') g → wp (try p k) Q g.
Proof.
  revert g. induction p as [r | T m k' IH]; intros g; cbn; [auto |].
  intros Hp e w r w' Fh Fs Fo He Hi Hm. destruct (Hp e w r w' Fh Fs Fo He Hi Hm) as (g' & ? & ? & ?). eauto.
Qed.

Lemma wp_bind {A B} (p : proc world A) (k : A → proc world B) Q g :
  wp p (λ r g', match r with inl err => Q (inl err) g' | inr a => wp (k a) Q g' end) g → wp (bind p k) Q g.
Proof. intros Hp. apply wp_try. eapply wp_mono; [| exact Hp]. by intros [err | a] g'. Qed.

Lemma wp_wrap_err {A} s (p : proc world A) (Q : error + A → ghost → Prop) g :
  wp p (λ r g', match r with inl err => Q (inl (ErrWrap s err)) g' | inr a => Q (inr a) g' end) g →
  wp (wrap_err s p) Q g.
Proof. intros Hp. apply wp_try. eapply wp_mono; [| exact Hp]. by intros [err | a] g'. Qed.

(** A process of the database whose steps are all sound. *)
Lemma wp_sound {A} (p : proc dbw A) Q g :
  soundly p → (∀ r, Q r g) → wp (on_db p) Q g.
Proof.
  intros Hp HQ. induction p as [r | T m k IH]; cbn; [done |]. destruct Hp as [Hm Hk].
  intros e w r w' Fh Fs Fo He (Hi & Hg & HS & Hev) Heq.
  destruct (m e (wd_db w)) as [r0 d] eqn:Em. injection Heq as <- <-.
  destruct (inv_sound w (mk_world d (wd_redis w)) _ _ _ Hi eq_refl (Hm _ _ _ _ He Em)) as [Hi' Hev'].
  exists g. split; [split_and!; [done | done | done | etrans; [exact Hev | exact Hev']] |]. split; [by split |]. apply IH, Hk.
Qed.

(** One call of the database. *)
Lemma wp_db_call {A} (m : env → dbw → (error + A) * dbw) Q g :
  (∀ e w r d, env_ok e → m e (wd_db w) = (r, d) → let w' := mk_world d (wd_redis w) in
   ∀ H S O, ginv w g H S O → ∃ g', ginv w' g' H S O ∧ moved w w' g g' ∧ Q r g') →
  wp (on_db (atomic m)) Q g.
Proof.
  intros Hm e w r w' Fh Fs Fo He Hg Heq. destruct (m e (wd_db w)) as [r0 d] eqn:Em. injection Heq as <- <-.
  destruct (Hm e w r0 d He Em Fh Fs Fo Hg) as (g' & ? & ? & ?). eauto.
Qed.

End live.
