(* ===== verification/LiveWorker.v ===== *)
(** The worker keeps every task alive. *)

From S2P Require Import Prelude GoString GoJson GoError Proc Domain Db Pg Store Idempotency History Wf.
From S2P Require Import WfStore StoreSpec StoreSpec2 Workflow Service Worker Tokens World Queue Publisher.
From S2P Require Import Live.

Open Scope string_scope.

(** * The worker in the world *)

Section instances.
Context `{Postgres} `{Redis}.

#[export] Instance world_workerStore : workerStore world := {|
  ws_GetTaskInstance id := on_db (GetTaskInstance id);
  ws_GetWorkflowExecution id := on_db (GetWorkflowExecution id);
  ws_GetWorkflowDefinition id := on_db (GetWorkflowDefinition id);
  ws_StartTaskAttempt id := on_db (StartTaskAttempt id);
  ws_ScheduleTaskRetry t a x at_ := on_db (ScheduleTaskRetry t a x at_);
  ws_FailTaskAttempt t a x := on_db (FailTaskAttempt t a x);
  ws_CompleteTaskAttempt t a o := on_db (CompleteTaskAttempt t a o);
  ws_CompleteTaskAttemptAndEnqueueNextTask t a n h o :=
    on_db (CompleteTaskAttemptAndEnqueueNextTask t a n h o);
|}.

#[export] Instance world_Clock : Clock world := {|
  time_Now := atomic (λ e w, (inr (e_time e (w_tick (wd_db w))), w));
|}.
End instances.

(** A transaction left the contents alone and failed, or its body ran to the
    end and its result was returned or lost. *)
Lemma in_tx_cases {A} (body : tx A) e w r w' :
  in_tx body e w = (r, w') →
  (w_db w' = w_db w ∧ ∃ err, r = inl err) ∨
  ∃ a now n n', body e now n (w_db w) = (inr (a, w_db w'), n') ∧ (r = inr a ∨ ∃ err, r = inl err).
Proof.
  unfold in_tx. destruct (e_outcome e (w_tick w)); [| intros [= <- <-]; eauto..].
  destruct (body _ _ _ _) as [[err | [a d]] n'] eqn:Eb; [intros [= <- <-]; eauto |].
  destruct (e_outcome e n'); intros [= <- <-]; [| eauto |]; right; exists a; eauto 10.
Qed.

Section worker.
Context `{ErrorTexts} `{PostgresLaws} `{RedisLaws}.
Context (rs : RedisStreams).

(** The process has handled message [i]. *)
Definition spend (i : string) (g : ghost) : ghost :=
  mk_ghost (g_held g) (i :: g_spent g) (g_sent g) (g_seen g).

(** A message this process holds and has not spent is spent by nobody. *)
Lemma not_spent w g Fh Fs Fo m :
  ginv rs w g Fh Fs Fo → m ∈ g_held g → xm_ID m ∉ g_spent g →
  xm_ID m ∉ (g_spent g ++ Fs)%list ∧ messages rs w !! xm_ID m = Some (xm_Values m).
Proof.
  intros ([_ Hheld Hnd _ _ _] & _ & HF & _) Hm Hns. split; [| apply Hheld; set_solver].
  intros [? | Hin%HF]%elem_of_app; [done |].
  rewrite fmap_app in Hnd. apply list.NoDup_app in Hnd as (_ & Hdis & _).
  apply (Hdis (xm_ID m)); [| done]. by apply (list_elem_of_fmap_2' xm_ID _ m).
Qed.

(** Nothing changed: the message may be spent if its task needs no life. *)
Definition settled (d : db) (t : string) : Prop :=
  ∀ r, task_instances d !! t = Some r → terminal (tr_status r) ∨ scheduled r.

Lemma ginv_settle w w' g Fh Fs Fo m t except :
  ginv rs w g Fh Fs Fo → same_redis w w' → db_wf (contents w') → evolves (contents w) (contents w') →
  (except = nobody ∨ except = eq t) → carries except (contents w) (contents w') →
  m ∈ g_held g → message_for (xm_ID m) (xm_Values m) t → settled (contents w') t →
  ginv rs w' (spend (xm_ID m) g) Fh Fs Fo.
Proof.
  intros (Hi & Hg & HF & Hev) Hred Hwf' Hev' Hex Hc Hm Hfor Hset.
  assert (Hheld : messages rs w !! xm_ID m = Some (xm_Values m)) by (eapply iv_held; [exact Hi | set_solver]).
  assert (Hin : xm_ID m ∈ xm_ID <$> g_held g) by by apply (list_elem_of_fmap_2' xm_ID _ m).
  split_and!; [| intros i [-> | Hin']%elem_of_cons; [done | auto] | done | by etrans].
  apply (inv_carries rs w w' _ (g_spent g ++ Fs)%list _ _ (eq t)); try done.
  - destruct Hex as [-> | ->]; [| done]. destruct Hc as [C1 C2 C3]. by split; auto.
  - cbn. intros i [-> | Hi']%elem_of_cons; [set_solver | by eapply iv_spent].
  - intros t' r Hr Hn <-. destruct (Hset r Hr) as [? | ?]; [done | by left].
  - cbn. intros i v t' [-> | Hi']%elem_of_cons Hns Hv Hfor'; [| done]. simplify_eq.
    by eapply message_for_fun.
Qed.

(** The start of an attempt: the message itself keeps the task alive. *)
Lemma ginv_start w w' g Fh Fs Fo m t :
  ginv rs w g Fh Fs Fo → same_redis w w' → db_wf (contents w') → evolves (contents w) (contents w') →
  carries (eq t) (contents w) (contents w') →
  m ∈ g_held g → xm_ID m ∉ g_spent g → message_for (xm_ID m) (xm_Values m) t →
  ginv rs w' g Fh Fs Fo.
Proof.
  intros Hg Hred Hwf' Hev' Hc Hm Hns Hfor. destruct (not_spent _ _ _ _ _ _ Hg Hm Hns) as [Hns' Hmsg].
  destruct Hg as (Hi & Hown & HF & Hev). split_and!; [| done | done | by etrans].
  eapply (inv_carries rs w w' _ _ _ _ (eq t)); try done; [apply Hi | ].
  intros t' r Hr Hn <-. right; right. exists (xm_ID m), (xm_Values m). split_and!; [| done | done].
  unfold messages. by rewrite Hred.
Qed.

(** ** The calls of the worker *)

(** After a call that settles task [t]: its message may be spent when the call
    returned, and is kept when it did not. *)
Definition spent_if_ok {A} (i : string) (g : ghost) (r : error + A) (g' : ghost) : Prop :=
  match r with inl _ => g' = g | inr _ => g' = spend i g end.

Lemma wp_settling {A} (body : tx A) g m t :
  tx_keeps body → tx_rel evolves body → tx_carries nobody body →
  (∀ e now n d a d' n', env_ok e → db_wf d → body e now n d = (inr (a, d'), n') → settled d' t) →
  m ∈ g_held g → message_for (xm_ID m) (xm_Values m) t →
  wp rs (on_db (atomic (in_tx body))) (spent_if_ok (xm_ID m) g) g.
Proof.
  intros Hk He Hc Hset Hm Hfor. apply wp_db_call. intros e w r d Hok Hr w' Fh Fs Fo Hg.
  pose proof (iv_wf _ _ _ _ _ (proj1 Hg)) as Hwf.
  apply in_tx_cases in Hr as [[Hd [err ->]] | (a & now & n & n' & Hb & Hres)].
  - exists g. unfold spent_if_ok. assert (Hcw : contents w' = contents w) by done.
    split; [| by split; [apply moved_eq |]].
    destruct Hg as (Hi & Hown & HF & Hev). split_and!; [| done | done | by rewrite Hcw].
    apply (inv_sound rs w w' _ _ _ Hi); [done |]. by rewrite Hcw.
  - assert (Hwf' : db_wf (contents w')) by by eapply Hk.
    assert (Hev : evolves (contents w) (contents w')) by by eapply He.
    assert (Hca : carries nobody (contents w) (contents w')) by by eapply Hc.
    destruct Hres as [-> | [err ->]].
    + exists (spend (xm_ID m) g). split; [| split; [by split | done]].
      apply (ginv_settle w w' g Fh Fs Fo m t nobody); [done.. | by left | done | done | done | exact (Hset _ _ _ _ _ _ _ Hok Hwf Hb)].
    + exists g. split; [| split; [by split | done]]. destruct Hg as (Hi & Hown & HF & Hev0). split_and!; [| done | done | by etrans].
      by apply (inv_sound rs w w' _ _ _ Hi).
Qed.

(** A task that was put into the database with a settled row. *)
Lemma settled_insert d t r d' :
  task_instances d' = <[t := r]> (task_instances d) → terminal (tr_status r) ∨ scheduled r → settled d' t.
Proof. unfold settled. intros -> Hr r'. rewrite lookup_insert_eq. by intros [= <-]. Qed.

Lemma wp_fail t tid a x g m :
  uuid_in t = inr tid → m ∈ g_held g → message_for (xm_ID m) (xm_Values m) tid →
  wp rs (on_db (FailTaskAttempt t a x)) (spent_if_ok (xm_ID m) g) g.
Proof.
  intros Ht Hm Hfor. eapply wp_settling; eauto using fail_carries.
  - apply fail_wf.
  - unfold fail_body, select_execution_of. auto 30 with rel.
  - intros e now n d b d' n' He Hwf Hb. apply fail_inv in Hb; [| done].
    destruct Hb as (tid' & ? & r & ? & Ht' & _ & _ & _ & ->). same_res.
    eapply settled_insert; [done | left; by right].
Qed.

Lemma wp_retry t tid a x at_ g m :
  uuid_in t = inr tid → m ∈ g_held g → message_for (xm_ID m) (xm_Values m) tid →
  wp rs (on_db (ScheduleTaskRetry t a x at_)) (spent_if_ok (xm_ID m) g) g.
Proof.
  intros Ht Hm Hfor. eapply wp_settling; eauto using schedule_carries.
  - apply schedule_retry_wf.
  - unfold schedule_retry_body. auto 30 with rel.
  - intros e now n d b d' n' He Hwf Hb. apply schedule_retry_inv in Hb.
    destruct Hb as (tid' & ? & nw & Ht' & _ & _ & ->). same_res. intros r. cbn.
    rewrite lookup_alter_eq. destruct (task_instances d !! tid'); [| done]. intros [= <-]. right. by split.
Qed.

Lemma wp_complete t tid a o g m :
  uuid_in t = inr tid → m ∈ g_held g → message_for (xm_ID m) (xm_Values m) tid →
  wp rs (on_db (CompleteTaskAttempt t a o)) (spent_if_ok (xm_ID m) g) g.
Proof.
  intros Ht Hm Hfor. eapply wp_settling; eauto using complete_carries.
  - apply complete_wf.
  - unfold complete_body, select_execution_of. auto 30 with rel.
  - intros e now n d b d' n' He Hwf Hb. apply complete_inv in Hb; [| done].
    destruct Hb as (tid' & ? & r & ? & ? & Ht' & _ & _ & _ & ->). same_res.
    eapply settled_insert; [done | left; by left].
Qed.

Lemma wp_advance t tid a nt nh o g m :
  uuid_in t = inr tid → m ∈ g_held g → message_for (xm_ID m) (xm_Values m) tid →
  wp rs (on_db (CompleteTaskAttemptAndEnqueueNextTask t a nt nh o)) (spent_if_ok (xm_ID m) g) g.
Proof.
  intros Ht Hm Hfor. eapply wp_settling; eauto using advance_carries.
  - apply complete_and_enqueue_wf.
  - unfold complete_and_enqueue_body, select_execution_of, enqueue_dispatch. auto 30 with rel.
  - intros e now n d b d' n' He Hwf Hb. apply complete_and_enqueue_inv in Hb; [| done..].
    destruct Hb as (tid' & ? & r & ? & u & ? & ? & ? & Ht' & _ & _ & Hr & Hu & _ & _ & _ & ->). same_res.
    intros r'. cbn. rewrite lookup_insert_ne by congruence. rewrite lookup_insert_eq. intros [= <-].
    left. by left.
Qed.

(** Starting the attempt of the message's task. *)
Lemma wp_start id g m :
  m ∈ g_held g → xm_ID m ∉ g_spent g →
  (∀ tid, uuid_in id = inr tid → message_for (xm_ID m) (xm_Values m) tid) →
  wp rs (on_db (StartTaskAttempt id)) (λ r g',
    match r with
    | inl _ => g' = g
    | inr (task, _, true) => g' = spend (xm_ID m) g
    | inr (task, _, false) => g' = g ∧ uuid_in id = inr (ti_ID task)
    end) g.
Proof.
  intros Hm Hns Hfor. apply wp_db_call. intros e w r d Hok Hr w' Fh Fs Fo Hg.
  pose proof (iv_wf _ _ _ _ _ (proj1 Hg)) as Hwf.
  apply in_tx_cases in Hr as [[Hd [err ->]] | (a & now & n & n' & Hb & Hres)].
  - exists g. assert (Hcw : contents w' = contents w) by done. split; [| by split; [apply moved_eq |]].
    destruct Hg as (Hi & Hown & HF & Hev). split_and!; [| done | done | by rewrite Hcw].
    apply (inv_sound rs w w' _ _ _ Hi); [done |]. by rewrite Hcw.
  - assert (Hwf' : db_wf (contents w')) by by eapply start_attempt_wf.
    assert (Hrel : tx_rel evolves (start_attempt_body id)) by (unfold start_attempt_body; auto 30 with rel).
    assert (Hev : evolves (contents w) (contents w')) by exact (Hrel _ _ _ _ _ _ _ Hb).
    pose proof Hb as (tid & row & Htid & Hrow & Hc)%start_attempt_spec_inv; [| done].
    pose proof (start_carries id tid Htid e now n _ a _ n' Hok Hwf Hb) as Hca.
    assert (Hst : ginv rs w' g Fh Fs Fo) by (eapply ginv_start; [exact Hg | done.. | exact Hca | done | done | by apply Hfor]).
    destruct Hres as [-> | [err ->]]; [| exists g; split; [done | by split]]. destruct a as [[task attempt] dup].
    case_decide as Hterm.
    + destruct Hc as [[= -> -> ->] Hsame]. exists (spend (xm_ID m) g). split; [| split; [by split | done]].
      apply (ginv_settle w w' g Fh Fs Fo m tid (eq tid)); [done.. | by right | done | done | by apply Hfor |]. intros r. unfold contents. cbn. rewrite Hsame, Hrow.
      intros [= <-]. by left.
    + destruct Hc as (? & ? & _ & [= -> -> ->] & _). exists g. split; [done |]. split; [by split | done].
Qed.

(** ** Processes that only read, or change nothing the engine counts on *)

Definition quiet {A} (p : proc world A) : Prop :=
  all_steps env_ok (λ w w', same_redis w w' ∧ sound (contents w) (contents w')) p.

Lemma wp_quiet {A} (p : proc world A) (Q : error + A → ghost → Prop) g :
  quiet p → (∀ r, Q r g) → wp rs p Q g.
Proof.
  intros Hp HQ. induction p as [r | T m k IH]; cbn; [done |]. destruct Hp as [Hm Hk].
  intros e w r w' Fh Fs Fo He (Hi & Hg & HS & Hev) Heq. destruct (Hm _ _ _ _ He Heq) as [Hred Hs].
  destruct (inv_sound rs w w' _ _ _ Hi Hred Hs) as [Hi' Hev'].
  exists g. split; [split_and!; [done | done | done | by etrans] |]. split; [by split |]. apply IH, Hk.
Qed.

Lemma quiet_on_db {A} (p : proc dbw A) : soundly p → quiet (on_db p).
Proof.
  induction p as [r | T m k IH]; cbn; [done |]. intros [Hm Hk]. split.
  - intros e w r w' He Heq. destruct (m e (wd_db w)) as [r0 d] eqn:Em. injection Heq as <- <-.
    split; [done |]. by eapply Hm.
  - intros r. apply IH, Hk.
Qed.

Lemma quiet_resolve id : quiet (GetWorkflowSpecAndTaskSpecByTaskID id).
Proof.
  assert (Hget : ∀ V A (table : db → gmap string V) (scan : string → V → A) i,
    quiet (on_db (atomic (autocommit (select_row table scan i))))).
  { intros. apply quiet_on_db, query_sound, select_row_same. }
  unfold GetWorkflowSpecAndTaskSpecByTaskID.
  repeat first [apply all_steps_bind; [| intros ?] | apply all_steps_wrap_err | apply Hget | done].
Qed.

Definition handlers_quiet (registry : Registry world) : Prop :=
  ∀ key h task, registry !! key = Some h → quiet (h_Handle h task).

(** ** Handling a message *)

(** The message is spent exactly when no error is returned. *)
Definition labelled_post (i : string) (g : ghost) (r : error + (string * option error)) (g' : ghost) : Prop :=
  match r with
  | inl _ => g' = g
  | inr (_, Some _) => g' = g
  | inr (_, None) => g' = spend i g
  end.

Lemma wp_persist i g prefix (p : proc world unit) ok :
  wp rs p (spent_if_ok i g) g → wp rs (persist prefix p ok) (labelled_post i g) g.
Proof.
  intros Hp. apply wp_try. eapply wp_mono; [| exact Hp]. by intros [err | []] g' ->.
Qed.

Lemma wp_handle_labelled registry msg g m :
  handlers_quiet registry → m ∈ g_held g → xm_ID m ∉ g_spent g → decodeTaskMessage m = inr msg →
  wp rs (handle_labelled registry msg) (labelled_post (xm_ID m) g) g.
Proof.
  intros Hh Hm Hns Hdec. unfold handle_labelled. apply wp_try, wp_quiet; [apply quiet_resolve |].
  intros [err | [spec ts]]; [done |]. apply wp_try.
  assert (Hfor : ∀ tid, uuid_in (tm_TaskID msg) = inr tid → message_for (xm_ID m) (xm_Values m) tid).
  { intros tid Ht. exists msg. split; [| done]. by destruct m. }
  eapply wp_mono; [| by apply (wp_start (tm_TaskID msg) g m)].
  intros [err | [[task attempt] []]] g'; [by intros -> | by intros -> |]. intros [-> Htid].
  pose proof (uuid_in_fix _ _ Htid) as Hfix. pose proof (Hfor _ Htid) as Hf.
  destruct (registry_Get registry (ti_HandlerKey task)) as [h |] eqn:Eh.
  - apply wp_try, wp_quiet; [by eapply Hh |]. intros [err | out].
    + unfold on_handler_error. destruct (Z.gtb _ _).
      * apply wp_bind, wp_quiet.
        { split; [| done]. intros e w r w' _ [= <- <-]. by split. }
        intros [? | now]; [done |]. by eapply wp_persist, wp_retry.
      * by eapply wp_persist, wp_fail.
    + unfold on_handler_success. destruct (FindNextTaskSpec spec (ti_TaskName task)) as [? | [nt |]]; [done | |].
      * by eapply wp_persist, wp_advance.
      * by eapply wp_persist, wp_complete.
  - by eapply wp_persist, wp_fail.
Qed.

Lemma wp_handle registry msg g m :
  handlers_quiet registry → m ∈ g_held g → xm_ID m ∉ g_spent g → decodeTaskMessage m = inr msg →
  wp rs (HandleDispatchedTask registry msg) (spent_if_ok (xm_ID m) g) g.
Proof.
  intros Hh Hm Hns Hdec. apply wp_bind. eapply wp_mono; [| by eapply wp_handle_labelled].
  by intros [err | [label [err |]]] g' ->.
Qed.

(** A message is acknowledged only after it was spent. *)
Lemma wp_ack g m :
  g_held g = [m] → g_spent g = [] →
  wp rs (on_redis (XAck (rs_stream rs) (rs_group rs) (xm_ID m))) (λ _ _, True) (spend (xm_ID m) g).
Proof.
  intros Hheld Hspent e w r w' Fh Fs Fo He Hg Heq.
  assert (Hcon : contents w' = contents w) by (unfold redis_call in Heq; repeat case_match; by simplify_eq).
  assert (Hcases : wd_redis w' = wd_redis w ∨ messages rs w' = delete (xm_ID m) (messages rs w)).
  { unfold redis_call in Heq. unfold messages. destruct (e_outcome e _);
      [destruct (XAck _ _ _ _) as [err | [k st]] eqn:Ea | | destruct (XAck _ _ _ _) as [err | [k st]] eqn:Ea];
      simplify_eq; eauto using xack_unacked. }
  destruct Hg as (Hi & Hown & HF & Hev). destruct Hcases as [Hred | Hdel].
  { exists (spend (xm_ID m) g). destruct (inv_sound rs w w' _ _ _ Hi Hred) as [Hi' Hev']; [by rewrite Hcon |].
    split; [| by split; [apply moved_eq |]]. split_and!; [done | done | done | by rewrite Hcon]. }
  exists (mk_ghost [] [] (g_sent g) (g_seen g)). cbn in Hi. rewrite Hheld, Hspent in Hi. cbn in Hi.
  assert (Hnd : xm_ID m ∉ (xm_ID <$> Fh)) by (pose proof (iv_nodup _ _ _ _ _ Hi) as Hnd; by apply list.NoDup_cons in Hnd as [? _]).
  split; [| split; [apply moved_eq; set_solver | done]].
  split_and!; [| intros i []%elem_of_nil | done | by rewrite Hcon].
  destruct Hi as [Hwf Hh Hnod Hsp Hse Hal]. split; rewrite ?Hcon; [done | | | done | done |].
  - intros m' Hm'. rewrite Hdel, lookup_delete_ne; [apply Hh; set_solver |].
    intros Heq'. apply Hnd. rewrite Heq'. by apply (list_elem_of_fmap_2' xm_ID _ m').
  - by apply list.NoDup_cons in Hnod as [_ ?].
  - intros t row Hrow Hn. destruct (Hal t row Hrow Hn) as [? | [(o & x & ? & ? & ?) | (i & v & Hv & Hfor & Hns)]].
    + by left.
    + right; left. exists o, x. by rewrite Hcon.
    + right; right. exists i, v. apply not_elem_of_cons in Hns as [Hne Hns].
      rewrite Hdel, lookup_delete_ne by done. done.
Qed.

(** The process of a worker: one delivered message, handled and acknowledged. *)
Lemma wp_process_message registry g m :
  handlers_quiet registry → g_held g = [m] → g_spent g = [] →
  wp rs (process_message rs (HandleDispatchedTask registry) m) (λ _ _, True) g.
Proof.
  intros Hh Hheld Hspent. unfold process_message. apply wp_bind. unfold lift_res. cbn [wp].
  destruct (decodeTaskMessage m) as [err | msg] eqn:Hdec; [done |]. apply wp_try.
  eapply wp_mono; [| apply (wp_handle registry msg g m); try done; [rewrite Hheld; set_solver | rewrite Hspent; set_solver]].
  intros [err | []] g' ->; [done |]. apply wp_bind.
  eapply wp_mono; [| by apply wp_ack]. by intros [? | ?] g' _.
Qed.

End worker.
