(* ===== verification/LivePublisher.v ===== *)
(** The publisher keeps every task alive. *)

From S2P Require Import Prelude GoString GoJson GoError Proc Domain Db Pg Store Idempotency History Wf.
From S2P Require Import WfStore StoreSpec StoreSpec2 Service Worker Tokens World Queue Publisher Live.
From S2P Require Import LiveWorker.

Open Scope string_scope.

Lemma autocommit_cases {A} (s : stmt A) e w r w' :
  autocommit s e w = (r, w') →
  (w_db w' = w_db w ∧ ∃ err, r = inl err) ∨
  ∃ a n now, s e n now (w_db w) = inr (a, w_db w') ∧ (r = inr a ∨ ∃ err, r = inl err).
Proof.
  unfold autocommit. destruct (e_outcome e (w_tick w)); [| intros [= <- <-]; eauto |];
    destruct (s _ _ _ _) as [err | [a d]] eqn:Es; intros [= <- <-]; eauto; right; exists a; eauto 10.
Qed.

Section publisher.
Context `{ErrorTexts} `{PostgresLaws} `{RedisLaws}.
Context (rs : RedisStreams).

(** A publisher holds no message; it may have sent the event [o]. *)
Definition publisher_ghost (sent : list string) (seen : db) : ghost := mk_ghost [] [] sent seen.

(** An event that was read from the outbox. *)
Definition listed (seen : db) (event : OutboxEvent) : Prop :=
  ∃ row, outbox_events seen !! oe_ID event = Some row ∧ oe_PayloadJSON event = or_payload_json row.

(** What the publisher reads from a listed event, at any later time. *)
Lemma listed_payload w g Fh Fs Fo event p :
  ginv rs w g Fh Fs Fo → listed (g_seen g) event → unmarshal_payload (oe_PayloadJSON event) = Some p →
  uuid_in (oe_ID event) = inr (oe_ID event) ∧ payload_valid p = true ∧
  uuid_in (dp_TaskID p) = inr (dp_TaskID p) ∧
  ∃ row, outbox_events (contents w) !! oe_ID event = Some row ∧ or_aggregate_id row = dp_TaskID p.
Proof.
  intros (Hi & _ & _ & Hev) (row & Hrow & Hp) Hu. pose proof (iv_wf _ _ _ _ _ Hi) as Hwf.
  destruct (ev_outbox _ _ Hev _ _ Hrow) as (row' & Hrow' & [_ _ Hpay _ _ _ _]).
  destruct (wf_outbox _ Hwf _ _ Hrow') as [Hc [_ (t & Ht & Hdec)]].
  rewrite Hpay, <-Hp, Hu in Hdec. injection Hdec as ->. cbn.
  destruct (wf_tasks _ Hwf _ _ Ht) as [Hct [Hx _ _ Hh _ _ _ _ _ _]].
  split_and!; [done | | done | eauto].
  unfold payload_valid. cbn. rewrite !andb_true_iff. eauto with go.
Qed.

(** A message was added for the task of event [o]: the event may count as sent. *)
Lemma inv_add w w' Fh Fs Fo i v t o row sent :
  inv rs w Fh Fs Fo → contents w' = contents w →
  messages rs w !! i = None → messages rs w' = <[i := v]> (messages rs w) →
  message_for i v t → outbox_events (contents w) !! o = Some row → or_aggregate_id row = t →
  (sent = [] ∨ sent = [o]) → inv rs w' Fh Fs (sent ++ Fo)%list.
Proof.
  intros [Hwf Hh Hnd Hsp Hse Hal] Hcon Hnone Hadd Hfor Ho Ht Hsent. split; rewrite ?Hcon; try done.
  - intros m Hm. rewrite Hadd, lookup_insert_ne; [auto |]. intros ->. by rewrite Hh in Hnone.
  - intros o' [Ho' | ?]%elem_of_app; [| auto]. destruct Hsent as [-> | ->]; [by apply elem_of_nil in Ho' |].
    apply list_elem_of_singleton in Ho' as ->. eauto.
  - intros t' r Hr Hn. destruct (Hal t' r Hr Hn) as [? | [(o' & row' & Ho' & Hw & Hns) | (i' & v' & Hv & Hf & Hns)]].
    + by left.
    + destruct (decide (o' ∈ sent)) as [Hin | Hin].
      * assert (o' = o) as -> by (destruct Hsent as [-> | ->]; set_solver). simplify_eq.
        right; right. destruct Hw as [<- _]. exists i, v. rewrite Hadd, lookup_insert_eq. split_and!; [done | done |].
        intros Hs%Hsp. apply list_elem_of_fmap in Hs as (m & -> & Hm). by rewrite (Hh m Hm) in Hnone.
      * right; left. exists o', row'. rewrite Hcon. set_solver.
    + right; right. exists i', v'. rewrite Hadd, lookup_insert_ne by congruence. done.
Qed.

Lemma wp_dispatch seen event p :
  listed seen event → unmarshal_payload (oe_PayloadJSON event) = Some p →
  wp rs (DispatchTask rs (message_of_payload p)) (λ r g',
    match r with inl _ => g' = publisher_ghost [] seen | inr _ => g' = publisher_ghost [oe_ID event] seen end)
    (publisher_ghost [] seen).
Proof.
  intros Hl Hu. unfold DispatchTask. apply wp_bind. intros e w r w' Fh Fs Fo He Hg Heq.
  destruct (listed_payload w _ Fh Fs Fo event p Hg Hl Hu) as (Hc & Hval & Hct & row & Hrow & Hagg).
  assert (Hcon : contents w' = contents w) by (unfold redis_call in Heq; repeat case_match; by simplify_eq).
  assert (Hcases : (wd_redis w' = wd_redis w ∧ ∃ err, r = inl err) ∨
    ∃ i, messages rs w !! i = None ∧
      messages rs w' = <[i := {["payload" := RString (marshal_message (message_of_payload p))]}]> (messages rs w) ∧
      (r = inr i ∨ ∃ err, r = inl err)).
  { unfold redis_call in Heq. unfold messages.
    destruct (e_outcome e _); [destruct (XAdd _ _ _) as [err | [i st]] eqn:Ea | | destruct (XAdd _ _ _) as [err | [i st]] eqn:Ea];
      simplify_eq; try (left; by eauto); right; exists i; destruct (xadd_unacked _ _ _ _ _ (rs_group rs) Ea); eauto. }
  destruct Hcases as [[Hred [err ->]] | (i & Hnone & Hadd & Hr)].
  - exists (publisher_ghost [] seen). destruct Hg as (Hi & Ho & HF & Hev).
    destruct (inv_sound rs w w' _ _ _ Hi Hred) as [Hi' _]; [by rewrite Hcon |].
    split; [| by split; [apply moved_eq |]]. split_and!; [done | done | done | by rewrite Hcon].
  - destruct Hg as (Hi & Ho & HF & Hev).
    assert (Hfor : message_for i {["payload" := RString (marshal_message (message_of_payload p))]} (dp_TaskID p)).
    { exists (message_of_payload p). split; [| done]. apply decode_dispatched. by destruct p. }
    assert (Hadd' : ∀ sent, sent = [] ∨ sent = [oe_ID event] → ginv rs w' (publisher_ghost sent seen) Fh Fs Fo).
    { intros sent Hsent. split_and!; [| done | done | by rewrite Hcon]. cbn. by eapply (inv_add w w'). }
    destruct Hr as [-> | [err ->]].
    + exists (publisher_ghost [oe_ID event] seen). split_and!; [auto | by apply moved_eq | done].
    + exists (publisher_ghost [] seen). split_and!; [auto | by apply moved_eq | done].
Qed.

(** Marking a sent event: it was not counted on any more. *)
Lemma inv_mark w w' Fh Fs Fo o row row' :
  inv rs w Fh Fs (o :: Fo) → same_redis w w' → db_wf (contents w') →
  outbox_events (contents w) !! o = Some row →
  contents w' = set_outbox_events (<[o := row']> (outbox_events (contents w))) (contents w) →
  inv rs w' Fh Fs Fo.
Proof.
  intros [Hwf Hh Hnd Hsp Hse Hal] Hred Hwf' Ho Hcon.
  assert (Hm : messages rs w' = messages rs w) by (unfold messages; by rewrite Hred).
  split; rewrite ?Hm; try done.
  - intros o' Ho'. rewrite Hcon. cbn. destruct (decide (o = o')) as [<- | Hne];
      [rewrite lookup_insert_eq; eauto | rewrite lookup_insert_ne by done; apply Hse; set_solver].
  - rewrite Hcon. cbn. intros t r Hr Hn. destruct (Hal t r Hr Hn) as [? | [(o' & x & Ho' & Hw & Hns) | (i & v & ?)]].
    + by left.
    + right; left. exists o', x. apply not_elem_of_cons in Hns as [Hne Hns]. rewrite Hcon. cbn.
      by rewrite lookup_insert_ne.
    + right; right. exists i, v. by rewrite Hm.
Qed.

Lemma wp_mark seen event p :
  listed seen event → unmarshal_payload (oe_PayloadJSON event) = Some p →
  wp rs (on_db (MarkOutboxDispatched (oe_ID event))) (λ _ g', g' = publisher_ghost [] seen)
    (publisher_ghost [oe_ID event] seen).
Proof.
  intros Hl Hu. apply wp_db_call. intros e w r d Hok Hr w' Fh Fs Fo Hg.
  destruct (listed_payload w _ Fh Fs Fo event p Hg Hl Hu) as (Hc & _ & _ & row & Hrow & _).
  destruct Hg as (Hi & Ho & HF & Hev). pose proof (iv_wf _ _ _ _ _ Hi) as Hwf.
  exists (publisher_ghost [] seen). apply autocommit_cases in Hr as [[Hd [err ->]] | (a & n & now & Hs & _)].
  - assert (Hcw : contents w' = contents w) by done.
    split; [| by split; [apply moved_eq |]]. split_and!; [| done | done | by rewrite Hcw].
    assert (Hi' : inv rs w' Fh Fs (oe_ID event :: Fo)).
    { apply (inv_sound rs w w' _ _ _ Hi); [done |]. by rewrite Hcw. }
    apply (inv_drop rs w' [] Fh [] Fs [oe_ID event] Fo Hi'). by apply HF.
  - assert (Hwf' : db_wf (contents w')).
    { eapply update_outbox_wf; [| exact Hs | exact Hwf]. intros ? f [= <-] r0 k Hk. by split. }
    assert (Hev' : evolves (contents w) (contents w')) by by eapply mark_dispatched_evolves.
    split; [| split; [by split | done]]. split_and!; [| done | done | by etrans].
    unfold update_outbox in Hs. rewrite Hc in Hs. cbn [rbind] in Hs.
    fold (contents w) in Hs. rewrite Hrow in Hs. inv_res.
    eapply (inv_mark w w'); [exact Hi | done | exact Hwf' | exact Hrow |]. unfold contents at 1. cbn. done.
Qed.

Lemma wp_publish_event seen event :
  listed seen event →
  wp rs (publish_event rs event) (λ _ g', g' = publisher_ghost [] seen) (publisher_ghost [] seen).
Proof.
  intros Hl. unfold publish_event. destruct (unmarshal_payload (oe_PayloadJSON event)) as [p |] eqn:Hu.
  - apply wp_try. eapply wp_mono; [| by apply wp_dispatch]. intros [err | []] g' ->.
    + apply wp_try, wp_sound; [apply RecordOutboxFailure_sound | done].
    + by eapply wp_mark.
  - apply wp_try, wp_sound; [apply RecordOutboxFailure_sound | done].
Qed.

Lemma wp_publish_events seen events :
  Forall (listed seen) events → wp rs (publish_events rs events) (λ _ _, True) (publisher_ghost [] seen).
Proof.
  induction 1 as [| event events Hl Hls IH]; cbn [publish_events]; [done |]. apply wp_bind.
  eapply wp_mono; [| by apply wp_publish_event]. by intros [err | []] g' ->.
Qed.

(** The events a publisher lists are in the outbox, from then on. *)
Lemma wp_list limit seen :
  wp rs (on_db (ListPendingOutbox limit)) (λ r g',
    match r with
    | inl _ => True
    | inr events => ∃ seen', g' = publisher_ghost [] seen' ∧ Forall (listed seen') events
    end) (publisher_ghost [] seen).
Proof.
  apply wp_db_call. intros e w r d Hok Hr w' Fh Fs Fo (Hi & Ho & HF & Hev).
  assert (Hq : stmt_rel eq (select_pending_outbox limit)) by apply select_pending_outbox_same.
  assert (Hcw : contents w' = contents w).
  { apply autocommit_cases in Hr as [[? _] | (? & ? & ? & Hs & _)]; [done |]. symmetry. exact (Hq _ _ _ _ _ _ Hs). }
  exists (publisher_ghost [] (contents w')). split; [| split; [by apply moved_eq |]].
  - split_and!; [| done | done | done]. apply (inv_sound rs w w' _ _ _ Hi); [done |]. by rewrite Hcw.
  - destruct r as [| events]; [done |]. exists (contents w'). split; [done |].
    apply autocommit_cases in Hr as [[_ [? [=]]] | (a & n & now & Hs & [[= <-] | [? [=]]])].
    unfold select_pending_outbox in Hs. inv_res. apply Forall_fmap, Forall_take, Forall_forall.
    intros [o row] Hin%list_elem_of_In. apply elem_of_sort_by, list_elem_of_filter in Hin as [_ Hin%elem_of_map_to_list].
    exists row. rewrite Hcw. done.
Qed.

Lemma wp_publishOnce seen : wp rs (publishOnce rs) (λ _ _, True) (publisher_ghost [] seen).
Proof.
  unfold publishOnce. apply wp_bind, wp_sound; [apply EnqueueDueTaskRetries_sound |]. intros [err | count]; [done |].
  apply wp_bind. eapply wp_mono; [| apply wp_list]. intros [err | events] g'; [done |].
  intros (seen' & -> & Hl). by apply wp_publish_events.
Qed.

End publisher.
