(* ===== verification/System.v ===== *)
(** The whole engine: API requests, publishers and workers that run at the same
    time over one database and one stream, any of which may stop at any step
    (apps/api/main.go and apps/worker/main.go start them). *)

From S2P Require Import Prelude GoString GoJson GoError Proc Domain Db Pg Store Idempotency History Wf.
From S2P Require Import WfStore StoreSpec StoreSpec2 Service Worker Tokens World Queue Publisher Live.
From S2P Require Import LiveWorker LivePublisher.

Open Scope string_scope.

Section system.
Context `{ErrorTexts} `{PostgresLaws} `{RedisLaws}.
Context (rs : RedisStreams) (registry : Registry world).

(** * Agents *)

(** A running request or publisher, or a worker that handles the message
    [current] of a batch and has [queue] left of it. *)
Inductive agent : Type :=
| Request (p : proc world unit)
| Work (current : XMessage) (p : proc world unit) (queue : list XMessage).

Definition agent_messages (a : agent) : list XMessage :=
  match a with Request _ => [] | Work m _ q => m :: q end.

(** The process of a worker for one message of its batch (processMessages). *)
Definition work_on (m : XMessage) : proc world unit :=
  process_message rs (HandleDispatchedTask registry) m.

Inductive agent_step : world → agent → world → agent → Prop :=
| request_step {T} w e (m : env → world → (error + T) * world) k r w' :
    env_ok e → m e w = (r, w') → agent_step w (Request (Atomic m k)) w' (Request (k r))
| work_step {T} w e (m : env → world → (error + T) * world) k r w' msg q :
    env_ok e → m e w = (r, w') → agent_step w (Work msg (Atomic m k) q) w' (Work msg (k r) q)
| work_next w msg msg' q :
    agent_step w (Work msg (Ret (inr tt)) (msg' :: q)) w (Work msg' (work_on msg') q).

(** The commands by which a consumer of the group asks for messages. *)
Inductive asks : (redis_state → error + (list XMessage * redis_state)) → Prop :=
| asks_claim consumer idle count : asks (XAutoClaim (rs_group rs) consumer (rs_stream rs) idle count)
| asks_read consumer count block : asks (XReadGroup (rs_group rs) consumer (rs_stream rs) count block).

(** No running worker has one of the messages. *)
Definition unclaimed (ags : list agent) (msgs : list XMessage) : Prop :=
  NoDup (xm_ID <$> msgs) ∧
  ∀ m a m', m ∈ msgs → a ∈ ags → m' ∈ agent_messages a → xm_ID m ≠ xm_ID m'.

(** Steps of the system; with [exclusive] a message is delivered only when no
    running worker has it. *)
Inductive sys_step (exclusive : bool) : world * list agent → world * list agent → Prop :=
| sys_request w ags req : sys_step exclusive (w, ags) (w, Request (on_db (api_proc req)) :: ags)
| sys_publish w ags : sys_step exclusive (w, ags) (w, Request (publishOnce rs) :: ags)
| sys_deliver w ags e c m msgs w' :
    env_ok e → asks c → redis_call c e w = (inr (m :: msgs), w') →
    (exclusive = true → unclaimed ags (m :: msgs)) →
    sys_step exclusive (w, ags) (w', Work m (work_on m) msgs :: ags)
| sys_nothing w ags e c r w' :
    env_ok e → asks c → redis_call c e w = (r, w') → sys_step exclusive (w, ags) (w', ags)
| sys_run w ags1 a ags2 w' a' :
    agent_step w a w' a' → sys_step exclusive (w, ags1 ++ a :: ags2)%list (w', ags1 ++ a' :: ags2)%list
| sys_stop w ags1 a ags2 : sys_step exclusive (w, ags1 ++ a :: ags2)%list (w, ags1 ++ ags2)%list.

(** * The invariant of the system *)

(** What each agent holds, and the rest of its batch. *)
Definition held_of (l : list (ghost * list XMessage)) : list XMessage :=
  concat ((λ p, g_held p.1 ++ p.2)%list <$> l).
Definition spent_of (l : list (ghost * list XMessage)) : list string := concat ((λ p, g_spent p.1) <$> l).
Definition sent_of (l : list (ghost * list XMessage)) : list string := concat ((λ p, g_sent p.1) <$> l).

Definition agent_inv (a : agent) (p : ghost * list XMessage) : Prop :=
  match a with
  | Request pr => p.2 = [] ∧ g_held p.1 = [] ∧ wp rs pr (λ _ _, True) p.1
  | Work m pr q => p.2 = q ∧ g_held p.1 ⊆ [m] ∧ wp rs pr (λ _ _, True) p.1
  end.

Definition ghost_ok (w : world) (p : ghost * list XMessage) : Prop :=
  owns (g_held p.1) (g_spent p.1) ∧ evolves (g_seen p.1) (contents w).

Definition sys_inv (c : world * list agent) : Prop :=
  ∃ l, Forall2 agent_inv c.2 l ∧ Forall (ghost_ok c.1) l ∧ inv rs c.1 (held_of l) (spent_of l) (sent_of l).

(** ** Lemmas *)

Lemma held_app l1 g q l2 :
  held_of (l1 ++ (g, q) :: l2)%list ≡ₚ (g_held g ++ q ++ held_of (l1 ++ l2))%list.
Proof. unfold held_of. rewrite !fmap_app, !concat_app. cbn. solve_Permutation. Qed.
Lemma spent_app l1 g q l2 :
  spent_of (l1 ++ (g, q) :: l2)%list ≡ₚ (g_spent g ++ spent_of (l1 ++ l2))%list.
Proof. unfold spent_of. rewrite !fmap_app, !concat_app. cbn. solve_Permutation. Qed.
Lemma sent_app l1 g q l2 :
  sent_of (l1 ++ (g, q) :: l2)%list ≡ₚ (g_sent g ++ sent_of (l1 ++ l2))%list.
Proof. unfold sent_of. rewrite !fmap_app, !concat_app. cbn. solve_Permutation. Qed.

Lemma owns_of w l : Forall (ghost_ok w) l → owns (held_of l) (spent_of l).
Proof.
  induction 1 as [| [g q] l [Hown _] _ IH]; [by intros i []%elem_of_nil |]. intros i Hi.
  unfold spent_of, held_of in *. cbn in *. rewrite !fmap_app, !elem_of_app. apply elem_of_app in Hi.
  destruct Hi as [Hi%Hown | Hi%IH]; auto.
Qed.

Lemma owns_app held q spent : owns held spent → owns (q ++ held)%list spent.
Proof. intros Ho i Hi%Ho. rewrite fmap_app. set_solver. Qed.

Lemma held_agents ags l m : Forall2 agent_inv ags l → m ∈ held_of l → ∃ a, a ∈ ags ∧ m ∈ agent_messages a.
Proof.
  induction 1 as [| a [g q] ags l Ha _ IH]; [by intros []%elem_of_nil |].
  unfold held_of in *. cbn. rewrite elem_of_app. intros [Hm | Hm].
  - exists a. split; [set_solver |]. destruct a as [pr | m0 pr q0]; cbn in *.
    + destruct Ha as (-> & Hg & _). by rewrite Hg in Hm.
    + destruct Ha as (-> & Hsub & _). set_solver.
  - destruct (IH Hm) as (a' & ? & ?). exists a'. set_solver.
Qed.

(** One more agent. *)
Lemma sys_inv_add w ags a g q l :
  Forall2 agent_inv ags l → Forall (ghost_ok w) l → agent_inv a (g, q) → ghost_ok w (g, q) →
  inv rs w (g_held g ++ q ++ held_of l)%list (g_spent g ++ spent_of l)%list (g_sent g ++ sent_of l)%list →
  sys_inv (w, a :: ags).
Proof.
  intros Hl Hok Ha Hg Hi. exists ((g, q) :: l). split; [by constructor |]. split; [by constructor |].
  unfold held_of, spent_of, sent_of in *. cbn. by rewrite <-(assoc_L (++)).
Qed.

(** Messages and contents stay when a consumer asks for messages; what it gets
    is unacknowledged. *)
Lemma asks_inv c e w r w' :
  asks c → redis_call c e w = (r, w') →
  contents w' = contents w ∧ messages rs w' = messages rs w ∧
  ∀ msgs m, r = inr msgs → m ∈ msgs → messages rs w !! xm_ID m = Some (xm_Values m).
Proof.
  intros Hc Heq.
  assert (Hcs : ∀ s l s', c s = inr (l, s') →
    (∀ m, m ∈ l → unacked s (rs_stream rs) (rs_group rs) !! xm_ID m = Some (xm_Values m)) ∧
    unacked s' (rs_stream rs) (rs_group rs) = unacked s (rs_stream rs) (rs_group rs)).
  { intros s l s' Hs. destruct Hc; [apply xclaim_unacked in Hs | apply xread_unacked in Hs]; naive_solver. }
  unfold redis_call in Heq. unfold messages, contents.
  destruct (e_outcome e _); [destruct (c (wd_redis w)) as [err | [l st]] eqn:E | | destruct (c (wd_redis w)) as [err | [l st]] eqn:E];
    simplify_eq; cbn; try apply Hcs in E as [E1 E2]; naive_solver.
Qed.

Lemma inv_same w w' held spent sent :
  contents w' = contents w → messages rs w' = messages rs w → inv rs w held spent sent → inv rs w' held spent sent.
Proof.
  intros Hc Hm [Hwf Hh Hnd Hsp Hse Hal]. split; rewrite ?Hc, ?Hm; try done.
  intros t r Hr Hn. unfold alive. rewrite Hc, Hm. by apply Hal.
Qed.

Lemma ghosts_evolve w w' l : evolves (contents w) (contents w') → Forall (ghost_ok w) l → Forall (ghost_ok w') l.
Proof. intros He. apply Forall_impl. intros p [? ?]. split; [done | by etrans]. Qed.

(** One agent takes a step, with its [g] for the others' [l1] and [l2]. *)
Lemma step_inv {T} w e (m : env → world → (error + T) * world) (k : error + T → proc world unit) r w' g q l1 l2 :
  env_ok e → m e w = (r, w') → wp rs (Atomic m k) (λ _ _, True) g →
  Forall (ghost_ok w) (l1 ++ (g, q) :: l2)%list →
  inv rs w (held_of (l1 ++ (g, q) :: l2)) (spent_of (l1 ++ (g, q) :: l2)) (sent_of (l1 ++ (g, q) :: l2)) →
  ∃ g', wp rs (k r) (λ _ _, True) g' ∧ g_held g' ⊆ g_held g ∧
    Forall (ghost_ok w') (l1 ++ (g', q) :: l2)%list ∧
    inv rs w' (held_of (l1 ++ (g', q) :: l2)) (spent_of (l1 ++ (g', q) :: l2)) (sent_of (l1 ++ (g', q) :: l2)).
Proof.
  intros He Hm Hwp Hok Hi. apply Forall_app in Hok as [Hok1 [[Hown Hseen] Hok2]%Forall_cons_1].
  assert (Hok12 : Forall (ghost_ok w) (l1 ++ l2)) by by apply Forall_app.
  rewrite held_app, spent_app, sent_app in Hi. cbn [fst] in *.
  destruct (Hwp e w r w' (q ++ held_of (l1 ++ l2))%list (spent_of (l1 ++ l2)) (sent_of (l1 ++ l2)) He)
    as (g' & (Hi' & Hown' & _ & Hseen') & [Hev Hsub] & Hwp'); [| done |].
  { split_and!; [done | done | | done]. apply owns_app. by eapply owns_of. }
  exists g'. split; [done |]. split; [done |]. split; [| by rewrite held_app, spent_app, sent_app].
  apply (ghosts_evolve w w') in Hok12; [| done]. apply Forall_app in Hok12 as [? ?].
  apply Forall_app. split; [done |]. by constructor.
Qed.

(** An agent stops: what it held is pending again. *)
Lemma stop_inv w g q l1 l2 :
  Forall (ghost_ok w) (l1 ++ (g, q) :: l2)%list →
  inv rs w (held_of (l1 ++ (g, q) :: l2)) (spent_of (l1 ++ (g, q) :: l2)) (sent_of (l1 ++ (g, q) :: l2)) →
  Forall (ghost_ok w) (l1 ++ l2)%list ∧
  inv rs w (held_of (l1 ++ l2)) (spent_of (l1 ++ l2)) (sent_of (l1 ++ l2)).
Proof.
  intros Hok Hi. apply Forall_app in Hok as [Hok1 [_ Hok2]%Forall_cons_1].
  assert (Hok12 : Forall (ghost_ok w) (l1 ++ l2)) by by apply Forall_app.
  split; [done |]. rewrite held_app, spent_app, sent_app, (assoc_L (++)) in Hi.
  eapply inv_drop; [exact Hi |]. by eapply owns_of.
Qed.

(** A worker starts with a message: it holds it, and has not handled it. *)
Definition fresh (w : world) (m : XMessage) : ghost := mk_ghost [m] [] [] (contents w).

Lemma work_inv w m q : handlers_quiet registry → agent_inv (Work m (work_on m) q) (fresh w m, q) ∧ ghost_ok w (fresh w m, q).
Proof.
  intros Hq. split; [split_and!; [done | done | by apply wp_process_message] |].
  split; [by intros i []%elem_of_nil | done].
Qed.

Lemma inv_next w m' g q l1 l2 :
  Forall (ghost_ok w) (l1 ++ (g, m' :: q) :: l2)%list →
  inv rs w (held_of (l1 ++ (g, m' :: q) :: l2)) (spent_of (l1 ++ (g, m' :: q) :: l2))
    (sent_of (l1 ++ (g, m' :: q) :: l2)) →
  inv rs w (held_of (l1 ++ (fresh w m', q) :: l2)) (spent_of (l1 ++ (fresh w m', q) :: l2))
    (sent_of (l1 ++ (fresh w m', q) :: l2)).
Proof.
  intros Hok Hi. apply Forall_app in Hok as [Hok1 [_ Hok2]%Forall_cons_1].
  assert (Hok12 : Forall (ghost_ok w) (l1 ++ l2)) by by apply Forall_app.
  rewrite held_app, spent_app, sent_app in *. cbn.
  eapply inv_drop; [exact Hi |]. apply (owns_app _ (m' :: q)). by eapply owns_of.
Qed.

(** A delivery, of messages nobody has. *)
Lemma inv_deliver w ags l m msgs :
  Forall2 agent_inv ags l → unclaimed ags (m :: msgs) →
  (∀ m', m' ∈ m :: msgs → messages rs w !! xm_ID m' = Some (xm_Values m')) →
  inv rs w (held_of l) (spent_of l) (sent_of l) →
  inv rs w ((m :: msgs) ++ held_of l)%list (spent_of l) (sent_of l).
Proof.
  intros Hl [Hnd Hun] Hms [Hwf Hh Hndl Hsp Hse Hal]. split; [done | | | | done | done].
  - intros m' [Hm | Hm]%elem_of_app; auto.
  - rewrite fmap_app. apply list.NoDup_app. split; [done |]. split; [| done].
    intros i (m1 & -> & Hm1)%list_elem_of_fmap (m2 & Heq & Hm2)%list_elem_of_fmap.
    destruct (held_agents _ _ _ Hl Hm2) as (a & Ha & Hma). by apply (Hun m1 a m2).
  - intros i Hi%Hsp. rewrite fmap_app. apply elem_of_app. by right.
Qed.

Lemma agent_step_inv w ags1 a ags2 w' a' :
  handlers_quiet registry → agent_step w a w' a' →
  sys_inv (w, ags1 ++ a :: ags2)%list → sys_inv (w', ags1 ++ a' :: ags2)%list.
Proof.
  intros Hq Hstep (l & Hl & Hok & Hi). cbn [fst snd] in *.
  apply Forall2_app_inv_l in Hl as (l1 & l2' & Hl1 & Hl2 & ->).
  apply Forall2_cons_inv_l in Hl2 as ([g q] & l2 & Ha & Hl2 & ->).
  destruct Hstep as [T w e m k r w' He Hm | T w e m k r w' msg q' He Hm | w msg msg' q'].
  - destruct Ha as (Hq' & Hg & Hwp). cbn [fst snd] in *.
    destruct (step_inv _ _ _ _ _ _ _ _ _ _ He Hm Hwp Hok Hi) as (g' & Hwp' & Hsub & Hok' & Hi').
    exists (l1 ++ (g', q) :: l2)%list. split; [| done]. apply Forall2_app; [done |]. constructor; [| done].
    split_and!; [done | | done]. rewrite Hg in Hsub. cbn. destruct (g_held g') as [| x h]; [done | set_solver].
  - destruct Ha as (Hq' & Hg & Hwp). cbn [fst snd] in *.
    destruct (step_inv _ _ _ _ _ _ _ _ _ _ He Hm Hwp Hok Hi) as (g' & Hwp' & Hsub & Hok' & Hi').
    exists (l1 ++ (g', q) :: l2)%list. split; [| done]. apply Forall2_app; [done |]. constructor; [| done].
    split_and!; [done | by etrans | done].
  - destruct (work_inv w msg' q' Hq) as [Hwork Hgh]. pose proof Ha as (Hq' & _). cbn in Hq'. subst q.
    exists (l1 ++ (fresh w msg', q') :: l2)%list. split; [by apply Forall2_app; [| constructor] |].
    split; [| by eapply inv_next]. apply Forall_app in Hok as [Hok1 [_ Hok2]%Forall_cons_1].
    apply Forall_app. split; [done |]. by constructor.
Qed.

Lemma sys_step_inv c c' : handlers_quiet registry → sys_step true c c' → sys_inv c → sys_inv c'.
Proof.
  intros Hq Hstep Hc.
  destruct Hstep as [w ags req | w ags | w ags e cmd m msgs w' He Hcmd Hcall Hun
    | w ags e cmd r w' He Hcmd Hcall | w ags1 a ags2 w' a' Hrun | w ags1 a ags2].
  - destruct Hc as (l & Hl & Hok & Hi). cbn [fst snd] in *.
    apply (sys_inv_add w ags _ (mk_ghost [] [] [] (contents w)) [] l); try done.
    + split_and!; [done | done |]. apply wp_sound; [apply api_sound | done].
    + split; [by intros i []%elem_of_nil | done].
  - destruct Hc as (l & Hl & Hok & Hi). cbn [fst snd] in *.
    apply (sys_inv_add w ags _ (publisher_ghost [] (contents w)) [] l); try done.
    + split_and!; [done | done |]. apply wp_publishOnce.
    + split; [by intros i []%elem_of_nil | done].
  - destruct Hc as (l & Hl & Hok & Hi). cbn [fst snd] in *.
    destruct (asks_inv _ _ _ _ _ Hcmd Hcall) as (Hcon & Hmsg & Hdel).
    destruct (work_inv w' m msgs Hq) as [Hwork Hgh].
    apply (sys_inv_add w' ags _ (fresh w' m) msgs l); try done.
    + by apply (ghosts_evolve w w'); [rewrite Hcon |].
    + apply (inv_same w w'); [done | done |]. apply (inv_deliver w ags l m msgs); auto.
      intros m' Hm'. by eapply Hdel.
  - destruct Hc as (l & Hl & Hok & Hi). cbn [fst snd] in *.
    destruct (asks_inv _ _ _ _ _ Hcmd Hcall) as (Hcon & Hmsg & _). exists l. split; [done |].
    split; [by apply (ghosts_evolve w w'); [rewrite Hcon |] | by apply (inv_same w w')].
  - by apply (agent_step_inv w ags1 a).
  - destruct Hc as (l & Hl & Hok & Hi). cbn [fst snd] in *.
    apply Forall2_app_inv_l in Hl as (l1 & l2' & Hl1 & Hl2 & ->).
    apply Forall2_cons_inv_l in Hl2 as ([g q] & l2 & Ha & Hl2 & ->).
    destruct (stop_inv _ _ _ _ _ Hok Hi) as [Hok' Hi']. exists (l1 ++ l2)%list.
    split; [by apply Forall2_app | done].
Qed.

Lemma sys_reach_inv c c' : handlers_quiet registry → rtc (sys_step true) c c' → sys_inv c → sys_inv c'.
Proof. intros Hq. induction 1; [done |]. intros Hc. eauto using sys_step_inv. Qed.

Lemma sys_inv_empty w : contents w = empty_db → sys_inv (w, []).
Proof.
  intros Hw. exists []. split; [constructor |]. split; [constructor |].
  split; cbn; rewrite ?Hw; [apply empty_wf | set_solver | by apply list.NoDup_nil | set_solver | set_solver |].
  intros t r. cbn. by rewrite lookup_empty.
Qed.

Lemma sys_never_loses w w' ags t r :
  handlers_quiet registry → contents w = empty_db → rtc (sys_step true) (w, []) (w', ags) →
  task_instances (contents w') !! t = Some r → ¬ terminal (tr_status r) →
  scheduled r ∨
  (∃ o row, outbox_events (contents w') !! o = Some row ∧ waiting t row) ∨
  (∃ i v, messages rs w' !! i = Some v ∧ message_for i v t).
Proof.
  intros Hq Hw Hrun Hr Hn.
  destruct (sys_reach_inv _ _ Hq Hrun (sys_inv_empty w Hw)) as (l & _ & _ & Hi).
  destruct (iv_alive _ _ _ _ _ Hi t r Hr Hn) as [? | [(o & row & ? & ? & _) | (i & v & ? & ? & _)]]; eauto 10.
Qed.


End system.
