(* ===== verification/Recovery.v ===== *)
(** Recovery: from every state the engine can reach, whatever has crashed, each
    unfinished task can be delivered to a worker again.

    System.v shows that something always stands for the task: a retry time, an
    event, or a message.  Here the publisher and the consumer are run from there:
    one call enqueues the task when it is due, rounds of the publisher bring its
    event to the stream, and the group delivers the message. *)

From S2P Require Import Prelude GoString GoJson GoError Proc Domain Db Pg Store Idempotency History Wf.
From S2P Require Import WfStore StoreSpec StoreSpec2 Progress Service Worker Tokens World Queue Publisher Live.
From S2P Require Import LiveWorker LivePublisher System.

Open Scope string_scope.

(** * What is asked of Redis and of the rows *)

(** A consumer asks for messages and gets [l]. *)
Definition hands_out `{Redis} (rs : RedisStreams) (s : redis_state) (l : list XMessage) (s' : redis_state) : Prop :=
  ∃ c, asks rs c ∧ c s = inr (l, s') ∧ NoDup (xm_ID <$> l).

(** In the states [live], XADD and XACK are accepted, and every entry that the
    group has not acknowledged is handed out, first of its batch, once consumers have
    asked for the entries before it: by XREADGROUP when it was not delivered yet, by
    XAUTOCLAIM when it was, after the idle time. *)
Class RedisLive `{RedisLaws} (rs : RedisStreams) := {
  live : redis_state → Prop;
  live_add values s : live s → ∃ i s', XAdd (rs_stream rs) values s = inr (i, s') ∧ live s';
  live_ack i s : live s → ∃ k s', XAck (rs_stream rs) (rs_group rs) i s = inr (k, s') ∧ live s';
  live_deliver s i v : live s → unacked s (rs_stream rs) (rs_group rs) !! i = Some v →
    ∃ s1 q s', rtc (λ x y, ∃ l, hands_out rs x l y) s s1 ∧ hands_out rs s1 (mkXMessage i v :: q) s' ∧ live s';
}.

(** No counter of attempts is at the end of its column, for the events that are
    still to be dispatched. *)
Definition counts_ok (d : db) : Prop :=
  map_Forall (λ _ row, or_dispatched_at row = None → (0 ≤ or_attempt_count row < 2 ^ 31 - 1)%Z) (outbox_events d).

(** How many events are still to be dispatched. *)
Definition waiting_count (d : db) : nat := size (filter (λ p, or_dispatched_at p.2 = None) (outbox_events d)).

(** * What happens until the task [t] is delivered *)

(** Its row stays as it is but for the times; beside it, only events of the outbox
    change, and [u] is the identifier of the only one that may be new. *)
Definition same_task (r r' : task_row) : Prop :=
  (tr_workflow_execution_id r', tr_task_name r', tr_handler_key r', tr_status r', tr_attempts_total r', tr_idempotency_key r') =
  (tr_workflow_execution_id r, tr_task_name r, tr_handler_key r, tr_status r, tr_attempts_total r, tr_idempotency_key r).

Record undisturbed (t u : string) (d d' : db) : Prop := {
  wt_definitions : workflow_definitions d' = workflow_definitions d;
  wt_executions : workflow_executions d' = workflow_executions d;
  wt_attempts : task_attempts d' = task_attempts d;
  wt_others t' : t' ≠ t → task_instances d' !! t' = task_instances d !! t';
  wt_task r : task_instances d !! t = Some r → ∃ r', task_instances d' !! t = Some r' ∧ same_task r r';
  wt_outbox o : o ≠ u → outbox_events d !! o = None → outbox_events d' !! o = None;
}.

#[export] Instance waited_po t u : PreOrder (undisturbed t u).
Proof.
  split; [intros d; split; try done; intros r Hr; by exists r |].
  intros d1 d2 d3 [D1 X1 A1 O1 T1 E1] [D2 X2 A2 O2 T2 E2]. split; try congruence; eauto.
  - intros t' Ht. by rewrite O2, O1.
  - intros r (r' & Hr' & H1)%T1. apply T2 in Hr' as (r'' & Hr'' & H2). exists r''. split; [done |].
    unfold same_task in *. congruence.
Qed.

(** * Calls that are answered *)

Definition steady (u : string) (now : Z) (locked : string → bool) : env :=
  Env (λ _, now) (λ _, u) (λ _, Delivered) (λ _, locked) (λ _, 0%Z).

Section recovery.
Context `{ErrorTexts} `{PostgresLaws} `{RedisLaws}.
Context (rs : RedisStreams) (registry : Registry world) `{!RedisLive rs}.

Abbreviation steps := (rtc (sys_step rs registry true)).

Lemma steady_reliable u now locked : reliable (steady u now locked).
Proof. done. Qed.
Lemma steady_ok u now locked : uuid_in u = inr u → env_ok (steady u now locked).
Proof. by intros Hu n. Qed.

Lemma crash_all w ags : steps (w, ags) (w, []).
Proof. induction ags as [| a ags IH]; [done |]. eapply rtc_l; [apply (sys_stop rs registry true w [] a ags) | exact IH]. Qed.

Lemma agent_steps w a w' a' : agent_step rs registry w a w' a' → steps (w, [a]) (w', [a']).
Proof. intros Ha. apply rtc_once. by apply (sys_run rs registry true w [] a []). Qed.

Lemma next_steps e w p w' p' :
  env_ok e → proc_next e w p = Some (w', p') → steps (w, [Request p]) (w', [Request p']).
Proof.
  intros He Hn. apply agent_steps. destruct p as [r | T m k]; [done |]. cbn in Hn.
  destruct (m e w) as [r w1] eqn:Hm. injection Hn as <- <-. by eapply request_step.
Qed.

Lemma db_call_step {A} (m : env → dbw → (error + A) * dbw) (k : A → proc world unit) e w a d :
  env_ok e → m e (wd_db w) = (inr a, d) →
  steps (w, [Request (bind (on_db (atomic m)) k)]) (mk_world d (wd_redis w), [Request (k a)]).
Proof. intros He Hm. apply (next_steps e); [done |]. cbn. by rewrite Hm. Qed.

Lemma dispatch_step e w event rest p i s :
  env_ok e → e_outcome e (w_tick (wd_db w)) = Delivered → unmarshal_payload (oe_PayloadJSON event) = Some p →
  XAdd (rs_stream rs) {["payload" := RString (marshal_message (message_of_payload p))]} (wd_redis w) = inr (i, s) →
  steps (w, [Request (publish_events rs (event :: rest))])
    (mk_world (mk_dbw (contents w) (S (w_tick (wd_db w)))) s,
     [Request (bind (on_db (MarkOutboxDispatched (oe_ID event))) (λ _, publish_events rs rest))]).
Proof.
  intros He Ho Hp Ha. apply (next_steps e); [done |]. cbn [publish_events]. unfold publish_event. rewrite Hp.
  cbn. unfold redis_call. rewrite Ho, Ha. done.
Qed.

(** ** The calls of the publisher *)

Lemma tx_result {A} (body : tx A) e w (Q : A → db → Prop) :
  reliable e → tx_wp body e (e_now e (w_tick w)) (S (w_tick w)) (w_db w) (λ a d _, Q a d) →
  ∃ a d n, in_tx body e w = (inr a, mk_dbw d n) ∧ Q a d.
Proof. intros He (a & d & n & Hb & HQ). exists a, d, (S n). split; [| done]. by rewrite run_in_tx, Hb. Qed.

Lemma select_due_locked u now n now' d : select_due 20 (steady u now (λ _, true)) n now' d = inr ([], d).
Proof.
  unfold select_due, limit_in. cbn [Z.ltb rbind]. change (Z.ltb 20 0) with false. cbn [rbind].
  destruct (filter _ _) as [| x l] eqn:E; [done |]. exfalso.
  assert (Hx : x ∈ x :: l) by by left. rewrite <-E in Hx. by apply list_elem_of_filter in Hx as [[_ ?] _].
Qed.

(** No row is left for the retries: all are locked by others. *)
Lemma enqueue_none u now d :
  ∃ n, in_tx (enqueue_due_body 20) (steady u now (λ _, true)) d = (inr 0%Z, mk_dbw (w_db d) n).
Proof.
  destruct (tx_result (enqueue_due_body 20) (steady u now (λ _, true)) d (λ a d', a = 0%Z ∧ d' = w_db d))
    as (a & d' & n & Hr & -> & ->); [done | | by exists n].
  apply tx_wp_bind. eapply tx_wp_stmt; [done | apply select_due_locked |].
  cbn [tx_for]. apply tx_wp_bind. by apply tx_wp_ret, tx_wp_ret.
Qed.

(** The oldest event that is ready. *)
Lemma list_oldest u now locked d o row :
  outbox_events (w_db d) !! o = Some row → or_dispatched_at row = None → (or_available_at row ≤ now)%Z →
  ∃ o1 row1 rest, autocommit (select_pending_outbox 20) (steady u now locked) d =
    (inr (scanOutboxEvent o1 row1 :: rest), mk_dbw (w_db d) (S (w_tick d))) ∧
    outbox_events (w_db d) !! o1 = Some row1 ∧ or_dispatched_at row1 = None.
Proof.
  intros Ho Hd Ha. set (ready := filter (λ p, is_ready now p.2 = true) (map_to_list (outbox_events (w_db d)))).
  assert (Hin : (o, row) ∈ sort_by (λ p : string * outbox_row, or_created_at p.2) ready).
  { apply elem_of_sort_by, list_elem_of_filter. split; [| by apply elem_of_map_to_list].
    unfold is_ready. cbn [snd]. rewrite Hd. by apply Z.leb_le. }
  destruct (sort_by _ ready) as [| [o1 row1] l] eqn:E; [by apply elem_of_nil in Hin |].
  assert (Hin1 : (o1, row1) ∈ ready) by (apply (elem_of_sort_by (λ p : string * outbox_row, or_created_at p.2)); rewrite E; by left).
  apply list_elem_of_filter in Hin1 as [Hr1 Hin1%elem_of_map_to_list]. cbn [snd] in Hr1.
  exists o1, row1, ((λ p, scanOutboxEvent p.1 p.2) <$> take 19 l). split_and!; [| done |].
  - rewrite run_autocommit by done. unfold select_pending_outbox, limit_in. change (Z.ltb 20 0) with false. cbn [rbind].
    change (Z.to_nat 20) with 20%nat. fold ready. cbn [e_now steady]. fold ready. by rewrite E.
  - unfold is_ready in Hr1. by destruct (or_dispatched_at row1).
Qed.

Lemma mark_waiting d o row row' : outbox_events d !! o = Some row → or_dispatched_at row = None →
  or_dispatched_at row' ≠ None →
  (waiting_count (set_outbox_events (<[o := row']> (outbox_events d)) d) < waiting_count d)%nat.
Proof.
  intros Ho Hd Hd'. unfold waiting_count. cbn [outbox_events set_outbox_events].
  rewrite map_filter_insert_False by done. rewrite map_filter_delete.
  assert (Hin : filter (λ p : string * outbox_row, or_dispatched_at p.2 = None) (outbox_events d) !! o = Some row)
    by by apply map_lookup_filter_Some.
  rewrite map_size_delete_Some by by eexists.
  assert (size (filter (λ p : string * outbox_row, or_dispatched_at p.2 = None) (outbox_events d)) ≠ 0%nat); [| lia].
  rewrite map_size_ne_0_lookup. by eexists.
Qed.

(** One event is dispatched, the oldest. *)
Lemma publish_round w u o row :
  uuid_in u = inr u → db_wf (contents w) → live (wd_redis w) → counts_ok (contents w) →
  outbox_events (contents w) !! o = Some row → or_dispatched_at row = None →
  ∃ w', steps (w, []) (w', []) ∧ task_instances (contents w') = task_instances (contents w) ∧
    (∀ t v, undisturbed t v (contents w) (contents w')) ∧
    (waiting_count (contents w') < waiting_count (contents w))%nat ∧ live (wd_redis w') ∧ counts_ok (contents w').
Proof.
  intros Hu Hwf Hlive Hc Ho Hd. destruct w as [d s]. unfold contents in *. cbn [wd_db wd_redis] in *.
  destruct (enqueue_none u 0 d) as [n Hq].
  destruct (list_oldest u (or_available_at row) (λ _, true) (mk_dbw (w_db d) n) o row Ho Hd ltac:(done))
    as (o1 & row1 & rest & Hl & Ho1 & Hd1).
  cbn [w_db w_tick] in Hl, Ho1. destruct (wf_outbox _ Hwf _ _ Ho1) as [Hu1 [_ (t & Ht & Hp)]].
  match type of Hp with _ = Some ?pl =>
    destruct (live_add {["payload" := RString (marshal_message (message_of_payload pl))]} s Hlive) as (i & s' & Hadd & Hlive') end.
  pose proof (Hc _ _ Ho1 Hd1) as Hcount. cbn beta in Hcount.
  exists (mk_world (mk_dbw (set_outbox_events (<[o1 := set_or_attempt_count (or_attempt_count row1 + 1)
    (set_or_dispatched_at (Some 0%Z) row1)]> (outbox_events (w_db d))) (w_db d)) (S (S (S n)))) s').
  split_and!; [| done | | by eapply mark_waiting | done |].
  - eapply rtc_l; [apply sys_publish |]. etrans; [eapply db_call_step; [by apply (steady_ok u) | exact Hq] |].
    etrans; [eapply db_call_step; [by apply (steady_ok u) | exact Hl] |].
    etrans; [eapply dispatch_step; [by apply (steady_ok u 0 (λ _, true)) | done | exact Hp | exact Hadd] |].
    etrans; [| apply crash_all]. eapply db_call_step; [by apply (steady_ok u 0 (λ _, true)) |].
    rewrite run_autocommit by done. unfold update_outbox. cbn [oe_ID scanOutboxEvent contents w_db wd_db].
    rewrite Hu1. cbn [rbind]. unfold contents. cbn [w_db wd_db]. rewrite Ho1, int4_in_accepts by lia. done.
  - intros t' v'. split; cbn; try done; [by intros r ?; exists r |].
    intros o2 _ Ho2. rewrite lookup_insert_ne; [done |]. congruence.
  - intros o2 row2. cbn [w_db outbox_events set_outbox_events wd_db]. destruct (decide (o2 = o1)) as [-> | Hne].
    + rewrite lookup_insert_eq. by intros [= <-].
    + rewrite lookup_insert_ne by done. apply Hc.
Qed.

(** Only the task [t] is left for the retries. *)
Lemma select_due_one u at_ t r n d :
  task_instances d !! t = Some r → tr_status r = TaskStatusPending → tr_next_run_at r = Some at_ →
  select_due 20 (steady u at_ (λ i, negb (String.eqb i t))) n at_ d =
  inr ([(t, tr_workflow_execution_id r, tr_handler_key r)], d).
Proof.
  intros Hr Hs Hat. unfold select_due, limit_in. change (Z.ltb 20 0) with false. cbn [rbind].
  set (l := filter _ _). enough (Hl : l ≡ₚ [(t, r)]).
  { rewrite <-(sort_by_perm (λ p : string * task_row, default 0%Z (tr_next_run_at p.2))) in Hl.
    apply Permutation_singleton_r in Hl. by rewrite Hl. }
  apply NoDup_Permutation; [apply list.NoDup_filter, NoDup_map_to_list | apply NoDup_singleton |].
  intros [i x]. unfold l. rewrite list_elem_of_filter, elem_of_map_to_list, list_elem_of_singleton. cbn [fst snd e_locked steady].
  split.
  - intros [[_ Hi%negb_false_iff%String.eqb_eq] Hx]. subst i. congruence.
  - intros [= -> ->]. unfold is_due. by rewrite Hs, Hat, !String.eqb_refl, Z.leb_refl.
Qed.

(** A task with a retry time is enqueued once it is due. *)
Lemma enqueue_scheduled w u t r :
  uuid_in u = inr u → db_wf (contents w) → outbox_events (contents w) !! u = None →
  task_instances (contents w) !! t = Some r → scheduled r → good_text (tr_handler_key r) → counts_ok (contents w) →
  ∃ w' r', steps (w, []) (w', []) ∧ wd_redis w' = wd_redis w ∧ counts_ok (contents w') ∧
    undisturbed t u (contents w) (contents w') ∧ task_instances (contents w') !! t = Some r' ∧ tr_next_run_at r' = None.
Proof.
  intros Hu Hwf Hnew Hr [Hs [at_ Hat]] Hh Hc. destruct w as [d s]. unfold contents in *. cbn [wd_db wd_redis] in *.
  set (e := steady u at_ (λ i, negb (String.eqb i t))).
  destruct (wf_tasks _ Hwf _ _ Hr) as [Ht [Hx _ _ _ _ _ _ _ _ _]].
  destruct (tx_result (enqueue_due_body 20) e d (λ _ d', ∃ pj,
    d' = set_task_instances (alter (task_enqueued at_) t (task_instances (w_db d)))
           (set_outbox_events (<[u := dispatch_event t pj at_]> (outbox_events (w_db d))) (w_db d))))
    as (a & d' & n & Hrun & pj & ->); [done | |].
  { apply tx_wp_bind. eapply tx_wp_stmt; [done | by apply select_due_one |]. cbn [tx_for].
    apply tx_wp_bind, tx_wp_bind. cbn [enqueue_retry]. apply tx_wp_bind.
    apply enqueue_dispatch_ok; [done | done | done | done | done |]. intros pj.
    eapply tx_wp_stmt; [done | unfold update_task, set_task_enqueued; by rewrite Ht |].
    apply tx_wp_ret, tx_wp_ret. by exists pj. }
  eexists (mk_world (mk_dbw _ n) s), (task_enqueued at_ r). split_and!; [| done | | | | done].
  - eapply rtc_l; [apply sys_publish |]. etrans; [| apply crash_all].
    eapply db_call_step; [by apply (steady_ok u) | exact Hrun].
  - intros o row. cbn. destruct (decide (o = u)) as [-> | Hne].
    + rewrite lookup_insert_eq. by intros [= <-].
    + rewrite lookup_insert_ne by done. apply Hc.
  - split; cbn; try done.
    + intros t' Hne. by rewrite lookup_alter_ne.
    + intros r'. rewrite lookup_alter_eq. intros ->. by eexists.
    + intros o Hne. by rewrite lookup_insert_ne.
  - cbn. by rewrite lookup_alter_eq, Hr.
Qed.

(** ** Delivery *)

Lemma hands_out_steps u w l s' : uuid_in u = inr u → hands_out rs (wd_redis w) l s' →
  steps (w, []) (mk_world (mk_dbw (contents w) (S (w_tick (wd_db w)))) s',
    match l with [] => [] | m :: q => [Work m (work_on rs registry m) q] end).
Proof.
  intros Hu (c & Hask & Hc & Hnd). apply rtc_once. pose proof (steady_ok u 0 (λ _, true) Hu) as He.
  assert (Hcall : redis_call c (steady u 0 (λ _, true)) w = (inr l, mk_world (mk_dbw (contents w) (S (w_tick (wd_db w)))) s'))
    by (unfold redis_call; cbn [e_outcome steady]; by rewrite Hc).
  destruct l as [| m q]; [by eapply sys_nothing |]. eapply sys_deliver; [done | done | exact Hcall |].
  intros _. split; [exact Hnd |]. intros ? a ? _ Ha. by apply elem_of_nil in Ha.
Qed.

(** An entry that is not acknowledged is delivered to a worker, which handles it
    first. *)
Lemma deliver u w i v : uuid_in u = inr u → live (wd_redis w) → messages rs w !! i = Some v →
  ∃ w' q, steps (w, []) (w', [Work (mkXMessage i v) (work_on rs registry (mkXMessage i v)) q]) ∧
    contents w' = contents w ∧ live (wd_redis w').
Proof.
  intros Hu Hlive (s1 & q & s' & Hasked & Hout & Hlive')%live_deliver; [| done].
  assert (∃ n, steps (w, []) (mk_world (mk_dbw (contents w) n) s1, [])) as [n Hs].
  { destruct w as [d s]. unfold contents. cbn [wd_db wd_redis] in *. clear -Hasked Hu RedisLive0.
    enough (∀ n, ∃ n', steps (mk_world (mk_dbw (w_db d) n) s, []) (mk_world (mk_dbw (w_db d) n') s1, [])) as He.
    { destruct (He (w_tick d)) as [n' Hn']. exists n'. by destruct d. }
    induction Hasked as [x | x y z [l Hl] _ IH]; intros n; [by exists n |].
    destruct (IH (S n)) as [n' Hn']. exists n'. etrans; [| exact Hn'].
    etrans; [apply (hands_out_steps u (mk_world (mk_dbw (w_db d) n) x) l y Hu Hl) | apply crash_all]. }
  eexists _, q. split; [etrans; [exact Hs |]; exact (hands_out_steps u (mk_world (mk_dbw (contents w) n) s1) _ _ Hu Hout) |]. done.
Qed.

(** ** The rounds, until the task has a message *)

Context (w0 : world) (Hquiet : handlers_quiet registry) (Hempty : contents w0 = empty_db).

Lemma reached_wf w : steps (w0, []) (w, []) → db_wf (contents w).
Proof.
  intros Hr. destruct (sys_reach_inv rs registry _ _ Hquiet Hr (sys_inv_empty rs w0 Hempty)) as (l & _ & _ & Hi).
  apply (iv_wf _ _ _ _ _ Hi).
Qed.

Lemma rounds n w u t r :
  (waiting_count (contents w) < n)%nat → steps (w0, []) (w, []) → uuid_in u = inr u → live (wd_redis w) →
  counts_ok (contents w) → task_instances (contents w) !! t = Some r → ¬ terminal (tr_status r) → tr_next_run_at r = None →
  ∃ w' i v, steps (w, []) (w', []) ∧ live (wd_redis w') ∧ counts_ok (contents w') ∧
    undisturbed t u (contents w) (contents w') ∧ messages rs w' !! i = Some v ∧ message_for i v t.
Proof.
  revert w. induction n as [| n IH]; intros w Hn Hr Hu Hlive Hc Ht Hterm Hnone; [lia |].
  destruct (sys_never_loses rs registry w0 w [] t r Hquiet Hempty Hr Ht Hterm)
    as [[_ [? ?]] | [(o & row & Ho & _ & Hd) | (i & v & Hi & Hfor)]]; [congruence | | by exists w, i, v].
  destruct (publish_round w u o row Hu (reached_wf w Hr) Hlive Hc Ho Hd) as (w1 & Hs & Htasks & Hwait & Hlt & Hlive1 & Hc1).
  destruct (IH w1) as (w' & i & v & Hs' & ? & ? & Hwait' & ? & ?); try done; [lia | by etrans | by rewrite Htasks |].
  exists w', i, v. split_and!; try done; [by etrans | by etrans; [apply Hwait |]].
Qed.

(** A task that is not terminal is delivered to a worker. *)
Lemma task_delivered w u t r :
  steps (w0, []) (w, []) →
  task_instances (contents w) !! t = Some r → ¬ terminal (tr_status r) → good_text (tr_handler_key r) →
  uuid_in u = inr u → outbox_events (contents w) !! u = None → counts_ok (contents w) → live (wd_redis w) →
  ∃ w' m q, steps (w, []) (w', [Work m (work_on rs registry m) q]) ∧ message_for (xm_ID m) (xm_Values m) t ∧
    undisturbed t u (contents w) (contents w') ∧ counts_ok (contents w') ∧ live (wd_redis w').
Proof.
  intros Hr Ht Hterm Hh Hu Hnew Hc Hlive.
  assert (∃ w1 r1, steps (w, []) (w1, []) ∧ live (wd_redis w1) ∧ counts_ok (contents w1) ∧
    undisturbed t u (contents w) (contents w1) ∧ task_instances (contents w1) !! t = Some r1 ∧ tr_next_run_at r1 = None)
    as (w1 & r1 & Hs1 & Hlive1 & Hc1 & Hwait1 & Ht1 & Hnone).
  { destruct (tr_next_run_at r) as [at_ |] eqn:Hat; [| by exists w, r].
    assert (Hsch : scheduled r).
    { split; [| by rewrite Hat]. destruct (wf_tasks _ (reached_wf w Hr) _ _ Ht) as [_ [_ _ _ _ _ _ _ Hnext _ _]].
      destruct Hnext as [? | ?]; [by rewrite Hat | done |]. by destruct Hterm; left. }
    destruct (enqueue_scheduled w u t r Hu (reached_wf w Hr) Hnew Ht Hsch Hh Hc) as (w1 & r1 & Hs & Hred & ?).
    exists w1, r1. by rewrite Hred. }
  destruct (wt_task _ _ _ _ Hwait1 r Ht) as (r1' & Hr1 & Hsame). simplify_eq.
  destruct (rounds (S (waiting_count (contents w1))) w1 u t r1) as (w2 & i & v & Hs2 & Hlive2 & Hc2 & Hwait2 & Hi & Hfor);
    try done; [lia | by etrans | by injection Hsame as _ _ _ -> _ _ |].
  destruct (deliver u w2 i v Hu Hlive2 Hi) as (w3 & q & Hs3 & Hsame3 & Hlive3).
  exists w3, (mkXMessage i v), q. rewrite Hsame3. split_and!; try done; [etrans; [exact Hs1 |]; by etrans | by etrans].
Qed.


End recovery.
