(* ===== verification/Completion.v ===== *)
(** Completion: from every state the engine can reach, whatever has crashed, each
    execution whose tasks form a chain can be brought to its end.

    Recovery.v delivers an unfinished task to a worker.  Here the worker makes its
    attempt and acknowledges the message; the attempt finishes the execution, or
    it uses up one of the attempts of the task, or it hands over to the next task
    of the chain: the attempts that are left decrease. *)

From S2P Require Import Prelude GoString GoJson GoError Proc Domain Db Pg Store Idempotency History Wf.
From S2P Require Import WfStore StoreSpec StoreSpec2 Progress Workflow Service Worker WorkerSpec Tokens World Queue.
From S2P Require Import Publisher Live LiveWorker LivePublisher System Recovery.

Open Scope string_scope.

(** * The chain of an execution *)

(** The specifications of the task [name] and of those that follow it; a
    definition that runs in a cycle has no such list. *)
Inductive chain_from (spec : WorkflowDefinitionSpec) : string → list WorkflowTaskSpec → Prop :=
| chain_last name ts :
    FindTaskSpecByName spec name = inr ts → FindNextTaskSpec spec name = inr None → chain_from spec name [ts]
| chain_next name ts nt l :
    FindTaskSpecByName spec name = inr ts → FindNextTaskSpec spec name = inr (Some nt) →
    chain_from spec (ts_Name nt) l → chain_from spec name (ts :: l).

(** The specification that the execution [x] runs. *)
Definition runs_spec (d : db) (x : string) (spec : WorkflowDefinitionSpec) : Prop :=
  ∃ xr dr, workflow_executions d !! x = Some xr ∧ workflow_definitions d !! er_workflow_definition_id xr = Some dr ∧
    ParseAndValidateWorkflowDefinition (dr_definition_json dr) = inr spec.

(** The attempts that are left to a task with [n] attempts, and to a chain. *)
Definition attempts_left (ts : WorkflowTaskSpec) (n : Z) : nat := Z.to_nat (Z.max 1 (max_attempts ts - n)).
Definition chain_left (chain : list WorkflowTaskSpec) (n : Z) : nat :=
  match chain with
  | [] => 0
  | ts :: l => attempts_left ts n + sum_list ((λ ts, attempts_left ts 0) <$> l)
  end.

(** The rows with generated identifiers. *)
Definition rows (d : db) : nat := size (task_instances d) + size (task_attempts d) + size (outbox_events d).

Definition unused (d : db) (u : string) : Prop :=
  task_instances d !! u = None ∧ task_attempts d !! u = None ∧ outbox_events d !! u = None.

(** There are more identifiers than rows. *)
Lemma some_unused d ids : NoDup ids → (rows d < length ids)%nat → ∃ u, u ∈ ids ∧ unused d u.
Proof.
  intros Hnd Hlt. set (used := dom (task_instances d) ∪ dom (task_attempts d) ∪ dom (outbox_events d) : gset string).
  destruct (decide (Exists (λ u, u ∉ used) ids)) as [(u & Hu & Hn)%list.Exists_exists | Hall].
  { exists u. split; [done |]. unfold used in Hn. rewrite !not_elem_of_union, !not_elem_of_dom in Hn. unfold unused. tauto. }
  exfalso. assert (Hsub : (list_to_set ids : gset string) ⊆ used).
  { intros u Hu%elem_of_list_to_set. destruct (decide (u ∈ used)) as [| Hn]; [done |]. destruct Hall. apply list.Exists_exists. eauto. }
  apply subseteq_size in Hsub. rewrite size_list_to_set in Hsub by done.
  pose proof (size_union_alt (dom (task_instances d) ∪ dom (task_attempts d)) (dom (outbox_events d) : gset string)).
  pose proof (size_union_alt (dom (task_instances d)) (dom (task_attempts d) : gset string)).
  pose proof (subseteq_size (dom (outbox_events d) ∖ (dom (task_instances d) ∪ dom (task_attempts d))) (dom (outbox_events d)) ltac:(set_solver)).
  pose proof (subseteq_size (dom (task_attempts d) ∖ dom (task_instances d)) (dom (task_attempts d)) ltac:(set_solver)).
  unfold used, rows in *. rewrite !size_dom in *. lia.
Qed.

(** * The worker's attempt *)

Section completion.
Context `{ErrorTexts} `{PostgresLaws} `{RedisLaws}.
Context (rs : RedisStreams) (registry : Registry world) `{!RedisLive rs}.

Abbreviation steps := (rtc (sys_step rs registry true)).

(** The handlers answer with something the columns accept, and use no table but
    that of the idempotency records. *)
Definition handlers_answer : Prop :=
  ∀ key h task e w, registry !! key = Some h → reliable e → env_ok e → db_wf (contents w) →
  let '(r, w') := run (h_Handle h task) e w in
  match r with
  | inl err => good_text (truncate (Error err) 1000)
  | inr out => is_ok (jsonb_in (normalizeJSON out)) = true
  end ∧ wd_redis w' = wd_redis w ∧ ∃ m, contents w' = set_idempotency_records m (contents w).

Context (Hquiet : handlers_quiet registry) (Hanswer : handlers_answer).

(** ** Calls of a process *)

Lemma run_steps {A} e (p : proc world A) (k : error + A → proc world unit) w r w' m q :
  env_ok e → run p e w = (r, w') → steps (w, [Work m (try p k) q]) (w', [Work m (k r) q]).
Proof.
  intros He. revert w. induction p as [r0 | T c k' IH]; intros w; cbn; [by intros [= -> ->] |].
  destruct (c e w) as [r1 w1] eqn:Hc. intros Hr. eapply rtc_l; [| by apply (IH r1)].
  apply (sys_run rs registry true w [] _ [] w1 _), (work_step rs registry w e c (λ r, try (k' r) k) r1 w1 m q He Hc).
Qed.

(** A message that was handled is acknowledged, and its worker stops. *)
Lemma handled_steps e w m q msg w' :
  env_ok e → reliable e → decodeTaskMessage m = inr msg → run (HandleDispatchedTask registry msg) e w = (inr tt, w') →
  live (wd_redis w') →
  ∃ w'', steps (w, [Work m (work_on rs registry m) q]) (w'', []) ∧ contents w'' = contents w' ∧ live (wd_redis w'').
Proof.
  intros He Hrel Hdec Hrun Hlive. destruct (live_ack (xm_ID m) (wd_redis w') Hlive) as (k & s & Hack & Hs).
  exists (mk_world (mk_dbw (contents w') (S (w_tick (wd_db w')))) s). split; [| done].
  unfold work_on, process_message. rewrite Hdec. cbn [bind lift_res try].
  etrans; [by eapply (run_steps e) |]. cbn beta iota.
  etrans; [| apply crash_all]. eapply (run_steps e); [done |]. unfold on_redis. rewrite run_atomic.
  unfold redis_call. by rewrite Hrel, Hack.
Qed.

Lemma run_tx_world {A} (body : tx A) e w : is_ok (run (atomic (in_tx body)) e (wd_db w)).1 = true →
  ∃ a d, run (on_db (atomic (in_tx body))) e w = (inr a, mk_world d (wd_redis w)) ∧
    ∃ now n n', body e now n (contents w) = (inr (a, w_db d), n').
Proof.
  intros Hok. destruct (run (atomic (in_tx body)) e (wd_db w)) as [[err | a] d] eqn:Hr; [done |].
  exists a, d. rewrite run_on_db, Hr. split; [done |]. by eapply run_tx_ok.
Qed.

Lemma run_select {V A} (table : db → gmap string V) (scan : string → V → A) i u r e w :
  reliable e → uuid_in i = inr u → table (contents w) !! u = Some r →
  run (on_db (atomic (autocommit (select_row table scan i)))) e w =
  (inr (scan u r), mk_world (mk_dbw (contents w) (S (w_tick (wd_db w)))) (wd_redis w)).
Proof.
  intros He Hi Hr. rewrite run_on_db, run_atomic, run_autocommit by done. unfold select_row. rewrite Hi. cbn [rbind].
  unfold contents in Hr. by rewrite Hr.
Qed.

Lemma run_resolve_world i t r spec ts e w :
  reliable e → db_wf (contents w) → uuid_in i = inr t → task_instances (contents w) !! t = Some r →
  runs_spec (contents w) (tr_workflow_execution_id r) spec → FindTaskSpecByName spec (tr_task_name r) = inr ts →
  ∃ n, run (GetWorkflowSpecAndTaskSpecByTaskID i) e w = (inr (spec, ts), mk_world (mk_dbw (contents w) n) (wd_redis w)).
Proof.
  intros He Hwf Hi Hr (xr & dr & Hx & Hd & Hp) Hf.
  destruct (wf_tasks _ Hwf _ _ Hr) as [_ [Hxc _ _ _ _ _ _ _ _ _]].
  destruct (wf_executions _ Hwf _ _ Hx) as [_ [Hdc _ _ _ _ _]].
  eexists. unfold GetWorkflowSpecAndTaskSpecByTaskID.
  rewrite run_bind, run_wrap_err. cbn [ws_GetTaskInstance world_workerStore]. unfold GetTaskInstance.
  erewrite run_select by done.
  rewrite run_bind, run_wrap_err. cbn [ws_GetWorkflowExecution world_workerStore ti_WorkflowExecutionID scanTaskInstance].
  unfold GetWorkflowExecution. erewrite run_select by done.
  rewrite run_bind, run_wrap_err. cbn [ws_GetWorkflowDefinition world_workerStore we_WorkflowDefinitionID scanWorkflowExecution].
  unfold GetWorkflowDefinition. erewrite run_select by done.
  rewrite run_bind, run_wrap_err, run_lift_res. cbn [wd_DefinitionJSON scanWorkflowDefinition]. rewrite Hp.
  rewrite run_bind, run_wrap_err, run_lift_res. cbn [ti_TaskName scanTaskInstance]. by rewrite Hf.
Qed.

Lemma run_persist_ok prefix (p : proc world unit) ok e w w' :
  run p e w = (inr tt, w') → run (persist prefix p ok) e w = (inr (ok, None), w').
Proof. intros Hp. unfold persist. by rewrite run_try, Hp. Qed.

(** ** After the handler *)

Lemma on_error_run spec ts task attempt t r err e w :
  reliable e → db_wf (contents w) → uuid_in (ti_ID task) = inr t → task_instances (contents w) !! t = Some r →
  is_ok (uuid_in (ta_ID attempt)) = true → good_text (truncate (Error err) 1000) →
  ∃ label d', run (on_handler_error (default_attempts ts) task attempt err) e w =
      (inr (label, None), mk_world d' (wd_redis w)) ∧
    finished spec ts task attempt (inl err) (contents w) label (w_db d').
Proof.
  intros He Hwf Ht Hr Ha Hx. unfold on_handler_error. rewrite max_attempts_default, backoff_default.
  destruct (Z.gtb_spec (max_attempts ts) (ta_AttemptNumber attempt)) as [Hgt | Hle].
  - rewrite run_bind. cbn [time_Now world_Clock]. rewrite run_atomic.
    set (at_ := (e_time e _ + _)%Z).
    destruct (run_tx_world (schedule_retry_body (ti_ID task) (ta_ID attempt) (Error err) at_) e w) as ([] & d & Hrun & now & n & n' & Hb).
    { apply (schedule_retry_succeeds e (wd_db w) He (ti_ID task) (ta_ID attempt) (Error err) at_). split_and!; [by rewrite Ht | done | done]. }
    exists "scheduled_retry", d. split; [by apply run_persist_ok |]. apply schedule_retry_inv in Hb. by eapply fin_retry.
  - destruct (run_tx_world (fail_body (ti_ID task) (ta_ID attempt) (Error err)) e w) as ([] & d & Hrun & now & n & n' & Hb).
    { apply (fail_succeeds e (wd_db w) He Hwf (ti_ID task) (ta_ID attempt) (Error err)). split_and!; [by exists t, r | done | done]. }
    exists "failed", d. split; [by apply run_persist_ok |]. apply fail_inv in Hb; [| done]. by eapply fin_dead.
Qed.

(** What the next task needs, to be created. *)
Definition next_ready (spec : WorkflowDefinitionSpec) (d : db) (x name : string) : Prop :=
  match FindNextTaskSpec spec name with
  | inl _ => False
  | inr None => True
  | inr (Some nt) => good_text (ts_Name nt) ∧ good_text (ts_HandlerKey nt) ∧ key_unused d (makeTaskIdempotencyKey x (ts_Name nt))
  end.

Lemma on_success_run spec ts task attempt t r out e w :
  reliable e → env_ok e → db_wf (contents w) → uuid_in (ti_ID task) = inr t → task_instances (contents w) !! t = Some r →
  is_ok (uuid_in (ta_ID attempt)) = true → is_ok (jsonb_in (normalizeJSON out)) = true →
  next_ready spec (contents w) (tr_workflow_execution_id r) (ti_TaskName task) →
  (∀ k, task_instances (contents w) !! e_uuid e k = None) → (∀ k, outbox_events (contents w) !! e_uuid e k = None) →
  ∃ label d', run (on_handler_success spec task attempt out) e w = (inr (label, None), mk_world d' (wd_redis w)) ∧
    finished spec ts task attempt (inr out) (contents w) label (w_db d').
Proof.
  intros He Hok Hwf Ht Hr Ha Ho Hnext Hnewt Hnewo. unfold next_ready in Hnext. unfold on_handler_success.
  destruct (FindNextTaskSpec spec (ti_TaskName task)) as [? | [nt |]] eqn:En; [done | |].
  - destruct Hnext as (Hnn & Hnh & Hkey).
    destruct (run_tx_world (complete_and_enqueue_body (ti_ID task) (ta_ID attempt) (ts_Name nt) (ts_HandlerKey nt) out) e w)
      as ([] & d & Hrun & now & n & n' & Hb).
    { apply (advance_succeeds e (wd_db w) He Hok Hwf (ti_ID task) (ta_ID attempt) (ts_Name nt) (ts_HandlerKey nt) out);
        [by intros | by intros |]. split_and!; try done. by exists t, r. }
    exists "advanced", d. split; [by apply run_persist_ok |]. apply complete_and_enqueue_inv in Hb; [| done | done].
    by eapply fin_advance.
  - destruct (run_tx_world (complete_body (ti_ID task) (ta_ID attempt) out) e w) as ([] & d & Hrun & now & n & n' & Hb).
    { apply (complete_succeeds e (wd_db w) He Hwf (ti_ID task) (ta_ID attempt) out). split_and!; try done. by exists t, r. }
    exists "succeeded", d. split; [by apply run_persist_ok |]. apply complete_inv in Hb; [| done]. by eapply fin_success.
Qed.

(** ** The whole attempt *)

(** The identifier of an attempt is a generated one. *)
Lemma start_attempt_id t e now n d task attempt d' n' :
  start_attempt_body t e now n d = (inr (task, attempt, false, d'), n') → ∃ k, ta_ID attempt = e_uuid e k.
Proof.
  intros Hs. unfold start_attempt_body in Hs.
  apply tx_bind_ok in Hs as (x & d1 & n1 & _ & Hs). destruct (_ || _)%bool; [by inv_tx |].
  apply tx_bind_ok in Hs as (a & d2 & n2 & (_ & Ha & _)%tx_stmt_ok & Hs).
  apply tx_bind_ok in Hs as (x' & d3 & n3 & _ & Hs). unfold tx_ret in Hs. injection Hs as <- <- <- <-.
  unfold insert_attempt in Ha. inv_res. repeat (case_bool_decide; [done |]). inv_res. by eexists.
Qed.

(** The database once attempt [a] of the task [t] has been started, [r] being its row
    before, and its handler has run. *)
Definition new_attempt (t : string) (r : task_row) (now : Z) : attempt_row :=
  mk_attempt_row t (tr_attempts_total r + 1) TaskAttemptStatusRunning now None None None now.
Definition run_row (r : task_row) (now : Z) : task_row := task_started now (tr_attempts_total r + 1) r.
Definition after_handler (t : string) (r : task_row) (a : string) (now : Z) (m : gmap (string * string) idem_row) (d : db) : db :=
  mk_db (workflow_definitions d) (workflow_executions d) (<[t := run_row r now]> (task_instances d))
    (<[a := new_attempt t r now]> (task_attempts d)) (outbox_events d) m.

(** An attempt of the task [t], whose row is [r]: it is started, the handler answers,
    and what the answer asks for is done. *)
Definition attempt_made (spec : WorkflowDefinitionSpec) (ts : WorkflowTaskSpec) (t : string) (r : task_row) (d d' : db) : Prop :=
  ∃ a now m hr label, task_attempts d !! a = None ∧ uuid_in a = inr a ∧
    finished spec ts (scanTaskInstance t (run_row r now)) (scanTaskAttempt a (new_attempt t r now)) hr
      (after_handler t r a now m d) label d'.

Lemma key_unused_start d t r r' key : task_instances d !! t = Some r → tr_idempotency_key r' = tr_idempotency_key r →
  key_unused d key → map_Forall (λ _ r, tr_idempotency_key r ≠ key) (<[t := r']> (task_instances d)).
Proof.
  intros Hr Heq Hk u y. destruct (decide (u = t)) as [-> | Hne].
  - rewrite lookup_insert_eq. intros [= <-]. rewrite Heq. exact (Hk t r Hr).
  - rewrite lookup_insert_ne by done. apply Hk.
Qed.

Lemma attempt_run msg t r spec ts h v w :
  db_wf (contents w) → uuid_in (tm_TaskID msg) = inr t → task_instances (contents w) !! t = Some r →
  ¬ terminal (tr_status r) → (tr_attempts_total r < 2 ^ 31 - 1)%Z → registry !! tr_handler_key r = Some h →
  runs_spec (contents w) (tr_workflow_execution_id r) spec → FindTaskSpecByName spec (tr_task_name r) = inr ts →
  next_ready spec (contents w) (tr_workflow_execution_id r) (tr_task_name r) →
  uuid_in v = inr v → unused (contents w) v →
  ∃ d', run (HandleDispatchedTask registry msg) (steady v 0 (λ _, true)) w = (inr tt, mk_world d' (wd_redis w)) ∧
    attempt_made spec ts t r (contents w) (w_db d').
Proof.
  intros Hwf Ht Hr Hterm Hn Hh Hspec Hts Hnext Hv (Hv1 & Hv2 & Hv3). set (e := steady v 0 (λ _, true)).
  assert (He : reliable e) by done. assert (Hok : env_ok e) by by apply steady_ok.
  destruct (run_resolve_world (tm_TaskID msg) t r spec ts e w He Hwf Ht Hr Hspec Hts) as [n1 Hres].
  destruct (run_tx_world (start_attempt_body (tm_TaskID msg)) e (mk_world (mk_dbw (contents w) n1) (wd_redis w)))
    as ([[task attempt] dup] & d1 & Hstart & now & n & n' & Hb).
  { apply (start_attempt_succeeds e (mk_dbw (contents w) n1) He Hwf (tm_TaskID msg)); [by intros |]. exists t, r. split_and!; [done | done | by right]. }
  cbn [contents wd_db w_db wd_redis] in Hb, Hstart.
  pose proof (start_attempt_wf _ _ _ _ _ _ _ _ Hok Hb Hwf) as Hwf1.
  pose proof Hb as (t' & r' & Ht' & Hr' & Hc)%start_attempt_spec_inv; [| done]. same_res.
  assert (r' = r) as -> by (unfold contents in *; congruence).
  rewrite decide_False in Hc by done. destruct Hc as (a & now' & Ha & [= -> -> ->] & Hd1).
  apply start_attempt_id in Hb as [k Hid]. change (a = v) in Hid. subst a.
  change (mk_attempt_row _ _ _ _ _ _ _ _) with (new_attempt t' r now') in *.
  change (task_started _ _ r) with (run_row r now') in *.
  set (w1 := mk_world d1 (wd_redis w)) in *. assert (Hw1 : contents w1 = w_db d1) by done.
  pose proof (Hanswer (tr_handler_key r) h (scanTaskInstance t' (run_row r now')) e w1 Hh He Hok) as Hans.
  destruct (run (h_Handle h _) e w1) as [hr w2] eqn:Hrun. rewrite Hw1 in Hans. specialize (Hans Hwf1).
  destruct Hans as (Hans & Hred & m & Hm).
  assert (Hwf2 : db_wf (contents w2)).
  { refine (all_steps_run env_ok (λ w, db_wf (contents w)) _ e w1 hr w2 _ Hok Hrun Hwf1).
    eapply all_steps_mono; [| exact (Hquiet _ _ _ Hh)]. cbn. intros x y [_ Hs] Hx. by apply Hs. }
  set (r1 := run_row r now') in *. set (ar := new_attempt t' r now') in *.
  assert (Hr2 : task_instances (contents w2) !! t' = Some r1)
    by (rewrite Hm, Hd1; cbn; apply lookup_insert_eq).
  assert (Htc : uuid_in t' = inr t') by apply (wf_tasks _ Hwf _ _ Hr).
  assert (∃ label d', run (match hr with
      | inl err => on_handler_error (default_attempts ts) (scanTaskInstance t' r1) (scanTaskAttempt v ar) err
      | inr output => on_handler_success spec (scanTaskInstance t' r1) (scanTaskAttempt v ar) output end) e w2 =
      (inr (label, None), mk_world d' (wd_redis w2)) ∧
    finished spec ts (scanTaskInstance t' r1) (scanTaskAttempt v ar) hr (contents w2) label (w_db d'))
    as (label & d' & Hafter & Hfin).
  { assert (Hva : is_ok (uuid_in v) = true) by by rewrite Hv.
    assert (Hne : t' ≠ v) by congruence.
    destruct hr as [err | out]; [by eapply on_error_run |].
    eapply (on_success_run _ _ _ _ t' r1); try done; [| |].
    - unfold next_ready in *. cbn [ti_TaskName scanTaskInstance]. change (tr_task_name r1) with (tr_task_name r).
      destruct (FindNextTaskSpec _ _) as [| [nt |]]; [done | | done]. destruct Hnext as (? & ? & Hkey).
      split_and!; [done | done |]. unfold key_unused. rewrite Hm, Hd1. cbn. by eapply key_unused_start.
    - intros j. rewrite Hm, Hd1. cbn. by rewrite lookup_insert_ne.
    - intros j. by rewrite Hm, Hd1. }
  exists d'. split.
  - unfold HandleDispatchedTask. rewrite run_bind. unfold handle_labelled. rewrite run_try, Hres, run_try.
    cbn [ws_StartTaskAttempt world_workerStore]. unfold StartTaskAttempt. rewrite Hstart. cbn [registry_Get].
    unfold registry_Get. change (ti_HandlerKey (scanTaskInstance t' r1)) with (tr_handler_key r). rewrite Hh, run_try, Hrun.
    destruct hr; rewrite Hafter; cbn; by rewrite Hred.
  - exists v, now', m, hr, label. split_and!; [done | done |].
    assert (contents w2 = after_handler t' r v now' m (contents w)) as <- by (by rewrite Hm, Hd1). done.
Qed.


(** * Rounds *)

Context (w0 : world) (Hempty : contents w0 = empty_db).

(** What is asked of a task of the chain: texts the columns accept, a handler, and a
    limit of attempts that the column can count up to. *)
Definition task_fits (ts : WorkflowTaskSpec) : Prop :=
  good_text (ts_Name ts) ∧ good_text (ts_HandlerKey ts) ∧ is_Some (registry !! ts_HandlerKey ts) ∧
  (max_attempts ts < 2 ^ 31)%Z.

(** The unfinished task [t], whose row is [r], is at the head of [chain], and none of
    the tasks after it has been created. *)
Record resumable (w : world) (t : string) (r : task_row) (spec : WorkflowDefinitionSpec)
    (chain : list WorkflowTaskSpec) : Prop := {
  rm_live : live (wd_redis w);
  rm_counts : counts_ok (contents w);
  rm_task : task_instances (contents w) !! t = Some r;
  rm_open : ¬ terminal (tr_status r);
  rm_attempts : (tr_attempts_total r < 2 ^ 31 - 1)%Z;
  rm_handler : is_Some (registry !! tr_handler_key r) ∧ good_text (tr_handler_key r);
  rm_spec : runs_spec (contents w) (tr_workflow_execution_id r) spec;
  rm_chain : chain_from spec (tr_task_name r) chain;
  rm_fits : Forall task_fits chain;
  rm_names : NoDup (ts_Name <$> tail chain);
  rm_unused ts : ts ∈ tail chain →
    key_unused (contents w) (makeTaskIdempotencyKey (tr_workflow_execution_id r) (ts_Name ts));
}.

(** The execution [x] has ended: it succeeded, or it failed with a dead-lettered task. *)
Definition execution_ended (d : db) (x : string) : Prop :=
  ∃ xr, workflow_executions d !! x = Some xr ∧
    (er_status xr = ExecutionStatusSucceeded ∨
     er_status xr = ExecutionStatusFailed ∧
     ∃ t r, task_instances d !! t = Some r ∧ tr_workflow_execution_id r = x ∧ tr_status r = TaskStatusDeadLettered).

(** ** Lemmas *)

Lemma next_found spec name nt : FindNextTaskSpec spec name = inr (Some nt) → FindTaskSpecByName spec (ts_Name nt) = inr nt.
Proof.
  unfold FindNextTaskSpec. destruct (FindTaskSpecByName spec name) as [| ts]; [done |]. case_match; [done |].
  destruct (FindTaskSpecByName spec (ts_NextTask ts)) as [| u] eqn:Hu; [done |]. intros [= ->].
  pose proof (find_by_name_inr _ _ _ Hu) as [_ Ht]. rewrite <-Hu. symmetry. apply find_by_name_same; [done | by rewrite Hu].
Qed.

Lemma task_key_inj x a b : makeTaskIdempotencyKey x a = makeTaskIdempotencyKey x b → a = b.
Proof.
  unfold makeTaskIdempotencyKey. intros Hk%(f_equal to_bytes). rewrite !to_bytes_app in Hk. simplify_list_eq.
  by rewrite <-(of_to_bytes a), <-(of_to_bytes b), Hk.
Qed.

Lemma waited_rows t u r d d' : task_instances d !! t = Some r → undisturbed t u d d' → (rows d' ≤ rows d + 1)%nat.
Proof.
  intros Hr [_ _ Ha Hoth _ Hout]. unfold rows. rewrite Ha.
  assert (size (task_instances d') ≤ size (task_instances d))%nat.
  { rewrite <-!size_dom. apply subseteq_size. intros t' [y Hy]%elem_of_dom. apply elem_of_dom.
    destruct (decide (t' = t)) as [-> | Hne]; [by eexists | rewrite <-Hoth by done; by eexists]. }
  assert (size (outbox_events d') ≤ size (dom (outbox_events d) ∪ {[u]} : gset string))%nat.
  { rewrite <-size_dom. apply subseteq_size. intros o [y Hy]%elem_of_dom. destruct (decide (o = u)) as [-> | Hne]; [set_solver |].
    apply elem_of_union_l, elem_of_dom. destruct (outbox_events d !! o) eqn:Ho; [by eexists |].
    apply Hout in Ho; [congruence | done]. }
  pose proof (size_union_alt (dom (outbox_events d)) ({[u]} : gset string)).
  pose proof (subseteq_size ({[u]} ∖ dom (outbox_events d)) ({[u]} : gset string) ltac:(set_solver)).
  rewrite size_singleton, size_dom in *. lia.
Qed.

Lemma waited_unused t u r d d' k : task_instances d !! t = Some r → undisturbed t u d d' → key_unused d k → key_unused d' k.
Proof.
  intros Hr Hw Hk t' y Hy. destruct (decide (t' = t)) as [-> | Hne].
  - destruct (wt_task _ _ _ _ Hw r Hr) as (r' & Hr' & [= _ _ _ _ _ Hkey]). simplify_eq. rewrite Hkey. by apply (Hk t r).
  - rewrite (wt_others _ _ _ _ Hw) in Hy by done. by apply (Hk t' y).
Qed.

Lemma resumable_waited w w' t u r r' spec chain :
  resumable w t r spec chain → undisturbed t u (contents w) (contents w') → task_instances (contents w') !! t = Some r' →
  same_task r r' → counts_ok (contents w') → live (wd_redis w') → resumable w' t r' spec chain.
Proof.
  intros [Hl Hc Ht Ho Ha Hh Hs Hch Hf Hn Hu] Hw Hr' [= Hx Hname Hkey Hst Hat Hid] Hc' Hl'.
  split; rewrite ?Hx, ?Hname, ?Hkey, ?Hst, ?Hat; try done.
  - destruct Hs as (xr & dr & ? & ? & ?). exists xr, dr.
    by rewrite (wt_executions _ _ _ _ Hw), (wt_definitions _ _ _ _ Hw).
  - intros ts Hts. eapply waited_unused; [exact Ht | exact Hw | by apply Hu].
Qed.

(** What is left after the attempt: nothing, or less. *)
Definition less_left (w : world) (r : task_row) (spec : WorkflowDefinitionSpec) (chain : list WorkflowTaskSpec) (w' : world) : Prop :=
  execution_ended (contents w') (tr_workflow_execution_id r) ∨
  ∃ t' r' chain', resumable w' t' r' spec chain' ∧ tr_workflow_execution_id r' = tr_workflow_execution_id r ∧
    (chain_left chain' (tr_attempts_total r') < chain_left chain (tr_attempts_total r))%nat ∧
    (rows (contents w') ≤ rows (contents w) + 3)%nat.

Lemma chain_nonempty spec name : ¬ chain_from spec name [].
Proof. intros Hc. inversion Hc. Qed.

Lemma chain_head spec name ts l : chain_from spec name (ts :: l) → FindTaskSpecByName spec name = inr ts ∧
  match l with
  | [] => FindNextTaskSpec spec name = inr None
  | nt :: _ => FindNextTaskSpec spec name = inr (Some nt) ∧ chain_from spec (ts_Name nt) l
  end.
Proof.
  intros Hc. inversion Hc as [? ? Hf Hn | ? ? nt ? Hf Hn Hl]; subst; [done |]. split; [done |].
  inversion Hl as [? ? Hf' | ? ? ? ? Hf']; subst; rewrite (next_found _ _ _ Hn) in Hf'; injection Hf' as ->; done.
Qed.

Lemma alter_insert_size {V} (f : V → V) (i j : string) (x : V) (m : gmap string V) :
  m !! j = None → (size (alter f i (<[j := x]> m)) = size m + 1)%nat.
Proof. intros Hj. rewrite <-size_dom, dom_alter_L, size_dom, map_size_insert_None by done. lia. Qed.

Lemma insert_present {V} (i : string) (x y : V) (m : gmap string V) : m !! i = Some x → size (<[i := y]> m) = size m.
Proof. intros Hi. by rewrite map_size_insert_Some by by eexists. Qed.

(** ** The four ends of an attempt *)

Section ends.
Context (w w' : world) (t : string) (r : task_row) (spec : WorkflowDefinitionSpec) (ts : WorkflowTaskSpec)
  (l : list WorkflowTaskSpec) (a : string) (now : Z) (m : gmap (string * string) idem_row).
Context (Hres : resumable w t r spec (ts :: l)) (Hwf : db_wf (contents w)) (Hlive : live (wd_redis w'))
  (Ha : task_attempts (contents w) !! a = None).

Abbreviation d1 := (after_handler t r a now m (contents w)).

Lemma task_canonical : uuid_in t = inr t ∧ ∃ xr, workflow_executions (contents w) !! tr_workflow_execution_id r = Some xr.
Proof. by destruct (wf_tasks _ Hwf _ _ (rm_task _ _ _ _ _ Hres)) as [? [_ [xr ?] _ _ _ _ _ _ _ _]]; eauto. Qed.

Lemma attempts_size f : (size (alter f a (task_attempts d1)) = size (task_attempts (contents w)) + 1)%nat.
Proof. by apply alter_insert_size. Qed.

Lemma ends_retry text at_ : (tr_attempts_total r + 1 < max_attempts ts)%Z →
  uuid_in a = inr a → retry_scheduled t a text at_ d1 (contents w') → less_left w r spec (ts :: l) w'.
Proof.
  intros Hlt Hac (tid & aid & now2 & Htid & Haid & _ & Hd). destruct task_canonical as [Htc _]. same_res.
  destruct Hres as [_ Hc Ht Ho Hat Hh Hs Hch Hf Hn Hu]. cbn in Hd. rewrite alter_insert_eq in Hd.
  right. eexists t, _, (ts :: l). split; [| split; [| split]].
  - split; [done | by rewrite Hd | rewrite Hd; apply lookup_insert_eq | by intros [|] | | done | by rewrite Hd | done | done | done |].
    + cbn. apply Forall_cons_1 in Hf as [(_ & _ & _ & ?) _]. lia.
    + intros u Hin. rewrite Hd. eapply key_unused_start; [done | done | by apply Hu].
  - done.
  - cbn. unfold attempts_left. lia.
  - rewrite Hd. unfold rows. cbn. rewrite alter_insert_size by done. erewrite insert_present by done. lia.
Qed.

Lemma ends_dead text : attempt_dead t a text d1 (contents w') → less_left w r spec (ts :: l) w'.
Proof.
  intros (tid & aid & r1 & now2 & Htid & Haid & Hr1 & _ & Hd). destruct task_canonical as [Htc [xr Hx]]. same_res.
  cbn in Hr1. rewrite lookup_insert_eq in Hr1. injection Hr1 as <-.
  left. exists (execution_failed now2 (truncate text 1000) xr). rewrite Hd. cbn. split; [by rewrite lookup_alter_eq, Hx |].
  right. split; [done |]. eexists _, _. split; [apply lookup_insert_eq | done].
Qed.

Lemma ends_finished out : execution_finished t a out d1 (contents w') → less_left w r spec (ts :: l) w'.
Proof.
  intros (tid & aid & r1 & js & now2 & Htid & Haid & _ & Hr1 & Hd). destruct task_canonical as [Htc [xr Hx]]. same_res.
  cbn in Hr1. rewrite lookup_insert_eq in Hr1. injection Hr1 as <-.
  left. exists (execution_succeeded now2 js xr). rewrite Hd. cbn. split; [by rewrite lookup_alter_eq, Hx | by left].
Qed.

Lemma ends_advanced nt out : FindNextTaskSpec spec (tr_task_name r) = inr (Some nt) →
  task_advanced t a (ts_Name nt) (ts_HandlerKey nt) out d1 (contents w') → less_left w r spec (ts :: l) w'.
Proof.
  intros Hnt (tid & aid & r1 & js & u & o & pj & now2 & Htid & Haid & _ & Hr1 & Hnu & Hno & _ & _ & Hd).
  destruct task_canonical as [Htc _]. same_res. destruct Hres as [_ Hc Ht Ho Hat Hh Hs Hch Hf Hn Hu].
  cbn in Hr1, Hnu, Hno, Hd. rewrite lookup_insert_eq in Hr1. injection Hr1 as <-. rewrite insert_insert_eq in Hd.
  apply chain_head in Hch as [_ Hl]. destruct l as [| nt' l']; [congruence |]. destruct Hl as [Hnt' Hch].
  rewrite Hnt in Hnt'. injection Hnt' as <-. apply Forall_cons_1 in Hf as [_ Hf]. pose proof Hf as [Hfit _]%Forall_cons_1.
  cbn in Hn. apply list.NoDup_cons in Hn as [Hnotin Hn].
  right. eexists u, _, (nt :: l'). split; [| split; [| split]].
  - split; [done | | rewrite Hd; apply lookup_insert_eq | by intros [|] | done | | by rewrite Hd | done | done | done |].
    + rewrite Hd. intros o' row. cbn. intros [[-> <-] | [_ ?]]%lookup_insert_Some; [done | by eapply Hc].
    + by destruct Hfit as (_ & ? & ? & _).
    + intros v Hin. rewrite Hd. apply map_Forall_insert_2.
      * cbn. intros Heq%task_key_inj. apply Hnotin. rewrite Heq. by apply (list_elem_of_fmap_2' ts_Name _ v).
      * eapply key_unused_start; [done | done | apply Hu; by right].
  - done.
  - cbn. unfold attempts_left. lia.
  - rewrite Hd. unfold rows. cbn. apply lookup_insert_None in Hnu as [Hnu Hne].
    rewrite alter_insert_size, (map_size_insert_None o), (map_size_insert_None u) by (done || by rewrite lookup_insert_ne).
    erewrite insert_present by done. lia.
Qed.

End ends.

Lemma attempt_resumes w w' t r spec ts l :
  resumable w t r spec (ts :: l) → db_wf (contents w) → live (wd_redis w') →
  attempt_made spec ts t r (contents w) (contents w') → less_left w r spec (ts :: l) w'.
Proof.
  intros Hres Hwf Hl (a & now & m & hr & label & Ha & Hac & Hfin).
  remember (contents w') as d eqn:Hd.
  destruct Hfin as [err now' d _ Hlt Hret | err d _ _ Hdead | out nt d _ Hnt Hadv | out d _ _ Hend]; subst d.
  - by apply (ends_retry w w' t r spec ts l a now m Hres Hwf Hl Ha (Error err) (now' + backoff_duration (ts_BackoffSeconds ts))).
  - by apply (ends_dead w w' t r spec ts l a now m Hres Hwf (Error err)).
  - by apply (ends_advanced w w' t r spec ts l a now m Hres Hwf Hl Ha nt out).
  - by apply (ends_finished w w' t r spec ts l a now m Hres Hwf out).
Qed.

(** One attempt, from delivery to acknowledgement. *)
Lemma attempt_round w t r spec chain ids :
  steps (w0, []) (w, []) → resumable w t r spec chain →
  NoDup ids → Forall (λ u, uuid_in u = inr u) ids → (rows (contents w) + 1 < length ids)%nat →
  ∃ w', steps (w, []) (w', []) ∧
    (execution_ended (contents w') (tr_workflow_execution_id r) ∨
     ∃ t' r' chain', resumable w' t' r' spec chain' ∧ tr_workflow_execution_id r' = tr_workflow_execution_id r ∧
       (chain_left chain' (tr_attempts_total r') < chain_left chain (tr_attempts_total r))%nat ∧
       (rows (contents w') ≤ rows (contents w) + 4)%nat).
Proof.
  intros Hr Hres Hnd Hids Hroom. rewrite Forall_forall in Hids.
  destruct (some_unused (contents w) ids Hnd) as (u & Hu%list_elem_of_In%Hids & Hun); [lia |].
  pose proof Hres as [Hlive Hc Ht Ho _ [_ Hkey] _ _ _ _ _].
  destruct (task_delivered rs registry w0 Hquiet Hempty w u t r Hr Ht Ho Hkey Hu (proj2 (proj2 Hun)) Hc Hlive)
    as (w1 & m & q & Hs & (msg & Hdec & Hid) & Hwait & Hc1 & Hlive1).
  assert (Hdec' : decodeTaskMessage m = inr msg) by by destruct m.
  destruct (wt_task _ _ _ _ Hwait r Ht) as (r1 & Ht1 & Hsame). pose proof (waited_rows _ _ _ _ _ Ht Hwait) as Hrows.
  pose proof (resumable_waited _ _ _ _ _ _ _ _ Hres Hwait Ht1 Hsame Hc1 Hlive1) as Hres1.
  assert (Hwf : db_wf (contents w1)).
  { apply (reached_wf rs registry w0 Hquiet Hempty). etrans; [exact Hr |]. etrans; [exact Hs | apply crash_all]. }
  destruct (some_unused (contents w1) ids Hnd) as (v & Hv%list_elem_of_In%Hids & Hvn); [lia |].
  destruct chain as [| ts l]; [by destruct (chain_nonempty _ _ (rm_chain _ _ _ _ _ Hres)) |].
  pose proof Hres1 as [_ _ _ Ho1 Hat1 [[h Hh] _] Hspec1 [Hfind Hnext]%chain_head Hfits _ Hun1].
  destruct (attempt_run msg t r1 spec ts h v w1) as (d & Hrun & Hmade); try done.
  { unfold next_ready. destruct l as [| nt l]; [by rewrite Hnext |]. destruct Hnext as [-> _].
    apply Forall_cons_1 in Hfits as [_ [(? & ? & _) _]%Forall_cons_1]. split_and!; [done | done |]. apply Hun1. by left. }
  destruct (handled_steps (steady v 0 (λ _, true)) w1 m q msg _ (steady_ok v 0 (λ _, true) Hv) (steady_reliable v 0 (λ _, true)) Hdec' Hrun Hlive1)
    as (w2 & Hs2 & Hd2 & Hlive2).
  exists w2. split; [by etrans |]. injection Hsame as Hx _ _ _ Hat _. rewrite <-Hx, <-Hat.
  change (contents (mk_world d (wd_redis w1))) with (w_db d) in Hd2. rewrite <-Hd2 in Hmade.
  destruct (attempt_resumes w1 w2 t r1 spec ts l Hres1 Hwf Hlive2 Hmade) as [? | (t' & r' & c' & ? & ? & ? & ?)]; [by left |].
  right. exists t', r', c'. split_and!; try done. lia.
Qed.

Lemma rounds_end n w t r spec chain ids :
  (chain_left chain (tr_attempts_total r) ≤ n)%nat →
  steps (w0, []) (w, []) → resumable w t r spec chain →
  NoDup ids → Forall (λ u, uuid_in u = inr u) ids → (rows (contents w) + 4 * n ≤ length ids)%nat →
  ∃ w', steps (w, []) (w', []) ∧ execution_ended (contents w') (tr_workflow_execution_id r).
Proof.
  revert w t r chain. induction n as [| n IH]; intros w t r chain Hn Hr Hres Hnd Hids Hroom.
  { exfalso. destruct chain as [| ts l]; [by destruct (chain_nonempty _ _ (rm_chain _ _ _ _ _ Hres)) |]. cbn in Hn. unfold attempts_left in Hn. lia. }
  destruct (attempt_round w t r spec chain ids) as (w1 & Hs & [Hend | (t' & r' & c' & Hres' & <- & Hlt & Hrows)]); try done; [lia | by exists w1 |].
  destruct (IH w1 t' r' c') as (w2 & Hs2 & Hend); try done; [lia | by etrans | lia |].
  exists w2. split; [by etrans | done].
Qed.


End completion.
