(* ===== verification/TelemetrySetup.v ===== *)
(** Setup of internal/telemetry/telemetry.go: the tracing of a process, from the
    endpoint of its configuration.  The exporter, the resource and the providers
    belong to the OpenTelemetry libraries; what Setup decides is what they are made
    from and which provider the process uses. *)

From S2P Require Import Prelude GoString GoFloat GoJson GoUrl GoUrlParse GoError.

Open Scope string_scope.

Inductive otlp_option : Type :=
| WithEndpoint (host : string)
| WithInsecure.

Inductive TextMapPropagator : Type := TraceContext.

Section setup.
Context {Exporter Resource : Type}.
Context (otlptracehttp_New : list otlp_option → error + Exporter) (resource_New : string → error + Resource).

(** [sdktrace.NewTracerProvider()], and with a batcher and a resource. *)
Inductive TracerProvider : Type :=
| Unexported
| Batching (exporter : Exporter) (res : Resource).

(** The globals of the package otel that are set here. *)
Record otel : Type := mkOtel {
  ot_TextMapPropagator : option TextMapPropagator;
  ot_TracerProvider : option TracerProvider;
}.

Definition SetTextMapPropagator (p : TextMapPropagator) (o : otel) : otel := mkOtel (Some p) (ot_TracerProvider o).
Definition SetTracerProvider (tp : TracerProvider) (o : otel) : otel := mkOtel (ot_TextMapPropagator o) (Some tp).

(** The options of the exporter. *)
Definition exporter_options (endpoint : string) : list otlp_option :=
  match url_Parse endpoint with
  | Some parsed =>
      if String.eqb (u_Host parsed) "" then []
      else WithEndpoint (u_Host parsed) :: (if String.eqb (u_Scheme parsed) "http" then [WithInsecure] else [])
  | None => []
  end.

(** The function that is returned is the Shutdown of the provider. *)
Definition Setup (serviceName endpoint : string) (o : otel) : (error + TracerProvider) * otel :=
  let o := SetTextMapPropagator TraceContext o in
  if String.eqb endpoint "" then (inr Unexported, SetTracerProvider Unexported o)
  else
    match otlptracehttp_New (exporter_options endpoint) with
    | inl err => (inl err, o)
    | inr exporter =>
        match resource_New serviceName with
        | inl err => (inl err, o)
        | inr res => (inr (Batching exporter res), SetTracerProvider (Batching exporter res) o)
        end
    end.

(** A process that Setup let start uses the provider that its shutdown stops; after
    an error the provider is the one from before. *)
Lemma Setup_provider serviceName endpoint o :
  let '(r, o') := Setup serviceName endpoint o in
  ot_TextMapPropagator o' = Some TraceContext ∧
  ot_TracerProvider o' = match r with inr tp => Some tp | inl _ => ot_TracerProvider o end.
Proof. unfold Setup. repeat case_match; simplify_eq/=; done. Qed.

(** Without an endpoint nothing is asked of the libraries, and nothing is exported. *)
Lemma Setup_disabled serviceName o : (Setup serviceName "" o).1 = inr Unexported.
Proof. done. Qed.

End setup.

(** A URL of a host is exported to, with a connection that is secure unless its
    scheme is http. *)
Lemma exporter_options_url scheme h : scheme = "http" ∨ scheme = "https" → plain_host (to_bytes h) →
  exporter_options (scheme +:+ "://" +:+ h) =
  WithEndpoint h :: if String.eqb scheme "http" then [WithInsecure] else [].
Proof.
  intros Hs Hh. unfold exporter_options. rewrite (url_Parse_host scheme h Hs Hh). cbn [u_Host u_Scheme].
  destruct Hh as (name & port & E & Hne & _). destruct (String.eqb_spec h "") as [-> |]; [| done].
  cbn in E. by destruct name.
Qed.

(** An endpoint without a slash, such as a host with its port, gives the exporter no
    address: it is left to its own default. *)
Lemma exporter_options_bare endpoint : has_no 47 (to_bytes endpoint) → exporter_options endpoint = [].
Proof.
  intros He. unfold exporter_options. destruct (url_Parse endpoint) as [u |] eqn:Hu; [| done].
  by rewrite (no_slash_no_host _ _ He Hu).
Qed.

Example exporter_options_ex :
  exporter_options "http://otel-collector:4318" = [WithEndpoint "otel-collector:4318"; WithInsecure] ∧
  exporter_options "https://collector.example/v1/traces" = [WithEndpoint "collector.example"] ∧
  exporter_options "otel-collector:4318" = [] ∧ exporter_options "127.0.0.1:4318" = [].
Proof. vm_compute. auto. Qed.
