(* ===== verification/Telemetry.v ===== *)
(** Telemetry (internal/telemetry/telemetry.go): the metrics of the programs, the
    HTTP middleware, and the calls by which the API, the publisher, the consumer
    and the worker count what they do.

    The metric objects belong to the Prometheus library; what the programs do is
    call them.  An instrumented process has the list of the calls made so far
    beside its state. *)

From S2P Require Import Prelude GoString GoFloat GoJson GoError Proc Domain Db Store Service HttpApi Worker World.
From S2P Require Import Queue Publisher.

Open Scope string_scope.

(** * The metrics *)

Record vec : Type := mkVec {
  v_Name : string;
  v_Help : string;
  v_Labels : list string;
}.

Definition HTTPRequests : vec := mkVec "durableflow_http_requests_total"
  "Total HTTP requests served by DurableFlow services." ["service"; "route"; "method"; "status_code"].
Definition HTTPRequestDuration : vec := mkVec "durableflow_http_request_duration_seconds"
  "HTTP request duration by service, route, method, and status code."
  ["service"; "route"; "method"; "status_code"].
Definition WorkflowDefinitionsCreated : vec := mkVec "durableflow_workflow_definitions_created_total"
  "Total workflow definitions created." ["service"].
Definition WorkflowExecutionsCreated : vec := mkVec "durableflow_workflow_executions_created_total"
  "Total workflow executions triggered." ["service"].
Definition DispatchEvents : vec := mkVec "durableflow_dispatch_events_total"
  "Total task dispatch attempts from the outbox publisher." ["service"; "status"].
Definition TasksProcessed : vec := mkVec "durableflow_tasks_processed_total"
  "Total task processing attempts by handler and result." ["service"; "handler"; "status"].
Definition TaskProcessingDuration : vec := mkVec "durableflow_task_processing_duration_seconds"
  "Task processing duration by handler and result." ["service"; "handler"; "status"].
Definition RetriesScheduled : vec := mkVec "durableflow_retries_scheduled_total"
  "Total task retries scheduled from the worker path." ["service"; "handler"].
Definition RetriesEnqueued : vec := mkVec "durableflow_retries_enqueued_total"
  "Total due retries materialized into outbox events." ["service"].
Definition DeadLetteredTasks : vec := mkVec "durableflow_dead_lettered_tasks_total"
  "Total tasks moved into dead-letter state." ["service"; "handler"; "reason"].
Definition TaskReplays : vec := mkVec "durableflow_task_replays_total"
  "Total dead-letter replay requests accepted." ["service"].
Definition ReclaimedMessages : vec := mkVec "durableflow_reclaimed_messages_total"
  "Total Redis stream messages reclaimed from the pending list." ["service"; "stream"; "group"].

(** [v.WithLabelValues(values).Add(n)] and [v.WithLabelValues(values).Observe(x)]. *)
Inductive metric_call : Type :=
| Add (v : vec) (values : list string) (n : Z)
| Observe (v : vec) (values : list string) (x : float64).

Definition Inc (v : vec) (values : list string) : metric_call := Add v values 1.

(** WithLabelValues panics unless it is given one value per label. *)
Definition well_labelled (c : metric_call) : bool :=
  match c with
  | Add v values _ => Nat.eqb (length values) (length (v_Labels v))
  | Observe v values _ => Nat.eqb (length values) (length (v_Labels v))
  end.

(** What the calls add to one counter. *)
Definition added (v : vec) (values : list string) (c : metric_call) : Z :=
  match c with
  | Add v' values' n => if (String.eqb (v_Name v) (v_Name v') && bool_decide (values = values'))%bool then n else 0
  | Observe _ _ _ => 0
  end.
Definition counter (v : vec) (values : list string) (calls : list metric_call) : Z :=
  foldr Z.add 0%Z (added v values <$> calls).

(** * Instrumented processes *)

Definition metered (W : Type) : Type := W * list metric_call.

Section metered.
Context {W : Type}.

(** A call of the program that makes no metric call. *)
Definition unmetered {T} (m : env → W → (error + T) * W) : env → metered W → (error + T) * metered W :=
  λ e s, let '(r, w) := m e s.1 in (r, (w, s.2)).

Fixpoint lift {A} (p : proc W A) : proc (metered W) A :=
  match p with
  | Ret r => Ret r
  | Atomic m k => Atomic (unmetered m) (λ r, lift (k r))
  end.

Definition record_call (c : metric_call) : env → metered W → (error + unit) * metered W :=
  λ _ s, (inr tt, (s.1, (s.2 ++ [c])%list)).
Definition count (c : metric_call) : proc (metered W) unit := atomic (record_call c).

Fixpoint count_all (cs : list metric_call) : proc (metered W) unit :=
  match cs with
  | [] => return_ tt
  | c :: cs' => let! _ := count c in count_all cs'
  end.

End metered.

(** * The HTTP middleware *)

(** The response writer of net/http: the first final status is sent, and 200
    when the body starts without one; a status 1xx is sent on the side (101 is
    final), and a status that allows no body drops what is written. *)
Record http_writer : Type := mkWriter {
  hw_status : option Z;
  hw_body : string;
}.

Definition body_allowed (status : Z) : bool :=
  negb ((Z.leb 100 status && Z.leb status 199) || Z.eqb status 204 || Z.eqb status 304)%bool.

Definition writer_WriteHeader (code : Z) (w : http_writer) : http_writer :=
  match hw_status w with
  | Some _ => w
  | None => if (Z.leb 100 code && Z.leb code 199 && negb (Z.eqb code 101))%bool then w
            else mkWriter (Some code) (hw_body w)
  end.

Definition writer_Write (data : string) (w : http_writer) : http_writer :=
  let w := writer_WriteHeader 200 w in
  if body_allowed (default 200%Z (hw_status w)) then mkWriter (hw_status w) (hw_body w +:+ data) else w.

(** When the handler returns, 200 is sent if nothing was. *)
Definition sent_status (w : http_writer) : Z := default 200%Z (hw_status w).

Record statusRecorder : Type := mkRecorder {
  sr_ResponseWriter : http_writer;
  sr_statusCode : Z;
}.

Definition WriteHeader (statusCode : Z) (r : statusRecorder) : statusRecorder :=
  mkRecorder (writer_WriteHeader statusCode (sr_ResponseWriter r)) statusCode.

(** Write is the one of the embedded writer. *)
Definition Write (data : string) (r : statusRecorder) : statusRecorder :=
  mkRecorder (writer_Write data (sr_ResponseWriter r)) (sr_statusCode r).

Inductive write_call : Type :=
| CallWriteHeader (code : Z)
| CallWrite (data : string).

Definition perform (c : write_call) (r : statusRecorder) : statusRecorder :=
  match c with CallWriteHeader code => WriteHeader code r | CallWrite data => Write data r end.
Definition perform_all (cs : list write_call) (r : statusRecorder) : statusRecorder :=
  fold_left (λ r c, perform c r) cs r.

Definition new_recorder : statusRecorder := mkRecorder (mkWriter None "") 200.

(** The calls by which a handler sends its response: the status, then the body
    in one piece (the encoder of JSON writes nothing when it fails). *)
Definition response_calls (local : Z → Z) (rp : response) : list write_call :=
  CallWriteHeader (rp_Status rp) ::
  match rp_Content rp with
  | NoContent => []
  | Text s => [CallWrite s]
  | Json p => match payload_marshalled local p with
              | Some _ => [CallWrite (body_text local (Json p))]
              | None => []
              end
  end.

(** Middleware, with the handlers as processes that end in a response; it
    returns the response and what was sent.  Spans belong to the tracing library. *)
Definition Middleware {W} `{Clock W} (local : Z → Z) (service : string) (next : request → proc (metered W) response)
    (r : request) : proc (metered W) (response * http_writer) :=
  let route := rq_Path r in
  let! started := lift time_Now in
  let! rp := next r in
  let recorder := perform_all (response_calls local rp) new_recorder in
  let statusCode := Itoa (sr_statusCode recorder) in
  let! _ := count (Inc HTTPRequests [service; route; rq_Method r; statusCode]) in
  let! now := lift time_Now in
  let! _ := count (Observe HTTPRequestDuration [service; route; rq_Method r; statusCode] (Seconds (now - started)%Z)) in
  return_ (rp, sr_ResponseWriter recorder).

(** * The API, counted *)

Section api.
Context `{Postgres} `{ErrorTexts}.

Definition counted_handleWorkflows (r : request) : proc (metered dbw) response :=
  with_method "POST" r
    match decode_createWorkflowRequest (rq_Body r) with
    | None => return_ (writeJSON 400 (PError "invalid JSON body"))
    | Some req =>
        try (lift (service_CreateWorkflowDefinition req)) (λ res,
        match res with
        | inl err => return_ (writeJSON 400 (PError (Error err)))
        | inr result =>
            let! _ := count (Inc WorkflowDefinitionsCreated ["api"]) in
            return_ (writeJSON 201 (PDefinition result))
        end)
    end.

Definition counted_handleExecutions (r : request) : proc (metered dbw) response :=
  with_method "POST" r
    match decode_triggerExecutionRequest (rq_Body r) with
    | None => return_ (writeJSON 400 (PError "invalid JSON body"))
    | Some req =>
        try (lift (TriggerExecution req)) (λ res,
        match res with
        | inl err =>
            if IsNotFound err then return_ (writeJSON 404 (PError "workflow definition not found"))
            else return_ (writeJSON 400 (PError (Error err)))
        | inr result =>
            let! _ := count (Inc WorkflowExecutionsCreated ["api"]) in
            return_ (writeJSON 202 (PStarted result))
        end)
    end.

Definition counted_handleTaskActions (r : request) : proc (metered dbw) response :=
  with_method "POST" r
    match parseTaskActionPath (rq_Path r) with
    | None => return_ (writeJSON 404 (PError "task action not found"))
    | Some (taskID, action) =>
        if String.eqb action "replay" then
          try (lift (service_ReplayDeadLetteredTask taskID)) (λ res,
          match res with
          | inl err =>
              if IsNotFound err then return_ (writeJSON 404 (PError "task not found"))
              else if IsTaskNotReplayable err
              then return_ (writeJSON 400 (PError "only dead-lettered tasks can be replayed"))
              else return_ (writeJSON 500 (PError "failed to replay task"))
          | inr task =>
              let! _ := count (Inc TaskReplays ["api"]) in
              return_ (writeJSON 202 (PTask task))
          end)
        else return_ (writeJSON 404 (PError "task action not found"))
    end.

Definition counted_NewRouter (healthFn : proc dbw unit) (metrics : request → proc dbw response)
    : request → proc (metered dbw) response :=
  cors (ServeHTTP (mkRoutes (λ r, lift (metrics r)) (λ r, lift (handle_health "api" healthFn r))
    counted_handleWorkflows counted_handleExecutions (λ r, lift (handleExecutionSnapshot r))
    counted_handleTaskActions (λ r, lift (handleDeadLetteredTasks r)))).

(** The handler of the server of the API program. *)
Definition api_handler (local : Z → Z) (service : string) (healthFn : proc dbw unit)
    (metrics : request → proc dbw response) : request → proc (metered dbw) (response * http_writer) :=
  Middleware local service (counted_NewRouter healthFn metrics).

End api.

(** * The publisher, counted *)

Section engine.
Context `{Postgres} `{Redis} `{ErrorTexts}.

(** A counted process over the database, beside the stream. *)
Fixpoint on_metered_db {A} (p : proc (metered dbw) A) : proc (metered world) A :=
  match p with
  | Ret r => Ret r
  | Atomic m k =>
      Atomic (λ e s, let '(r, d) := m e (wd_db s.1, s.2) in (r, (mk_world d.1 (wd_redis s.1), d.2)))
        (λ r, on_metered_db (k r))
  end.

Definition counted_publish_event (streams : RedisStreams) (event : OutboxEvent) : proc (metered world) unit :=
  match unmarshal_payload (oe_PayloadJSON event) with
  | None =>
      try (lift (on_db (RecordOutboxFailure (oe_ID event) (Error (ErrJson (oe_PayloadJSON event))))))
        (λ _, return_ tt)
  | Some payload =>
      try (lift (DispatchTask streams (message_of_payload payload))) (λ res,
      match res with
      | inl err =>
          let! _ := count (Inc DispatchEvents ["api"; "failed"]) in
          try (lift (on_db (RecordOutboxFailure (oe_ID event) (Error err)))) (λ _, return_ tt)
      | inr _ =>
          try (lift (on_db (MarkOutboxDispatched (oe_ID event)))) (λ res,
          match res with
          | inl err => let! _ := count (Inc DispatchEvents ["api"; "persist_error"]) in fail err
          | inr _ => count (Inc DispatchEvents ["api"; "published"])
          end)
      end)
  end.

Fixpoint counted_publish_events (streams : RedisStreams) (events : list OutboxEvent) : proc (metered world) unit :=
  match events with
  | [] => return_ tt
  | event :: rest => let! _ := counted_publish_event streams event in counted_publish_events streams rest
  end.

Definition counted_publishOnce (streams : RedisStreams) : proc (metered world) unit :=
  let! retryCount := lift (on_db (EnqueueDueTaskRetries 20)) in
  let! _ := count_all (if Z.ltb 0 retryCount then [Add RetriesEnqueued ["api"] retryCount] else []) in
  let! events := lift (on_db (ListPendingOutbox 20)) in
  counted_publish_events streams events.

(** * The consumer, counted *)

Definition counted_process_message (r : RedisStreams) (handle : TaskMessage → proc (metered world) unit)
    (message : XMessage) : proc (metered world) unit :=
  let! task := lift_res (decodeTaskMessage message) in
  try (handle task) (λ res,
  match res with
  | inl _ => return_ tt
  | inr _ => let! _ := lift (on_redis (XAck (rs_stream r) (rs_group r) (xm_ID message))) in return_ tt
  end).

Fixpoint counted_processMessages (r : RedisStreams) (messages : list XMessage)
    (handle : TaskMessage → proc (metered world) unit) : proc (metered world) unit :=
  match messages with
  | [] => return_ tt
  | message :: rest =>
      let! _ := counted_process_message r handle message in counted_processMessages r rest handle
  end.

Definition counted_consume_round (r : RedisStreams) (opts : ConsumeOptions)
    (handle : TaskMessage → proc (metered world) unit) : proc (metered world) unit :=
  let! reclaimed := lift (claimPending r opts) in
  match reclaimed with
  | _ :: _ =>
      let! _ := count (Add ReclaimedMessages ["worker"; rs_stream r; rs_group r] (Z.of_nat (length reclaimed))) in
      counted_processMessages r reclaimed handle
  | [] =>
      try (lift (on_redis (XReadGroup (rs_group r) (co_Consumer opts) (rs_stream r) (co_ReadCount opts)
                       (co_Block opts)))) (λ res,
      match res with
      | inl err => if IsRedisNil err then return_ tt else fail err
      | inr messages => counted_processMessages r messages handle
      end)
  end.

End engine.

(** * The worker, counted *)

(** The counters that go with an outcome. *)
Definition outcome_calls (handler outcome : string) : list metric_call :=
  Inc TasksProcessed ["worker"; handler; outcome] ::
  if String.eqb outcome "missing_handler" then [Inc DeadLetteredTasks ["worker"; handler; "missing_handler"]]
  else if String.eqb outcome "scheduled_retry" then [Inc RetriesScheduled ["worker"; handler]]
  else if String.eqb outcome "failed" then [Inc DeadLetteredTasks ["worker"; handler; "exhausted_attempts"]]
  else [].

Definition counted_HandleDispatchedTask {W} `{workerStore W} `{Clock W} `{ErrorTexts} (registry : Registry W)
    (message : TaskMessage) : proc (metered W) unit :=
  let! started := lift time_Now in
  let! r := lift (handle_labelled registry message) in
  let! _ := count_all (outcome_calls (tm_HandlerKey message) r.1) in
  let! now := lift time_Now in
  let! _ := count (Observe TaskProcessingDuration ["worker"; tm_HandlerKey message; r.1] (Seconds (now - started)%Z)) in
  match r.2 with Some err => fail err | None => return_ tt end.
