(* ===== verification/Erasure.v ===== *)
(** Erasure: processes with metric calls behave as the processes without, run alone
    or in a pool, and a pool of one kind can do what the other can. *)

From S2P Require Import Prelude GoError Proc Telemetry.

(** * Erasure *)

(** [p] is [q] with metric calls, and readings of the clock for them, in between;
    [Q] relates their results. *)
Inductive erases {W A B} (Q : error + A → error + B → Prop) : proc (metered W) A → proc W B → Prop :=
| erases_ret r r' : Q r r' → erases Q (Ret r) (Ret r')
| erases_call {T} (m : env → metered W → (error + T) * metered W) m' k k' :
    (∀ e s, m e s = unmetered m' e s) → (∀ r, erases Q (k r) (k' r)) → erases Q (Atomic m k) (Atomic m' k')
| erases_silent {T} (m : env → metered W → (error + T) * metered W) k q :
    (∀ e s, ∃ a l, m e s = (inr a, (s.1, (s.2 ++ l)%list)) ∧ forallb well_labelled l = true) →
    (∀ a, erases Q (k (inr a)) q) → erases Q (Atomic m k) q.

Section erasure.
Context {W : Type}.

Lemma erases_lift {A} (Q : error + A → error + A → Prop) (p : proc W A) : (∀ r, Q r r) → erases Q (lift p) p.
Proof. intros HQ. induction p as [r | T m k IH]; cbn; [by constructor | by apply erases_call]. Qed.

Lemma erases_try {A A' B B'} (Q : error + A → error + A' → Prop) (Q' : error + B → error + B' → Prop)
    (p : proc (metered W) A) q k k' :
  erases Q p q → (∀ r r', Q r r' → erases Q' (k r) (k' r')) → erases Q' (try p k) (try q k').
Proof.
  intros Hp Hk. induction Hp as [r r' Hr | T m m' k1 k2 Hm _ IH | T m k1 q Hm _ IH]; cbn; [auto | |].
  - by apply erases_call.
  - by apply erases_silent.
Qed.

(** What follows [p] makes metric calls only. *)
Lemma erases_then {A A' B} (Q : error + A → error + A' → Prop) (Q' : error + B → error + A' → Prop)
    (p : proc (metered W) A) q k :
  erases Q p q → (∀ r r', Q r r' → erases Q' (k r) (Ret r')) → erases Q' (try p k) q.
Proof.
  intros Hp Hk. induction Hp as [r r' Hr | T m m' k1 k2 Hm _ IH | T m k1 q Hm _ IH]; cbn; [auto | |].
  - by apply erases_call.
  - by apply erases_silent.
Qed.

Lemma erases_bind {A B B'} (Q' : error + B → error + B' → Prop) (p : proc (metered W) A) q k k' :
  erases eq p q → (∀ e, Q' (inl e) (inl e)) → (∀ a, erases Q' (k a) (k' a)) → erases Q' (bind p k) (bind q k').
Proof.
  intros Hp He Hk. apply (erases_try eq); [done |]. intros [e | a] ? <-; [by apply erases_ret | done].
Qed.

Lemma erases_count {B B'} (Q : error + B → error + B' → Prop) c k (q : proc W B') :
  well_labelled c = true → erases Q (k tt) q → erases Q (bind (count c) k) q.
Proof.
  intros Hc Hk. apply erases_silent; [| by intros []]. intros e s. exists tt, [c]. cbn. by rewrite Hc.
Qed.

Lemma erases_count_all {B B'} (Q : error + B → error + B' → Prop) cs k (q : proc W B') :
  forallb well_labelled cs = true → erases Q (k tt) q → erases Q (bind (count_all cs) k) q.
Proof.
  induction cs as [| c cs IH]; cbn [forallb count_all]; [done |]. intros [Hc Hcs]%andb_true_iff Hk.
  apply erases_silent; [| intros []; by apply IH]. intros e s. exists tt, [c]. cbn. by rewrite Hc.
Qed.

Lemma erases_discard {A B} (p : proc (metered W) A) (q : proc W B) :
  erases (λ _ _, True) p q → erases (@eq (error + unit)) (discard p) (discard q).
Proof. intros Hp. eapply erases_try; [exact Hp |]. intros. by apply erases_ret. Qed.

Lemma erases_weaken {A B} (Q Q' : error + A → error + B → Prop) (p : proc (metered W) A) q :
  erases Q p q → (∀ r r', Q r r' → Q' r r') → erases Q' p q.
Proof. intros Hp HQ. induction Hp; [apply erases_ret; auto | by eapply erases_call | by eapply erases_silent]. Qed.

(** ** One step *)

Lemma erases_next {A B} (Q : error + A → error + B → Prop) p q e (s s' : metered W) p' :
  erases Q p q → proc_next e s p = Some (s', p') →
  (∃ l, s'.2 = (s.2 ++ l)%list ∧ forallb well_labelled l = true) ∧
  ((s'.1 = s.1 ∧ erases Q p' q) ∨ ∃ q', proc_next e s.1 q = Some (s'.1, q') ∧ erases Q p' q').
Proof.
  destruct 1 as [r r' Hr | T m m' k k' Hm Hk | T m k q Hm Hk]; cbn; [done | |].
  - rewrite Hm. unfold unmetered. destruct (m' e s.1) as [r w]. intros [= <- <-]. cbn. split; [| by right; eexists].
    exists []. by rewrite app_nil_r.
  - destruct (Hm e s) as (a & l & -> & Hl). intros [= <- <-]. cbn. split; [by exists l |]. left. by split.
Qed.

(** ** Runs without interruption *)

Lemma erases_run {A B} (Q : error + A → error + B → Prop) p q e (s : metered W) :
  erases Q p q →
  ∃ l, Q (run p e s).1 (run q e s.1).1 ∧ (run p e s).2 = ((run q e s.1).2, (s.2 ++ l)%list) ∧
    forallb well_labelled l = true.
Proof.
  intros Hp. revert s. induction Hp as [r r' Hr | T m m' k k' Hm Hk IH | T m k q Hm Hk IH]; intros s; cbn.
  - exists []. rewrite app_nil_r. by destruct s.
  - rewrite Hm. unfold unmetered. destruct (m' e s.1) as [r w]. apply (IH r (w, s.2)).
  - destruct (Hm e s) as (a & l & -> & Hl). destruct (IH a (s.1, (s.2 ++ l)%list)) as (l' & HQ & -> & Hl').
    exists (l ++ l')%list. cbn [fst snd] in *. rewrite forallb_app, Hl, Hl'. by rewrite <-app_assoc.
Qed.

(** ** Pools of processes *)

Context (E : env → Prop) (S : proc (metered W) unit → Prop) (S' : proc W unit → Prop).
Context (HSS : ∀ p, S p → ∃ q, S' q ∧ erases eq p q) (HSS' : ∀ q, S' q → ∃ p, S p ∧ erases eq p q).

Lemma erases_pool (s : metered W) ps (s' : metered W) ps' qs :
  rtc (pool_step E S) (s, ps) (s', ps') → Forall2 (erases eq) ps qs →
  ∃ qs' l, rtc (pool_step E S') (s.1, qs) (s'.1, qs') ∧ Forall2 (erases eq) ps' qs' ∧
    s'.2 = (s.2 ++ l)%list ∧ forallb well_labelled l = true.
Proof.
  intros Hrun. remember (s, ps) as c eqn:Ec. remember (s', ps') as c' eqn:Ec'. revert s ps qs Ec.
  induction Hrun as [c | c [s1 ps1] c2 Hstep _ IH]; intros s ps qs -> Hps.
  { injection Ec' as <- <-. exists qs, []. by rewrite app_nil_r. }
  enough (∃ qs1 l, rtc (pool_step E S') (s.1, qs) (s1.1, qs1) ∧ Forall2 (erases eq) ps1 qs1 ∧
    s1.2 = (s.2 ++ l)%list ∧ forallb well_labelled l = true) as (qs1 & l1 & Hr1 & Hp1 & Hl1 & Hw1).
  { destruct (IH Ec' s1 ps1 qs1 eq_refl Hp1) as (qs' & l2 & Hr2 & Hp2 & Hl2 & Hw2). exists qs', (l1 ++ l2)%list.
    split_and!; [by etrans | done | by rewrite Hl2, Hl1, app_assoc | by rewrite forallb_app, Hw1, Hw2]. }
  assert (Hnil : s.2 = (s.2 ++ [])%list) by (by rewrite app_nil_r).
  inversion Hstep as [? ? p Hp | T ? ps1' m k ps2 e r ? He Hm | ? ps1' p ps2]; subst.
  - destruct (HSS p Hp) as (q & Hq & Hpq). exists (q :: qs), []. split_and!; [| by constructor | done | done].
    by apply rtc_once, pool_spawn.
  - apply Forall2_app_inv_l in Hps as (qs1 & ? & H1 & (q & qs2 & Hpq & H2 & ->)%Forall2_cons_inv_l & ->).
    destruct (erases_next eq _ q e s s1 (k r) Hpq) as [(l & Hl & Hw) [[Hs Hpq'] | (q' & Hq' & Hpq')]]; [cbn; by rewrite Hm | |].
    + exists (qs1 ++ q :: qs2)%list, l. rewrite Hs. split_and!; try done. apply Forall2_app; [done | by constructor].
    + exists (qs1 ++ q' :: qs2)%list, l. split_and!; try done; [by apply rtc_once, (pool_next E S' e) |].
      apply Forall2_app; [done | by constructor].
  - apply Forall2_app_inv_l in Hps as (qs1 & ? & H1 & (q & qs2 & Hpq & H2 & ->)%Forall2_cons_inv_l & ->).
    exists (qs1 ++ qs2)%list, []. split_and!; [by apply rtc_once, pool_crash | by apply Forall2_app | done | done].
Qed.

(** The step of the erased process can be made by the instrumented one. *)
Lemma erases_catch_up p q e w w' q' t ps1 ps2 :
  E e → erases eq p q → proc_next e w q = Some (w', q') →
  ∃ p' t', rtc (pool_step E S) ((w, t), ps1 ++ p :: ps2)%list ((w', t'), ps1 ++ p' :: ps2)%list ∧ erases eq p' q'.
Proof.
  intros He Hp Hq. revert t. induction Hp as [r r' Hr | T m m' k k' Hm Hk IH | T m k q Hm Hk IH]; intros t; [done | |].
  - cbn in Hq. destruct (m' e w) as [r w1] eqn:Em. injection Hq as <- <-. exists (k r), t. split; [| done].
    apply rtc_once, (pool_next E S e); [done |]. cbn. rewrite Hm. unfold unmetered. cbn. by rewrite Em.
  - destruct (Hm e (w, t)) as (a & l & Ha & _). destruct (IH a Hq (t ++ l)%list) as (p' & t' & Hr & Hp').
    exists p', t'. split; [| done]. eapply rtc_l; [| exact Hr]. apply (pool_next E S e); [done |]. cbn. by rewrite Ha.
Qed.

Lemma erases_pool_back w qs w' qs' ps t :
  rtc (pool_step E S') (w, qs) (w', qs') → Forall2 (erases eq) ps qs →
  ∃ ps' t', rtc (pool_step E S) ((w, t), ps) ((w', t'), ps') ∧ Forall2 (erases eq) ps' qs'.
Proof.
  intros Hrun. remember (w, qs) as c eqn:Ec. remember (w', qs') as c' eqn:Ec'. revert w qs ps t Ec.
  induction Hrun as [c | c [w1 qs1] c2 Hstep _ IH]; intros w qs ps t -> Hps.
  { injection Ec' as <- <-. by exists ps, t. }
  enough (∃ ps1 t1, rtc (pool_step E S) ((w, t), ps) ((w1, t1), ps1) ∧ Forall2 (erases eq) ps1 qs1)
    as (ps1 & t1 & Hr1 & Hp1).
  { destruct (IH Ec' w1 qs1 ps1 t1 eq_refl Hp1) as (ps' & t' & Hr2 & Hp2). exists ps', t'. split; [by etrans | done]. }
  inversion Hstep as [? ? q Hq | T ? qs1' m k qs2 e r ? He Hm | ? qs1' q qs2]; subst.
  - destruct (HSS' q Hq) as (p & Hp & Hpq). exists (p :: ps), t. split; [by apply rtc_once, pool_spawn | by constructor].
  - apply Forall2_app_inv_r in Hps as (ps1 & ? & H1 & (p & ps2 & Hpq & H2 & ->)%Forall2_cons_inv_r & ->).
    destruct (erases_catch_up p (Atomic m k) e w w1 (k r) t ps1 ps2 He Hpq) as (p' & t' & Hr & Hp'); [cbn; by rewrite Hm |].
    exists (ps1 ++ p' :: ps2)%list, t'. split; [done |]. apply Forall2_app; [done | by constructor].
  - apply Forall2_app_inv_r in Hps as (ps1 & ? & H1 & (p & ps2 & Hpq & H2 & ->)%Forall2_cons_inv_r & ->).
    exists (ps1 ++ ps2)%list, t. split; [by apply rtc_once, pool_crash | by apply Forall2_app].
Qed.

End erasure.
