(* ===== verification/TelemetrySpec.v ===== *)
(** The telemetry is transparent: the instrumented programs behave as the ones
    without, in every interleaving. *)

From S2P Require Import Prelude GoString GoFloat GoJson GoError Proc Domain Db Pg Store Wf WfStore StoreSpec.
From S2P Require Import StoreSpec2 Progress Service HttpApi HttpSpec Worker WorkerSpec World Queue Publisher.
From S2P Require Import LiveWorker Telemetry Erasure.

Open Scope string_scope.

(** * The agents, with and without metrics *)

(** Reading the clock changes nothing. *)
Class SilentClock (W : Type) `{Clock W} := {
  silent_now {B B'} (Q : error + B → error + B' → Prop) k (q : proc W B') :
    (∀ t, erases Q (k t) q) → erases Q (bind (lift time_Now) k) q;
}.

#[export] Instance dbw_silent : SilentClock dbw.
Proof.
  split. intros B B' Q k q Hk. apply erases_silent; [| by intros t; apply Hk]. intros e s. eexists _, []. by rewrite app_nil_r.
Qed.

Section agents.
Context `{Postgres} `{Redis} `{ErrorTexts}.

#[export] Instance world_silent : SilentClock world.
Proof.
  split. intros B B' Q k q Hk. apply erases_silent; [| by intros t; apply Hk]. intros e s. eexists _, []. rewrite app_nil_r.
  cbn. unfold unmetered. cbn. by destruct s as [[] ?].
Qed.

Lemma erases_on_db {A B} (Q : error + A → error + B → Prop) (p : proc (metered dbw) A) q :
  erases Q p q → erases Q (on_metered_db p) (on_db q).
Proof.
  induction 1 as [r r' Hr | T m m' k k' Hm Hk IH | T m k q Hm Hk IH]; cbn; [by apply erases_ret | |].
  - apply erases_call; [| done]. intros e s. rewrite Hm. unfold unmetered. cbn [fst snd].
    by destruct (m' e (wd_db s.1)).
  - apply erases_silent; [| done]. intros e s. destruct (Hm e (wd_db s.1, s.2)) as (a & l & -> & Hl).
    exists a, l. cbn. split; [| done]. by destruct s as [[] ?].
Qed.

Lemma erases_lift_eq {W A} (p : proc W A) : erases eq (lift p) p.
Proof. by apply erases_lift. Qed.

Lemma erases_lift_try {W A B B'} (Q : error + B → error + B' → Prop) (p : proc W A) k k' :
  (∀ r, erases Q (k r) (k' r)) → erases Q (try (lift p) k) (try p k').
Proof. intros Hk. apply (erases_try eq); [apply erases_lift_eq |]. intros r ? <-. apply Hk. Qed.

Lemma erases_lift_bind {W A B B'} (Q : error + B → error + B' → Prop) (p : proc W A) k k' :
  (∀ e, Q (inl e) (inl e)) → (∀ a, erases Q (k a) (k' a)) → erases Q (bind (lift p) k) (bind p k').
Proof. intros He Hk. apply erases_bind; [apply erases_lift_eq | done..]. Qed.

Create HintDb erase.
#[local] Hint Resolve erases_lift_eq erases_ret : erase.

(** One step of a comparison of two processes of the same shape. *)
Ltac erase_step :=
  first [ apply erases_lift_eq | apply erases_ret; reflexivity | apply erases_count; [reflexivity |]
        | apply erases_lift_try; intros [|] | apply erases_lift_bind; [reflexivity |]; intros ?
        | progress case_match ].
Ltac erase := repeat erase_step.

(** ** The API *)

Lemma erases_with_method {W} method r (p : proc (metered W) response) q :
  erases eq p q → erases eq (with_method method r p) (with_method method r q).
Proof. intros Hp. unfold with_method. by erase. Qed.

Lemma erases_cors {W} (next : request → proc (metered W) response) next' r :
  erases eq (next r) (next' r) → erases eq (cors next r) (cors next' r).
Proof.
  intros Hn. unfold cors. cbv zeta. case_match; [by apply erases_ret |].
  apply erases_bind; [done | done |]. intros rp. by apply erases_ret.
Qed.

Lemma erases_NewRouter healthFn metrics r :
  erases eq (counted_NewRouter healthFn metrics r) (NewRouter healthFn metrics r).
Proof.
  apply erases_cors. unfold mux, ServeHTTP. cbn [rt_metrics rt_healthz rt_workflows rt_executions rt_execution rt_tasks rt_dead].
  unfold counted_handleWorkflows, handleWorkflows, counted_handleExecutions, handleExecutions, counted_handleTaskActions,
    handleTaskActions. cbv zeta. repeat (case_match; try apply erases_lift_eq); try apply erases_with_method; by erase.
Qed.

Lemma erases_api_handler local service healthFn metrics r :
  erases (λ _ _, True) (api_handler local service healthFn metrics r) (NewRouter healthFn metrics r).
Proof.
  unfold api_handler, Middleware. cbv zeta. apply silent_now. intros t.
  apply (erases_then eq); [apply erases_NewRouter |]. intros [err | rp] ? <-; [by apply erases_ret |].
  apply erases_count; [done |]. apply silent_now. intros t'. apply erases_count; [done |]. by apply erases_ret.
Qed.

(** ** The publisher, the consumer and the worker *)

Lemma erases_count_last {W} c : well_labelled c = true → erases eq (count c) (return_ tt : proc W unit).
Proof.
  intros Hc. apply erases_silent; [| by intros []; apply erases_ret]. intros e s. exists tt, [c]. cbn. by rewrite Hc.
Qed.

Lemma erases_publish_event rs event : erases eq (counted_publish_event rs event) (publish_event rs event).
Proof.
  unfold counted_publish_event, publish_event. case_match; [| by erase]. apply erases_lift_try. intros [err |]; [by erase |].
  apply (erases_then eq); [apply erases_lift_eq |]. intros [err | []] ? <-; [by erase | by apply erases_count_last].
Qed.

Lemma erases_publish_events rs events : erases eq (counted_publish_events rs events) (publish_events rs events).
Proof.
  induction events as [| event events IH]; [by apply erases_ret |].
  apply erases_bind; [apply erases_publish_event | done..].
Qed.

Lemma erases_publishOnce rs : erases eq (counted_publishOnce rs) (publishOnce rs).
Proof.
  apply erases_lift_bind; [done |]. intros n. apply erases_count_all; [by case_match |].
  apply erases_lift_bind; [done |]. intros events. apply erases_publish_events.
Qed.

Lemma erases_processMessages rs messages h h' :
  (∀ m, erases eq (h m) (h' m)) →
  erases eq (counted_processMessages rs messages h) (processMessages rs messages h').
Proof.
  intros Hh. induction messages as [| m messages IH]; [by apply erases_ret |].
  apply erases_bind; [| done | done]. unfold counted_process_message, process_message.
  apply erases_bind; [by apply erases_ret | done |]. intros task.
  apply (erases_try eq); [done |]. intros [err |] ? <-; by erase.
Qed.

Lemma erases_consume_round rs opts h h' :
  (∀ m, erases eq (h m) (h' m)) → erases eq (counted_consume_round rs opts h) (consume_round rs opts h').
Proof.
  intros Hh. apply erases_lift_bind; [done |]. intros [| m l].
  - apply erases_lift_try. intros [err | ms]; [by erase | by apply erases_processMessages].
  - apply erases_count; [done | by apply erases_processMessages].
Qed.

Lemma outcome_calls_labelled key outcome : forallb well_labelled (outcome_calls key outcome) = true.
Proof. unfold outcome_calls. by repeat case_match. Qed.

Lemma erases_HandleDispatchedTask registry message :
  erases eq (counted_HandleDispatchedTask (W := world) registry message) (HandleDispatchedTask registry message).
Proof.
  apply silent_now. intros t. apply erases_lift_bind; [done |]. intros [outcome err].
  apply erases_count_all; [apply outcome_calls_labelled |]. apply silent_now. intros t'.
  apply erases_count; [done |]. destruct err; by apply erases_ret.
Qed.

(** ** Pools of agents *)

Context (rs : RedisStreams) (registry : Registry world) (local : Z → Z) (service : string).
Context (healthFn : proc dbw unit) (metrics : request → proc dbw response).

(** A request to the API, a round of the publisher, and a round of a consumer
    with the worker as its handler; without telemetry, and as the programs are. *)
Inductive plain_agent : proc world unit → Prop :=
| plain_request r : plain_agent (discard (on_db (NewRouter healthFn metrics r)))
| plain_publisher : plain_agent (publishOnce rs)
| plain_consumer opts : plain_agent (consume_round rs opts (HandleDispatchedTask registry)).

Inductive counted_agent : proc (metered world) unit → Prop :=
| counted_request r : counted_agent (discard (on_metered_db (api_handler local service healthFn metrics r)))
| counted_publisher : counted_agent (counted_publishOnce rs)
| counted_consumer opts : counted_agent (counted_consume_round rs opts (counted_HandleDispatchedTask registry)).

Lemma erases_request r :
  erases eq (discard (on_metered_db (api_handler local service healthFn metrics r)))
    (discard (on_db (NewRouter healthFn metrics r))).
Proof. apply erases_discard, erases_on_db, erases_api_handler. Qed.

Lemma erases_consumer opts :
  erases eq (counted_consume_round rs opts (counted_HandleDispatchedTask registry))
    (consume_round rs opts (HandleDispatchedTask registry)).
Proof. apply erases_consume_round. intros m. apply erases_HandleDispatchedTask. Qed.

Lemma counted_plain p : counted_agent p → ∃ q, plain_agent q ∧ erases eq p q.
Proof.
  intros [r | | opts]; eexists; (split; [constructor |]);
    [apply erases_request | apply erases_publishOnce | apply erases_consumer].
Qed.

Lemma plain_counted q : plain_agent q → ∃ p, counted_agent p ∧ erases eq p q.
Proof.
  intros [r | | opts]; eexists; (split; [constructor |]);
    [apply erases_request | apply erases_publishOnce | apply erases_consumer].
Qed.


End agents.
