(* ===== verification/CountsSpec.v ===== *)
(** What the telemetry counts is what happened: requests by the status that was
    sent, effects of the API, outcomes of tasks, dispatched events. *)

From S2P Require Import Prelude GoString GoFloat GoJson GoUrl GoEncoder GoError Proc Domain Db Pg Store Wf WfStore StoreSpec.
From S2P Require Import StoreSpec2 Progress Service HttpApi HttpSpec Worker WorkerSpec World Queue Publisher.
From S2P Require Import LiveWorker Telemetry.

Open Scope string_scope.

(** * What a run counts *)

Lemma run_lift {W A} (p : proc W A) e s : run (lift p) e s = let '(r, w) := run p e s.1 in (r, (w, s.2)).
Proof.
  revert s. induction p as [r | T m k IH]; intros s; cbn; [by destruct s |]. unfold unmetered.
  destruct (m e s.1) as [r w]. by rewrite IH.
Qed.

Lemma run_count {W} c e (s : metered W) : run (count c) e s = (inr tt, (s.1, (s.2 ++ [c])%list)).
Proof. done. Qed.

Lemma run_count_all {W} cs e (s : metered W) : run (count_all cs) e s = (inr tt, (s.1, (s.2 ++ cs)%list)).
Proof.
  revert s. induction cs as [| c cs IH]; intros s; cbn [count_all].
  - rewrite app_nil_r. by destruct s.
  - rewrite run_bind, run_count, IH. cbn. by rewrite <-app_assoc.
Qed.

(** ** Requests *)

(** [p] is [q] with the calls [f] of the status it answers with. *)
Definition counted_as {W} (f : Z → list metric_call) (p : proc (metered W) response) (q : proc W response) : Prop :=
  ∀ e s, run p e s = let '(res, w) := run q e s.1 in
    (res, (w, (s.2 ++ match res with inr rp => f (rp_Status rp) | inl _ => [] end)%list)).

Lemma counted_as_return {W} (f : Z → list metric_call) rp : f (rp_Status rp) = [] → counted_as (W := W) f (return_ rp) (return_ rp).
Proof. intros Hf e s. cbn. rewrite Hf, app_nil_r. by destruct s. Qed.

Lemma counted_as_lift {W} (f : Z → list metric_call) (p : proc W response) : (∀ status, f status = []) → counted_as f (lift p) p.
Proof.
  intros Hf e s. rewrite run_lift. destruct (run p e s.1) as [[err | rp] w]; [by rewrite app_nil_r |].
  by rewrite Hf, app_nil_r.
Qed.

Lemma counted_as_method {W} (f : Z → list metric_call) method r (p : proc (metered W) response) q :
  f 204%Z = [] → f 405%Z = [] → counted_as f p q → counted_as f (with_method method r p) (with_method method r q).
Proof. intros H2 H4 Hp. unfold with_method. case_match; [by apply counted_as_return |]. case_match; [by apply counted_as_return | done]. Qed.

Lemma counted_as_call {W A} f (p : proc W A) k k' :
  (∀ r, counted_as f (k r) (k' r)) → counted_as f (try (lift p) k) (try p k').
Proof.
  intros Hk e s. rewrite !run_try, run_lift. destruct (run p e s.1) as [r w]. by rewrite Hk.
Qed.

Lemma counted_as_count {W} f c rp : f (rp_Status rp) = [c] →
  counted_as (W := W) f (bind (count c) (λ _, return_ rp)) (return_ rp).
Proof. intros Hf e s. cbn. by rewrite Hf. Qed.

Lemma counted_as_cors {W} (f : Z → list metric_call) (next : request → proc (metered W) response) next' r :
  f 204%Z = [] → counted_as f (next r) (next' r) → counted_as f (cors next r) (cors next' r).
Proof.
  intros H2 Hn. unfold cors. cbv zeta. case_match; [by apply counted_as_return |].
  intros e s. rewrite !run_bind, Hn. by destruct (run (next' r) e s.1) as [[err | rp] w].
Qed.

(** The counters of the effects of the API. *)
Definition effect_calls (path : string) (status : Z) : list metric_call :=
  if (String.eqb path "/api/workflows" && Z.eqb status 201)%bool then [Inc WorkflowDefinitionsCreated ["api"]]
  else if (String.eqb path "/api/executions" && Z.eqb status 202)%bool then [Inc WorkflowExecutionsCreated ["api"]]
  else if (has_prefix "/api/tasks/" path && Z.eqb status 202)%bool then [Inc TaskReplays ["api"]]
  else [].

Section requests.
Context `{Postgres} `{ErrorTexts}.

(** The rest of a comparison of a handler with its counted version. *)
Ltac counted_steps :=
  repeat first [ apply counted_as_call; intros [|] | apply counted_as_count; reflexivity
               | apply counted_as_return; reflexivity | progress case_match ].

Lemma handleWorkflows_counted r :
  counted_as (effect_calls "/api/workflows") (counted_handleWorkflows r) (handleWorkflows r).
Proof. apply counted_as_method; [done | done |]. counted_steps. Qed.

Lemma handleExecutions_counted r :
  counted_as (effect_calls "/api/executions") (counted_handleExecutions r) (handleExecutions r).
Proof. apply counted_as_method; [done | done |]. counted_steps. Qed.

Lemma handleTaskActions_counted r path :
  (∀ status, effect_calls path status = if Z.eqb status 202 then [Inc TaskReplays ["api"]] else []) →
  counted_as (effect_calls path) (counted_handleTaskActions r) (handleTaskActions r).
Proof.
  intros Hf. apply counted_as_method; [by rewrite Hf | by rewrite Hf |].
  repeat first [ apply counted_as_call; intros [|] | apply counted_as_count; rewrite Hf; reflexivity
               | apply counted_as_return; rewrite Hf; reflexivity | progress case_match ].
Qed.

Lemma has_prefix_tasks path : has_prefix "/api/tasks/" path = true →
  String.eqb path "/api/workflows" = false ∧ String.eqb path "/api/executions" = false ∧
  has_prefix "/api/executions/" path = false.
Proof.
  intros Hp. split_and!; [by destruct (String.eqb_spec path "/api/workflows") as [-> |]
    | by destruct (String.eqb_spec path "/api/executions") as [-> |] |].
  unfold has_prefix in *. destruct (strip_prefix (to_bytes "/api/tasks/") _) as [rest |] eqn:E; [| done].
  apply strip_prefix_split in E as ->. reflexivity.
Qed.

Lemma effect_calls_none path status :
  String.eqb path "/api/workflows" = false → String.eqb path "/api/executions" = false →
  has_prefix "/api/tasks/" path = false → effect_calls path status = [].
Proof. unfold effect_calls. by intros -> -> ->. Qed.

Lemma NewRouter_counted healthFn metrics r :
  counted_as (effect_calls (rq_Path r)) (counted_NewRouter healthFn metrics r) (NewRouter healthFn metrics r).
Proof.
  apply counted_as_cors; [unfold effect_calls; by rewrite !andb_false_r |].
  unfold mux, ServeHTTP. cbn [rt_metrics rt_healthz rt_workflows rt_executions rt_execution rt_tasks rt_dead]. cbv zeta.
  destruct (String.eqb_spec (rq_Path r) "/metrics") as [-> | _]; [by apply counted_as_lift |].
  destruct (String.eqb_spec (rq_Path r) "/healthz") as [-> | _]; [by apply counted_as_lift |].
  destruct (String.eqb_spec (rq_Path r) "/api/workflows") as [-> | Hw]; [apply handleWorkflows_counted |].
  destruct (String.eqb_spec (rq_Path r) "/api/executions") as [-> | Hx]; [apply handleExecutions_counted |].
  apply String.eqb_neq in Hw, Hx.
  destruct (has_prefix "/api/tasks/" (rq_Path r)) eqn:Ht.
  - destruct (has_prefix_tasks _ Ht) as (_ & _ & ->). apply handleTaskActions_counted. intros status.
    unfold effect_calls. by rewrite Hw, Hx, Ht.
  - pose proof (λ st, effect_calls_none _ st Hw Hx Ht) as Hnone.
    repeat (case_match; [apply counted_as_lift; exact Hnone |]).
    case_match; by apply counted_as_return; rewrite Hnone.
Qed.

(** ** The recorded status *)

(** A response with one final status, and a body only where one is allowed. *)
Definition final (rp : response) : Prop :=
  (200 ≤ rp_Status rp)%Z ∧ (rp_Content rp = NoContent ∨ body_allowed (rp_Status rp) = true).

(** What the client gets is the response, and the recorder has its status. *)
Lemma recorded local rp : final rp →
  let recorder := perform_all (response_calls local rp) new_recorder in
  sr_statusCode recorder = rp_Status rp ∧ sent_status (sr_ResponseWriter recorder) = rp_Status rp ∧
  hw_body (sr_ResponseWriter recorder) = body_text local (rp_Content rp).
Proof.
  destruct rp as [status header c]. intros [Hs Hc]. cbn [rp_Status rp_Content] in *.
  assert (Hh : writer_WriteHeader status (mkWriter None "") = mkWriter (Some status) "").
  { unfold writer_WriteHeader. cbn [hw_status hw_body]. rewrite (proj2 (Z.leb_gt _ 199)) by lia. by rewrite andb_false_r. }
  unfold response_calls, perform_all. cbn [rp_Status rp_Content fold_left perform].
  unfold WriteHeader, new_recorder. cbn [sr_ResponseWriter]. rewrite Hh.
  assert (Hw : ∀ text, c ≠ NoContent →
    Write text (mkRecorder (mkWriter (Some status) "") status) = mkRecorder (mkWriter (Some status) text) status).
  { intros text Hne. destruct Hc as [? | Hb]; [done |]. unfold Write, writer_Write. cbn. by rewrite Hb. }
  destruct c as [| text | p]; [done | cbn [fold_left perform]; by rewrite Hw |].
  unfold body_text. destruct (payload_marshalled local p) as [m |]; [| done]. cbn [fold_left perform]. by rewrite Hw.
Qed.

(** Every answer of [p] is final. *)
Definition answers_final (p : proc dbw response) : Prop :=
  ∀ e w rp w', run p e w = (inr rp, w') → final rp.

Lemma final_return rp : final rp → answers_final (return_ rp).
Proof. by intros Hf e w ? ? [= <- <-]. Qed.

Lemma final_call {A} (p : proc dbw A) k : (∀ r, answers_final (k r)) → answers_final (try p k).
Proof. intros Hk e w rp w'. rewrite run_try. destruct (run p e w) as [r w1]. apply Hk. Qed.

Ltac finals :=
  repeat first [ apply final_call; intros [|] | apply final_return; split; [cbn; lia | first [by left | by right]]
               | progress case_match ].

Lemma final_NewRouter healthFn metrics r :
  rq_Path r ≠ "/metrics" → answers_final (NewRouter healthFn metrics r).
Proof.
  intros Hmet. unfold NewRouter, cors. cbv zeta. case_match; [by finals |].
  enough (Hm : answers_final (mux healthFn metrics r)).
  { intros e w rp w'. rewrite run_bind. destruct (run (mux healthFn metrics r) e w) as [[err | rp1] w1] eqn:E; [done |].
    intros [= <- <-]. exact (Hm _ _ _ _ E). }
  unfold mux, ServeHTTP. cbv zeta. destruct (String.eqb_spec (rq_Path r) "/metrics"); [done |].
  cbn [rt_healthz rt_workflows rt_executions rt_execution rt_tasks rt_dead].
  unfold handle_health, handleWorkflows, handleExecutions, handleExecutionSnapshot, handleTaskActions, handleDeadLetteredTasks,
    with_method. cbv zeta. finals.
Qed.

Context `{!PostgresLaws}.


End requests.

(** ** Outcomes of tasks *)

Section outcomes.
Context `{ErrorTexts} `{PostgresLaws}.

(** The row of a task after a run with this outcome. *)
Inductive shows : string → task_row → Prop :=
| shows_duplicate r : terminal (tr_status r) → shows "duplicate" r
| shows_missing r : tr_status r = TaskStatusDeadLettered → shows "missing_handler" r
| shows_failed r : tr_status r = TaskStatusDeadLettered → shows "failed" r
| shows_retry r : tr_status r = TaskStatusPending → is_Some (tr_next_run_at r) → shows "scheduled_retry" r
| shows_advanced r : tr_status r = TaskStatusSucceeded → shows "advanced" r
| shows_succeeded r : tr_status r = TaskStatusSucceeded → shows "succeeded" r.

Definition shown (d : db) (t outcome : string) : Prop :=
  ∃ u r, uuid_in t = inr u ∧ task_instances d !! u = Some r ∧ shows outcome r.

Definition failures : list string := ["task_spec_error"; "db_error"; "persist_error"].

Lemma attempt_started_id t d task attempt d1 :
  attempt_started t d (task, attempt, false) d1 →
  ∃ u, uuid_in t = inr u ∧ uuid_in (ti_ID task) = inr u ∧ is_Some (task_instances d1 !! u).
Proof.
  intros (u & r & Hu & _ & Hc). exists u. case_decide; [naive_solver |]. destruct Hc as (a & now & _ & [= -> ->] & ->).
  split_and!; [done | by apply (uuid_in_fix t) | cbn; by rewrite lookup_insert_eq].
Qed.

Lemma finished_shown spec ts task attempt hr d label d' t u :
  uuid_in t = inr u → uuid_in (ti_ID task) = inr u → is_Some (task_instances d !! u) →
  finished spec ts task attempt hr d label d' → shown d' t label.
Proof.
  intros Ht Hid [row Hrow] Hfin. exists u. destruct Hfin as [err now d' _ _ Hf | err d' _ _ Hf | out nt d' _ _ Hf | out d' _ _ Hf].
  - destruct Hf as (? & aid & n & Hu' & _ & _ & ->). rewrite Hid in Hu'. injection Hu' as <-. eexists. cbn. rewrite lookup_alter_eq, Hrow.
    split_and!; [done | done |]. by apply shows_retry.
  - destruct Hf as (? & aid & r & n & Hu' & _ & _ & _ & ->). rewrite Hid in Hu'. injection Hu' as <-. eexists. cbn. rewrite lookup_insert_eq.
    split_and!; [done | done |]. by apply shows_failed.
  - destruct Hf as (? & aid & r & js & v & o & pj & n & Hu' & _ & _ & Hr & Hv & _ & _ & _ & ->). rewrite Hid in Hu'. injection Hu' as <-. eexists. cbn.
    rewrite lookup_insert_ne by congruence. rewrite lookup_insert_eq. split_and!; [done | done |]. by apply shows_advanced.
  - destruct Hf as (? & aid & r & js & n & Hu' & _ & _ & _ & ->). rewrite Hid in Hu'. injection Hu' as <-. eexists. cbn. rewrite lookup_insert_eq.
    split_and!; [done | done |]. by apply shows_succeeded.
Qed.

Lemma handled_shown registry msg d label d' : handled registry msg d label d' → shown d' (tm_TaskID msg) label.
Proof.
  intros [task Hs | task attempt d1 d2 Hs _ Hd | spec ts task attempt h e w1 hr w2 l d2 _ Hs _ _ Hev Hf].
  - destruct Hs as (u & r & Hu & Hr & Hc). exists u, r. split_and!; [done | done |]. apply shows_duplicate.
    case_decide; [done |]. by destruct Hc as (? & ? & _ & [=] & _).
  - apply attempt_started_id in Hs as (u & Hu & Hid & _). exists u.
    destruct Hd as (? & aid & r & n & Hu' & _ & _ & _ & ->). rewrite Hid in Hu'. injection Hu' as <-. eexists. cbn. rewrite lookup_insert_eq.
    split_and!; [done | done |]. by apply shows_missing.
  - apply attempt_started_id in Hs as (u & Hu & Hid & Hsome). eapply finished_shown; [done | exact Hid | | exact Hf].
    destruct Hev. by eapply kept_some.
Qed.

(** The label of a run that fails. *)
Definition fails_as (p : proc dbw (string * option error)) : Prop :=
  ∀ e w, ∃ label err w', run p e w = (inr (label, err), w') ∧ (err ≠ None → label ∈ failures).

Lemma fails_outcome label err : (err ≠ None → label ∈ failures) → fails_as (outcome_of label err).
Proof. intros Hf e w. by exists label, err, w. Qed.

Lemma fails_try {A} (p : proc dbw A) k : (∀ r, fails_as (k r)) → fails_as (try p k).
Proof. intros Hk e w. rewrite run_try. destruct (run p e w) as [r w']. apply Hk. Qed.

Lemma fails_persist prefix p ok : fails_as (persist prefix p ok).
Proof. apply fails_try. intros [err | []]; apply fails_outcome; [| done]. intros _. unfold failures. set_solver. Qed.

Lemma handle_labelled_fails registry msg : fails_as (handle_labelled registry msg).
Proof.
  assert (Hin : ∀ l, bool_decide (l ∈ failures) = true → l ∈ failures) by (intros l ?%bool_decide_eq_true; done).
  apply fails_try. intros [err | [spec ts]]; [by apply fails_outcome; intros _; apply Hin |]. cbv zeta.
  apply fails_try. intros [err | [[task attempt] []]]; [by apply fails_outcome; intros _; apply Hin | by apply fails_outcome |].
  case_match; [| apply fails_persist]. apply fails_try. intros [err | output].
  - unfold on_handler_error. case_match; [| apply fails_persist]. intros e w. rewrite run_bind.
    cbn [run time_Now dbw_Clock atomic]. apply fails_persist.
  - unfold on_handler_success. repeat case_match; try apply fails_persist. by apply fails_outcome; intros _; apply Hin.
Qed.

(** What one run adds to the counters of the worker. *)
Lemma dead_letter_counted key outcome reason x :
  counter DeadLetteredTasks ["worker"; key; reason]
    (outcome_calls key outcome ++ [Observe TaskProcessingDuration ["worker"; key; outcome] x])%list ≠ 0%Z →
  outcome = "missing_handler" ∨ outcome = "failed".
Proof.
  unfold outcome_calls. destruct (String.eqb_spec outcome "missing_handler"); [by left |].
  destruct (String.eqb_spec outcome "scheduled_retry"); [done |].
  destruct (String.eqb_spec outcome "failed"); [by right | done].
Qed.

Lemma retry_counted key outcome x :
  counter RetriesScheduled ["worker"; key]
    (outcome_calls key outcome ++ [Observe TaskProcessingDuration ["worker"; key; outcome] x])%list ≠ 0%Z →
  outcome = "scheduled_retry".
Proof.
  unfold outcome_calls. destruct (String.eqb_spec outcome "missing_handler"); [done |].
  destruct (String.eqb_spec outcome "scheduled_retry"); [done |]. by destruct (String.eqb_spec outcome "failed").
Qed.

(** C13: the outcomes the worker counts are true.  Each call of HandleDispatchedTask
    makes one count of a processed task and one measurement, under one outcome.  When
    the call returns nil, the row of the task shows that outcome; when it returns an
    error, the outcome is one of the three failures.  So the count of dead-lettered
    tasks goes up only when the task is dead-lettered, and that of scheduled retries
    only when the task is pending with a retry time. *)
Theorem outcomes_counted registry msg e w calls res w' calls' :
  env_ok e → handlers_ok registry → db_wf (w_db w) →
  run (counted_HandleDispatchedTask registry msg) e (w, calls) = (res, (w', calls')) →
  ∃ outcome x new,
    calls' = (calls ++ new)%list ∧
    new = (outcome_calls (tm_HandlerKey msg) outcome ++
      [Observe TaskProcessingDuration ["worker"; tm_HandlerKey msg; outcome] x])%list ∧
    match res with inr _ => shown (w_db w') (tm_TaskID msg) outcome | inl _ => outcome ∈ failures end ∧
    (∀ reason, counter DeadLetteredTasks ["worker"; tm_HandlerKey msg; reason] new ≠ 0%Z →
      ∃ u r, uuid_in (tm_TaskID msg) = inr u ∧ task_instances (w_db w') !! u = Some r ∧
        tr_status r = TaskStatusDeadLettered) ∧
    (counter RetriesScheduled ["worker"; tm_HandlerKey msg] new ≠ 0%Z →
      ∃ u r, uuid_in (tm_TaskID msg) = inr u ∧ task_instances (w_db w') !! u = Some r ∧
        tr_status r = TaskStatusPending ∧ is_Some (tr_next_run_at r)).
Proof.
  intros He Hh Hwf. unfold counted_HandleDispatchedTask. rewrite run_bind, run_lift. cbn [run time_Now dbw_Clock atomic fst snd].
  rewrite run_bind, run_lift. cbn [fst snd].
  destruct (handle_labelled_fails registry msg e w) as (outcome & err & w1 & Hrun & Hfail). rewrite Hrun.
  rewrite run_bind, run_count_all. cbn [fst snd].
  cbn [run bind try count atomic record_call return_ fail lift unmetered time_Now dbw_Clock fst snd].
  set (x := Seconds _). intros Hres.
  assert (Hr : res = match err with Some err => inl err | None => inr tt end ∧ w' = w1 ∧
    calls' = ((calls ++ outcome_calls (tm_HandlerKey msg) outcome) ++
      [Observe TaskProcessingDuration ["worker"; tm_HandlerKey msg; outcome] x])%list)
    by (destruct err; by injection Hres as <- <- <-).
  destruct Hr as (-> & -> & ->). eexists outcome, x, _. split; [by rewrite <-app_assoc |]. split; [done |].
  assert (Hm : match err with Some _ => outcome ∈ failures | None => shown (w_db w1) (tm_TaskID msg) outcome end).
  { destruct err as [err |]; [by apply Hfail |].
    destruct (run_handle registry msg e w outcome None w1 He Hh Hwf Hrun) as [[_ Hd] | ?]; [| done].
    by eapply handled_shown. }
  split_and!.
  - by destruct err.
  - intros reason Hne%dead_letter_counted. destruct err as [err |].
    { exfalso. unfold failures in Hm. destruct Hne as [-> | ->]; set_solver. }
    destruct Hm as (u & r & Hu & Hr & Hs). exists u, r. split_and!; [done | done |].
    by destruct Hne as [-> | ->]; inversion Hs.
  - intros Hne%retry_counted. destruct err as [err |].
    { exfalso. unfold failures in Hm. subst. set_solver. }
    destruct Hm as (u & r & Hu & Hr & Hs). subst. exists u, r. by inversion Hs.
Qed.

End outcomes.
