(* ===== verification/DispatchSpec.v ===== *)
(** What the publisher counts: the events that wait to be dispatched are
    accounted for by the counters of retries and of published events. *)

From S2P Require Import Prelude GoString GoJson GoError Proc Domain Db Pg Store History Wf WfStore StoreSpec.
From S2P Require Import StoreSpec2 Worker World Queue Publisher Live Recovery Telemetry CountsSpec.

Open Scope string_scope.

Section waiting.
Context `{PostgresLaws}.

Abbreviation waiting_rows d := (filter (λ p : string * outbox_row, or_dispatched_at p.2 = None) (outbox_events d)).

(** An event that is written with the dispatch time it has. *)
Lemma waiting_same d o row row' :
  outbox_events d !! o = Some row → or_dispatched_at row' = or_dispatched_at row →
  waiting_count (set_outbox_events (<[o := row']> (outbox_events d)) d) = waiting_count d.
Proof.
  intros Ho Hd. unfold waiting_count. cbn [outbox_events set_outbox_events].
  destruct (or_dispatched_at row) eqn:Hr.
  - rewrite map_filter_insert_False by (cbn; congruence). rewrite map_filter_delete, delete_id; [done |].
    apply map_lookup_filter_None. right. intros x Hx. cbn. congruence.
  - rewrite map_filter_insert_True by (cbn; congruence). rewrite map_size_insert_Some; [done |].
    exists row. by apply map_lookup_filter_Some.
Qed.

(** An event that is marked. *)
Lemma waiting_marked d o row row' :
  outbox_events d !! o = Some row → or_dispatched_at row = None → or_dispatched_at row' ≠ None →
  S (waiting_count (set_outbox_events (<[o := row']> (outbox_events d)) d)) = waiting_count d.
Proof.
  intros Ho Hd Hd'. pose proof (mark_waiting d o row row' Ho Hd Hd') as Hlt. unfold waiting_count in *.
  cbn [outbox_events set_outbox_events] in *. rewrite map_filter_insert_False in * by done. rewrite map_filter_delete in *.
  rewrite map_size_delete_Some in * by (exists row; by apply map_lookup_filter_Some). lia.
Qed.

(** The events of retries. *)
Lemma waiting_retries now items d d' :
  retries_written now items d d' → waiting_count d' = (waiting_count d + length items)%nat.
Proof.
  intros [_ _ (os & Hlen & Hnd & Hnew & Hold & Hev)]. unfold waiting_count. rewrite <-!(size_dom (D := gset string)).
  assert (Hdom : dom (waiting_rows d') =@{gset string} list_to_set os ∪ dom (waiting_rows d)).
  { apply set_eq. intros o. rewrite elem_of_union, elem_of_list_to_set, !elem_of_dom. unfold is_Some.
    setoid_rewrite map_lookup_filter_Some. cbn [snd]. destruct (decide (o ∈ os)) as [Hin | Hin].
    - split; [by left |]. intros _. apply list_elem_of_lookup in Hin as [i Hi].
      destruct (lookup_lt_is_Some_2 items i) as [[u r] Hu]; [rewrite <-Hlen; by eapply lookup_lt_Some |].
      destruct (Hev i o u r Hi Hu) as (pj & Ho & _). eexists. split; [exact Ho | done].
    - rewrite (Hold o Hin). naive_solver. }
  rewrite Hdom, size_union; [rewrite size_list_to_set by done; lia |].
  intros o Ho%elem_of_list_to_set Hw. apply elem_of_dom in Hw as [x Hx%map_lookup_filter_Some]. rewrite (Hnew o Ho) in Hx.
  naive_solver.
Qed.

(** ** The steps of a batch *)

(** Events that are still to be dispatched. *)
Definition queued (d : db) (ids : list string) : Prop :=
  NoDup ids ∧ ∀ o, o ∈ ids → uuid_in o = inr o ∧ ∃ row, outbox_events d !! o = Some row ∧ or_dispatched_at row = None.

Lemma queued_write d o ids row : queued d (o :: ids) →
  queued (set_outbox_events (<[o := row]> (outbox_events d)) d) ids.
Proof.
  intros [[Ho Hnd]%list.NoDup_cons Hq]. split; [done |]. intros o' Ho'. destruct (Hq o') as [Hu (r & Hr & Hd)]; [by right |].
  split; [done |]. exists r. cbn. by rewrite lookup_insert_ne by (intros ->; done).
Qed.

Lemma queued_tail d o ids : queued d (o :: ids) → queued d ids.
Proof. intros [[_ Hnd]%list.NoDup_cons Hq]. split; [done |]. intros o' Ho'. apply Hq. by right. Qed.

(** An update of an event that is there, by calls that are answered. *)
Lemma update_outbox_run e w o row set :
  reliable e → uuid_in o = inr o → outbox_events (w_db w) !! o = Some row →
  ∃ res w', run (atomic (autocommit (update_outbox o set))) e w = (res, w') ∧
    match res with
    | inl _ => w_db w' = w_db w
    | inr _ => ∃ f count, set (e_now e (w_tick w)) = inr f ∧
        w_db w' = set_outbox_events (<[o := set_or_attempt_count count (f row)]> (outbox_events (w_db w))) (w_db w)
    end.
Proof.
  intros He Hu Ho. rewrite run_atomic, run_autocommit by done. unfold update_outbox. rewrite Hu. cbn [rbind].
  destruct (set _) as [err | f]; cbn [rbind]; [by eexists _, _ |]. rewrite Ho.
  destruct (int4_in _) as [err | count]; cbn [rbind]; eexists _, _; (split; [done |]); [done |]. by exists f, count.
Qed.

(** Recording a failure keeps what waits. *)
Lemma record_failure_run e w o ids text :
  reliable e → queued (w_db w) (o :: ids) →
  ∃ res w', run (RecordOutboxFailure o text) e w = (res, w') ∧
    waiting_count (w_db w') = waiting_count (w_db w) ∧ queued (w_db w') ids.
Proof.
  intros He Hq. destruct (proj2 Hq o) as [Hu (row & Hrow & Hd)]; [by left |].
  destruct (update_outbox_run e w o row (λ _, let? txt := text_in (truncate text 1000) in
    inr (set_or_last_error_text (Some txt))) He Hu Hrow) as (res & w' & Hrun & Hres).
  exists res, w'. split; [exact Hrun |]. destruct res as [err | []].
  - rewrite Hres. split; [done | by eapply queued_tail].
  - destruct Hres as (f & count & Hf & ->). apply rbind_inr in Hf as (txt & _ & [= <-]).
    split; [by eapply waiting_same | by apply queued_write].
Qed.

(** Marking an event takes it out, or fails. *)
Lemma mark_run e w o ids :
  reliable e → queued (w_db w) (o :: ids) →
  ∃ res w', run (MarkOutboxDispatched o) e w = (res, w') ∧ queued (w_db w') ids ∧
    (waiting_count (w_db w') + match res with inl _ => 0 | inr _ => 1 end)%nat = waiting_count (w_db w).
Proof.
  intros He Hq. destruct (proj2 Hq o) as [Hu (row & Hrow & Hd)]; [by left |].
  destruct (update_outbox_run e w o row (λ now, inr (set_or_dispatched_at (Some now))) He Hu Hrow) as (res & w' & Hrun & Hres).
  exists res, w'. split; [exact Hrun |]. destruct res as [err | []].
  - rewrite Hres. split; [by eapply queued_tail | lia].
  - destruct Hres as (f & count & [= <-] & ->). split; [by apply queued_write |].
    rewrite Nat.add_1_r. by eapply waiting_marked.
Qed.

End waiting.

(** * The balance of the publisher *)

Lemma counter_app v values l l' : counter v values (l ++ l')%list = (counter v values l + counter v values l')%Z.
Proof. unfold counter. induction l as [| c l IH]; cbn in *; lia. Qed.

Section balance.
Context `{PostgresLaws} `{Redis} `{ErrorTexts}.
Context (rs : RedisStreams).

(** The process leaves the balance: what waits at the end and was published is
    what waited at the start and was enqueued. *)
Definition balances (e : env) (p : proc (metered world) unit) (w : world) (ids : list string) : Prop :=
  ∀ calls, ∃ res w' new, run p e (w, calls) = (res, (w', (calls ++ new)%list)) ∧
    (res = inr tt → queued (contents w') ids) ∧
    (Z.of_nat (waiting_count (contents w')) + counter DispatchEvents ["api"; "published"] new =
     Z.of_nat (waiting_count (contents w)) + counter RetriesEnqueued ["api"] new)%Z.

Lemma redis_call_contents {A} (c : redis_state → error + (A * redis_state)) e w r w' :
  redis_call c e w = (r, w') → contents w' = contents w.
Proof. unfold redis_call. repeat case_match; by intros [= <- <-]. Qed.

Lemma run_DispatchTask e w m : ∃ res w', run (DispatchTask rs m) e w = (res, w') ∧ contents w' = contents w.
Proof.
  unfold DispatchTask. rewrite run_bind. unfold on_redis. rewrite run_atomic.
  destruct (redis_call _ e w) as [[err | i] w'] eqn:E; apply redis_call_contents in E; by eexists _, w'.
Qed.

(** What the three statuses add. *)
Lemma dispatch_counted :
  counter DispatchEvents ["api"; "published"] [Inc DispatchEvents ["api"; "published"]] = 1%Z ∧
  counter DispatchEvents ["api"; "published"] [Inc DispatchEvents ["api"; "persist_error"]] = 0%Z ∧
  counter DispatchEvents ["api"; "published"] [Inc DispatchEvents ["api"; "failed"]] = 0%Z ∧
  ∀ status, counter RetriesEnqueued ["api"] [Inc DispatchEvents ["api"; status]] = 0%Z.
Proof. by split_and!. Qed.

Lemma balances_event e w event ids :
  reliable e → queued (contents w) (oe_ID event :: ids) → balances e (counted_publish_event rs event) w ids.
Proof.
  intros He Hq calls. unfold counted_publish_event. destruct dispatch_counted as (Hp & He0 & Hf & Hr0).
  assert (Hrec : ∀ w1 text, contents w1 = contents w → ∃ w' res,
    run (on_db (RecordOutboxFailure (oe_ID event) text)) e w1 = (res, w') ∧
    waiting_count (contents w') = waiting_count (contents w) ∧ queued (contents w') ids).
  { intros w1 text Hw1. destruct (record_failure_run e (wd_db w1) (oe_ID event) ids text He) as (res & d & Hrun & Hc & Hq').
    - by unfold contents in Hw1; rewrite Hw1.
    - exists (mk_world d (wd_redis w1)), res. rewrite run_on_db, Hrun. split_and!; [done | | done].
      unfold contents in *. cbn. by rewrite Hc, Hw1. }
  destruct (unmarshal_payload (oe_PayloadJSON event)) as [payload |].
  2: { rewrite run_try, run_lift. cbn [fst snd].
    destruct (Hrec w (Error (ErrJson (oe_PayloadJSON event))) eq_refl) as (w' & res & -> & Hc & Hq').
    exists (inr tt), w', []. rewrite app_nil_r, Hc. by split_and!. }
  rewrite run_try, run_lift. cbn [fst snd].
  destruct (run_DispatchTask e w (message_of_payload payload)) as (res & w1 & -> & Hw1). destruct res as [err | []].
  - rewrite run_bind, run_count. cbn [fst snd]. rewrite run_try, run_lift. cbn [fst snd].
    destruct (Hrec w1 (Error err) Hw1) as (w' & res & -> & Hc & Hq'). eexists (inr tt), w', _. rewrite Hc.
    split_and!; [reflexivity | done |]. by rewrite Hf, Hr0.
  - rewrite run_try, run_lift. cbn [fst snd].
    destruct (mark_run e (wd_db w1) (oe_ID event) ids He) as (res & d & Hrun & Hq' & Hc);
      [by unfold contents in Hw1; rewrite Hw1 |].
    rewrite run_on_db, Hrun. unfold contents in Hw1. rewrite Hw1 in Hc. destruct res as [err | []].
    + rewrite run_bind, run_count. cbn [fst snd].
      eexists (inl err), _, _. split_and!; [reflexivity | done |]. rewrite He0, Hr0. unfold contents. cbn. lia.
    + rewrite run_count. cbn [fst snd]. eexists (inr tt), _, _. split_and!; [reflexivity | done |]. rewrite Hp, Hr0. unfold contents. cbn. lia.
Qed.

Lemma balances_events e events w :
  reliable e → queued (contents w) (oe_ID <$> events) → balances e (counted_publish_events rs events) w [].
Proof.
  intros He. revert w. induction events as [| event events IH]; intros w Hq calls; cbn [counted_publish_events].
  { exists (inr tt), w, []. rewrite app_nil_r. split_and!; [done | intros _; exact Hq | done]. }
  destruct (balances_event e w event (fmap (M := list) oe_ID events) He Hq calls) as (res & w1 & new & Hrun & Hq1 & Hb).
  rewrite run_bind, Hrun. destruct res as [err | []]; [by exists (inl err), w1, new |].
  destruct (IH w1 (Hq1 eq_refl) (calls ++ new)%list) as (res & w2 & new2 & Hrun2 & Hq2 & Hb2).
  exists res, w2, (new ++ new2)%list. rewrite Hrun2, app_assoc. split_and!; [done | done |].
  rewrite !counter_app. lia.
Qed.

(** The batch that is listed waits. *)
Lemma list_queued e w res w' :
  env_ok e → db_wf (w_db w) → run (ListPendingOutbox 20) e w = (res, w') →
  w_db w' = w_db w ∧ ∀ events, res = inr events → queued (w_db w) (oe_ID <$> events).
Proof.
  intros He Hwf Hrun. pose proof (list_pending_spec 20 e w res w' He Hrun) as Hl. destruct res as [err | events].
  { split; [| done]. by destruct Hl as [? | (a & ? & _)]. }
  destruct Hl as (Hd & now & rows & -> & Hnd & Hf). split; [done |]. intros ? [= <-].
  rewrite <-list_fmap_compose. change (oe_ID ∘ _) with (λ p : string * outbox_row, p.1). split; [done |].
  intros o ([o' row] & -> & Hin)%list_elem_of_fmap. eapply first_by_elem in Hin; [| exact Hf].
  apply list_elem_of_filter in Hin as [[Hdisp _] Hin%elem_of_map_to_list]. cbn [fst snd] in *.
  split; [apply (wf_outbox _ Hwf _ _ Hin) | by exists row].
Qed.

(** The retries that are enqueued wait. *)
Lemma enqueue_run e w res w' :
  reliable e → env_ok e → db_wf (w_db w) → run (EnqueueDueTaskRetries 20) e w = (res, w') →
  db_wf (w_db w') ∧ match res with
                    | inl _ => waiting_count (w_db w') = waiting_count (w_db w)
                    | inr n => (0 ≤ n)%Z ∧ Z.of_nat (waiting_count (w_db w')) = (Z.of_nat (waiting_count (w_db w)) + n)%Z
                    end.
Proof.
  intros He Hok Hwf. unfold EnqueueDueTaskRetries. rewrite run_atomic, run_in_tx by done.
  destruct (enqueue_due_body 20 _ _ _ _) as [[err | [n d]] k] eqn:Hb; intros [= <- <-]; [done |]. cbn [w_db].
  split; [by eapply (enqueue_due_wf 20) |].
  destruct (enqueue_due_inv 20 _ _ _ _ _ _ _ Hok Hwf Hb) as (now & locked & items & _ & Hw & ->).
  rewrite (waiting_retries _ _ _ _ Hw). lia.
Qed.


End balance.
