(* ===== verification/HandlersSpec.v ===== *)
(** The handlers: what a run of one does to its idempotency record, and that
    the handlers of the worker program meet what the engine assumes of them. *)

From S2P Require Import Prelude GoString GoFloat GoTime GoJson GoError Proc Domain Db Pg Store.
From S2P Require Import Idempotency History Wf WfStore StoreSpec StoreSpec2 IdemSpec Progress Workflow.
From S2P Require Import Service Worker Handlers WorkerSpec Tokens World Queue Publisher Live LiveWorker.
From S2P Require Import LivePublisher System.

Open Scope string_scope.

(** * One run *)

Section effect.
Context `{PostgresLaws}.

(** The record of [(h, k)] is put or taken away, and nothing else changes. *)
Definition record_set (h k : string) (r : option idem_row) (d d' : db) : Prop :=
  d' = set_idempotency_records (partial_alter (λ _, r) (h, k) (idempotency_records d)) d.

Lemma run_release h k o r e w :
  reliable e → text_in h = inr h → text_in k = inr k → uuid_in o = inr o →
  idempotency_records (w_db w) !! (h, k) = Some r → ir_owner_task_instance_id r = Some o →
  ir_status r = IdempotencyStatusInProgress →
  let '(res, w') := run (ReleaseIdempotentTask h k o) e w in res = inr tt ∧ record_set h k None (w_db w) (w_db w').
Proof.
  intros He Hh Hk Ho Hr Hown Hst. unfold ReleaseIdempotentTask. rewrite run_atomic, run_autocommit by done.
  unfold release_record. rewrite Hh, Hk, Ho. cbn [rbind]. rewrite Hr, Hst, bool_decide_eq_true_2 by done. done.
Qed.

Lemma run_complete_bad h k o resp err e w :
  reliable e → text_in h = inr h → text_in k = inr k → uuid_in o = inr o →
  jsonb_in (normalizeJSON resp) = inl err →
  let '(res, w') := run (CompleteIdempotentTask h k o resp) e w in res = inl err ∧ w_db w' = w_db w.
Proof.
  intros He Hh Hk Ho Hj. unfold CompleteIdempotentTask. rewrite run_bind, run_atomic, run_autocommit by done.
  unfold complete_record. by rewrite Hh, Hk, Ho, Hj.
Qed.

(** What a run of a handler has done: a foreign reservation is left alone; a
    stored response is handed out; an input that is no JSON object, or a response
    that cannot be stored, is an error that leaves no record; and otherwise the
    response is stored, as JSONB reads it, and returned. *)
Definition handler_effect (key : string) (task : TaskInstance) (fields : Z → json → list (string * json))
    (d : db) (res : error + string) (d' : db) : Prop :=
  match begin_result (idempotency_records d !! (key, ti_IdempotencyKey task)) (ti_ID task) with
  | inl err => res = inl err ∧ d' = d
  | inr (response, true) => res = inr response ∧ d' = d
  | inr (_, false) =>
      (∃ err, res = inl err ∧ record_set key (ti_IdempotencyKey task) None d d') ∨
      (∃ input now row js, decode_input (if Nat.eqb (String.length (ti_InputJSON task)) 0 then "null"
                                         else ti_InputJSON task) = Some input ∧
         let response := of_bytes (encode (JObj (sort_members (fields now input)))) in
         res = inr response ∧ jsonb_in (normalizeJSON response) = inr js ∧
         ir_status row = IdempotencyStatusCompleted ∧ ir_response_json row = Some js ∧
         ir_owner_task_instance_id row = Some (ti_ID task) ∧
         record_set key (ti_IdempotencyKey task) (Some row) d d')
  end.

(** After the reservation: the record is the task's own, and in progress. *)
Lemma run_begin_own h k o e w :
  reliable e → text_in h = inr h → text_in k = inr k → uuid_in o = inr o → db_wf (w_db w) →
  is_Some (task_instances (w_db w) !! o) →
  begin_result (idempotency_records (w_db w) !! (h, k)) o = inr ("", false) →
  let '(res, w') := run (BeginIdempotentTask h k o) e w in
  res = inr ("", false) ∧ ∃ r, record_set h k (Some r) (w_db w) (w_db w') ∧
    ir_owner_task_instance_id r = Some o ∧ ir_status r = IdempotencyStatusInProgress.
Proof.
  intros He Hh Hk Ho Hwf Ht Hb. pose proof (run_begin h k o e w He Hh Hk Ho Ht) as Hrun. rewrite Hb in Hrun.
  destruct (run (BeginIdempotentTask h k o) e w) as [res w']. destruct Hrun as [-> Hd]. split; [done |].
  destruct (idempotency_records (w_db w) !! (h, k)) as [r |] eqn:Hr; cbn in Hd.
  - exists r. unfold begin_result in Hb. case_decide as Hc; [congruence |].
    case_decide as Hown; [| done]. split_and!; [| done |].
    + unfold record_set. rewrite Hd, <-Hr, partial_alter_self. by destruct (w_db w).
    + pose proof (io_status _ _ (wf_records _ Hwf _ _ Hr)) as Hs. set_solver.
  - eexists. split; [exact Hd | done].
Qed.

Lemma record_set_twice h k r1 r2 d d1 d2 :
  record_set h k r1 d d1 → record_set h k r2 d1 d2 → record_set h k r2 d d2.
Proof.
  unfold record_set. intros -> ->. unfold set_idempotency_records. cbn. f_equal.
  apply map_eq. intros i. rewrite !lookup_partial_alter. by repeat case_decide.
Qed.

Lemma record_set_lookup h k r d d' : record_set h k r d d' → idempotency_records d' !! (h, k) = r.
Proof. unfold record_set. intros ->. cbn. apply lookup_partial_alter_eq. Qed.

Lemma run_once_effect key task fields e w :
  reliable e → text_in key = inr key → text_in (ti_IdempotencyKey task) = inr (ti_IdempotencyKey task) →
  uuid_in (ti_ID task) = inr (ti_ID task) → db_wf (w_db w) → is_Some (task_instances (w_db w) !! ti_ID task) →
  let '(res, w') := run (run_once store_idempotency key task fields) e w in
  handler_effect key task fields (w_db w) res (w_db w').
Proof.
  intros He Hkey Hik Ho Hwf Ht. unfold run_once, handler_effect, store_idempotency. cbv zeta.
  cbn [is_Begin is_Complete is_Release]. rewrite run_bind.
  destruct (begin_result (idempotency_records (w_db w) !! (key, ti_IdempotencyKey task)) (ti_ID task))
    as [err | [resp []]] eqn:Hb.
  1, 2: pose proof (run_begin key (ti_IdempotencyKey task) (ti_ID task) e w He Hkey Hik Ho Ht) as Hrun;
    rewrite Hb in Hrun; destruct (run (BeginIdempotentTask _ _ _) e w) as [res w'];
    destruct Hrun as [-> Hd]; unfold begin_result in Hb;
    destruct (idempotency_records (w_db w) !! _); [done | done].
  assert (resp = "") as ->. { unfold begin_result in Hb. repeat case_match; simplify_eq; done. }
  pose proof (run_begin_own key (ti_IdempotencyKey task) (ti_ID task) e w He Hkey Hik Ho Hwf Ht Hb) as Hrun.
  destruct (run (BeginIdempotentTask _ _ _) e w) as [res1 w1]. destruct Hrun as [-> (r1 & Hset1 & Hown1 & Hst1)].
  pose proof (record_set_lookup _ _ _ _ _ Hset1) as Hl1. cbv iota beta.
  assert (Hrel : ∀ err w2, w_db w2 = w_db w1 →
    let '(res, w') := run (try (ReleaseIdempotentTask key (ti_IdempotencyKey task) (ti_ID task))
      (λ _, (fail err : proc dbw string))) e w2 in
    res = inl err ∧ record_set key (ti_IdempotencyKey task) None (w_db w) (w_db w')).
  { intros err w2 Hw2. rewrite run_try.
    pose proof (run_release key (ti_IdempotencyKey task) (ti_ID task) r1 e w2 He Hkey Hik Ho) as Hr.
    rewrite Hw2 in Hr. specialize (Hr Hl1 Hown1 Hst1). destruct (run (ReleaseIdempotentTask _ _ _) e w2) as [res3 w3].
    destruct Hr as [-> Hset3]. split; [done |]. eapply record_set_twice; [exact Hset1 | exact Hset3]. }
  assert (Hdec : (if Nat.eqb (String.length (ti_InputJSON task)) 0 then Some JNull else decode_input (ti_InputJSON task))
    = decode_input (if Nat.eqb (String.length (ti_InputJSON task)) 0 then "null" else ti_InputJSON task)) by by case_match.
  rewrite Hdec. clear Hdec. set (raw := if Nat.eqb _ 0 then "null" else _).
  destruct (decode_input raw) as [input |] eqn:Hin.
  2: { specialize (Hrel (ErrJson (ti_InputJSON task)) w1 eq_refl).
       destruct (run _ e w1) as [res w']. left. destruct Hrel as [-> ?]. eauto. }
  rewrite run_bind. cbn [time_Now dbw_Clock]. rewrite run_atomic. cbv zeta.
  rewrite run_try.
  set (response := of_bytes (encode (JObj (sort_members (fields (e_time e (w_tick w1)) input))))).
  destruct (jsonb_in (normalizeJSON response)) as [err | js] eqn:Hjs.
  - pose proof (run_complete_bad key (ti_IdempotencyKey task) (ti_ID task) response err e w1 He Hkey Hik Ho Hjs) as Hc.
    destruct (run (CompleteIdempotentTask _ _ _ _) e w1) as [res2 w2]. destruct Hc as [-> Hw2].
    specialize (Hrel err w2 Hw2). destruct (run _ e w2) as [res w']. left. destruct Hrel as [-> ?]. eauto.
  - pose proof (run_complete key (ti_IdempotencyKey task) (ti_ID task) response js r1 e w1 He Hkey Hik Ho Hjs Hl1 Hown1) as Hc.
    destruct (run (CompleteIdempotentTask _ _ _ _) e w1) as [res2 w2]. destruct Hc as [-> [now Hw2]].
    right. eexists input, (e_time e (w_tick w1)), _, js. split; [done |]. cbv zeta. fold response.
    split; [done |]. split; [done |]. split; [| split; [| split]]; [.. | eapply record_set_twice; [exact Hset1 | exact Hw2]].
    all: done.
Qed.


(** The side effect of a key happens once: after a run of a handler that
    returned a response without finding one, every later run for a task with the
    same idempotency key, from any state that still has the record, returns that
    response as JSONB stored it and writes nothing. *)
Theorem handler_replays task other e w res w1 e2 w2 :
  reliable e → reliable e2 → text_in (ti_IdempotencyKey task) = inr (ti_IdempotencyKey task) →
  uuid_in (ti_ID task) = inr (ti_ID task) → db_wf (w_db w) → is_Some (task_instances (w_db w) !! ti_ID task) →
  begin_result (idempotency_records (w_db w) !! (SampleEcho_Key, ti_IdempotencyKey task)) (ti_ID task)
    = inr ("", false) →
  run (SampleEcho_Handle (Some store_idempotency) task) e w = (inr res, w1) →
  idempotency_records (w_db w2) !! (SampleEcho_Key, ti_IdempotencyKey task) =
    idempotency_records (w_db w1) !! (SampleEcho_Key, ti_IdempotencyKey task) →
  ti_IdempotencyKey other = ti_IdempotencyKey task → uuid_in (ti_ID other) = inr (ti_ID other) →
  is_Some (task_instances (w_db w2) !! ti_ID other) → db_wf (w_db w2) →
  ∃ js, jsonb_in (normalizeJSON res) = inr js ∧
    let '(res2, w3) := run (SampleEcho_Handle (Some store_idempotency) other) e2 w2 in
    res2 = inr js ∧ w_db w3 = w_db w2.
Proof.
  intros He He2 Hik Ho Hwf Ht Hb Hrun Hrec Hother Hoo Ht2 Hwf2.
  assert (Hkey : text_in SampleEcho_Key = inr SampleEcho_Key) by by apply text_in_accepts.
  pose proof (run_once_effect SampleEcho_Key task (SampleEcho_fields task) e w He Hkey Hik Ho Hwf Ht) as Heff.
  change (run_once _ _ _ _) with (SampleEcho_Handle (Some store_idempotency) task) in Heff.
  rewrite Hrun in Heff. unfold handler_effect in Heff. rewrite Hb in Heff.
  destruct Heff as [(err & [=] & _) | (input & now & row & js & _ & [= Hres] & Hjs & Hst & Hresp & _ & Hset)].
  exists js. rewrite Hres. split; [done |].
  apply record_set_lookup in Hset. rewrite Hset in Hrec. rewrite <-Hother in Hik, Hrec.
  pose proof (run_once_effect SampleEcho_Key other (SampleEcho_fields other) e2 w2 He2 Hkey Hik Hoo Hwf2 Ht2) as Heff.
  change (run_once _ _ _ _) with (SampleEcho_Handle (Some store_idempotency) other) in Heff.
  destruct (run (SampleEcho_Handle (Some store_idempotency) other) e2 w2) as [res2 w3].
  unfold handler_effect in Heff. rewrite Hrec in Heff. cbn [begin_result] in Heff.
  rewrite decide_True, Hresp in Heff by done. exact Heff.
Qed.

(** * The engine with the handlers of the worker program *)

Definition world_idempotency `{Redis} : idempotencyStore world :=
  mkIdempotencyStore (λ h k o, on_db (BeginIdempotentTask h k o)) (λ h k o r, on_db (CompleteIdempotentTask h k o r))
    (λ h k o, on_db (ReleaseIdempotentTask h k o)).

(** The statements of the records touch nothing a task's life depends on. *)
Lemma record_stmt_sound {A} (s : stmt A) :
  (∀ e n now d a d', s e n now d = inr (a, d') → db_wf d → db_wf d') → stmt_rel evolves s →
  (∀ e n now d a d', s e n now d = inr (a, d') →
     outbox_events d' = outbox_events d ∧ task_instances d' = task_instances d) →
  soundly (atomic (autocommit s)).
Proof.
  intros Hwf Hev Hsame. apply stmt_sound. intros e n now d a d' He Hs Hd.
  destruct (Hsame _ _ _ _ _ _ Hs) as [Ho Ht]. split_and!; [by eapply Hwf | by eapply Hev | by apply carries_same].
Qed.

Lemma BeginIdempotentTask_sound h k o : soundly (BeginIdempotentTask h k o).
Proof.
  apply all_steps_bind.
  - apply record_stmt_sound; [intros *; apply reserve_record_wf | apply reserve_record_evolves |].
    intros * Hs. unfold reserve_record in Hs. inv_res. repeat case_bool_decide; inv_res; done.
  - intros []; [done |]. apply all_steps_bind; [apply query_sound |].
    + intros e n now d a d' Hs. unfold select_record in Hs. inv_res. repeat case_match; by inv_res.
    + intros row. by repeat case_match.
Qed.

Lemma CompleteIdempotentTask_sound h k o r : soundly (CompleteIdempotentTask h k o r).
Proof.
  apply all_steps_bind.
  - apply record_stmt_sound; [intros *; apply complete_record_wf | apply complete_record_evolves |].
    intros * Hs. unfold complete_record in Hs. inv_res. repeat case_match; by inv_res.
  - intros rows. by case_match.
Qed.

Lemma ReleaseIdempotentTask_sound h k o : soundly (ReleaseIdempotentTask h k o).
Proof.
  apply record_stmt_sound; [intros *; apply release_record_wf | apply release_record_evolves |].
  intros * Hs. unfold release_record in Hs. inv_res. repeat case_match; by inv_res.
Qed.

End effect.

Section engine.
Context `{ErrorTexts} `{PostgresLaws} `{RedisLaws}.

Lemma worker_registry_quiet : handlers_quiet (worker_registry world_idempotency).
Proof.
  intros key h task Hh. eapply worker_registry_steps; [.. | exact Hh]; intros; cbn [is_Begin is_Complete is_Release].
  - apply quiet_on_db, BeginIdempotentTask_sound.
  - apply quiet_on_db, CompleteIdempotentTask_sound.
  - apply quiet_on_db, ReleaseIdempotentTask_sound.
  - apply all_steps_single. intros e w r w' _ [= <- <-]. split; [done |]. intros Hwf. split; [done |].
    split; [done | apply carries_refl].
Qed.

End engine.
