(* ===== verification/Scenario.v ===== *)
(** Concrete runs of the engine: an executable Redis, schedules as lists of
    moves, a run in which a worker crashes, and a run in which a message is
    reclaimed from a worker that is slow but alive. *)

From S2P Require Import Prelude GoString GoFloat GoJson GoError Proc Domain Db Pg Store Idempotency History Wf.
From S2P Require Import WfStore StoreSpec StoreSpec2 Workflow Service Worker Tokens World Queue Publisher.
From S2P Require Import Live LiveWorker LivePublisher System.

Open Scope string_scope.

(** * A concrete Redis *)

Module Streams.

(** Entries by stream, when each was last delivered to a consumer of a group, and
    what each group has acknowledged.  The clock counts the commands, one a minute. *)
Record server : Type := mk_server {
  entries : gmap string (gmap string (gmap string redis_value));
  groups : gset (string * string);
  delivered : gmap (string * string * string) nat;
  acked : gset (string * string * string);
  next_id : nat;
  clock : nat;
}.

Definition stream_of (s : server) (st : string) : gmap string (gmap string redis_value) :=
  default ∅ (entries s !! st).

Definition pending (s : server) (st g : string) : gmap string (gmap string redis_value) :=
  filter (λ p, (st, g, p.1) ∉ acked s) (stream_of s st).

(** The entries of the group that satisfy [P], and up to [count] of them. *)
Definition entries_of (s : server) (st g : string) (P : string → bool) : list XMessage :=
  filter (λ m, P (xm_ID m) = true) ((λ p, mkXMessage p.1 p.2) <$> map_to_list (pending s st g)).
Definition pick (s : server) (st g : string) (P : string → bool) (count : Z) : list XMessage :=
  take (Z.to_nat count) (entries_of s st g P).

(** A command that delivers the messages [l]. *)
Definition mark (s : server) (st g : string) (l : list XMessage) : server :=
  mk_server (entries s) (groups s) (list_to_map ((λ m, ((st, g, xm_ID m), clock s)) <$> l) ∪ delivered s) (acked s)
    (next_id s) (S (clock s)).

(** Not delivered yet; and delivered, and idle for [idle] nanoseconds. *)
Definition is_new (s : server) (st g i : string) : bool := bool_decide (delivered s !! (st, g, i) = None).
Definition is_idle (s : server) (st g : string) (idle : Z) (i : string) : bool :=
  match delivered s !! (st, g, i) with
  | Some t => Z.leb idle ((Z.of_nat (clock s) - Z.of_nat t) * 60000000000)
  | None => false
  end.

(** The id of the next entry; an id that is in use is refused. *)
Definition entry_id (n : nat) : string := Itoa (Z.of_nat n) +:+ "-0".

Definition id_free (s : server) (st i : string) : bool :=
  (bool_decide (stream_of s st !! i = None) &&
   forallb (λ x, negb (String.eqb x.1.1 st && String.eqb x.2 i)) (elements (acked s)))%bool.

#[export] Instance redis : Redis := {|
  redis_state := server;
  XGroupCreateMkStream st g start s :=
    if decide ((st, g) ∈ groups s) then inl (ErrNew "BUSYGROUP Consumer Group name already exists")
    else inr (tt, mk_server (entries s) ({[(st, g)]} ∪ groups s) (delivered s) (acked s) (next_id s) (S (clock s)));
  XAdd st values s :=
    let i := entry_id (next_id s) in
    if id_free s st i then
      inr (i, mk_server (<[st := <[i := values]> (stream_of s st)]> (entries s)) (groups s) (delivered s)
                (acked s) (S (next_id s)) (S (clock s)))
    else inl (ErrNew "ERR The ID specified in XADD is equal or smaller than the target stream top item");
  XReadGroup g consumer st count block s :=
    match pick s st g (is_new s st g) count with
    | [] => inl ErrRedisNil
    | l => inr (l, mark s st g l)
    end;
  XAutoClaim g consumer st idle count s :=
    let l := pick s st g (is_idle s st g idle) count in inr (l, mark s st g l);
  XAck st g i s :=
    match stream_of s st !! i with
    | Some _ =>
        inr (1%Z, mk_server (entries s) (groups s) (delivered s) ({[(st, g, i)]} ∪ acked s) (next_id s) (S (clock s)))
    | None => inr (0%Z, s)
    end;
|}.

Lemma pick_pending s st g P count m : m ∈ pick s st g P count → pending s st g !! xm_ID m = Some (xm_Values m).
Proof.
  unfold pick, entries_of. intros Hm. apply elem_of_take in Hm as (k & Hk & _).
  apply list_elem_of_lookup_2, list_elem_of_filter in Hk as [_ ([i v] & -> & Hm)%list_elem_of_fmap].
  by apply elem_of_map_to_list in Hm.
Qed.

Lemma id_free_spec s st i g : id_free s st i = true → stream_of s st !! i = None ∧ (st, g, i) ∉ acked s.
Proof.
  intros [H1%bool_decide_eq_true H2]%andb_true_iff. split; [done |]. intros Hin%elem_of_elements.
  rewrite forallb_forall in H2. specialize (H2 _ (proj1 (list_elem_of_In _ _) Hin)). cbn in H2.
  by rewrite !String.eqb_refl in H2.
Qed.

Lemma stream_insert st m E G D A n c : stream_of (mk_server (<[st := m]> E) G D A n c) st = m.
Proof. unfold stream_of. cbn. by rewrite lookup_insert_eq. Qed.

#[export] Instance redis_laws : RedisLaws.
Proof.
  refine {| unacked := pending |}.
  - intros st g s u s' st' g'. cbn. case_decide; [done |]. by intros [= <- <-].
  - intros st values s i s' g. cbn. destruct (id_free s st _) eqn:Hf; [| done]. intros [= <- <-].
    destruct (id_free_spec _ _ _ g Hf) as [Hn Ha]. split.
    + apply map_lookup_filter_None. by left.
    + unfold pending. rewrite stream_insert. by rewrite map_filter_insert_True.
  - intros st values s i s' st' g. cbn. destruct (id_free s st _); [| done]. intros [= <- <-] Hne.
    unfold pending, stream_of. cbn. by rewrite lookup_insert_ne.
  - intros g c st count block s l s'. cbn. destruct (pick _ _ _ _ _) as [| m ms] eqn:Hp; [done |].
    intros [= <- <-]. split; [| done]. intros m'. rewrite <-Hp. apply pick_pending.
  - intros g c st idle count s l s'. cbn. intros [= <- <-]. split; [| done]. intros m'. apply pick_pending.
  - intros st g i s k s'. cbn. destruct (stream_of s st !! i) eqn:Hi; intros [= <- <-].
    + unfold pending. cbn. change (stream_of _ st) with (stream_of s st). apply map_eq. intros j.
      destruct (decide (j = i)) as [-> | Hne].
      * rewrite lookup_delete_eq. apply map_lookup_filter_None. right. intros v _ Hv. set_solver.
      * rewrite lookup_delete_ne by done. apply option_eq. intros v. rewrite !map_lookup_filter_Some. set_solver.
    + rewrite delete_id; [done |]. apply map_lookup_filter_None. by left.
  - intros st g i s k s' st' g'. cbn. destruct (stream_of s st !! i); intros [= <- <-] Hne; [| done].
    unfold pending. cbn. change (stream_of _ st') with (stream_of s st'). apply map_eq. intros j.
    apply option_eq. intros v. rewrite !map_lookup_filter_Some. set_solver.
Defined.

Definition no_entries : server := mk_server ∅ ∅ ∅ ∅ 0 0.

End Streams.

Import Demo Streams.

(** * Schedules *)

Section schedule.
Context (rs : RedisStreams) (registry : Registry world).

(** A move of the system; [Run i n] lets agent [i] take [n] steps. *)
Inductive move : Type :=
| DoRequest (req : api_request)
| DoPublish
| DoRead (consumer : string)
| DoClaim (consumer : string)
| Run (i n : nat)
| Stop (i : nat).

Definition agent_next (e : env) (w : world) (a : agent) : option (world * agent) :=
  match a with
  | Request (Atomic m k) => let '(r, w') := m e w in Some (w', Request (k r))
  | Work msg (Atomic m k) q => let '(r, w') := m e w in Some (w', Work msg (k r) q)
  | Work msg (Ret (inr tt)) (msg' :: q) => Some (w, Work msg' (work_on rs registry msg') q)
  | _ => None
  end.

(** Up to [n] steps. *)
Fixpoint agent_run (n : nat) (e : env) (w : world) (a : agent) : world * agent :=
  match n with
  | O => (w, a)
  | S n' => match agent_next e w a with Some (w', a') => agent_run n' e w' a' | None => (w, a) end
  end.

Definition unclaimed_b (ags : list agent) (msgs : list XMessage) : bool :=
  (bool_decide (NoDup (xm_ID <$> msgs)) &&
   forallb (λ m, forallb (λ a, forallb (λ m', negb (String.eqb (xm_ID m) (xm_ID m'))) (agent_messages a)) ags) msgs)%bool.

Definition ask (exclusive : bool) (c : redis_state → error + (list XMessage * redis_state))
    (s : world * list agent) : option (world * list agent) :=
  match redis_call c calm s.1 with
  | (inr (m :: msgs), w') =>
      if (negb exclusive || unclaimed_b s.2 (m :: msgs))%bool
      then Some (w', Work m (work_on rs registry m) msgs :: s.2) else None
  | (_, w') => Some (w', s.2)
  end.

Definition do_move (exclusive : bool) (mv : move) (s : world * list agent) : option (world * list agent) :=
  match mv with
  | DoRequest req => Some (s.1, Request (on_db (api_proc req)) :: s.2)
  | DoPublish => Some (s.1, Request (publishOnce rs) :: s.2)
  | DoRead c => ask exclusive (XReadGroup (rs_group rs) c (rs_stream rs) 1 5000000000) s
  | DoClaim c => ask exclusive (XAutoClaim (rs_group rs) c (rs_stream rs) 30000000000 10) s
  | Run i n =>
      match s.2 !! i with
      | Some a => let '(w', a') := agent_run n calm s.1 a in Some (w', take i s.2 ++ a' :: drop (S i) s.2)%list
      | None => None
      end
  | Stop i => match s.2 !! i with Some _ => Some (s.1, take i s.2 ++ drop (S i) s.2)%list | None => None end
  end.

Fixpoint do_moves (exclusive : bool) (l : list move) (s : world * list agent) : option (world * list agent) :=
  match l with
  | [] => Some s
  | mv :: l' => match do_move exclusive mv s with Some s' => do_moves exclusive l' s' | None => None end
  end.

(** ** A schedule that can be played is a run of the system *)

Lemma agent_next_step w a w' a' : agent_next calm w a = Some (w', a') → agent_step rs registry w a w' a'.
Proof.
  destruct a as [[r | T m k] | msg [[err | []] | T m k] [| msg' q]]; cbn; try done;
    try (destruct (m calm w) as [r w1] eqn:Em; intros [= <- <-]; econstructor; [apply calm_ok | exact Em]).
  intros [= <- <-]. constructor.
Qed.

Lemma agent_run_steps b n w a ags1 ags2 w' a' :
  agent_run n calm w a = (w', a') →
  rtc (sys_step rs registry b) (w, ags1 ++ a :: ags2)%list (w', ags1 ++ a' :: ags2)%list.
Proof.
  revert w a. induction n as [| n IH]; intros w a; cbn; [by intros [= <- <-] |].
  destruct (agent_next calm w a) as [[w1 a1] |] eqn:E; [| by intros [= <- <-]].
  intros Hr. eapply rtc_l; [| by apply IH]. by apply sys_run, agent_next_step.
Qed.

Lemma unclaimed_b_spec ags msgs : unclaimed_b ags msgs = true → unclaimed ags msgs.
Proof.
  intros [H1%bool_decide_eq_true H2]%andb_true_iff. split; [done |]. intros m a m' Hm Ha Hm' Heq.
  rewrite forallb_forall in H2. specialize (H2 _ (proj1 (list_elem_of_In _ _) Hm)).
  rewrite forallb_forall in H2. specialize (H2 _ (proj1 (list_elem_of_In _ _) Ha)).
  rewrite forallb_forall in H2. specialize (H2 _ (proj1 (list_elem_of_In _ _) Hm')).
  by rewrite Heq, String.eqb_refl in H2.
Qed.

Lemma ask_steps b c s s' : asks rs c → ask b c s = Some s' → rtc (sys_step rs registry b) s s'.
Proof.
  intros Hc. destruct s as [w ags]. unfold ask. cbn [fst snd].
  destruct (redis_call c calm w) as [[err | [| m msgs]] w'] eqn:E.
  1,2: intros Hs; injection Hs as <-; apply rtc_once; by eapply sys_nothing; [apply calm_ok | |].
  destruct (negb b || _)%bool eqn:Hu; [| done]. intros Hs; injection Hs as <-. apply rtc_once.
  eapply sys_deliver; [apply calm_ok | done | done |]. intros ->. by apply unclaimed_b_spec.
Qed.

Lemma do_move_steps b mv s s' : do_move b mv s = Some s' → rtc (sys_step rs registry b) s s'.
Proof.
  destruct s as [w ags]. destruct mv as [req | | c | c | i n | i]; cbn [do_move fst snd].
  - intros [= <-]. apply rtc_once. constructor.
  - intros [= <-]. apply rtc_once. constructor.
  - apply ask_steps. constructor.
  - apply ask_steps. constructor.
  - destruct (ags !! i) as [a |] eqn:Ha; [| done]. destruct (agent_run n calm w a) as [w' a'] eqn:Hr.
    intros [= <-]. rewrite <-(take_drop_middle _ _ _ Ha) at 1. by apply (agent_run_steps b n).
  - destruct (ags !! i) as [a |] eqn:Ha; [| done]. intros [= <-]. apply rtc_once.
    rewrite <-(take_drop_middle _ _ _ Ha) at 1. constructor.
Qed.

Lemma do_moves_steps b l s s' : do_moves b l s = Some s' → rtc (sys_step rs registry b) s s'.
Proof.
  revert s. induction l as [| mv l IH]; intros s; cbn; [by intros [= <-] |].
  destruct (do_move b mv s) as [s1 |] eqn:E; [| done]. intros Hs. etrans; [by apply (do_move_steps b mv) | auto].
Qed.

End schedule.

(** * Two runs *)

Definition streams : RedisStreams := mkRedisStreams "tasks" "workers".

(** The downstream service of the handler is down. *)
Definition failing : Registry world :=
  NewRegistry [mkHandler "sample.echo" (λ _, fail (ErrNew "downstream is down"))].

Lemma failing_quiet : handlers_quiet failing.
Proof.
  intros key h task Hh%NewRegistry_in. apply list_elem_of_singleton in Hh as ->. done.
Qed.

Definition retrying_definition : string := json_text
  "{'entry_task':'a','tasks':[{'name':'a','handler_key':'sample.echo','max_attempts':3,'backoff_seconds':5}]}".

Definition nothing_yet : world := mk_world (mk_dbw empty_db 0) no_entries.

(** A definition is created, an execution triggered, its first task dispatched,
    and worker A reads the message. *)
Definition started : list move :=
  [DoRequest (ReqCreateDefinition (mkCreateRequest "orders" "" retrying_definition)); Run 0 9; Stop 0;
   DoRequest (ReqTrigger (mkTriggerRequest (uuid 0) "{}")); Run 0 9; Stop 0;
   DoPublish; Run 0 9; Stop 0; DoRead "A"].

(** Worker A crashes inside the handler, worker B claims the message, starts
    the second attempt and crashes as well. *)
Definition crashes : list move := (started ++ [Run 0 4; Stop 0; DoClaim "B"; Run 0 4; Stop 0])%list.

(** Worker A is slow: B claims its message while A is still alive, and reads
    the definition; A's handler fails and A schedules the retry; B starts its
    attempt; A acknowledges the message; then both stop. *)
Definition reclaimed_alive : list move :=
  (started ++ [Run 0 4; DoClaim "B"; Run 0 3; Run 1 2; Run 0 1; Run 1 1; Stop 0; Stop 0])%list.

Definition nobody : world * list agent := (nothing_yet, []).

Definition played (registry : Registry world) (b : bool) (l : list move) : world :=
  match do_moves streams registry b l nobody with Some (w, _) => w | None => nothing_yet end.

(** The schedule can be played, and nobody is left running at its end. *)
Definition plays_out (registry : Registry world) (b : bool) (l : list move) : bool :=
  match do_moves streams registry b l nobody with Some (_, []) => true | _ => false end.

Lemma played_run registry b l :
  plays_out registry b l = true → rtc (sys_step streams registry b) nobody (played registry b l, []).
Proof.
  unfold plays_out, played. destruct (do_moves _ _ _ _ _) as [[w [| a ags]] |] eqn:E; try done.
  intros _. by apply (do_moves_steps streams registry b l).
Qed.

(** After both crashes the task is running, with two attempts, and its message
    is still there for a third worker. *)
Example crashes_result :
  (λ r, (tr_status r, tr_attempts_total r)) <$> (task_instances (contents (played failing true crashes)) !! uuid 4)
  = Some (TaskStatusRunning, 2%Z).
Proof. vm_compute. reflexivity. Qed.


(** C38: the assumption of [no_task_lost] that a message is redelivered only
    once its worker has stopped is needed, and the code does not ensure it: the claim is by
    idle time alone.  There is a run, from the empty database, in which a message
    is claimed from a worker that is slow but alive, and which ends with a task
    that is running, has no retry time, no outbox event left to dispatch and no
    unacknowledged message: nothing will ever run it again. *)
Theorem reclaiming_from_live_worker_loses_task :
  ∃ w t r, rtc (sys_step streams failing false) nobody (w, []) ∧
    task_instances (contents w) !! t = Some r ∧ tr_status r = TaskStatusRunning ∧ ¬ scheduled r ∧
    (∀ o row, outbox_events (contents w) !! o = Some row → ¬ waiting t row) ∧ messages streams w = ∅.
Proof.
  eexists (played failing false reclaimed_alive), (uuid 4), _. split; [by apply played_run; vm_compute |].
  split; [vm_compute; reflexivity |]. split; [done |]. split; [by vm_compute; intros [? ?] |].
  split; [| vm_compute; reflexivity].
  assert (Hall : map_Forall (λ _ row, or_dispatched_at row ≠ None) (outbox_events (contents (played failing false reclaimed_alive))))
    by (apply (bool_decide_unpack _); vm_compute; reflexivity).
  intros o row Ho [_ Hd]. by apply (Hall o row Ho).
Qed.
