(* ===== verification/RecoveryExamples.v ===== *)
(** A Redis that answers, and a task that two workers have dropped, delivered to
    a third. *)

From S2P Require Import Prelude GoString GoFloat GoJson GoError Proc Domain Db Pg Store Idempotency History Wf.
From S2P Require Import WfStore StoreSpec StoreSpec2 Progress Workflow Service Worker BenchSpec Tokens World Queue.
From S2P Require Import Publisher Live LiveWorker LivePublisher System Recovery Scenario.

Open Scope string_scope.

Import Demo Streams.

(** * The Redis of the scenarios is live *)

(** Every id in use was given by an earlier XADD, and every delivery is in the past. *)
Record numbered (s : server) : Prop := {
  nu_entries st i : is_Some (stream_of s st !! i) → ∃ j, (j < next_id s)%nat ∧ i = entry_id j;
  nu_acked x : x ∈ acked s → ∃ j, (j < next_id s)%nat ∧ x.2 = entry_id j;
  nu_delivered x t : delivered s !! x = Some t → (t < clock s)%nat;
}.

Lemma entry_id_inj i j : entry_id i = entry_id j → i = j.
Proof.
  unfold entry_id. intros He%(f_equal to_bytes). rewrite !to_bytes_app in He. apply (inj (.++ _)) in He.
  apply (f_equal of_bytes) in He. rewrite !of_to_bytes in He. apply Itoa_inj in He; lia.
Qed.

Lemma numbered_free s st : numbered s → id_free s st (entry_id (next_id s)) = true.
Proof.
  intros [He Ha _]. unfold id_free. apply andb_true_iff. split.
  - apply bool_decide_eq_true, eq_None_not_Some. intros (j & Hj & Heq)%He. apply entry_id_inj in Heq. lia.
  - apply forallb_forall. intros x Hx%list_elem_of_In%elem_of_elements. destruct (Ha x Hx) as (j & Hj & ->).
    destruct (String.eqb_spec (entry_id j) (entry_id (next_id s))) as [Heq%entry_id_inj | _]; [lia |].
    by rewrite andb_false_r.
Qed.

Lemma numbered_add s st values : numbered s →
  numbered (mk_server (<[st := <[entry_id (next_id s) := values]> (stream_of s st)]> (entries s)) (groups s)
              (delivered s) (acked s) (S (next_id s)) (S (clock s))).
Proof.
  intros [He Ha Hd]. split; cbn [next_id acked delivered clock].
  - intros st' i Hi. destruct (decide (st' = st ∧ i = entry_id (next_id s))) as [[-> ->] | Hne].
    { exists (next_id s). split; [lia | done]. }
    destruct (He st' i) as (j & Hj & ->); [| exists j; split; [lia | done]].
    unfold stream_of in Hi. cbn [entries] in Hi. destruct (decide (st' = st)) as [-> | Hst].
    + rewrite lookup_insert_eq in Hi. cbn in Hi. rewrite lookup_insert_ne in Hi by naive_solver. exact Hi.
    + by rewrite lookup_insert_ne in Hi.
  - intros x Hx. destruct (Ha x Hx) as (j & Hj & ->). exists j. split; [lia | done].
  - intros x t Hx%Hd. lia.
Qed.

Lemma numbered_ack s st g i k s' : numbered s → XAck st g i s = inr (k, s') → numbered s'.
Proof.
  intros Hs. pose proof Hs as [He Ha Hd]. cbn. destruct (stream_of s st !! i) as [v |] eqn:Hi; intros [= _ <-]; [| done].
  split; cbn [next_id acked delivered clock].
  - intros st' j. apply He.
  - intros x [->%elem_of_singleton | Hx]%elem_of_union; [exact (He st i (mk_is_Some _ _ Hi)) | by apply Ha].
  - intros x t Hx%Hd. lia.
Qed.

(** ** Deliveries *)

Lemma mark_lookup s st g l i t : delivered (mark s st g l) !! (st, g, i) = Some t →
  (i ∈ xm_ID <$> l ∧ t = clock s) ∨ (i ∉ xm_ID <$> l ∧ delivered s !! (st, g, i) = Some t).
Proof.
  cbn. set (m := list_to_map _). intros [Hm | [Hm Ht]]%lookup_union_Some_raw.
  - left. apply elem_of_list_to_map_2, list_elem_of_fmap in Hm as (x & [= -> ->] & Hx).
    split; [by apply (list_elem_of_fmap_2' xm_ID _ x) | done].
  - right. split; [| done]. intros (x & -> & Hx)%list_elem_of_fmap.
    apply not_elem_of_list_to_map_2 in Hm. apply Hm. rewrite <-list_fmap_compose.
    by apply (list_elem_of_fmap_2' _ _ x).
Qed.

Lemma mark_delivered s st g l i : i ∈ xm_ID <$> l → delivered (mark s st g l) !! (st, g, i) = Some (clock s).
Proof.
  intros Hi. destruct (delivered (mark s st g l) !! (st, g, i)) as [t |] eqn:Ht.
  - apply mark_lookup in Ht as [[_ ->] | [? _]]; done.
  - exfalso. cbn in Ht. apply lookup_union_None in Ht as [Ht _].
    apply not_elem_of_list_to_map_2 in Ht. apply Ht. rewrite <-list_fmap_compose.
    apply list_elem_of_fmap in Hi as (x & -> & Hx). by apply (list_elem_of_fmap_2' _ _ x).
Qed.

Lemma mark_other s st g l i : i ∉ xm_ID <$> l → delivered (mark s st g l) !! (st, g, i) = delivered s !! (st, g, i).
Proof.
  intros Hi. cbn. rewrite lookup_union_r; [done |]. apply not_elem_of_list_to_map_1.
  rewrite <-list_fmap_compose. intros (x & [= ->] & Hx)%list_elem_of_fmap. by apply Hi, (list_elem_of_fmap_2' xm_ID _ x).
Qed.

Lemma numbered_mark s st g l : numbered s → numbered (mark s st g l).
Proof.
  intros [He Ha Hd]. split; [exact He | exact Ha |]. cbn. intros x t [Hx | [_ Hx%Hd]]%lookup_union_Some_raw; [| lia].
  apply elem_of_list_to_map_2, list_elem_of_fmap in Hx as (m & [= -> ->] & _). lia.
Qed.

Lemma entries_NoDup s st g P : NoDup (xm_ID <$> entries_of s st g P).
Proof.
  unfold entries_of. eapply list.sublist_NoDup; [| apply fmap_sublist, sublist_filter].
  rewrite <-list_fmap_compose. apply NoDup_fst_map_to_list.
Qed.

Lemma pick_NoDup s st g P count : NoDup (xm_ID <$> pick s st g P count).
Proof. unfold pick. rewrite fmap_take. eapply list.sublist_NoDup; [apply entries_NoDup | apply sublist_take]. Qed.

Lemma pick_all s st g P l : l = entries_of s st g P → pick s st g P (Z.of_nat (length l)) = l.
Proof. intros ->. unfold pick. by rewrite Nat2Z.id, firstn_all. Qed.

(** Once the entries before it are taken out, an entry is the first. *)
Lemma entries_after s s' st g P P' A x B :
  entries_of s st g P = (A ++ x :: B)%list → pending s' st g = pending s st g →
  (∀ m, m ∈ (A ++ x :: B)%list → P' (xm_ID m) = true ↔ xm_ID m ∉ xm_ID <$> A) →
  (∀ i, P i = false → P' i = false) →
  entries_of s' st g P' = x :: B.
Proof.
  intros HP Hpend Hin Hout. pose proof (entries_NoDup s st g P) as Hnd.
  assert (entries_of s' st g P' = filter (λ m, P' (xm_ID m) = true) (entries_of s st g P)) as ->.
  { unfold entries_of. rewrite Hpend, list_filter_filter. apply list_filter_iff. intros m.
    specialize (Hout (xm_ID m)). destruct (P (xm_ID m)), (P' (xm_ID m)); naive_solver. }
  rewrite HP in Hnd |- *. rewrite fmap_app in Hnd. apply list.NoDup_app in Hnd as (_ & Hdis & _). rewrite list.filter_app.
  assert (filter (λ m, P' (xm_ID m) = true) A = []) as ->.
  { apply filter_none. intros m Hm HP'. apply Hin in HP'; [| set_solver].
    by apply HP', (list_elem_of_fmap_2' xm_ID _ m). }
  cbn [app]. apply filter_all. intros m Hm. apply Hin; [set_solver |]. intros HA.
  apply (Hdis _ HA). by apply (list_elem_of_fmap_2' xm_ID _ m).
Qed.

(** The entries before it are taken, and then the entry itself. *)
Lemma entry_first s st g P i v : numbered s → pending s st g !! i = Some v → P i = true →
  ∃ A B, entries_of s st g P = (A ++ mkXMessage i v :: B)%list ∧ numbered (mark s st g A).
Proof.
  intros Hs Hi HP. assert (Hin : mkXMessage i v ∈ entries_of s st g P).
  { apply list_elem_of_filter. split; [done |]. apply list_elem_of_fmap. exists (i, v). by rewrite elem_of_map_to_list. }
  apply list_elem_of_split in Hin as (A & B & ->). exists A, B. split; [done | by apply numbered_mark].
Qed.

Lemma read_hands_out s k l : l = pick s "tasks" "workers" (is_new s "tasks" "workers") k → l ≠ [] →
  hands_out Scenario.streams s l (mark s "tasks" "workers" l).
Proof.
  intros Hl Hne. exists (XReadGroup "workers" "c" "tasks" k 0%Z). split; [apply (asks_read Scenario.streams) |].
  split; [| rewrite Hl; apply pick_NoDup]. cbn. rewrite <-Hl. by destruct l.
Qed.

Lemma claim_hands_out s idle k l : l = pick s "tasks" "workers" (is_idle s "tasks" "workers" idle) k →
  hands_out Scenario.streams s l (mark s "tasks" "workers" l).
Proof.
  intros Hl. exists (XAutoClaim "workers" "c" "tasks" idle k). split; [apply (asks_claim Scenario.streams) |].
  split; [| rewrite Hl; apply pick_NoDup]. cbn. by rewrite <-Hl.
Qed.

(** The first of a list. *)
Lemma pick_app s st g P A B : entries_of s st g P = (A ++ B)%list → pick s st g P (Z.of_nat (length A)) = A.
Proof. intros HP. unfold pick. by rewrite HP, Nat2Z.id, take_app_length. Qed.

Lemma new_delivered s i v : numbered s → pending s "tasks" "workers" !! i = Some v → is_new s "tasks" "workers" i = true →
  ∃ s1 q s', rtc (λ x y, ∃ l, hands_out Scenario.streams x l y) s s1 ∧
    hands_out Scenario.streams s1 (mkXMessage i v :: q) s' ∧ numbered s'.
Proof.
  intros Hs Hi Hnew. destruct (entry_first s _ _ _ _ _ Hs Hi Hnew) as (A & B & HP & Hs1).
  destruct (decide (A = [])) as [-> | HA].
  - exists s, B, (mark s "tasks" "workers" (mkXMessage i v :: B)). split; [done |]. split; [| by apply numbered_mark].
    eapply read_hands_out; [| done]. symmetry. by apply pick_all.
  - set (s1 := mark s "tasks" "workers" A) in *. exists s1, B, (mark s1 "tasks" "workers" (mkXMessage i v :: B)).
    split; [| split; [| by apply numbered_mark]].
    + apply rtc_once. exists A. eapply read_hands_out; [| done]. symmetry. by eapply pick_app.
    + eapply read_hands_out; [| done]. symmetry. apply pick_all. symmetry.
      eapply entries_after; [exact HP | done | |].
      * intros m Hm. rewrite <-HP in Hm. apply list_elem_of_filter in Hm as [Hm _]. unfold is_new in *.
        rewrite bool_decide_eq_true. apply bool_decide_eq_true in Hm. split.
        -- intros Hn HinA. unfold s1 in Hn. by rewrite (mark_delivered s _ _ A _ HinA) in Hn.
        -- intros HnA. unfold s1. by rewrite mark_other.
      * intros j Hj. unfold is_new in *. apply bool_decide_eq_false in Hj. apply bool_decide_eq_false.
        unfold s1. destruct (decide (j ∈ xm_ID <$> A)) as [HA' | HA']; [by rewrite mark_delivered | by rewrite mark_other].
Qed.

Lemma idle_delivered s i v : numbered s → pending s "tasks" "workers" !! i = Some v → is_new s "tasks" "workers" i = false →
  ∃ s1 q s', rtc (λ x y, ∃ l, hands_out Scenario.streams x l y) s s1 ∧
    hands_out Scenario.streams s1 (mkXMessage i v :: q) s' ∧ numbered s'.
Proof.
  intros Hs Hi Hold. set (wait := 60000000000%Z).
  assert (Hidle : ∀ j, is_idle s "tasks" "workers" wait j = negb (is_new s "tasks" "workers" j)).
  { intros j. unfold is_idle, is_new. destruct (delivered s !! _) as [t |] eqn:Ht; [| done].
    rewrite (bool_decide_eq_false_2 (Some t = None)) by done. apply Z.leb_le.
    pose proof (nu_delivered s Hs _ _ Ht). unfold wait. lia. }
  destruct (entry_first s "tasks" "workers" (is_idle s "tasks" "workers" wait) i v Hs Hi) as (A & B & HP & Hs1);
    [by rewrite Hidle, Hold |].
  set (s1 := mark s "tasks" "workers" A) in *. exists s1, B, (mark s1 "tasks" "workers" (mkXMessage i v :: B)).
  split; [| split; [| by apply numbered_mark]].
  - apply rtc_once. exists A. eapply (claim_hands_out s wait). symmetry. by eapply pick_app.
  - eapply (claim_hands_out s1 (2 * wait)). symmetry. apply pick_all. symmetry.
    assert (Hlater : ∀ j, is_idle s1 "tasks" "workers" (2 * wait) j = true ↔
      is_idle s "tasks" "workers" wait j = true ∧ j ∉ xm_ID <$> A).
    { intros j. unfold is_idle. destruct (decide (j ∈ xm_ID <$> A)) as [HA | HA].
      - unfold s1. rewrite mark_delivered by done. cbn [clock mark]. rewrite Z.leb_le. split; [unfold wait; lia | tauto].
      - unfold s1. rewrite mark_other by done. cbn [clock mark]. destruct (delivered s !! _); [| naive_solver].
        rewrite !Z.leb_le. split; [split; [unfold wait in *; lia | done] | unfold wait; intros [? _]; lia]. }
    eapply entries_after; [exact HP | done | |].
    + intros m Hm. rewrite <-HP in Hm. apply list_elem_of_filter in Hm as [Hm _]. rewrite Hlater. tauto.
    + intros j Hj. apply not_true_is_false. rewrite Hlater, Hj. by intros [? _].
Qed.

#[export] Instance streams_live : RedisLive Scenario.streams.
Proof.
  refine {| live := numbered |}.
  - intros values s Hs. cbn. rewrite numbered_free by done. eexists _, _. split; [done |]. by apply numbered_add.
  - intros i s Hs. destruct (XAck (rs_stream Scenario.streams) (rs_group Scenario.streams) i s) as [err | [k s']] eqn:Ha.
    + cbn in Ha. by destruct (stream_of s "tasks" !! i).
    + exists k, s'. split; [done | by eapply numbered_ack].
  - intros s i v Hs Hi. destruct (is_new s "tasks" "workers" i) eqn:Hn; [by apply new_delivered | by apply idle_delivered].
Defined.

(** * A task dropped twice *)

(** The streams of a run, checked by computation. *)
Definition numbered_b (s : server) : bool :=
  (forallb (λ p, forallb (λ q, existsb (λ j, String.eqb q.1 (entry_id j)) (seq 0 (next_id s))) (map_to_list p.2))
     (map_to_list (entries s)) &&
   forallb (λ x, existsb (λ j, String.eqb x.2 (entry_id j)) (seq 0 (next_id s))) (elements (acked s)) &&
   bool_decide (map_Forall (λ _ t, (t < clock s)%nat) (delivered s)))%bool.

Lemma numbered_b_spec s : numbered_b s = true → numbered s.
Proof.
  assert (Hid : ∀ i, existsb (λ j, String.eqb i (entry_id j)) (seq 0 (next_id s)) = true →
    ∃ j, (j < next_id s)%nat ∧ i = entry_id j).
  { intros i (j & Hj & Heq)%existsb_exists. apply in_seq in Hj. apply String.eqb_eq in Heq. exists j. split; [lia | done]. }
  intros [[He Ha]%andb_true_iff Hd%bool_decide_eq_true]%andb_true_iff. rewrite forallb_forall in He, Ha.
  split; [| | exact Hd].
  - intros st i [v Hv]. unfold stream_of in Hv. destruct (entries s !! st) as [m |] eqn:Hm; [| by cbn in Hv; apply lookup_empty_Some in Hv].
    cbn in Hv. specialize (He (st, m) (proj1 (list_elem_of_In _ _) (proj2 (elem_of_map_to_list _ _ _) Hm))).
    rewrite forallb_forall in He.
    apply Hid, (He (i, v) (proj1 (list_elem_of_In _ _) (proj2 (elem_of_map_to_list _ _ _) Hv))).
  - intros x Hx%elem_of_elements%list_elem_of_In. by apply Hid, Ha.
Qed.

