(* ===== verification/CompletionExamples.v ===== *)
(** An execution of two tasks that two workers have dropped, brought to its end. *)

From S2P Require Import Prelude GoString GoFloat GoJson GoError Proc Domain Db Pg Store Idempotency History Wf.
From S2P Require Import WfStore StoreSpec StoreSpec2 Progress Workflow Service Worker WorkerSpec Tokens World Queue.
From S2P Require Import Publisher Live LiveWorker LivePublisher System Recovery Completion Scenario RecoveryExamples.

Open Scope string_scope.

Import Demo Streams.

(** A handler that answers. *)
Definition working : Registry world := NewRegistry [mkHandler "sample.echo" (λ _, return_ "{}")].

Lemma working_in key h : working !! key = Some h → h = mkHandler "sample.echo" (λ _, return_ "{}").
Proof. intros Hh%NewRegistry_in. by apply list_elem_of_singleton in Hh. Qed.

Lemma working_quiet : handlers_quiet working.
Proof. by intros key h task ->%working_in. Qed.

Lemma working_answers : handlers_answer working.
Proof.
  intros key h task e w ->%working_in _ _ _. cbn. split; [vm_compute; reflexivity |]. split; [done |].
  exists (idempotency_records (contents w)). by destruct (contents w).
Qed.

Definition two_tasks : string := json_text
  "{'entry_task':'a','tasks':[{'name':'a','handler_key':'sample.echo','max_attempts':3,'next_task':'b'},{'name':'b','handler_key':'sample.echo'}]}".

Definition task_a : WorkflowTaskSpec := mkWorkflowTaskSpec "a" "sample.echo" 3 0 "b".
Definition task_b : WorkflowTaskSpec := mkWorkflowTaskSpec "b" "sample.echo" 0 0 "".
Definition two_spec : WorkflowDefinitionSpec := mkWorkflowDefinitionSpec "a" [task_a; task_b].

(** Worker A starts an attempt and crashes, worker B claims its message, starts
    another and crashes as well. *)
Definition two_crashes : list move :=
  [DoRequest (ReqCreateDefinition (mkCreateRequest "orders" "" two_tasks)); Run 0 9; Stop 0;
   DoRequest (ReqTrigger (mkTriggerRequest (uuid 0) "{}")); Run 0 9; Stop 0;
   DoPublish; Run 0 9; Stop 0; DoRead "A"; Run 0 4; Stop 0; DoClaim "B"; Run 0 4; Stop 0].

Definition dropped : world := played working true two_crashes.

Lemma dropped_reached : rtc (sys_step streams working true) Scenario.nobody (dropped, []).
Proof. apply played_run. vm_compute. reflexivity. Qed.

Definition many_ids : list string := uuid <$> seq 0 60.

(** What the example needs of the world, computed. *)
Definition check_dropped (w : world) : bool :=
  (numbered_b (wd_redis w) &&
   bool_decide (map_Forall (λ _ row, or_dispatched_at row = None → (0 ≤ or_attempt_count row < 2 ^ 31 - 1)%Z)
     (outbox_events (contents w))) &&
   bool_decide (map_Forall (λ _ r, tr_idempotency_key r ≠ makeTaskIdempotencyKey (uuid 3) "b") (task_instances (contents w))) &&
   Nat.leb (rows (contents w) + 8) 60)%bool.

Definition row_of (w : world) : option (string * string * string * string * Z) :=
  (λ r, (tr_workflow_execution_id r, tr_task_name r, tr_handler_key r, tr_status r, tr_attempts_total r)) <$>
    task_instances (contents w) !! uuid 4.

Definition spec_of (w : world) : option (error + WorkflowDefinitionSpec) :=
  xr ← workflow_executions (contents w) !! uuid 3;
  dr ← workflow_definitions (contents w) !! er_workflow_definition_id xr;
  Some (ParseAndValidateWorkflowDefinition (dr_definition_json dr)).

Example dropped_state :
  check_dropped dropped = true ∧ row_of dropped = Some (uuid 3, "a", "sample.echo", TaskStatusRunning, 2%Z) ∧
  spec_of dropped = Some (inr two_spec).
Proof. vm_compute. auto. Qed.

Lemma two_chain : chain_from two_spec "a" [task_a; task_b].
Proof.
  eapply (chain_next _ _ _ task_b); [vm_compute; reflexivity | vm_compute; reflexivity |].
  apply chain_last; vm_compute; reflexivity.
Qed.

Lemma two_fit : Forall (task_fits working) [task_a; task_b].
Proof.
  assert (Hfit : ∀ ts, ts ∈ [task_a; task_b] →
    good_text (ts_Name ts) ∧ ts_HandlerKey ts = "sample.echo" ∧ (max_attempts ts < 2 ^ 31)%Z).
  { intros ts [-> | ->%list_elem_of_singleton]%elem_of_cons; vm_compute; auto. }
  apply Forall_forall. intros ts (Hn & Hk & Hm)%list_elem_of_In%Hfit. unfold task_fits. rewrite Hk.
  split_and!; [done | vm_compute; auto | by eexists | done].
Qed.

Lemma dropped_resumable w r :
  check_dropped w = true → task_instances (contents w) !! uuid 4 = Some r →
  row_of w = Some (uuid 3, "a", "sample.echo", TaskStatusRunning, 2%Z) → spec_of w = Some (inr two_spec) →
  resumable streams working w (uuid 4) r two_spec [task_a; task_b].
Proof.
  intros [[[Hnum Hcount]%andb_true_iff Hkey]%andb_true_iff _]%andb_true_iff Hr Hrow Hspec.
  apply bool_decide_eq_true in Hcount, Hkey. unfold row_of in Hrow. rewrite Hr in Hrow. injection Hrow as Hx Hname Hh Hst Hat.
  split; rewrite ?Hx, ?Hname, ?Hh, ?Hst, ?Hat; try done.
  - by apply numbered_b_spec.
  - by intros [|].
  - unfold spec_of in Hspec. destruct (workflow_executions (contents w) !! uuid 3) as [xr |] eqn:Hxr; [| done].
    cbn in Hspec. destruct (workflow_definitions (contents w) !! _) as [dr |] eqn:Hdr; [| done].
    injection Hspec as Hspec. by exists xr, dr.
  - apply two_chain.
  - apply two_fit.
  - cbn. apply NoDup_singleton.
  - intros ts ->%list_elem_of_singleton. exact Hkey.
Qed.

