(* ===== verification/TelemetryExamples.v ===== *)
(** The telemetry at concrete states: a dispatched event, a replay, and a task that
    is dead-lettered. *)

From S2P Require Import Prelude GoString GoFloat GoJson GoError Proc Domain Db Pg Store Idempotency History Wf.
From S2P Require Import WfStore StoreSpec StoreSpec2 Progress Workflow Service HttpApi Worker HttpSpec WorkerSpec.
From S2P Require Import Examples HttpExamples Tokens World Queue Publisher Live LiveWorker LivePublisher System.
From S2P Require Import Recovery Telemetry Erasure TelemetrySpec CountsSpec DispatchSpec Scenario.

Open Scope string_scope.

Import Demo Streams.

(** An execution was triggered; its event waits. *)
Definition triggered : world := played failing true (take 6 started).

Example triggered_waits : waiting_count (contents triggered) = 1%nat.
Proof. vm_compute. reflexivity. Qed.

Lemma triggered_wf : db_wf (contents triggered).
Proof.
  eapply (reached_wf streams failing nothing_yet failing_quiet eq_refl). apply played_run. vm_compute. reflexivity.
Qed.

Definition publish_once : (error + unit) * metered world := run (counted_publishOnce streams) calm (triggered, []).



(** * A replay *)

Definition serve_counted (r : request) (w : dbw) : (error + (response * http_writer)) * metered dbw :=
  run (api_handler id "durableflow-api" (return_ tt) (λ _, return_ (write_header 200)) r) calm (w, []).

Definition sent_of (res : (error + (response * http_writer)) * metered dbw) : Z :=
  match res.1 with inr (_, out) => sent_status out | inl _ => 0 end.


(** * A dead-lettered task *)

Definition failing_echo : Registry dbw := NewRegistry [mkHandler "sample.echo" (λ _, fail (ErrNew "downstream is down"))].

Lemma failing_echo_ok : handlers_ok failing_echo.
Proof. intros key h task Hh%NewRegistry_in. apply list_elem_of_singleton in Hh as ->. done. Qed.

Definition run_counted (w : dbw) : (error + unit) * metered dbw :=
  run (counted_HandleDispatchedTask failing_echo message_a) calm (w, []).

(** The handler fails on its only attempt, and the task is dead-lettered. *)
Lemma outcomes_counted_witness :
  let w := after (take 2 cyclic_history) in
  counter DeadLetteredTasks ["worker"; "sample.echo"; "exhausted_attempts"] (run_counted w).2.2 = 1%Z ∧
  ∃ u r, task_instances (w_db (run_counted w).2.1) !! u = Some r ∧ tr_status r = TaskStatusDeadLettered.
Proof.
  cbv zeta. assert (Hc : counter DeadLetteredTasks ["worker"; "sample.echo"; "exhausted_attempts"]
    (run_counted (after (take 2 cyclic_history))).2.2 = 1%Z) by (vm_compute; reflexivity).
  split; [exact Hc |]. pose proof (after_wf (take 2 cyclic_history)) as Hwf. revert Hc Hwf.
  generalize (after (take 2 cyclic_history)). intros w Hc Hwf. unfold run_counted in *.
  destruct (run (counted_HandleDispatchedTask failing_echo message_a) calm (w, [])) as [res [w' calls]] eqn:E.
  destruct (outcomes_counted failing_echo message_a calm w [] res w' calls calm_ok failing_echo_ok Hwf E)
    as (outcome & x & new & Hnew & _ & _ & Hdead & _). cbn [fst snd app] in *. subst new.
  destruct (Hdead "exhausted_attempts") as (u & r & _ & Hr & Hs);
    [change (tm_HandlerKey message_a) with "sample.echo"; rewrite Hc; discriminate |].
  exists u, r. split; [exact Hr | exact Hs].
Defined.
