(* ===== verification/HandlersExamples.v ===== *)
(** The handlers at concrete inputs: tasks of the history of WfStore.v, and a
    run of the whole engine with the handlers of the worker program. *)

From S2P Require Import Prelude GoString GoJson GoError Proc Domain Db Pg Store Idempotency Wf WfStore.
From S2P Require Import IdemSpec Progress Workflow Service Worker Handlers Tokens World Queue Publisher Live LiveWorker.
From S2P Require Import System Examples HandlersSpec Scenario.

Open Scope string_scope.

Import Demo Streams.

(** * One run *)

(** A task of the handlers, whose row is [id]. *)
Definition demo_task (id : string) : TaskInstance :=
  mkTaskInstance id (uuid 2) "ship" SampleEcho_Key TaskStatusRunning (json_text "{'n':1.50,'a':[null]}") "" None ""
    1 "k1" None None 0 0.

Definition echo_once (id : string) (w : dbw) : (error + string) * dbw :=
  run (SampleEcho_Handle (Some store_idempotency) (demo_task id)) calm w.

Example echo_once_response :
  (echo_once (uuid 3) (demo_at 6)).1 =
  inr (of_bytes (encode (JObj [("echo", JObj [("a", JArr [JNull]); ("n", JNum "1.5")]); ("handler", JStr "sample.echo");
         ("processed_at", JStr "1970-01-01T00:00:30Z");
         ("task_id", JStr (uuid 3))]))).
Proof. vm_compute. reflexivity. Qed.

Lemma demo_key : text_in "k1" = inr "k1".
Proof. vm_compute. reflexivity. Qed.


(** A handler keeps the database well-formed. *)
Lemma handlers_wf id w : db_wf (w_db w) → db_wf (w_db (echo_once id w).2).
Proof.
  intros Hwf. unfold echo_once. destruct (run _ calm w) as [res w'] eqn:Hr.
  refine (all_steps_run env_ok (λ w, db_wf (w_db w)) _ _ _ _ _ _ calm_ok Hr Hwf).
  apply (all_steps_mono _ (λ w w', sound (w_db w) (w_db w'))); [intros ?? Hs Hw; by apply Hs |].
  apply run_once_steps; intros; cbn [is_Begin is_Complete is_Release store_idempotency].
  - apply BeginIdempotentTask_sound.
  - apply CompleteIdempotentTask_sound.
  - apply ReleaseIdempotentTask_sound.
  - apply all_steps_single. intros e w1 r w2 _ [= <- <-]. reflexivity.
Qed.

(** The second task with the key gets the response of the first. *)
Lemma handler_replays_witness :
  let w1 := (echo_once (uuid 3) (demo_at 6)).2 in
  is_ok (echo_once (uuid 15) w1).1 = true ∧ w_db (echo_once (uuid 15) w1).2 = w_db w1.
Proof.
  assert (H3 : is_Some (task_instances (w_db (demo_at 6)) !! uuid 3))
    by (apply (bool_decide_unpack _); vm_compute; exact I).
  assert (H15 : is_Some (task_instances (w_db (echo_once (uuid 3) (demo_at 6)).2) !! uuid 15))
    by (apply (bool_decide_unpack _); vm_compute; exact I).
  assert (Hu3 : uuid_in (uuid 3) = inr (uuid 3)) by (vm_compute; reflexivity).
  assert (Hu15 : uuid_in (uuid 15) = inr (uuid 15)) by (vm_compute; reflexivity).
  assert (Hb : begin_result (idempotency_records (w_db (demo_at 6)) !! (SampleEcho_Key, "k1")) (uuid 3)
    = inr ("", false)) by (vm_compute; reflexivity).
  assert (Hok : is_ok (echo_once (uuid 3) (demo_at 6)).1 = true) by (vm_compute; reflexivity).
  assert (Hwf : db_wf (w_db (demo_at 6))) by apply after_wf.
  pose proof (handlers_wf (uuid 3) _ Hwf) as Hwf1.
  cbv zeta. revert H3 H15 Hb Hok Hwf Hwf1. generalize (demo_at 6). intros w H3 H15 Hb Hok Hwf Hwf1.
  unfold echo_once in *.
  destruct (run (SampleEcho_Handle _ (demo_task (uuid 3))) calm w) as [[err | res] w1] eqn:Hr; [discriminate Hok |].
  cbn [snd] in *.
  destruct (handler_replays (demo_task (uuid 3)) (demo_task (uuid 15)) calm w res w1 calm w1
    calm_reliable calm_reliable demo_key Hu3 Hwf H3 Hb Hr eq_refl eq_refl Hu15 H15 Hwf1) as (js & _ & Hsecond).
  destruct (run (SampleEcho_Handle _ (demo_task (uuid 15))) calm w1) as [res2 w3].
  destruct Hsecond as [-> Hd]. by split.
Defined.

(** * The engine *)

Definition programs : Registry world := worker_registry world_idempotency.

(** Worker A reserves the key of the task and crashes; worker B claims the
    message and starts the second attempt. *)
Definition handler_crashes : list move :=
  (started ++ [Run 0 6; Stop 0; DoClaim "B"; Run 0 4; Stop 0])%list.


(** The reservation outlives the worker that made it. *)
Example crashed_reservation :
  (λ r, (ir_status r, ir_owner_task_instance_id r)) <$>
    (idempotency_records (contents (played programs true handler_crashes)) !! ("sample.echo", uuid 3 +:+ ":a"))
  = Some (IdempotencyStatusInProgress, Some (uuid 4)).
Proof. vm_compute. reflexivity. Qed.
